(** * Alby OAuth bridge service of the hub: embedding and verified properties

    The service of [alby/alby_oauth_service.go] is embedded as programs of a
    small effect monad [Prog]: pure Go code becomes Rocq functions, every call
    of a collaborator (config store, mutex, logger, OAuth library, HTTP
    client, Lightning node, database) becomes an effect.  Programs are run
    sequentially by [run], and as a pool of goroutines by [pool_step]. *)

From stdpp Require Import gmap strings list.
From Stdlib Require Import ZArith Lia Ascii Floats.

Set Warnings "-inexact-float,-register-all".
Local Open Scope string_scope.
Local Open Scope Z_scope.

(** ** Errors and results *)

Inductive NumErrKind := ErrSyntax | ErrRange.

(** Go [error] values, by the way they are built. *)
Inductive error :=
| ErrNew (msg : string)                              (* errors.New / fmt.Errorf without a cause *)
| ErrWrap (msg : string) (cause : error)             (* fmt.Errorf with a formatted cause *)
| ErrNum (fn input : string) (kind : NumErrKind)     (* *strconv.NumError *)
| ErrCollab (who msg : string).                      (* an error handed back by a collaborator *)

Inductive result (A : Type) :=
| Ok (a : A)
| Err (e : error).
Arguments Ok {A} a.
Arguments Err {A} e.

Definition is_Ok {A} (r : result A) : bool :=
  match r with Ok _ => true | Err _ => false end.

(** ** Machine integers: wrap-around conversions *)

Definition wrap_uint64 (z : Z) : Z := z mod 2 ^ 64.
Definition wrap_uint16 (z : Z) : Z := z mod 2 ^ 16.
Definition wrap_int64 (z : Z) : Z := (z + 2 ^ 63) mod 2 ^ 64 - 2 ^ 63.
Definition in_int64 (z : Z) : Prop := - 2 ^ 63 <= z < 2 ^ 63.

(** ** Package strconv (base 10, 64 bits) *)

Module strconv.

Definition isDigit (c : ascii) : bool :=
  let n := Z.of_nat (nat_of_ascii c) in (48 <=? n) && (n <=? 57).

Definition digitVal (c : ascii) : Z := Z.of_nat (nat_of_ascii c) - 48.

Definition maxUint64 : Z := 2 ^ 64 - 1.
Definition cutoff : Z := maxUint64 / 10 + 1.

(** The loop of [ParseUint]: [n] is the value read so far. *)
Fixpoint parseUintLoop (s : string) (n : Z) : NumErrKind + Z :=
  match s with
  | EmptyString => inr n
  | String c s' =>
      if isDigit c then
        if cutoff <=? n then inl ErrRange
        else
          let n10 := wrap_uint64 (n * 10) in
          let n1 := wrap_uint64 (n10 + digitVal c) in
          if (n1 <? n10) || (maxUint64 <? n1) then inl ErrRange
          else parseUintLoop s' n1
      else inl ErrSyntax
  end.

(** [strconv.ParseUint(s, 10, 64)], the error by its kind. *)
Definition parseUintKind (s : string) : NumErrKind + Z :=
  match s with
  | EmptyString => inl ErrSyntax
  | _ => parseUintLoop s 0
  end.

Definition ParseUint (s : string) : result Z :=
  match parseUintKind s with
  | inr n => Ok n
  | inl k => Err (ErrNum "ParseUint" s k)
  end.

(** [strconv.ParseInt(s, 10, 64)]. *)
Definition parseIntKind (s0 : string) : NumErrKind + Z :=
  match s0 with
  | EmptyString => inl ErrSyntax
  | String c rest =>
      let neg := Ascii.eqb c "-"%char in
      let s := if Ascii.eqb c "+"%char || neg then rest else s0 in
      match parseUintKind s with
      | inl ErrSyntax => inl ErrSyntax
      | r =>
          let un := match r with inr n => n | inl _ => maxUint64 end in
          let cut := 2 ^ 63 in
          if negb neg && (cut <=? un) then inl ErrRange
          else if neg && (cut <? un) then inl ErrRange
          else
            let n := wrap_int64 un in
            inr (if neg then wrap_int64 (- n) else n)
      end
  end.

Definition ParseInt (s : string) : result Z :=
  match parseIntKind s with
  | inr n => Ok n
  | inl k => Err (ErrNum "ParseInt" s k)
  end.

(** [strconv.Atoi] on a platform whose [int] has 64 bits: the fast path and
    the [ParseInt(s, 10, 0)] path read the same language. *)
Definition Atoi (s : string) : result Z :=
  match parseIntKind s with
  | inr n => Ok n
  | inl k => Err (ErrNum "Atoi" s k)
  end.

Definition digitChar (d : Z) : ascii := ascii_of_nat (Z.to_nat (48 + d)).

(** Decimal digits of a positive number, most significant first, in front
    of [acc]; [fuel] bounds the number of digits. *)
Fixpoint formatBits (fuel : nat) (u : Z) (acc : string) : string :=
  match fuel with
  | O => acc
  | S fuel' =>
      let acc' := String (digitChar (u mod 10)) acc in
      if u <? 10 then acc' else formatBits fuel' (u / 10) acc'
  end.

(** [strconv.FormatInt(i, 10)]. *)
Definition FormatInt (i : Z) : string :=
  let u := Z.abs i in
  let digits := formatBits (S (Z.to_nat (Z.log2 u))) u "" in
  if i <? 0 then String "-"%char digits else digits.

End strconv.

(** ** Package strings *)

Module strings.

Definition HasPrefix (s p : string) : bool := String.prefix p s.

Fixpoint Contains (s sub : string) : bool :=
  String.prefix sub s ||
  match s with
  | EmptyString => false
  | String _ s' => Contains s' sub
  end.

End strings.

(** ** Package time

    An instant is a number of nanoseconds since the Unix epoch.  A Go
    [Time] keeps the seconds since the year 1 in an [int64], so the instants
    of Go are those whose second, moved by [unixToInternal], is an [int64];
    the conversions from and to Unix seconds add and subtract that offset in
    [int64] and wrap around. *)

Module time.

Definition Second : Z := 1000000000.

(** Seconds from the year 1 to the Unix epoch. *)
Definition unixToInternal : Z := 62135596800.

(** The last Unix second that [time.Unix] takes without wrapping. *)
Definition maxUnix : Z := 2 ^ 63 - 1 - unixToInternal.

(** [t.Unix()]: [t.sec() + internalToUnix] in [int64]. *)
Definition Unix (t : Z) : Z := wrap_int64 (t / Second).

(** [time.Unix(sec, 0)]: the internal second is [sec + unixToInternal] in
    [int64]. *)
Definition FromUnix (sec : Z) : Z :=
  (wrap_int64 (sec + unixToInternal) - unixToInternal) * Second.

(** [t.Add(d)], exact as long as the sum is an instant of Go (the clock of
    the service and 20 seconds are far inside). *)
Definition Add (t d : Z) : Z := t + d.

(** [t.After(u)] for a [t] without a monotonic reading: the internal
    seconds are compared, then the nanoseconds. *)
Definition After (t u : Z) : bool := u <? t.

End time.

(** ** Float64 arithmetic of the drain computation

    Go's [float64] is IEEE 754 binary64, as are Rocq's primitive floats; each
    operation rounds to nearest-even and no two operations are fused. *)

Module float64.

(** [float64(i)] for an [int64] [i]. *)
Definition of_int64 (i : Z) : float :=
  if i =? - 2 ^ 63 then (-0x1p63)%float
  else if i <? 0 then PrimFloat.opp (PrimFloat.of_uint63 (Uint63.of_Z (- i)))
  else PrimFloat.of_uint63 (Uint63.of_Z i).

(** [int64(math.Floor(x))]: the largest integer below a finite [x]; for an
    infinity or NaN Go leaves the conversion to the platform, and amd64
    gives the least [int64]. *)
Definition floor_int64 (x : float) : Z :=
  match Prim2SF x with
  | S754_zero _ => 0
  | S754_finite s m e =>
      let sm := if s then Z.neg m else Z.pos m in
      wrap_int64 (if 0 <=? e then Z.shiftl sm e else Z.shiftr sm (- e))
  | S754_infinity _ | S754_nan => - 2 ^ 63
  end.

(** The value a [uint64] has after a round trip through [float64]: rounded
    to 53 significant bits, ties to even. *)
Definition round53 (n : Z) : Z :=
  let k := Z.log2 n - 52 in
  if k <=? 0 then n
  else
    let q := n / 2 ^ k in
    let r := n mod 2 ^ k in
    let half := 2 ^ (k - 1) in
    let q' := if r <? half then q
              else if half <? r then q + 1
              else if Z.even q then q else q + 1 in
    q' * 2 ^ k.

(** The shortest decimal at the power of ten [k] and below: the multiple of
    [10 ^ k] under [v] or the one above it, when one of them is [inside] the
    interval of the reals that round to [v] (the nearer when both are, the
    even one at a tie); a smaller power of ten otherwise. *)
Fixpoint shortest_at (inside : Z -> bool) (v : Z) (k : nat) : Z :=
  let p := 10 ^ Z.of_nat k in
  let down := v / p * p in
  let up := down + p in
  let nearest :=
    if 2 * (v - down) <? p then down
    else if p <? 2 * (v - down) then up
    else if Z.even (v / p) then down else up in
  if inside down then (if inside up then nearest else down)
  else if inside up then up
  else
    match k with
    | O => v
    | S k' => shortest_at inside v k'
    end.

(** The number that [strconv.FormatFloat(v, 'f', -1, 64)] writes, as
    [encoding/json] does, for a [float64] [v] that is a natural number: the
    decimal of fewest digits that reads back as [v], the nearest to [v]
    among these.  Below [2 ^ 53] that is [v] itself.  From there on the
    reals that round to [v] lie between the midpoints to its two neighbours
    (the lower one twice as near when [v] is a power of two), the midpoints
    included when the mantissa is even. *)
Definition shortest (v : Z) : Z :=
  if v <? 2 ^ 53 then v
  else
    let e := Z.log2 v - 52 in
    let m := v / 2 ^ e in
    let lo2 := 2 * v - (if m =? 2 ^ 52 then 2 ^ (e - 1) else 2 ^ e) in
    let hi2 := 2 * v + 2 ^ e in
    let inside x :=
      if Z.even m then (lo2 <=? 2 * x) && (2 * x <=? hi2)
      else (lo2 <? 2 * x) && (2 * x <? hi2) in
    shortest_at inside v (Z.to_nat (Z.log2 v)).

(** The number on the wire for a natural number that went through a
    [float64]. *)
Definition json_number (n : Z) : Z := shortest (round53 n).

End float64.

(** ** JSON values *)

(** Numbers are integers: the service itself sends no other. *)
Inductive JSON :=
| JNull
| JBool (b : bool)
| JNum (z : Z)
| JStr (s : string)
| JArr (l : list JSON)
| JObj (fields : list (string * JSON)).

(** What [json.Unmarshal] into an [interface{}] yields for a JSON text, as
    [json.Marshal] writes it again: every number becomes a [float64], and
    goes out as the shortest decimal of that [float64]. *)
Fixpoint generic (j : JSON) : JSON :=
  match j with
  | JNum z => JNum (if z <? 0 then - float64.json_number (- z) else float64.json_number z)
  | JArr l => JArr (map generic l)
  | JObj fields => JObj (map (fun kv : string * JSON => let (k, v) := kv in (k, generic v)) fields)
  | _ => j
  end.

(** ** Data model *)

(** [oauth2.Token]; [Expiry] is an instant. *)
Record Token := {
  AccessToken : string;
  TokenType : string;
  RefreshToken : string;
  Expiry : Z
}.

(** Modelled from the spec: the structs of [alby/models.go], [db], [events]
    and [lnclient] that the service reads, with the fields it uses. *)
Record AlbyMe := { Identifier : string; LightningAddress : string }.

Record AlbyBalance := { Balance : Z }.

Record AutoChannelResponse := { Invoice : string; Fee : Z; ChannelSize : Z }.

Record NodeInfo := { Pubkey : string; Network : string }.

(** [db.Transaction]; [SettledAt] is a pointer and [txJSON] is what
    [json.Marshal] makes of the whole record. *)
Record Transaction := {
  PaymentHash : string;
  PaymentRequest : string;
  FailureReason : string;
  CreatedAt : Z;
  SettledAt : option Z;
  txJSON : result JSON
}.

(** [events.ChannelBackupEvent]: the channel list by its JSON text, and what
    [json.Marshal] makes of the whole event. *)
Record ChannelBackupEvent := { Channels : result string; backupJSON : result JSON }.

(** The dynamic type and value held by [Event.Properties]. *)
Inductive Properties :=
| PropsNil                                          (* nil interface *)
| PropsTransaction (t : option Transaction)         (* *db.Transaction, nil or not *)
| PropsChannelBackup (b : option ChannelBackupEvent) (* *events.ChannelBackupEvent *)
| PropsOther (encoded : result JSON).               (* any other value, by its JSON encoding *)

Record Event := { EventName : string; EventProperties : Properties }.

(** Bodies of outgoing requests. *)
Inductive Body :=
| NoBody
| JsonBody (j : JSON)
| EventBody (event : string) (properties : gmap string JSON).

Record Request := {
  Method : string;
  URL : string;
  Header : list (string * string);
  ReqBody : Body
}.

(** [Body] is what reading the response stream gives. *)
Record Response := { StatusCode : Z; RespBody : result string }.

Record autoChannelPaymentBolt11 := { bolt11_Invoice : string; FeeTotalSat : string }.

Record autoChannelResponse := {
  LspBalanceSat : string;
  Payment : option autoChannelPaymentBolt11
}.

Record ErrorResponse := { ErrorFlag : bool; Code : Z; Message : string }.

Record PayResponse := { Preimage : string; PayResponseHash : string }.

(** ** Effects *)

Inductive LogLevel := LDebug | LInfo | LError.

(** Calls that leave the service; the outside world answers them. *)
Inductive ExtE : Type -> Type :=
| TimeNow : ExtE Z
| OAuthExchange (code : string) : ExtE (result Token)
| OAuthTokenSourceToken (current : Token) : ExtE (result Token)
| HttpDo (token : option Token) (timeout : option Z) (req : Request) : ExtE (result Response)
| LnGetInfo : ExtE (result NodeInfo)
| LnConnectPeer (pubkey address : string) (port : Z) : ExtE (option error)
| LnGetSupportedNIP47Methods : ExtE (list string)
| LnGetSupportedNIP47NotificationTypes : ExtE (list string)
| DbDeleteApps (name : string) : ExtE (option error)
| DbCreateApp (name pubkey : string) (budget : Z) (renewal : string)
    (scopes : list string) (isolated : bool) : ExtE (option error)
| MakeInvoice (amount : Z) (description : string) (expiry : Z) : ExtE (result Transaction)
| KeysGetNostrPublicKey : ExtE string.

Inductive E : Type -> Type :=
| CfgGet (key : string) : E (result string)
| CfgSetUpdate (key value : string) : E unit
| MutexLock : E unit
| MutexUnlock : E unit
| Log (lvl : LogLevel) (msg : string) (err : option error) : E unit
| Ext {X : Type} (e : ExtE X) : E X.

Inductive AnyE :=
| anyE (X : Type) (e : E X).
Arguments anyE {X} e.

(** ** Programs *)

Inductive Prog (A : Type) : Type :=
| Ret (a : A)
| Vis {X : Type} (e : E X) (k : X -> Prog A)
| Panic (v : string).
Arguments Ret {A} a.
Arguments Vis {A X} e k.
Arguments Panic {A} v.

Fixpoint bind {A B} (p : Prog A) (f : A -> Prog B) : Prog B :=
  match p with
  | Ret a => f a
  | Vis e k => Vis e (fun x => bind (k x) f)
  | Panic v => Panic v
  end.

#[export] Instance Prog_ret : MRet Prog := @Ret.
#[export] Instance Prog_bind : MBind Prog := fun A B f p => bind p f.

Definition vis {X} (e : E X) : Prog X := Vis e Ret.
Definition ext {X} (e : ExtE X) : Prog X := vis (Ext e).

(** A deferred [recover()]: a panic of [p] ends in [handler] and the function
    returns normally. *)
Fixpoint recover {A} (p : Prog A) (handler : string -> Prog A) : Prog A :=
  match p with
  | Ret a => Ret a
  | Vis e k => Vis e (fun x => recover (k x) handler)
  | Panic v => handler v
  end.

(** ** The world a program runs in *)

(** Modelled from the spec: the config store, a key/value collaborator with
    [Get(key, default) -> string, error] and [SetUpdate(key, value,
    encryptionKey)]; [faults] are the keys whose read fails. *)
Record Config := {
  kv : gmap string string;
  faults : gmap string error
}.

Definition Config_Get (c : Config) (key default : string) : result string :=
  match faults c !! key with
  | Some e => Err e
  | None => Ok (match kv c !! key with Some v => v | None => default end)
  end.

Definition Config_SetUpdate (c : Config) (key value : string) : Config :=
  {| kv := <[key := value]> (kv c); faults := faults c |}.

(** [trace] holds every effect performed, the latest first. *)
Record World := {
  cfg : Config;
  tokenMutex : bool;
  trace : list AnyE
}.

(** The environment: static settings, the pure library functions the service
    calls, and the answers of the outside world, which may depend on all
    that happened before. *)
Record Env := {
  AlbyAPIURL : string;
  LogEvents : bool;
  AutoLinkAlbyAccount : bool;
  versionTag : string;
  http_NewRequest : string -> string -> option error;
  json_AlbyMe : string -> result AlbyMe;
  json_AlbyBalance : string -> result AlbyBalance;
  json_ErrorResponse : string -> result ErrorResponse;
  json_PayResponse : string -> result PayResponse;
  json_CreateNWCNodeResponse : string -> result string;
  json_autoChannelResponse : string -> result autoChannelResponse;
  json_lsps1LSPInfo : string -> result (list string);
  decodepay_Decodepay : string -> result Z;
  config_AesGcmEncrypt : string -> string -> result string;
  permissions_RequestMethodsToScopes : list string -> result (list string);
  answer : list AnyE -> forall X, ExtE X -> X
}.

Definition record (w : World) {X} (e : E X) : World :=
  {| cfg := cfg w; tokenMutex := tokenMutex w; trace := anyE e :: trace w |}.

(** One effect, performed atomically.  [None]: the effect cannot be performed
    now, that is [Lock] on a held mutex (the caller waits), or [Unlock] on a
    free one (a fatal runtime error). *)
Definition handle (env : Env) (w : World) {X} (e : E X) : option (X * World) :=
  match e in E X return option (X * World) with
  | CfgGet key => Some (Config_Get (cfg w) key "", record w (CfgGet key))
  | CfgSetUpdate key value =>
      Some (tt, {| cfg := Config_SetUpdate (cfg w) key value;
                   tokenMutex := tokenMutex w;
                   trace := anyE (CfgSetUpdate key value) :: trace w |})
  | MutexLock =>
      if tokenMutex w then None
      else Some (tt, {| cfg := cfg w; tokenMutex := true;
                        trace := anyE MutexLock :: trace w |})
  | MutexUnlock =>
      if tokenMutex w
      then Some (tt, {| cfg := cfg w; tokenMutex := false;
                        trace := anyE MutexUnlock :: trace w |})
      else None
  | Log lvl msg err => Some (tt, record w (Log lvl msg err))
  | Ext e' => Some (answer env (trace w) _ e', record w (Ext e'))
  end.

Inductive Outcome (A : Type) :=
| Returns (a : A) (w : World)
| Panics (v : string) (w : World)
| Stuck (w : World).
Arguments Returns {A} a w.
Arguments Panics {A} v w.
Arguments Stuck {A} w.

(** Sequential execution of one program to its end. *)
Fixpoint run {A} (env : Env) (p : Prog A) (w : World) : Outcome A :=
  match p with
  | Ret a => Returns a w
  | Panic v => Panics v w
  | Vis e k =>
      match handle env w e with
      | Some (x, w') => run env (k x) w'
      | None => Stuck w
      end
  end.

(** Goroutines: a pool of programs over one shared world.  Thread [i] takes
    one step by performing the effect it is at; a thread at [Ret] has
    returned. *)
Inductive pool_step {A} (env : Env) : World * list (Prog A) -> World * list (Prog A) -> Prop :=
| pool_step_at (w w' : World) (ts : list (Prog A)) (i : nat)
    X (e : E X) (k : X -> Prog A) (x : X) :
    ts !! i = Some (Vis e k) ->
    handle env w e = Some (x, w') ->
    pool_step env (w, ts) (w', <[i := k x]> ts).

Definition returned {A} (p : Prog A) : option A :=
  match p with Ret a => Some a | _ => None end.

Definition is_refresh (ev : AnyE) : bool :=
  match ev with
  | anyE (Ext (OAuthTokenSourceToken _)) => true
  | _ => false
  end.

(** Number of refresh exchanges in a trace. *)
Definition refresh_calls (tr : list AnyE) : nat := length (List.filter is_refresh tr).

(** ** The pattern of an LSP connection URI

    [regexp.MustCompile(`^([0-9a-f]+)@([0-9]+\.[0-9]+\.[0-9]+\.[0-9]+):([0-9]+)$`)]:
    each class is followed by a character outside it, so a match takes the
    longest run of the class each time. *)

Module lspuri.

Definition isHex (c : ascii) : bool :=
  let n := Z.of_nat (nat_of_ascii c) in
  strconv.isDigit c || ((97 <=? n) && (n <=? 102)).

(** The longest prefix of [s] in the class [p], and the rest. *)
Fixpoint span (p : ascii -> bool) (s : string) : string * string :=
  match s with
  | EmptyString => (EmptyString, EmptyString)
  | String c s' =>
      if p c then let (a, b) := span p s' in (String c a, b)
      else (EmptyString, s)
  end.

(** One or more characters of the class [p], then the character [sep]. *)
Definition token (p : ascii -> bool) (sep : ascii) (s : string) : option (string * string) :=
  match span p s with
  | (EmptyString, _) => None
  | (tok, String c rest) => if Ascii.eqb c sep then Some (tok, rest) else None
  | (_, EmptyString) => None
  end.

(** [regex.FindStringSubmatch(uri)]: the whole match and the three groups. *)
Definition FindStringSubmatch (uri : string) : option (list string) :=
  match token isHex "@" uri with
  | None => None
  | Some (pubkey, r1) =>
  match token strconv.isDigit "." r1 with
  | None => None
  | Some (a, r2) =>
  match token strconv.isDigit "." r2 with
  | None => None
  | Some (b, r3) =>
  match token strconv.isDigit "." r3 with
  | None => None
  | Some (c, r4) =>
  match token strconv.isDigit ":" r4 with
  | None => None
  | Some (d, r5) =>
  match span strconv.isDigit r5 with
  | (EmptyString, _) => None
  | (port, EmptyString) =>
      Some [uri; pubkey; a +:+ "." +:+ b +:+ "." +:+ c +:+ "." +:+ d; port]
  | (_, String _ _) => None
  end end end end end end.

End lspuri.

(** ** The service *)

Definition accessTokenKey : string := "AlbyOAuthAccessToken".
Definition accessTokenExpiryKey : string := "AlbyOAuthAccessTokenExpiry".
Definition refreshTokenKey : string := "AlbyOAuthRefreshToken".
Definition userIdentifierKey : string := "AlbyUserIdentifier".
Definition lightningAddressKey : string := "AlbyLightningAddress".

Definition ALBY_ACCOUNT_APP_NAME : string := "getalby.com".

(** Modelled from the spec: two constants of package [constants], the
    monthly budget renewal and the notifications scope. *)
Definition BUDGET_RENEWAL_MONTHLY : string := "monthly".
Definition NOTIFICATIONS_SCOPE : string := "notifications".

Definition nilDereference : string := "invalid memory address or nil pointer dereference".
Definition badConversion : string := "interface conversion: interface {} is not *db.Transaction".

Definition logDebug (msg : string) : Prog unit := vis (Log LDebug msg None).
Definition logInfo (msg : string) : Prog unit := vis (Log LInfo msg None).
Definition logError (msg : string) (err : option error) : Prog unit := vis (Log LError msg err).

(** [p.field] through a pointer [p]. *)
Definition deref {A} (p : option A) : Prog A :=
  match p with
  | Some a => Ret a
  | None => Panic nilDereference
  end.

(** The type assertion of [Properties] to a [db.Transaction] pointer, in the
    form that panics. *)
Definition assertTransaction (props : Properties) : Prog (option Transaction) :=
  match props with
  | PropsTransaction t => Ret t
  | _ => Panic badConversion
  end.

(** [json.NewDecoder(res.Body).Decode(&v)]. *)
Definition decodeBody {A} (dec : string -> result A) (res : Response) : result A :=
  match RespBody res with
  | Ok s => dec s
  | Err e => Err e
  end.

Definition saveToken (token : Token) : Prog unit :=
  vis (CfgSetUpdate accessTokenExpiryKey (strconv.FormatInt (time.Unix (Expiry token))));;
  vis (CfgSetUpdate accessTokenKey (AccessToken token));;
  vis (CfgSetUpdate refreshTokenKey (RefreshToken token)).

(** The body of [fetchUserToken], between [Lock] and the deferred [Unlock]. *)
Definition fetchUserToken_locked : Prog (result (option Token)) :=
  r ← vis (CfgGet accessTokenKey);
  match r with
  | Err e => Ret (Err e)
  | Ok accessToken =>
  if decide (accessToken = "") then Ret (Ok None) else
  r ← vis (CfgGet accessTokenExpiryKey);
  match r with
  | Err e => Ret (Err e)
  | Ok expiry =>
  if decide (expiry = "") then Ret (Ok None) else
  match strconv.ParseInt expiry with
  | Err e => Ret (Err e)
  | Ok expiry64 =>
  r ← vis (CfgGet refreshTokenKey);
  match r with
  | Err e => Ret (Err e)
  | Ok refreshToken =>
  if decide (refreshToken = "") then Ret (Ok None) else
  let currentToken :=
    {| AccessToken := accessToken; TokenType := "";
       RefreshToken := refreshToken; Expiry := time.FromUnix expiry64 |} in
  now ← ext TimeNow;
  if time.After (Expiry currentToken) (time.Add now (20 * time.Second)) then
    logDebug "Using existing Alby OAuth token";;
    Ret (Ok (Some currentToken))
  else
    r ← ext (OAuthTokenSourceToken currentToken);
    match r with
    | Err e =>
        logError "Failed to refresh existing token" (Some e);;
        Ret (Err e)
    | Ok newToken =>
        saveToken newToken;;
        Ret (Ok (Some newToken))
    end
  end end end end.

Definition fetchUserToken : Prog (result (option Token)) :=
  vis MutexLock;;
  r ← fetchUserToken_locked;
  vis MutexUnlock;;
  Ret r.

Definition IsConnected : Prog bool :=
  r ← fetchUserToken;
  match r with
  | Err e => logError "Failed to check fetch token" (Some e);; Ret false
  | Ok token => Ret (bool_decide (token ≠ None))
  end.

Definition GetUserIdentifier : Prog (result string) :=
  r ← vis (CfgGet userIdentifierKey);
  match r with
  | Err e =>
      logError "Failed to fetch user identifier from user configs" (Some e);;
      Ret (Err e)
  | Ok userIdentifier => Ret (Ok userIdentifier)
  end.

Section Service.

Variable env : Env.

(** [http.NewRequest(method, url, body)]. *)
Definition NewRequest (method url : string) (body : Body) : result Request :=
  match http_NewRequest env method url with
  | Some e => Err e
  | None => Ok {| Method := method; URL := url; Header := []; ReqBody := body |}
  end.

Definition setDefaultRequestHeaders (req : Request) : Request :=
  {| Method := Method req; URL := URL req;
     Header := [("Content-Type", "application/json");
                ("User-Agent", "AlbyHub/" +:+ versionTag env)];
     ReqBody := ReqBody req |}.

Definition GetMe : Prog (result AlbyMe) :=
  r ← fetchUserToken;
  match r with
  | Err e => logError "Failed to fetch user token" (Some e);; Ret (Err e)
  | Ok token =>
  match NewRequest "GET" (AlbyAPIURL env +:+ "/internal/users") NoBody with
  | Err e => logError "Error creating request /me" (Some e);; Ret (Err e)
  | Ok req =>
  r ← ext (HttpDo token None (setDefaultRequestHeaders req));
  match r with
  | Err e => logError "Failed to fetch /me" (Some e);; Ret (Err e)
  | Ok res =>
  match decodeBody (json_AlbyMe env) res with
  | Err e => logError "Failed to decode API response" (Some e);; Ret (Err e)
  | Ok me =>
      vis (CfgSetUpdate lightningAddressKey (LightningAddress me));;
      logInfo "Alby me response";;
      Ret (Ok me)
  end end end end.

Definition GetBalance : Prog (result AlbyBalance) :=
  r ← fetchUserToken;
  match r with
  | Err e => logError "Failed to fetch user token" (Some e);; Ret (Err e)
  | Ok token =>
  match NewRequest "GET" (AlbyAPIURL env +:+ "/internal/lndhub/balance") NoBody with
  | Err e => logError "Error creating request to balance endpoint" (Some e);; Ret (Err e)
  | Ok req =>
  r ← ext (HttpDo token None (setDefaultRequestHeaders req));
  match r with
  | Err e => logError "Failed to fetch balance endpoint" (Some e);; Ret (Err e)
  | Ok res =>
  match decodeBody (json_AlbyBalance env) res with
  | Err e => logError "Failed to decode API response" (Some e);; Ret (Err e)
  | Ok balance => logDebug "Alby balance response";; Ret (Ok balance)
  end end end end.

Definition SendPayment (invoice : string) : Prog (option error) :=
  r ← fetchUserToken;
  match r with
  | Err e => logError "Failed to fetch user token" (Some e);; Ret (Some e)
  | Ok token =>
  let body := JsonBody (JObj [("invoice", JStr invoice)]) in
  match NewRequest "POST" (AlbyAPIURL env +:+ "/internal/lndhub/bolt11") body with
  | Err e => logError "Error creating request bolt11 endpoint" (Some e);; Ret (Some e)
  | Ok req =>
  r ← ext (HttpDo token None (setDefaultRequestHeaders req));
  match r with
  | Err e => logError "Failed to pay invoice" (Some e);; Ret (Some e)
  | Ok resp =>
  if 300 <=? StatusCode resp then
    match decodeBody (json_ErrorResponse env) resp with
    | Err e =>
        logError "Failed to decode payment error response payload" (Some e);;
        Ret (Some e)
    | Ok errorPayload =>
        logError "Payment failed" None;;
        Ret (Some (ErrNew (Message errorPayload)))
    end
  else
    match decodeBody (json_PayResponse env) resp with
    | Err e => logError "Failed to decode response payload" (Some e);; Ret (Some e)
    | Ok responsePayload => logInfo "Alby Payment successful";; Ret None
    end
  end end end.

(** The float64 computation of [DrainSharedWallet]:
    [int64(math.Floor(b - b*(8.0/1000.0) - b*0.01)) - 10]. *)
Definition drainAmountSat (balance : Z) : Z :=
  let balanceSat := float64.of_int64 balance in
  wrap_int64
    (float64.floor_int64
       (PrimFloat.sub
          (PrimFloat.sub balanceSat (PrimFloat.mul balanceSat 0.008%float))
          (PrimFloat.mul balanceSat 0.01%float))
     - 10).

Definition DrainSharedWallet : Prog (option error) :=
  r ← GetBalance;
  match r with
  | Err e => logError "Failed to fetch shared balance" (Some e);; Ret (Some e)
  | Ok balance =>
  let amountSat := drainAmountSat (Balance balance) in
  if amountSat <? 1 then Ret (Some (ErrNew "Not enough balance remaining")) else
  let amount := wrap_int64 (amountSat * 1000) in
  logError "Draining Alby shared wallet funds" None;;
  r ← ext (MakeInvoice amount "Send shared wallet funds to Alby Hub" 120);
  match r with
  | Err e => logError "Failed to make invoice" (Some e);; Ret (Some e)
  | Ok transaction =>
  err ← SendPayment (PaymentRequest transaction);
  match err with
  | Some e => logError "Failed to pay invoice from shared node" (Some e);; Ret (Some e)
  | None => Ret None
  end end end.

Definition deleteAlbyAccountApps : Prog unit :=
  err ← ext (DbDeleteApps ALBY_ACCOUNT_APP_NAME);
  match err with
  | Some e => logError "Failed to delete Alby Account apps" (Some e)
  | None => Ret tt
  end.

(** The three provisioning calls, each in two parts: the token fetch, and
    the request made with the token it gave. *)
Definition createAlbyAccountNWCNode_request (token : option Token) : Prog (result string) :=
  walletPubkey ← ext KeysGetNostrPublicKey;
  let body := JsonBody (JObj [("wallet_pubkey", JStr walletPubkey)]) in
  match NewRequest "POST" (AlbyAPIURL env +:+ "/internal/nwcs") body with
  | Err e => logError "Error creating request /internal/nwcs" (Some e);; Ret (Err e)
  | Ok req =>
  r ← ext (HttpDo token None (setDefaultRequestHeaders req));
  match r with
  | Err e => logError "Failed to send request to /internal/nwcs" (Some e);; Ret (Err e)
  | Ok resp =>
  if 300 <=? StatusCode resp then
    logError "Request to /internal/nwcs returned non-success status" None;;
    Ret (Err (ErrNew "request to /internal/nwcs returned non-success status"))
  else
    match decodeBody (json_CreateNWCNodeResponse env) resp with
    | Err e => logError "Failed to decode response payload" (Some e);; Ret (Err e)
    | Ok pubkey => logInfo "Created alby nwc node successfully";; Ret (Ok pubkey)
    end
  end end.

Definition createAlbyAccountNWCNode : Prog (result string) :=
  r ← fetchUserToken;
  let token := match r with Ok token => token | Err _ => None end in
  match r with
  | Err e => logError "Failed to fetch user token" (Some e)
  | Ok _ => Ret tt
  end;;
  createAlbyAccountNWCNode_request token.

Definition destroyAlbyAccountNWCNode_request (token : option Token) : Prog (option error) :=
  match NewRequest "DELETE" (AlbyAPIURL env +:+ "/internal/nwcs") NoBody with
  | Err e => logError "Error creating request /internal/nwcs" (Some e);; Ret (Some e)
  | Ok req =>
  r ← ext (HttpDo token None (setDefaultRequestHeaders req));
  match r with
  | Err e => logError "Failed to send request to /internal/nwcs" (Some e);; Ret (Some e)
  | Ok resp =>
  if 300 <=? StatusCode resp then
    logError "Request to /internal/nwcs returned non-success status" None;;
    Ret (Some (ErrNew "request to /internal/nwcs returned non-success status"))
  else
    logInfo "Removed alby account nwc node successfully";;
    Ret None
  end end.

Definition destroyAlbyAccountNWCNode : Prog (option error) :=
  r ← fetchUserToken;
  let token := match r with Ok token => token | Err _ => None end in
  match r with
  | Err e => logError "Failed to fetch user token" (Some e)
  | Ok _ => Ret tt
  end;;
  destroyAlbyAccountNWCNode_request token.

Definition activateAlbyAccountNWCNode_request (token : option Token) : Prog (option error) :=
  match NewRequest "PUT" (AlbyAPIURL env +:+ "/internal/nwcs/activate") NoBody with
  | Err e => logError "Error creating request /internal/nwcs/activate" (Some e);; Ret (Some e)
  | Ok req =>
  r ← ext (HttpDo token None (setDefaultRequestHeaders req));
  match r with
  | Err e => logError "Failed to send request to /internal/nwcs/activate" (Some e);; Ret (Some e)
  | Ok resp =>
  if 300 <=? StatusCode resp then
    logError "Request to /internal/nwcs/activate returned non-success status" None;;
    Ret (Some (ErrNew "request to /internal/nwcs/activate returned non-success status"))
  else
    logInfo "Activated alby nwc node successfully";;
    Ret None
  end end.

Definition activateAlbyAccountNWCNode : Prog (option error) :=
  r ← fetchUserToken;
  let token := match r with Ok token => token | Err _ => None end in
  match r with
  | Err e => logError "Failed to fetch user token" (Some e)
  | Ok _ => Ret tt
  end;;
  activateAlbyAccountNWCNode_request token.

Definition LinkAccount (budget : Z) (renewal : string) : Prog (option error) :=
  deleteAlbyAccountApps;;
  r ← createAlbyAccountNWCNode;
  match r with
  | Err e => logError "Failed to create alby account nwc node" (Some e);; Ret (Some e)
  | Ok connectionPubkey =>
  methods ← ext LnGetSupportedNIP47Methods;
  match permissions_RequestMethodsToScopes env methods with
  | Err e =>
      logError "Failed to get scopes from LNClient request methods" (Some e);;
      Ret (Some e)
  | Ok scopes =>
  notificationTypes ← ext LnGetSupportedNIP47NotificationTypes;
  let scopes :=
    if (0 <? length notificationTypes)%nat then (scopes ++ [NOTIFICATIONS_SCOPE])%list
    else scopes in
  err ← ext (DbCreateApp ALBY_ACCOUNT_APP_NAME connectionPubkey budget renewal scopes false);
  match err with
  | Some e => logError "Failed to create app connection" (Some e);; Ret (Some e)
  | None =>
  logInfo "Created alby app connection";;
  err ← activateAlbyAccountNWCNode;
  match err with
  | Some e => logError "Failed to activate alby account nwc node" (Some e);; Ret (Some e)
  | None => Ret None
  end end end end.

Definition UnlinkAccount : Prog (option error) :=
  err ← destroyAlbyAccountNWCNode;
  match err with
  | Some e => logError "Failed to destroy Alby Account NWC node" (Some e)
  | None => Ret tt
  end;;
  deleteAlbyAccountApps;;
  vis (CfgSetUpdate userIdentifierKey "");;
  vis (CfgSetUpdate accessTokenKey "");;
  vis (CfgSetUpdate accessTokenExpiryKey "");;
  vis (CfgSetUpdate refreshTokenKey "");;
  vis (CfgSetUpdate lightningAddressKey "");;
  Ret None.

Definition crossAccountError : error :=
  ErrNew "Alby Hub is connected to a different alby account. Please log out of your Alby Account at getalby.com and try again.".

Definition CallbackHandler (code : string) : Prog (option error) :=
  r ← ext (OAuthExchange code);
  match r with
  | Err e => logError "Failed to exchange token" (Some e);; Ret (Some e)
  | Ok token =>
  saveToken token;;
  r ← GetMe;
  match r with
  | Err e =>
      logError "Failed to fetch user me" (Some e);;
      vis (CfgSetUpdate accessTokenKey "");;
      Ret (Some e)
  | Ok me =>
  r ← GetUserIdentifier;
  match r with
  | Err e => logError "Failed to get alby user identifier" (Some e);; Ret (Some e)
  | Ok existingUserIdentifier =>
  if decide (existingUserIdentifier = "") then
    vis (CfgSetUpdate userIdentifierKey (Identifier me));;
    (if AutoLinkAlbyAccount env then
       err ← LinkAccount 1000000 BUDGET_RENEWAL_MONTHLY;
       match err with
       | Some e => logError "Failed to link account on first auth callback" (Some e)
       | None => Ret tt
       end
     else Ret tt);;
    Ret None
  else if decide (Identifier me ≠ existingUserIdentifier) then
    vis (CfgSetUpdate accessTokenKey "");;
    Ret (Some crossAccountError)
  else Ret None
  end end end.

Definition backupChannels (event : Event) : Prog (option error) :=
  match EventProperties event with
  | PropsChannelBackup bkpEvent =>
  r ← fetchUserToken;
  match r with
  | Err e => Ret (Some (ErrWrap "failed to fetch user token" e))
  | Ok token =>
  b ← deref bkpEvent;
  match Channels b with
  | Err e => Ret (Some (ErrWrap "failed to encode channels backup data" e))
  | Ok channelsData =>
  r ← vis (CfgGet "Mnemonic");
  match r with
  | Err e => Ret (Some (ErrWrap "failed to fetch encryption key" e))
  | Ok encryptedMnemonic =>
  match config_AesGcmEncrypt env channelsData encryptedMnemonic with
  | Err e => Ret (Some (ErrWrap "failed to encrypt channels backup data" e))
  | Ok encrypted =>
  let body := JsonBody (JObj [("description", JStr "channels"); ("data", JStr encrypted)]) in
  match NewRequest "POST" (AlbyAPIURL env +:+ "/internal/backups") body with
  | Err e => Ret (Some (ErrWrap "failed to create request" e))
  | Ok req =>
  r ← ext (HttpDo token None (setDefaultRequestHeaders req));
  match r with
  | Err e => Ret (Some (ErrWrap "failed to send request to /internal/backups" e))
  | Ok resp =>
  if 300 <=? StatusCode resp
  then Ret (Some (ErrNew "request to /internal/backups returned non-success status"))
  else Ret None
  end end end end end end
  | _ =>
      Ret (Some (ErrNew "invalid nwc_backup_channels event properties, could not cast to the expected type"))
  end.

(** [json.Marshal] of the value in [Event.Properties]. *)
Definition encodeProperties (props : Properties) : result JSON :=
  match props with
  | PropsNil => Ok JNull
  | PropsTransaction None => Ok JNull
  | PropsTransaction (Some t) => txJSON t
  | PropsChannelBackup None => Ok JNull
  | PropsChannelBackup (Some b) => backupJSON b
  | PropsOther encoded => encoded
  end.

(** [json.Unmarshal] of the properties into a [map[string]interface{}]:
    [None] is the nil map; of a repeated key the last value stays. *)
Definition unmarshalProperties (j : JSON) : result (option (gmap string JSON)) :=
  match j with
  | JNull => Ok None
  | JObj fields =>
      Ok (Some (list_to_map (reverse (map (fun kv : string * JSON => let (k, v) := kv in (k, generic v)) fields))))
  | _ => Err (ErrNew "json: cannot unmarshal into Go struct field eventWithPropertiesMap.properties of type map[string]interface {}")
  end.

(** The reduced-detail properties of the three payment events
    ([paymentReceivedEventProperties] and its two sisters), as values. *)
Definition paymentReceivedEventProperties (paymentHash : string) : Properties :=
  PropsOther (Ok (JObj [("payment_hash", JStr paymentHash)])).

Definition paymentSentEventProperties (paymentHash : string) (duration : Z) : Properties :=
  PropsOther (Ok (JObj [("payment_hash", JStr paymentHash); ("duration", JNum duration)])).

Definition paymentFailedEventProperties (paymentHash reason : string) : Properties :=
  PropsOther (Ok (JObj [("payment_hash", JStr paymentHash); ("reason", JStr reason)])).

Definition redactReceived (event : Event) : Prog Event :=
  if decide (EventName event = "nwc_payment_received") then
    p ← assertTransaction (EventProperties event);
    t ← deref p;
    Ret {| EventName := EventName event;
           EventProperties := paymentReceivedEventProperties (PaymentHash t) |}
  else Ret event.

Definition redactSent (event : Event) : Prog Event :=
  if decide (EventName event = "nwc_payment_sent") then
    p ← assertTransaction (EventProperties event);
    t ← deref p;
    let paymentHash := PaymentHash t in
    p ← assertTransaction (EventProperties event);
    t ← deref p;
    settledAt ← deref (SettledAt t);
    p ← assertTransaction (EventProperties event);
    t' ← deref p;
    let duration := wrap_uint64 (wrap_int64 (time.Unix settledAt - time.Unix (CreatedAt t'))) in
    Ret {| EventName := EventName event;
           EventProperties := paymentSentEventProperties paymentHash duration |}
  else Ret event.

(** [None]: the function has returned. *)
Definition redactFailed (event : Event) : Prog (option Event) :=
  if decide (EventName event = "nwc_payment_failed") then
    match EventProperties event with
    | PropsTransaction transaction =>
        t ← deref transaction;
        Ret (Some {| EventName := EventName event;
                     EventProperties :=
                       paymentFailedEventProperties (PaymentHash t) (FailureReason t) |})
    | _ => logError "Failed to cast event" None;; Ret None
    end
  else Ret (Some event).

(** The loop over [globalProperties], in the order [entries]. *)
Fixpoint mergeGlobalProperties (entries : list (string * JSON))
    (properties : gmap string JSON) : Prog (gmap string JSON) :=
  match entries with
  | [] => Ret properties
  | (k, v) :: rest =>
      match properties !! k with
      | Some _ =>
          logError "Key already exists in event properties, skipping global property" None;;
          mergeGlobalProperties rest properties
      | None => mergeGlobalProperties rest (<[k := v]> properties)
      end
  end.

(** [ConsumeEvent] from the token fetch on.  Go ranges over a map in an
    unspecified order; here it is the order of [map_to_list]. *)
Definition relayEvent (event : Event) (globalProperties : gmap string JSON) : Prog unit :=
  r ← fetchUserToken;
  match r with
  | Err e => logError "Failed to fetch user token" (Some e)
  | Ok token =>
  match encodeProperties (EventProperties event) with
  | Err e => logError "Failed to encode request payload" (Some e)
  | Ok encoded =>
  match unmarshalProperties encoded with
  | Err e => logError "Failed to decode request payload" (Some e)
  | Ok decoded =>
  let properties := match decoded with Some m => m | None => ∅ end in
  properties ← mergeGlobalProperties (map_to_list globalProperties) properties;
  let body := EventBody (EventName event) properties in
  match NewRequest "POST" (AlbyAPIURL env +:+ "/events") body with
  | Err e => logError "Error creating request /events" (Some e)
  | Ok req =>
  r ← ext (HttpDo token None (setDefaultRequestHeaders req));
  match r with
  | Err e => logError "Failed to send request to /events" (Some e)
  | Ok resp =>
  if 300 <=? StatusCode resp
  then logError "Request to /events returned non-success status" None
  else Ret tt
  end end end end end.

(** [ConsumeEvent] without its deferred [recover]; [event] is a pointer. *)
Definition ConsumeEvent_body (event : option Event)
    (globalProperties : gmap string JSON) : Prog unit :=
  r ← vis (CfgGet accessTokenKey);
  match r with
  | Err e => logError "failed to get access token from config" (Some e)
  | Ok accessToken =>
  if decide (accessToken = "") then
    logDebug "user has not authed yet, skipping event"
  else if negb (LogEvents env) then
    logDebug "Skipped sending to alby events API"
  else
    event ← deref event;
    if decide (EventName event = "nwc_backup_channels") then
      err ← backupChannels event;
      match err with
      | Some e => logError "Failed to backup channels" (Some e)
      | None => Ret tt
      end
    else if strings.HasPrefix (EventName event) "nwc_lnclient_" then Ret tt
    else
      event ← redactReceived event;
      event ← redactSent event;
      r ← redactFailed event;
      match r with
      | None => Ret tt
      | Some event => relayEvent event globalProperties
      end
  end.

Definition ConsumeEvent (event : option Event)
    (globalProperties : gmap string JSON) : Prog unit :=
  recover (ConsumeEvent_body event globalProperties)
    (fun r => logError "Failed to consume event in alby oauth service" None).

Definition feeMismatchError : error := ErrNew "invoice amount does not match LSP fee".

(** [requestAutoChannel] from the decoded response on. *)
Definition checkAutoChannelResponse (resp : autoChannelResponse)
    : Prog (result AutoChannelResponse) :=
  r ← match Payment resp with
      | Some payment =>
          let invoice := bolt11_Invoice payment in
          match strconv.ParseUint (FeeTotalSat payment) with
          | Err e =>
              logError "Failed to parse fee" (Some e);;
              Ret (Err (ErrWrap "failed to parse fee" e))
          | Ok fee =>
          match decodepay_Decodepay env invoice with
          | Err e => logError "Failed to decode bolt11 invoice" (Some e);; Ret (Err e)
          | Ok mSatoshi =>
          if decide (fee ≠ wrap_uint64 (mSatoshi ÷ 1000)) then
            logError "Invoice amount does not match LSP fee" None;;
            Ret (Err feeMismatchError)
          else Ret (Ok (invoice, fee))
          end end
      | None => Ret (Ok ("", 0))
      end;
  match r with
  | Err e => Ret (Err e)
  | Ok (invoice, fee) =>
  match strconv.ParseUint (LspBalanceSat resp) with
  | Err e =>
      logError "Failed to parse lsp balance sat" (Some e);;
      Ret (Err (ErrWrap "failed to parse lsp balance sat" e))
  | Ok channelSize =>
      Ret (Ok {| Invoice := invoice; Fee := fee; ChannelSize := channelSize |})
  end end.

(** [requestAutoChannel] from the client creation on. *)
Definition requestAutoChannel_request (token : option Token) (url pubkey : string)
    (isPublic : bool) : Prog (result AutoChannelResponse) :=
  let body := JsonBody (JObj [("node_pubkey", JStr pubkey); ("announce_channel", JBool isPublic)]) in
  match NewRequest "POST" url body with
  | Err e => logError "Failed to create auto channel request" (Some e);; Ret (Err e)
  | Ok req =>
  r ← ext (HttpDo token (Some (60 * time.Second)) (setDefaultRequestHeaders req));
  match r with
  | Err e => logError "Failed to request auto channel invoice" (Some e);; Ret (Err e)
  | Ok res =>
  match RespBody res with
  | Err e =>
      logError "Failed to read response body" (Some e);;
      Ret (Err (ErrNew "failed to read response body"))
  | Ok body =>
  if 300 <=? StatusCode res then
    logError "auto channel endpoint returned non-success code" None;;
    Ret (Err (ErrNew ("auto channel endpoint returned non-success code: " +:+ body)))
  else
    match json_autoChannelResponse env body with
    | Err e =>
        logError "Failed to deserialize json" (Some e);;
        Ret (Err (ErrNew ("failed to deserialize json " +:+ url +:+ " " +:+ body)))
    | Ok newAutoChannelResponse => checkAutoChannelResponse newAutoChannelResponse
    end
  end end end.

Definition requestAutoChannel (url pubkey : string) (isPublic : bool)
    : Prog (result AutoChannelResponse) :=
  r ← fetchUserToken;
  let token := match r with Ok token => token | Err _ => None end in
  match r with
  | Err e => logError "Failed to fetch user token" (Some e)
  | Ok _ => Ret tt
  end;;
  requestAutoChannel_request token url pubkey isPublic.

(** [getLSPInfo] from the decoded URI list on: the named results
    [(pubkey, address, port)] and [err]. *)
Definition pickLSPUri (uris : list string) : Prog (string * string * Z * option error) :=
  let httpUris := List.filter (fun uri => negb (strings.Contains uri ".onion")) uris in
  match httpUris with
  | [] =>
      logError "Couldn't find HTTP URI" None;;
      Ret ("", "", 0, None)
  | uri :: _ =>
  let parts := lspuri.FindStringSubmatch uri in
  logDebug "Split URI";;
  match parts with
  | Some [_; p1; p2; p3] =>
      match strconv.Atoi p3 with
      | Err e =>
          logError "Failed to decode port number" (Some e);;
          Ret ("", "", 0, Some e)
      | Ok portValue => Ret (p1, p2, wrap_uint16 portValue, None)
      end
  | _ =>
      logError "Unsupported URI" None;;
      Ret ("", "", 0, Some (ErrNew "could not decode LSP URI"))
  end
  end.

Definition getLSPInfo (url : string) : Prog (string * string * Z * option error) :=
  r ← fetchUserToken;
  let token := match r with Ok token => token | Err _ => None end in
  match r with
  | Err e => logError "Failed to fetch user token" (Some e)
  | Ok _ => Ret tt
  end;;
  match NewRequest "GET" url NoBody with
  | Err e =>
      logError "Failed to create lsp info request" (Some e);;
      Ret ("", "", 0, Some e)
  | Ok req =>
  r ← ext (HttpDo token (Some (60 * time.Second)) (setDefaultRequestHeaders req));
  match r with
  | Err e => logError "Failed to request lsp info" (Some e);; Ret ("", "", 0, Some e)
  | Ok res =>
  match RespBody res with
  | Err e =>
      logError "Failed to read response body" (Some e);;
      Ret ("", "", 0, Some (ErrNew "failed to read response body"))
  | Ok body =>
  match json_lsps1LSPInfo env body with
  | Err e =>
      logError "Failed to deserialize json" (Some e);;
      Ret ("", "", 0, Some (ErrNew ("failed to deserialize json " +:+ url +:+ " " +:+ body)))
  | Ok uris => pickLSPUri uris
  end end end end.

Definition RequestAutoChannel (isPublic : bool) : Prog (result AutoChannelResponse) :=
  r ← ext LnGetInfo;
  match r with
  | Err e => logError "Failed to request own node info" (Some e);; Ret (Err e)
  | Ok nodeInfo =>
  let requestUrl := "https://api.getalby.com/internal/lsp/alby/" +:+ Network nodeInfo in
  '(pubkey, address, port, err) ← getLSPInfo (requestUrl +:+ "/v1/get_info");
  match err with
  | Some e => logError "Failed to request LSP info" (Some e);; Ret (Err e)
  | None =>
  err ← ext (LnConnectPeer pubkey address port);
  match err with
  | Some e => logError "Failed to connect to peer" (Some e);; Ret (Err e)
  | None =>
  logInfo "Requesting auto channel";;
  r ← requestAutoChannel (requestUrl +:+ "/auto_channel") (Pubkey nodeInfo) isPublic;
  match r with
  | Err e => logError "Failed to request auto channel" (Some e);; Ret (Err e)
  | Ok autoChannelResponse => Ret (Ok autoChannelResponse)
  end end end end.

End Service.

(** ** The rest of the service *)

Definition GetLightningAddress : Prog (result string) :=
  r ← vis (CfgGet lightningAddressKey);
  match r with
  | Err e =>
      logError "Failed to fetch lightning address from user configs" (Some e);;
      Ret (Err e)
  | Ok lightningAddress => Ret (Ok lightningAddress)
  end.

(** [ChannelPeerSuggestion] is declared outside this file: the four fields
    the service reads and writes, and the rest of the record. *)
Record ChannelPeerSuggestion := {
  LspUrl : string;
  LspType : string;
  BrokenLspUrl : string;
  BrokenLspType : string;
  otherFields : JSON
}.

Definition setLspType (value : string) (s : ChannelPeerSuggestion) : ChannelPeerSuggestion :=
  {| LspUrl := LspUrl s; LspType := value; BrokenLspUrl := BrokenLspUrl s;
     BrokenLspType := BrokenLspType s; otherFields := otherFields s |}.

Definition setLspUrl (value : string) (s : ChannelPeerSuggestion) : ChannelPeerSuggestion :=
  {| LspUrl := value; LspType := LspType s; BrokenLspUrl := BrokenLspUrl s;
     BrokenLspType := BrokenLspType s; otherFields := otherFields s |}.

Definition indexOutOfRange : string := "index out of range".

(** The loop [for i, suggestion := range suggestions] of
    [GetChannelPeerSuggestions], at the index [i] with [n] iterations to go:
    [suggestion] is a copy of the element, the assignments go to the slice. *)
Fixpoint patchSuggestions (n i : nat) (suggestions : list ChannelPeerSuggestion)
    : Prog (list ChannelPeerSuggestion) :=
  match n with
  | O => Ret suggestions
  | S n' =>
      match suggestions !! i with
      | None => Panic indexOutOfRange
      | Some suggestion =>
          let suggestions1 :=
            if decide (BrokenLspType suggestion ≠ "")
            then alter (setLspType (BrokenLspType suggestion)) i suggestions
            else suggestions in
          let suggestions2 :=
            if decide (BrokenLspUrl suggestion ≠ "")
            then alter (setLspUrl (BrokenLspUrl suggestion)) i suggestions1
            else suggestions1 in
          patchSuggestions n' (S i) suggestions2
      end
  end.

Section Suggestions.

Variable env : Env.

(** [json.NewDecoder(res.Body).Decode(&suggestions)] on the text of a body. *)
Variable json_ChannelPeerSuggestions : string -> result (list ChannelPeerSuggestion).

Definition GetChannelPeerSuggestions : Prog (result (list ChannelPeerSuggestion)) :=
  r ← fetchUserToken;
  match r with
  | Err e => logError "Failed to fetch user token" (Some e);; Ret (Err e)
  | Ok token =>
  match NewRequest env "GET" (AlbyAPIURL env +:+ "/internal/channel_suggestions") NoBody with
  | Err e =>
      logError "Error creating request to channel_suggestions endpoint" (Some e);;
      Ret (Err e)
  | Ok req =>
  r ← ext (HttpDo token None (setDefaultRequestHeaders env req));
  match r with
  | Err e => logError "Failed to fetch channel_suggestions endpoint" (Some e);; Ret (Err e)
  | Ok res =>
  match decodeBody json_ChannelPeerSuggestions res with
  | Err e => logError "Failed to decode API response" (Some e);; Ret (Err e)
  | Ok suggestions =>
      suggestions ← patchSuggestions (length suggestions) 0 suggestions;
      logDebug "Alby channel peer suggestions response";;
      Ret (Ok suggestions)
  end end end end.

End Suggestions.

(** ** Vocabulary of the statements *)

(** The session [fetchUserToken] builds from the three stored strings. *)
Definition session_of (access refresh : string) (expiry64 : Z) : Token :=
  {| AccessToken := access; TokenType := "";
     RefreshToken := refresh; Expiry := time.FromUnix expiry64 |}.

(** The three session fields as the store holds them. *)
Definition stored_session (c : Config) (access expiry refresh : string) : Prop :=
  Config_Get c accessTokenKey "" = Ok access /\
  Config_Get c accessTokenExpiryKey "" = Ok expiry /\
  Config_Get c refreshTokenKey "" = Ok refresh.

(** The history at the moment [fetchUserToken], started in [w], reads the
    clock: the lock and the three reads have happened. *)
Definition fetch_history (w : World) : list AnyE :=
  anyE (CfgGet refreshTokenKey) :: anyE (CfgGet accessTokenExpiryKey) ::
  anyE (CfgGet accessTokenKey) :: anyE MutexLock :: trace w.

Definition clock (env : Env) (h : list AnyE) : Z := answer env h Z TimeNow.

Definition refresh_answer (env : Env) (h : list AnyE) (current : Token) : result Token :=
  answer env h (result Token) (OAuthTokenSourceToken current).

(** What [saveToken] leaves in the store. *)
Definition saved (c : Config) (token : Token) : Config :=
  Config_SetUpdate
    (Config_SetUpdate
       (Config_SetUpdate c accessTokenExpiryKey
          (strconv.FormatInt (time.Unix (Expiry token))))
       accessTokenKey (AccessToken token))
    refreshTokenKey (RefreshToken token).

(** Two tokens that carry the same session: access token, refresh token and
    expiry second. *)
Definition same_session (t u : Token) : Prop :=
  AccessToken t = AccessToken u /\
  RefreshToken t = RefreshToken u /\
  time.Unix (Expiry t) = time.Unix (Expiry u).

(** A goroutine of the pool is inside [fetchUserToken]: it has started and
    has not returned. *)
Definition inside (p : Prog (result (option Token))) : Prop :=
  p <> fetchUserToken /\ returned p = None.

(** A program that holds the mutex: it performs effects other than [Lock]
    and [Unlock], then unlocks and returns at once. *)
Inductive critical {A} : Prog A -> Prop :=
| critical_unlock (a : A) : critical (Vis MutexUnlock (fun _ => Ret a))
| critical_cfg_get key k : (forall x, critical (k x)) -> critical (Vis (CfgGet key) k)
| critical_cfg_set key value k : (forall x, critical (k x)) -> critical (Vis (CfgSetUpdate key value) k)
| critical_log lvl msg err k : (forall x, critical (k x)) -> critical (Vis (Log lvl msg err) k)
| critical_ext X (e : ExtE X) k : (forall x, critical (k x)) -> critical (Vis (Ext e) k).

(** A program that neither touches the mutex nor panics. *)
Inductive lockfree {A} : Prog A -> Prop :=
| lockfree_ret (a : A) : lockfree (Ret a)
| lockfree_cfg_get key k : (forall x, lockfree (k x)) -> lockfree (Vis (CfgGet key) k)
| lockfree_cfg_set key value k : (forall x, lockfree (k x)) -> lockfree (Vis (CfgSetUpdate key value) k)
| lockfree_log lvl msg err k : (forall x, lockfree (k x)) -> lockfree (Vis (Log lvl msg err) k)
| lockfree_ext X (e : ExtE X) k : (forall x, lockfree (k x)) -> lockfree (Vis (Ext e) k).

(** An orderly program: it takes and releases the mutex in turn ([held]
    tells whether it holds it now), panics only while not holding it, and
    writes only the keys in [W]. *)
Inductive orderly {A} (W : string -> Prop) : bool -> Prog A -> Prop :=
| orderly_ret (a : A) : orderly W false (Ret a)
| orderly_panic v : orderly W false (Panic v)
| orderly_lock k : orderly W true (k tt) -> orderly W false (Vis MutexLock k)
| orderly_unlock k : orderly W false (k tt) -> orderly W true (Vis MutexUnlock k)
| orderly_cfg_get held key k :
    (forall x, orderly W held (k x)) -> orderly W held (Vis (CfgGet key) k)
| orderly_cfg_set held key value k :
    W key -> (forall x, orderly W held (k x)) ->
    orderly W held (Vis (CfgSetUpdate key value) k)
| orderly_log held lvl msg err k :
    (forall x, orderly W held (k x)) -> orderly W held (Vis (Log lvl msg err) k)
| orderly_ext held X (e : ExtE X) k :
    (forall x, orderly W held (k x)) -> orderly W held (Vis (Ext e) k).

(** The keys of the session and of the lightning address. *)
Definition session_key (key : string) : Prop :=
  key = accessTokenKey \/ key = accessTokenExpiryKey \/ key = refreshTokenKey.

Definition account_key (key : string) : Prop :=
  session_key key \/ key = lightningAddressKey \/ key = userIdentifierKey.

(** The world an outcome ends in. *)
Definition final_world {A} (o : Outcome A) : World :=
  match o with
  | Returns _ w => w
  | Panics _ w => w
  | Stuck w => w
  end.

(** The effects performed by a run started in [w], the latest first. *)
Definition performed {A} (w : World) (o : Outcome A) : list AnyE :=
  take (length (trace (final_world o)) - length (trace w)) (trace (final_world o)).

(** The world after the failed token fetch has been logged. *)
Definition token_error_logged (w : World) (e : error) : World :=
  record w (Log LError "Failed to fetch user token" (Some e)).

(** The requests of the three provisioning calls. *)
Definition provisioning_request (env : Env) (method path : string) (body : Body) : Request :=
  setDefaultRequestHeaders env
    {| Method := method; URL := AlbyAPIURL env +:+ path; Header := []; ReqBody := body |}.

(** Every effect of the program satisfies [R]. *)
Inductive emits {A} (R : AnyE -> Prop) : Prog A -> Prop :=
| emits_ret (a : A) : emits R (Ret a)
| emits_panic v : emits R (Panic v)
| emits_vis X (e : E X) k :
    R (anyE e) -> (forall x, emits R (k x)) -> emits R (Vis e k).

Definition is_http (ev : AnyE) : Prop :=
  match ev with
  | anyE (Ext (HttpDo _ _ _)) => True
  | _ => False
  end.

(** The properties of a payment event as the spec has them, for the
    transaction [t] and the event called [name]: the payment hash, with the
    duration in seconds for a sent payment and the reason for a failed one. *)
Definition reduced_properties (name : string) (t : Transaction) (settledAt : Z)
    : gmap string JSON :=
  if decide (name = "nwc_payment_received") then
    {[ "payment_hash" := JStr (PaymentHash t) ]}
  else if decide (name = "nwc_payment_sent") then
    {[ "payment_hash" := JStr (PaymentHash t);
       "duration" := JNum (time.Unix settledAt - time.Unix (CreatedAt t)) ]}
  else
    {[ "payment_hash" := JStr (PaymentHash t);
       "reason" := JStr (FailureReason t) ]}.

(** The same with the duration as the code computes and sends it: the
    difference of the two Unix seconds as a [uint64], through [float64]. *)
Definition sent_properties (name : string) (t : Transaction) (settledAt : Z)
    : gmap string JSON :=
  if decide (name = "nwc_payment_received") then
    {[ "payment_hash" := JStr (PaymentHash t) ]}
  else if decide (name = "nwc_payment_sent") then
    {[ "payment_hash" := JStr (PaymentHash t);
       "duration" := JNum (float64.json_number
                             (wrap_uint64 (time.Unix settledAt - time.Unix (CreatedAt t)))) ]}
  else
    {[ "payment_hash" := JStr (PaymentHash t);
       "reason" := JStr (FailureReason t) ]}.

Definition payment_event (name : string) : Prop :=
  name = "nwc_payment_received" \/ name = "nwc_payment_sent" \/ name = "nwc_payment_failed".

(** What a request sent for the payment event [event] must look like: a
    POST of the event name with the reduced properties of its transaction,
    and the global properties for the keys these do not have. *)
Definition redacted_request (env : Env) (event : Event)
    (globalProperties : gmap string JSON) (req : Request) : Prop :=
  exists t settledAt,
    EventProperties event = PropsTransaction (Some t) /\
    (EventName event = "nwc_payment_sent" -> SettledAt t = Some settledAt) /\
    req = setDefaultRequestHeaders env
            {| Method := "POST"; URL := AlbyAPIURL env +:+ "/events"; Header := [];
               ReqBody := EventBody (EventName event)
                            (sent_properties (EventName event) t settledAt
                             ∪ globalProperties) |} /\
    (0 <= time.Unix settledAt - time.Unix (CreatedAt t) < 2 ^ 53 ->
     sent_properties (EventName event) t settledAt
     = reduced_properties (EventName event) t settledAt).

Definition only_redacted (env : Env) (event : Event)
    (globalProperties : gmap string JSON) (ev : AnyE) : Prop :=
  match ev with
  | anyE (Ext (HttpDo _ _ req)) => redacted_request env event globalProperties req
  | _ => True
  end.

(** The keys the identity fetch writes. *)
Definition fetched_key (key : string) : Prop :=
  session_key key \/ key = lightningAddressKey.

(** All three session fields are empty. *)
Definition session_cleared (c : Config) : Prop := stored_session c "" "" "".

(** The world after the authorization-code exchange gave [token] and
    [saveToken] stored it. *)
Definition exchanged_world (w : World) (code : string) (token : Token) : World :=
  {| cfg := saved (cfg w) token;
     tokenMutex := tokenMutex w;
     trace := anyE (CfgSetUpdate refreshTokenKey (RefreshToken token)) ::
              anyE (CfgSetUpdate accessTokenKey (AccessToken token)) ::
              anyE (CfgSetUpdate accessTokenExpiryKey
                      (strconv.FormatInt (time.Unix (Expiry token)))) ::
              anyE (Ext (OAuthExchange code)) :: trace w |}.

(** The token a caller goes on with after [fetchUserToken] gave [r], and
    the world it goes on in: a failed fetch is logged. *)
Definition fetched_token (r : result (option Token)) : option Token :=
  match r with
  | Ok token => token
  | Err _ => None
  end.

Definition after_fetch (r : result (option Token)) (w : World) : World :=
  match r with
  | Ok _ => w
  | Err e => token_error_logged w e
  end.

Definition auto_channel_request (env : Env) (url pubkey : string) (isPublic : bool) : Request :=
  setDefaultRequestHeaders env
    {| Method := "POST"; URL := url; Header := [];
       ReqBody := JsonBody (JObj [("node_pubkey", JStr pubkey);
                                  ("announce_channel", JBool isPublic)]) |}.

(** One step of a single program in the world [w]: the program after the
    effect it is at, and the world after it. *)
Definition step_of {A} (env : Env) (p : Prog A) (w : World) : option (Prog A * World) :=
  match p with
  | Vis e k =>
      match handle env w e with
      | Some (x, w') => Some (k x, w')
      | None => None
      end
  | _ => None
  end.

(** A pool run along a schedule: at each turn the named goroutine takes a
    step if it can. *)
Fixpoint pool_exec {A} (env : Env) (schedule : list nat) (w : World) (ts : list (Prog A))
    : World * list (Prog A) :=
  match schedule with
  | [] => (w, ts)
  | i :: rest =>
      match ts !! i with
      | Some p =>
          match step_of env p w with
          | Some (p', w') => pool_exec env rest w' (<[i := p']> ts)
          | None => pool_exec env rest w ts
          end
      | None => pool_exec env rest w ts
      end
  end.

(** [fetchUserToken] once it holds the mutex. *)
Definition fetchUserToken_held : Prog (result (option Token)) :=
  fetchUserToken_locked ≫= fun r => vis MutexUnlock;; Ret r.

(** The store holds the session [(access, expiry, refresh)], the mutex is
    free and [calls] refresh exchanges have been made. *)
Definition at_rest (w : World) (access expiry refresh : string) (calls : nat) : Prop :=
  tokenMutex w = false /\
  stored_session (cfg w) access expiry refresh /\
  refresh_calls (trace w) = calls.

(** A caller's result carries the session of [token]. *)
Definition got (token : Token) (r : result (option Token)) : Prop :=
  exists t, r = Ok (Some t) /\ same_session t token.

(** A caller of the pool that is not inside [fetchUserToken]: it has not
    started, or it has returned with the session of [token]. *)
Definition idle_or_done (token : Token) (p : Prog (result (option Token))) : Prop :=
  p = fetchUserToken \/ exists r, p = Ret r /\ got token r.

(** The invariant of a pool of callers on a session [(access, expiry,
    refresh)] that the provider renews to [token], [calls] refresh
    exchanges having been made before: nobody has started; or the session
    is renewed and nobody is inside; or one caller holds the mutex and, run
    alone from here, returns with the renewed session. *)
Definition pool_inv (env : Env) (access expiry refresh : string) (token : Token)
    (calls : nat) (s : World * list (Prog (result (option Token)))) : Prop :=
  let renewed w :=
    at_rest w (AccessToken token) (strconv.FormatInt (time.Unix (Expiry token)))
      (RefreshToken token) (S calls) in
  (at_rest s.1 access expiry refresh calls /\ Forall (fun p => p = fetchUserToken) s.2) \/
  (renewed s.1 /\ Forall (idle_or_done token) s.2) \/
  (tokenMutex s.1 = true /\
   exists i p r w',
     s.2 !! i = Some p /\ critical p /\
     run env p s.1 = Returns r w' /\ got token r /\ renewed w' /\
     forall j q, j <> i -> s.2 !! j = Some q -> idle_or_done token q).

(** ** Vocabulary of the float64 arithmetic *)

(** After [k] right shifts of a mantissa, with [rem] shifted out: the round
    bit [r] and the sticky bit [s] place [rem] relative to the half. *)
Definition encodes (rem : Z) (r s : bool) (k : nat) : Prop :=
  (r || s = true <-> rem <> 0) /\
  (k <> O -> (r = true <-> 2 ^ Z.of_nat k <= 2 * rem) /\
             (s = true <-> rem <> 0 /\ 2 * rem <> 2 ^ Z.of_nat k)).

(** [v'] is [v] rounded to 53 significant digits: a multiple of the unit
    [2 ^ a] in the last place of [v], at most half a unit away. *)
Definition rounds (v v' : Z) : Prop :=
  exists a, 0 <= a /\ (2 ^ a | v') /\ 2 * Z.abs (v' - v) <= 2 ^ a /\
            2 ^ (a + 52) <= v < 2 ^ (a + 53).

(** [f] is the normal float of sign [s] and magnitude [v / 2 ^ K]. *)
Definition float_of (K : Z) (s : bool) (v : Z) (f : spec_float) : Prop :=
  exists m e, f = S754_finite s m e /\ Zpos (digits2_pos m) = 53 /\
              0 <= e + K /\ v = Zpos m * 2 ^ (e + K).

(** ** Vocabulary of the drain *)

(** The withdrawable amount as the spec words it, in exact arithmetic:
    [floor(b - b * 0.008 - b * 0.01) - 10]. *)
Definition spec_withdrawable (b : Z) : Z := (1000 * b - 8 * b - 10 * b) / 1000 - 10.

Definition insufficient_balance : error := ErrNew "Not enough balance remaining".

(** The invoices a trace asks for: amount in millisatoshis, description and
    expiry. *)
Definition invoice_of (ev : AnyE) : option (Z * string * Z) :=
  match ev with
  | anyE (Ext (MakeInvoice amount description expiry)) => Some (amount, description, expiry)
  | _ => None
  end.

Definition invoices (tr : list AnyE) : list (Z * string * Z) := omap invoice_of tr.

(** The invoice of a drain of [amountSat] satoshis. *)
Definition drain_invoice (amountSat : Z) : Z * string * Z :=
  (amountSat * 1000, "Send shared wallet funds to Alby Hub", 120).

(** ** Vocabulary of the further properties *)

(** A program with no panic in it. *)
Inductive calm {A} : Prog A -> Prop :=
| calm_ret (a : A) : calm (Ret a)
| calm_vis X (e : E X) k : (forall x, calm (k x)) -> calm (Vis e k).

(** A call of a collaborator outside the store, the mutex and the log. *)
Definition external (ev : AnyE) : Prop :=
  match ev with
  | anyE (Ext _) => True
  | _ => False
  end.

(** The HTTP requests of a trace, the latest first: the token of the client,
    its timeout and the request. *)
Definition http_of (ev : AnyE) : option (option Token * option Z * Request) :=
  match ev with
  | anyE (Ext (HttpDo token timeout req)) => Some (token, timeout, req)
  | _ => None
  end.

Definition http_requests (tr : list AnyE) : list (option Token * option Z * Request) :=
  omap http_of tr.

(** The store holds no complete session: the access token is empty, or the
    expiry is, or the expiry reads as a number and the refresh token is
    empty (the order in which [fetchUserToken] looks at them). *)
Definition no_session (c : Config) : Prop :=
  Config_Get c accessTokenKey "" = Ok "" \/
  (exists access,
     Config_Get c accessTokenKey "" = Ok access /\
     Config_Get c accessTokenExpiryKey "" = Ok "") \/
  (exists access expiry,
     Config_Get c accessTokenKey "" = Ok access /\
     Config_Get c accessTokenExpiryKey "" = Ok expiry /\
     is_Ok (strconv.ParseInt expiry) = true /\
     Config_Get c refreshTokenKey "" = Ok "").

(** The app connections a trace creates, the latest first: name, pubkey,
    budget, renewal, scopes and the isolation flag. *)
Definition app_of (ev : AnyE) : option (string * string * Z * string * list string * bool) :=
  match ev with
  | anyE (Ext (DbCreateApp name pubkey budget renewal scopes isolated)) =>
      Some (name, pubkey, budget, renewal, scopes, isolated)
  | _ => None
  end.

Definition created_apps (tr : list AnyE)
    : list (string * string * Z * string * list string * bool) :=
  omap app_of tr.

(** What the five writes of [UnlinkAccount] leave of a store. *)
Definition unlinked (c : Config) : Config :=
  Config_SetUpdate
    (Config_SetUpdate
       (Config_SetUpdate
          (Config_SetUpdate (Config_SetUpdate c userIdentifierKey "") accessTokenKey "")
          accessTokenExpiryKey "")
       refreshTokenKey "")
    lightningAddressKey "".

(** A program that makes at most [n] HTTP requests on any path, each of
    them satisfying [R]. *)
Inductive sends {A} (R : option Token -> option Z -> Request -> Prop)
    : nat -> Prog A -> Prop :=
| sends_ret n (a : A) : sends R n (Ret a)
| sends_panic n v : sends R n (Panic v)
| sends_http n token timeout req k :
    R token timeout req -> (forall x, sends R n (k x)) ->
    sends R (S n) (Vis (Ext (HttpDo token timeout req)) k)
| sends_other n X (e : E X) k :
    http_of (anyE e) = None -> (forall x, sends R n (k x)) -> sends R n (Vis e k).

(** The HTTP requests of a run started in [w] number at most [n] and all
    satisfy [R]. *)
Definition requests_within {A} (R : option Token -> option Z -> Request -> Prop)
    (n : nat) (w : World) (o : Outcome A) : Prop :=
  (length (http_requests (performed w o)) <= n)%nat /\
  Forall (fun r : option Token * option Z * Request => R r.1.1 r.1.2 r.2)
    (http_requests (performed w o)).

(** A POST of [body] to the path [path] of the provider. *)
Definition post_to (env : Env) (path : string) (body : Body) : Request :=
  setDefaultRequestHeaders env
    {| Method := "POST"; URL := AlbyAPIURL env +:+ path; Header := []; ReqBody := body |}.

(** The request that uploads a channel backup: the description and the
    encrypted data. *)
Definition backup_request (env : Env) (encrypted : string) : Request :=
  post_to env "/internal/backups"
    (JsonBody (JObj [("description", JStr "channels"); ("data", JStr encrypted)])).

(** What [ConsumeEvent] may send for the event called [name]: a backup for
    a channel-backup event, an event of that name otherwise; the client has
    no timeout of its own. *)
Definition telemetry_request (env : Env) (name : string)
    (token : option Token) (timeout : option Z) (req : Request) : Prop :=
  timeout = None /\
  if decide (name = "nwc_backup_channels")
  then exists encrypted, req = backup_request env encrypted
  else exists properties, req = post_to env "/events" (EventBody name properties).

(** ** Vocabulary of the LSP connection URI *)

Fixpoint all_chars (p : ascii -> bool) (s : string) : bool :=
  match s with
  | EmptyString => true
  | String c s' => p c && all_chars p s'
  end.

(** A non-empty text made of characters of the class [p]. *)
Definition run_of (p : ascii -> bool) (s : string) : Prop :=
  s <> "" /\ all_chars p s = true.

Definition ipv4_text (a b c d : string) : string :=
  a +:+ "." +:+ b +:+ "." +:+ c +:+ "." +:+ d.

(** The text [pubkey@a.b.c.d:port]. *)
Definition lsp_uri (pubkey a b c d port : string) : string :=
  pubkey +:+ "@" +:+ ipv4_text a b c d +:+ ":" +:+ port.

(** A URI of the shape the service accepts: a lower-case hexadecimal pubkey,
    four runs of digits and a run of digits for the port. *)
Definition well_formed_uri (pubkey a b c d port : string) : Prop :=
  run_of lspuri.isHex pubkey /\
  run_of strconv.isDigit a /\ run_of strconv.isDigit b /\
  run_of strconv.isDigit c /\ run_of strconv.isDigit d /\
  run_of strconv.isDigit port.

(** The URIs of a [get_info] answer that are not onion addresses. *)
Definition clearnet (uris : list string) : list string :=
  List.filter (fun uri => negb (strings.Contains uri ".onion")) uris.

(** The number that a text of decimal digits stands for, read after the
    value [n]. *)
Fixpoint decimal_from (n : Z) (s : string) : Z :=
  match s with
  | EmptyString => n
  | String c s' => decimal_from (n * 10 + strconv.digitVal c) s'
  end.

Definition decimal (s : string) : Z := decimal_from 0 s.

(** ** Vocabulary of the auto-channel traffic *)

(** The address of the provider's LSP on the network [network]. *)
Definition lsp_base (network : string) : string :=
  "https://api.getalby.com/internal/lsp/alby/" +:+ network.

(** The request for the connection details of the LSP. *)
Definition get_info_request (env : Env) (network : string) : Request :=
  setDefaultRequestHeaders env
    {| Method := "GET"; URL := lsp_base network +:+ "/v1/get_info"; Header := [];
       ReqBody := NoBody |}.

(** What [RequestAutoChannel] may send when the own node is [nodeInfo]: with
    a timeout of a minute, the request for the connection details, or the
    order of a channel to the own node, both at the LSP of the network of the
    own node. *)
Definition lsp_traffic (env : Env) (isPublic : bool) (nodeInfo : NodeInfo)
    (token : option Token) (timeout : option Z) (req : Request) : Prop :=
  timeout = Some (60 * time.Second) /\
  (req = get_info_request env (Network nodeInfo) \/
   req = auto_channel_request env (lsp_base (Network nodeInfo) +:+ "/auto_channel")
           (Pubkey nodeInfo) isPublic).

(** The request that registers the hub's Nostr public key [walletPubkey]
    with the provider. *)
Definition register_request (env : Env) (walletPubkey : string) : Request :=
  setDefaultRequestHeaders env
    {| Method := "POST"; URL := AlbyAPIURL env +:+ "/internal/nwcs"; Header := [];
       ReqBody := JsonBody (JObj [("wallet_pubkey", JStr walletPubkey)]) |}.

(** The request that activates the connection registered before. *)
Definition activate_request (env : Env) : Request :=
  setDefaultRequestHeaders env
    {| Method := "PUT"; URL := AlbyAPIURL env +:+ "/internal/nwcs/activate"; Header := [];
       ReqBody := NoBody |}.

(** ** Questions to the outside world and their answers *)

(** In a run that started at the history [h] and has performed [tr] (the
    latest effect first), the outside world was asked [e] and answered [x]:
    [e] is among the effects performed, and [x] is the answer at the history
    that [e] was performed in. *)
Definition asked (env : Env) (h tr : list AnyE) {X} (e : ExtE X) (x : X) : Prop :=
  exists later earlier,
    tr = (later ++ anyE (Ext e) :: earlier)%list /\
    answer env (earlier ++ h)%list X e = x.

(** ** Vocabulary of the wallet requests *)

(** A GET of the path [path] of the provider. *)
Definition get_from (env : Env) (path : string) : Request :=
  setDefaultRequestHeaders env
    {| Method := "GET"; URL := AlbyAPIURL env +:+ path; Header := []; ReqBody := NoBody |}.

Definition me_request (env : Env) : Request := get_from env "/internal/users".

Definition balance_request (env : Env) : Request := get_from env "/internal/lndhub/balance".

(** The order to pay [invoice] from the shared wallet. *)
Definition pay_request (env : Env) (invoice : string) : Request :=
  post_to env "/internal/lndhub/bolt11" (JsonBody (JObj [("invoice", JStr invoice)])).

(** ** Vocabulary of the channel suggestions *)

(** A suggestion whose type and URL are replaced by the fields the provider
    sends them under, where these are not empty. *)
Definition patched (s : ChannelPeerSuggestion) : ChannelPeerSuggestion :=
  {| LspUrl := if decide (BrokenLspUrl s = "") then LspUrl s else BrokenLspUrl s;
     LspType := if decide (BrokenLspType s = "") then LspType s else BrokenLspType s;
     BrokenLspUrl := BrokenLspUrl s;
     BrokenLspType := BrokenLspType s;
     otherFields := otherFields s |}.

(** ** Concrete environments and worlds for the examples *)

Definition unavailable (who : string) : error := ErrCollab who "unavailable".

(** An outside world with a fixed clock, a fixed answer of the token
    endpoint and of the authorization-code exchange, and one HTTP response
    for every request. *)
Definition example_answer (now : Z) (exchanged refreshed : result Token)
    (http : result Response) : list AnyE -> forall X, ExtE X -> X :=
  fun _ X e =>
    match e in ExtE X return X with
    | TimeNow => now
    | OAuthExchange _ => exchanged
    | OAuthTokenSourceToken _ => refreshed
    | HttpDo _ _ _ => http
    | LnGetInfo => Err (unavailable "lnclient")
    | LnConnectPeer _ _ _ => None
    | LnGetSupportedNIP47Methods => []
    | LnGetSupportedNIP47NotificationTypes => []
    | DbDeleteApps _ => None
    | DbCreateApp _ _ _ _ _ _ => None
    | MakeInvoice _ _ _ => Err (unavailable "transactions")
    | KeysGetNostrPublicKey => "02aa"
    end.

(** The library functions of the examples: the body of a user response is
    the identifier itself, an invoice is its amount in decimal. *)
Definition example_env (now : Z) (exchanged refreshed : result Token)
    (http : result Response) : Env :=
  {| AlbyAPIURL := "https://api.getalby.com";
     LogEvents := true;
     AutoLinkAlbyAccount := false;
     versionTag := "v1";
     http_NewRequest := fun _ _ => None;
     json_AlbyMe := fun body => Ok {| Identifier := body; LightningAddress := "" |};
     json_AlbyBalance := fun body =>
       match strconv.ParseInt body with
       | Ok b => Ok {| Balance := b |}
       | Err e => Err e
       end;
     json_ErrorResponse := fun body => Ok {| ErrorFlag := true; Code := 0; Message := body |};
     json_PayResponse := fun body => Ok {| Preimage := ""; PayResponseHash := body |};
     json_CreateNWCNodeResponse := fun body => Ok body;
     json_autoChannelResponse := fun _ => Err (unavailable "json");
     json_lsps1LSPInfo := fun _ => Ok [];
     decodepay_Decodepay := strconv.ParseInt;
     config_AesGcmEncrypt := fun plaintext _ => Ok plaintext;
     permissions_RequestMethodsToScopes := fun methods => Ok methods;
     answer := example_answer now exchanged refreshed http |}.

(** A store holding a session. *)
Definition example_config (access expiry refresh user : string) : Config :=
  {| kv := {[ accessTokenKey := access; accessTokenExpiryKey := expiry;
              refreshTokenKey := refresh; userIdentifierKey := user ]};
     faults := ∅ |}.

Definition example_world (c : Config) : World :=
  {| cfg := c; tokenMutex := false; trace := [] |}.

Definition example_token (access refresh : string) (expirySeconds : Z) : Token :=
  {| AccessToken := access; TokenType := "Bearer"; RefreshToken := refresh;
     Expiry := time.FromUnix expirySeconds + 500000000 |}.

(** The clock of the expiry examples stands at second 1000; the token
    endpoint hands out a token good for an hour. *)
Definition hour_token : Token := example_token "access2" "refresh2" 4600.

Definition buffer_env : Env :=
  example_env (time.FromUnix 1000) (Err (unavailable "oauth2")) (Ok hour_token)
    (Err (unavailable "http")).

Definition buffer_world (expiry : string) : World :=
  example_world (example_config "access1" expiry "refresh1" "user1").

(** A store whose access token cannot be read. *)
Definition broken_config : Config :=
  {| kv := ∅; faults := {[ accessTokenKey := ErrCollab "config" "database is locked" ]} |}.

Definition no_content : Response := {| StatusCode := 204; RespBody := Ok "" |}.

Definition provisioning_env : Env :=
  example_env (time.FromUnix 1000) (Err (unavailable "oauth2"))
    (Err (unavailable "oauth2")) (Ok no_content).

Definition broken_world : World := example_world broken_config.

Definition broken_error : error := ErrCollab "config" "database is locked".

(** Where the failed fetch leaves [broken_world]. *)
Definition broken_fetched : World :=
  {| cfg := broken_config; tokenMutex := false;
     trace := [anyE MutexUnlock; anyE (CfgGet accessTokenKey); anyE MutexLock] |}.

(** The merge example: the event has a payment hash of its own. *)
Definition own_properties : gmap string JSON := {[ "paymentHash" := JStr "abc" ]}.

Definition global_properties : gmap string JSON :=
  {[ "paymentHash" := JStr "xyz"; "version" := JStr "1" ]}.

Definition merged_properties : gmap string JSON :=
  {[ "paymentHash" := JStr "abc"; "version" := JStr "1" ]}.

(** A linked hub with a session good for an hour, and a received-payment
    event whose properties are not a transaction. *)
Definition relay_env : Env :=
  example_env (time.FromUnix 1000) (Err (unavailable "oauth2"))
    (Err (unavailable "oauth2")) (Ok no_content).

Definition relay_world : World :=
  example_world (example_config "access1" "4600" "refresh1" "user1").

Definition malformed_event : Event :=
  {| EventName := "nwc_payment_received"; EventProperties := PropsOther (Ok (JStr "oops")) |}.

(** A payment sent at second 100 and settled at second 130, with a preimage
    that must not leave the host. *)
Definition example_transaction : Transaction :=
  {| PaymentHash := "hash1"; PaymentRequest := "lnbc1"; FailureReason := "";
     CreatedAt := time.FromUnix 100; SettledAt := Some (time.FromUnix 130 + 250000000);
     txJSON := Ok (JObj [("PaymentHash", JStr "hash1"); ("Preimage", JStr "secret");
                         ("AmountMsat", JNum 21000)]) |}.

Definition sent_event : Event :=
  {| EventName := "nwc_payment_sent";
     EventProperties := PropsTransaction (Some example_transaction) |}.

Definition version_properties : gmap string JSON := {[ "version" := JStr "1" ]}.

Definition sent_request : Request :=
  {| Method := "POST"; URL := "https://api.getalby.com/events";
     Header := [("Content-Type", "application/json"); ("User-Agent", "AlbyHub/v1")];
     ReqBody := EventBody "nwc_payment_sent"
                  {[ "payment_hash" := JStr "hash1"; "duration" := JNum 30;
                     "version" := JStr "1" ]} |}.

(** Relinking: the hub belongs to [user1], the authorization code to
    [user2]. *)
Definition relink_env : Env :=
  example_env (time.FromUnix 1000) (Ok hour_token) (Err (unavailable "oauth2"))
    (Ok {| StatusCode := 200; RespBody := Ok "user2" |}).

Definition relink_world : World :=
  example_world (example_config "access1" "900" "refresh1" "user1").

(** An LSP that answers every auto-channel request with a channel of
    100000 sats, the invoice ["500000"] (500000 msat) and the fee [fee]. *)
Definition fee_response (fee : string) : autoChannelResponse :=
  {| LspBalanceSat := "100000";
     Payment := Some {| bolt11_Invoice := "500000"; FeeTotalSat := fee |} |}.

Definition fee_env (fee : string) : Env :=
  {| AlbyAPIURL := AlbyAPIURL relay_env;
     LogEvents := LogEvents relay_env;
     AutoLinkAlbyAccount := AutoLinkAlbyAccount relay_env;
     versionTag := versionTag relay_env;
     http_NewRequest := http_NewRequest relay_env;
     json_AlbyMe := json_AlbyMe relay_env;
     json_AlbyBalance := json_AlbyBalance relay_env;
     json_ErrorResponse := json_ErrorResponse relay_env;
     json_PayResponse := json_PayResponse relay_env;
     json_CreateNWCNodeResponse := json_CreateNWCNodeResponse relay_env;
     json_autoChannelResponse := fun _ => Ok (fee_response fee);
     json_lsps1LSPInfo := json_lsps1LSPInfo relay_env;
     decodepay_Decodepay := decodepay_Decodepay relay_env;
     config_AesGcmEncrypt := config_AesGcmEncrypt relay_env;
     permissions_RequestMethodsToScopes := permissions_RequestMethodsToScopes relay_env;
     answer := answer relay_env |}.

Definition lsp_url : string := "https://api.getalby.com/internal/lsp/alby/bitcoin/auto_channel".

(** Where a token fetch leaves [relay_world]: the session is good. *)
Definition relay_fetched : World :=
  {| cfg := cfg relay_world; tokenMutex := false;
     trace := [anyE MutexUnlock;
               anyE (Log LDebug "Using existing Alby OAuth token" None);
               anyE (Ext TimeNow); anyE (CfgGet refreshTokenKey);
               anyE (CfgGet accessTokenExpiryKey); anyE (CfgGet accessTokenKey);
               anyE MutexLock] |}.

(** Three goroutines taking turns, the third first. *)
Definition round_robin : list nat := concat (replicate 24 [2; 0; 1]%nat).

(** An LSP whose [get_info] lists the connection URIs [uris]. *)
Definition lsp_env (uris : list string) : Env :=
  {| AlbyAPIURL := AlbyAPIURL relay_env;
     LogEvents := LogEvents relay_env;
     AutoLinkAlbyAccount := AutoLinkAlbyAccount relay_env;
     versionTag := versionTag relay_env;
     http_NewRequest := http_NewRequest relay_env;
     json_AlbyMe := json_AlbyMe relay_env;
     json_AlbyBalance := json_AlbyBalance relay_env;
     json_ErrorResponse := json_ErrorResponse relay_env;
     json_PayResponse := json_PayResponse relay_env;
     json_CreateNWCNodeResponse := json_CreateNWCNodeResponse relay_env;
     json_autoChannelResponse := json_autoChannelResponse relay_env;
     json_lsps1LSPInfo := fun _ => Ok uris;
     decodepay_Decodepay := decodepay_Decodepay relay_env;
     config_AesGcmEncrypt := config_AesGcmEncrypt relay_env;
     permissions_RequestMethodsToScopes := permissions_RequestMethodsToScopes relay_env;
     answer := answer relay_env |}.

Definition get_info_url : string :=
  "https://api.getalby.com/internal/lsp/alby/bitcoin/v1/get_info".

Definition onion_uri : string :=
  "02ab@abcdefghijklmnopabcdefghijklmnopabcdefghijklmnopabcdefgh.onion:9735".

(** The drain examples: the balance endpoint answers with the balance [b],
    and no invoice can be made. *)
Definition balance_response (b : string) : Response :=
  {| StatusCode := 200; RespBody := Ok b |}.

Definition drain_env (b : string) : Env :=
  example_env (time.FromUnix 1000) (Err (unavailable "oauth2"))
    (Err (unavailable "oauth2")) (Ok (balance_response b)).

(** ** Examples of the further properties *)

(** A store with nothing in it, and one whose session has lost its refresh
    token. *)
Definition empty_config : Config := {| kv := ∅; faults := ∅ |}.

Definition empty_world : World := example_world empty_config.

Definition half_session_world : World :=
  example_world (example_config "access1" "4600" "" "user1").

(** A store whose expiry is not a number. *)
Definition bad_expiry_world : World :=
  example_world (example_config "access1" "tomorrow" "refresh1" "user1").

(** A first login: nothing is stored yet, and the hub links the account by
    itself. *)
Definition autolink_env : Env :=
  {| AlbyAPIURL := AlbyAPIURL relink_env;
     LogEvents := LogEvents relink_env;
     AutoLinkAlbyAccount := true;
     versionTag := versionTag relink_env;
     http_NewRequest := http_NewRequest relink_env;
     json_AlbyMe := json_AlbyMe relink_env;
     json_AlbyBalance := json_AlbyBalance relink_env;
     json_ErrorResponse := json_ErrorResponse relink_env;
     json_PayResponse := json_PayResponse relink_env;
     json_CreateNWCNodeResponse := json_CreateNWCNodeResponse relink_env;
     json_autoChannelResponse := json_autoChannelResponse relink_env;
     json_lsps1LSPInfo := json_lsps1LSPInfo relink_env;
     decodepay_Decodepay := decodepay_Decodepay relink_env;
     config_AesGcmEncrypt := config_AesGcmEncrypt relink_env;
     permissions_RequestMethodsToScopes := permissions_RequestMethodsToScopes relink_env;
     answer := answer relink_env |}.

(** The provider is unreachable after the code exchange. *)
Definition offline_env : Env :=
  example_env (time.FromUnix 1000) (Ok hour_token) (Err (unavailable "oauth2"))
    (Err (unavailable "http")).

(** An event of the Lightning client itself, and a hub that does not relay
    events. *)
Definition internal_event : Event :=
  {| EventName := "nwc_lnclient_channel_opened"; EventProperties := PropsNil |}.

Definition silent_env : Env :=
  {| AlbyAPIURL := AlbyAPIURL relay_env;
     LogEvents := false;
     AutoLinkAlbyAccount := AutoLinkAlbyAccount relay_env;
     versionTag := versionTag relay_env;
     http_NewRequest := http_NewRequest relay_env;
     json_AlbyMe := json_AlbyMe relay_env;
     json_AlbyBalance := json_AlbyBalance relay_env;
     json_ErrorResponse := json_ErrorResponse relay_env;
     json_PayResponse := json_PayResponse relay_env;
     json_CreateNWCNodeResponse := json_CreateNWCNodeResponse relay_env;
     json_autoChannelResponse := json_autoChannelResponse relay_env;
     json_lsps1LSPInfo := json_lsps1LSPInfo relay_env;
     decodepay_Decodepay := decodepay_Decodepay relay_env;
     config_AesGcmEncrypt := config_AesGcmEncrypt relay_env;
     permissions_RequestMethodsToScopes := permissions_RequestMethodsToScopes relay_env;
     answer := answer relay_env |}.

(** A channel backup on a hub whose encrypted mnemonic is ["seed"]; the
    cipher of the examples gives back its plaintext. *)
Definition backup_event : Event :=
  {| EventName := "nwc_backup_channels";
     EventProperties :=
       PropsChannelBackup (Some {| Channels := Ok "[]"; backupJSON := Ok JNull |}) |}.

Definition mnemonic_world : World :=
  example_world
    {| kv := {[ accessTokenKey := "access1"; accessTokenExpiryKey := "4600";
                refreshTokenKey := "refresh1"; "Mnemonic" := "seed" ]};
       faults := ∅ |}.

(** A node on the main network whose peer connections all fail; the LSP
    lists one clear-net URI. *)
Definition own_node : NodeInfo := {| Pubkey := "03cc"; Network := "bitcoin" |}.

Definition unreachable_answer : list AnyE -> forall X, ExtE X -> X :=
  fun h X e =>
    match e in ExtE X return X with
    | LnGetInfo => Ok own_node
    | LnConnectPeer _ _ _ => Some (unavailable "peer")
    | e' => answer relay_env h _ e'
    end.

Definition unreachable_env : Env :=
  {| AlbyAPIURL := AlbyAPIURL relay_env;
     LogEvents := LogEvents relay_env;
     AutoLinkAlbyAccount := AutoLinkAlbyAccount relay_env;
     versionTag := versionTag relay_env;
     http_NewRequest := http_NewRequest relay_env;
     json_AlbyMe := json_AlbyMe relay_env;
     json_AlbyBalance := json_AlbyBalance relay_env;
     json_ErrorResponse := json_ErrorResponse relay_env;
     json_PayResponse := json_PayResponse relay_env;
     json_CreateNWCNodeResponse := json_CreateNWCNodeResponse relay_env;
     json_autoChannelResponse := json_autoChannelResponse relay_env;
     json_lsps1LSPInfo := fun _ => Ok ["02ab@203.0.113.7:9735"];
     decodepay_Decodepay := decodepay_Decodepay relay_env;
     config_AesGcmEncrypt := config_AesGcmEncrypt relay_env;
     permissions_RequestMethodsToScopes := permissions_RequestMethodsToScopes relay_env;
     answer := unreachable_answer |}.

(** Two suggestions as the provider sends them: the first with its type and
    URL under the other names, the second as it should be. *)
Definition sent_suggestions : list ChannelPeerSuggestion :=
  [ {| LspUrl := ""; LspType := ""; BrokenLspUrl := "https://lsp.example.com";
       BrokenLspType := "LSPS1"; otherFields := JStr "first" |};
    {| LspUrl := "https://other.example.com"; LspType := "Flow 2.0"; BrokenLspUrl := "";
       BrokenLspType := ""; otherFields := JStr "second" |} ].

(** The provider answers every request with the status 500 and the body
    ["1000"]. *)
Definition failing_status_env : Env :=
  example_env (time.FromUnix 1000) (Err (unavailable "oauth2"))
    (Err (unavailable "oauth2")) (Ok {| StatusCode := 500; RespBody := Ok "1000" |}).

(** A shared wallet of 1000 sats on a hub that can make invoices. *)
Definition paying_answer : list AnyE -> forall X, ExtE X -> X :=
  fun h X e =>
    match e in ExtE X return X with
    | MakeInvoice _ _ _ => Ok example_transaction
    | e' => answer (drain_env "1000") h _ e'
    end.

Definition paying_env : Env :=
  {| AlbyAPIURL := AlbyAPIURL relay_env;
     LogEvents := LogEvents relay_env;
     AutoLinkAlbyAccount := AutoLinkAlbyAccount relay_env;
     versionTag := versionTag relay_env;
     http_NewRequest := http_NewRequest relay_env;
     json_AlbyMe := json_AlbyMe relay_env;
     json_AlbyBalance := json_AlbyBalance relay_env;
     json_ErrorResponse := json_ErrorResponse relay_env;
     json_PayResponse := json_PayResponse relay_env;
     json_CreateNWCNodeResponse := json_CreateNWCNodeResponse relay_env;
     json_autoChannelResponse := json_autoChannelResponse relay_env;
     json_lsps1LSPInfo := json_lsps1LSPInfo relay_env;
     decodepay_Decodepay := decodepay_Decodepay relay_env;
     config_AesGcmEncrypt := config_AesGcmEncrypt relay_env;
     permissions_RequestMethodsToScopes := permissions_RequestMethodsToScopes relay_env;
     answer := paying_answer |}.

(** An account whose lightning address is its identifier at the provider. *)
Definition address_env : Env :=
  {| AlbyAPIURL := AlbyAPIURL relink_env;
     LogEvents := LogEvents relink_env;
     AutoLinkAlbyAccount := AutoLinkAlbyAccount relink_env;
     versionTag := versionTag relink_env;
     http_NewRequest := http_NewRequest relink_env;
     json_AlbyMe := fun body =>
       Ok {| Identifier := body; LightningAddress := body +:+ "@getalby.com" |};
     json_AlbyBalance := json_AlbyBalance relink_env;
     json_ErrorResponse := json_ErrorResponse relink_env;
     json_PayResponse := json_PayResponse relink_env;
     json_CreateNWCNodeResponse := json_CreateNWCNodeResponse relink_env;
     json_autoChannelResponse := json_autoChannelResponse relink_env;
     json_lsps1LSPInfo := json_lsps1LSPInfo relink_env;
     decodepay_Decodepay := decodepay_Decodepay relink_env;
     config_AesGcmEncrypt := config_AesGcmEncrypt relink_env;
     permissions_RequestMethodsToScopes := permissions_RequestMethodsToScopes relink_env;
     answer := answer relink_env |}.

(** An LSP whose auto-channel response carries the invoice [invoice] (its
    text reads as the millisatoshi amount) and the fee [fee]. *)
Definition invoice_response (invoice fee : string) : autoChannelResponse :=
  {| LspBalanceSat := "100000";
     Payment := Some {| bolt11_Invoice := invoice; FeeTotalSat := fee |} |}.

Definition invoice_env (invoice fee : string) : Env :=
  {| AlbyAPIURL := AlbyAPIURL relay_env;
     LogEvents := LogEvents relay_env;
     AutoLinkAlbyAccount := AutoLinkAlbyAccount relay_env;
     versionTag := versionTag relay_env;
     http_NewRequest := http_NewRequest relay_env;
     json_AlbyMe := json_AlbyMe relay_env;
     json_AlbyBalance := json_AlbyBalance relay_env;
     json_ErrorResponse := json_ErrorResponse relay_env;
     json_PayResponse := json_PayResponse relay_env;
     json_CreateNWCNodeResponse := json_CreateNWCNodeResponse relay_env;
     json_autoChannelResponse := fun _ => Ok (invoice_response invoice fee);
     json_lsps1LSPInfo := json_lsps1LSPInfo relay_env;
     decodepay_Decodepay := decodepay_Decodepay relay_env;
     config_AesGcmEncrypt := config_AesGcmEncrypt relay_env;
     permissions_RequestMethodsToScopes := permissions_RequestMethodsToScopes relay_env;
     answer := answer relay_env |}.

(** Two goroutines of different kinds in one pool: a token fetch and an
    authorization callback, each returning its own result. *)
Definition fetch_thread : Prog (result (option Token) + option error) :=
  r ← fetchUserToken; Ret (inl r).

Definition callback_thread (env : Env) (code : string)
    : Prog (result (option Token) + option error) :=
  err ← CallbackHandler env code; Ret (inr err).

(** A payment made at second 100 that failed for want of a route; its
    record holds a preimage and an amount that must not leave the host. *)
Definition failed_transaction : Transaction :=
  {| PaymentHash := "hash2"; PaymentRequest := "lnbc2"; FailureReason := "no route";
     CreatedAt := time.FromUnix 100; SettledAt := None;
     txJSON := Ok (JObj [("PaymentHash", JStr "hash2"); ("Preimage", JStr "secret");
                         ("AmountMsat", JNum 21000)]) |}.

Definition failed_event : Event :=
  {| EventName := "nwc_payment_failed";
     EventProperties := PropsTransaction (Some failed_transaction) |}.

Definition failed_request : Request :=
  {| Method := "POST"; URL := "https://api.getalby.com/events";
     Header := [("Content-Type", "application/json"); ("User-Agent", "AlbyHub/v1")];
     ReqBody := EventBody "nwc_payment_failed"
                  {[ "payment_hash" := JStr "hash2"; "reason" := JStr "no route";
                     "version" := JStr "1" ]} |}.

(** A payment whose record says it was settled at second 100 and created at
    second 130. *)
Definition reversed_transaction : Transaction :=
  {| PaymentHash := "hash3"; PaymentRequest := "lnbc3"; FailureReason := "";
     CreatedAt := time.FromUnix 130; SettledAt := Some (time.FromUnix 100);
     txJSON := Ok (JObj [("PaymentHash", JStr "hash3")]) |}.

Definition reversed_event : Event :=
  {| EventName := "nwc_payment_sent";
     EventProperties := PropsTransaction (Some reversed_transaction) |}.

Definition reversed_request : Request :=
  {| Method := "POST"; URL := "https://api.getalby.com/events";
     Header := [("Content-Type", "application/json"); ("User-Agent", "AlbyHub/v1")];
     ReqBody := EventBody "nwc_payment_sent"
                  {[ "payment_hash" := JStr "hash3"; "duration" := JNum 18446744073709552000;
                     "version" := JStr "1" ]} |}.

(** * Properties *)

(** ** Machine integers *)

Lemma wrap_uint64_small z : 0 <= z < 2 ^ 64 -> wrap_uint64 z = z.
Proof. intros H. unfold wrap_uint64. apply Z.mod_small. exact H. Qed.

Lemma wrap_int64_small z : in_int64 z -> wrap_int64 z = z.
Proof.
  unfold in_int64, wrap_int64. intros H.
  rewrite Z.mod_small by lia. lia.
Qed.

Lemma wrap_int64_range z : in_int64 (wrap_int64 z).
Proof.
  unfold in_int64, wrap_int64.
  pose proof (Z.mod_pos_bound (z + 2 ^ 63) (2 ^ 64)) as H. lia.
Qed.

(** ** strconv: printing a number and reading it back *)

Module strconv_facts.
Import strconv.

Lemma digitChar_spec d :
  0 <= d < 10 -> isDigit (digitChar d) = true /\ digitVal (digitChar d) = d.
Proof.
  intros H.
  assert (d = 0 \/ d = 1 \/ d = 2 \/ d = 3 \/ d = 4 \/ d = 5 \/ d = 6 \/
          d = 7 \/ d = 8 \/ d = 9) as Hd by lia.
  repeat (destruct Hd as [-> | Hd]; [split; reflexivity |]).
  subst d. split; reflexivity.
Qed.

Lemma digitChar_not_sign d :
  0 <= d < 10 ->
  Ascii.eqb (digitChar d) "+" = false /\ Ascii.eqb (digitChar d) "-" = false.
Proof.
  intros H.
  assert (d = 0 \/ d = 1 \/ d = 2 \/ d = 3 \/ d = 4 \/ d = 5 \/ d = 6 \/
          d = 7 \/ d = 8 \/ d = 9) as Hd by lia.
  repeat (destruct Hd as [-> | Hd]; [split; reflexivity |]).
  subst d. split; reflexivity.
Qed.

(** One digit read after the value [n]. *)
Lemma parseUintLoop_digit d s n :
  0 <= d < 10 -> 0 <= n -> n * 10 + d <= maxUint64 ->
  parseUintLoop (String (digitChar d) s) n = parseUintLoop s (n * 10 + d).
Proof.
  intros Hd Hn Hmax. cbn [parseUintLoop].
  destruct (digitChar_spec d Hd) as [-> ->].
  assert (maxUint64 = 18446744073709551615) as Emax by reflexivity.
  assert (cutoff = 1844674407370955162) as Ecut by reflexivity.
  destruct (Z.leb_spec cutoff n); [lia |].
  rewrite (wrap_uint64_small (n * 10)) by (change (2 ^ 64) with 18446744073709551616; lia).
  rewrite wrap_uint64_small by (change (2 ^ 64) with 18446744073709551616; lia).
  destruct (Z.ltb_spec (n * 10 + d) (n * 10)); [lia |].
  destruct (Z.ltb_spec maxUint64 (n * 10 + d)); [lia |].
  reflexivity.
Qed.

(** The digits written by [formatBits] are read back as the number. *)
Lemma parseUintLoop_formatBits fuel : forall u acc,
  0 <= u <= maxUint64 -> u < 2 ^ Z.of_nat fuel ->
  parseUintLoop (formatBits fuel u acc) 0 = parseUintLoop acc u.
Proof.
  induction fuel as [| fuel IH]; intros u acc Hu Hfuel.
  - change (2 ^ Z.of_nat 0) with 1 in Hfuel.
    assert (u = 0) as -> by lia. reflexivity.
  - cbn [formatBits].
    pose proof (Z.mod_pos_bound u 10 ltac:(lia)) as Hmod.
    pose proof (Z.div_mod u 10 ltac:(lia)) as Hdiv.
    destruct (Z.ltb_spec u 10) as [Hlt | Hge].
    + rewrite Z.mod_small by lia.
      rewrite parseUintLoop_digit by lia.
      f_equal.
    + rewrite IH.
      * rewrite parseUintLoop_digit by lia. f_equal. lia.
      * lia.
      * rewrite Nat2Z.inj_succ, Z.pow_succ_r in Hfuel by lia. lia.
Qed.

(** With fuel left, the text starts with a digit. *)
Lemma formatBits_head fuel : forall u acc,
  0 <= u ->
  exists d s, 0 <= d < 10 /\ formatBits (S fuel) u acc = String (digitChar d) s.
Proof.
  induction fuel as [| fuel IH]; intros u acc Hu.
  - exists (u mod 10). cbn [formatBits].
    pose proof (Z.mod_pos_bound u 10 ltac:(lia)).
    destruct (u <? 10); eauto.
  - pose proof (Z.mod_pos_bound u 10 ltac:(lia)).
    change (formatBits (S (S fuel)) u acc) with
      (let acc' := String (digitChar (u mod 10)) acc in
       if u <? 10 then acc' else formatBits (S fuel) (u / 10) acc').
    cbv zeta. destruct (u <? 10).
    + eauto.
    + apply IH. apply Z.div_pos; lia.
Qed.

Lemma log2_fuel u : 0 <= u -> u < 2 ^ Z.of_nat (S (Z.to_nat (Z.log2 u))).
Proof.
  intros Hu. rewrite Nat2Z.inj_succ, Z2Nat.id by apply Z.log2_nonneg.
  destruct (Z.eq_dec u 0) as [-> | Hne]; [reflexivity |].
  apply Z.log2_spec. lia.
Qed.

Lemma parseUintKind_digits u :
  0 <= u <= maxUint64 ->
  parseUintKind (formatBits (S (Z.to_nat (Z.log2 u))) u "") = inr u.
Proof.
  intros Hu.
  destruct (formatBits_head (Z.to_nat (Z.log2 u)) u "" ltac:(lia)) as (d & s & Hd & E).
  unfold parseUintKind. rewrite E. cbv beta iota. rewrite <- E.
  rewrite parseUintLoop_formatBits; [reflexivity | lia | apply log2_fuel; lia].
Qed.

(** [ParseInt] undoes [FormatInt] on every [int64]. *)
Lemma ParseInt_FormatInt i : in_int64 i -> ParseInt (FormatInt i) = Ok i.
Proof.
  unfold in_int64. intros Hi.
  assert (maxUint64 = 18446744073709551615) as Emax by reflexivity.
  change (2 ^ 63) with 9223372036854775808 in Hi.
  unfold ParseInt, FormatInt, parseIntKind.
  destruct (Z.ltb_spec i 0) as [Hneg | Hpos].
  - cbn [Ascii.eqb Bool.eqb orb]. cbv iota.
    change (Ascii.eqb "-" "+") with false. change (Ascii.eqb "-" "-") with true.
    cbn [orb]. rewrite parseUintKind_digits by lia.
    cbn [negb andb].
    change (2 ^ 63) with 9223372036854775808.
    destruct (Z.ltb_spec 9223372036854775808 (Z.abs i)); [lia |].
    destruct (Z.eq_dec i (-9223372036854775808)) as [-> | Hne]; [reflexivity |].
    rewrite (wrap_int64_small (Z.abs i))
      by (unfold in_int64; change (2 ^ 63) with 9223372036854775808; lia).
    rewrite wrap_int64_small
      by (unfold in_int64; change (2 ^ 63) with 9223372036854775808; lia).
    f_equal. lia.
  - destruct (formatBits_head (Z.to_nat (Z.log2 (Z.abs i))) (Z.abs i) "" ltac:(lia))
      as (d & s & Hd & E).
    rewrite E. destruct (digitChar_not_sign d Hd) as [-> ->].
    cbn [orb]. rewrite <- E. rewrite parseUintKind_digits by lia.
    cbn [negb andb].
    change (2 ^ 63) with 9223372036854775808.
    destruct (Z.leb_spec 9223372036854775808 (Z.abs i)); [lia |].
    rewrite wrap_int64_small
      by (unfold in_int64; change (2 ^ 63) with 9223372036854775808; lia).
    f_equal. lia.
Qed.

End strconv_facts.

(** ** time: Unix seconds and instants *)

Lemma wrap_int64_add_l a c : wrap_int64 (wrap_int64 a + c) = wrap_int64 (a + c).
Proof.
  unfold wrap_int64. f_equal.
  replace ((a + 2 ^ 63) mod 2 ^ 64 - 2 ^ 63 + c + 2 ^ 63)
    with ((a + 2 ^ 63) mod 2 ^ 64 + c) by lia.
  rewrite Zplus_mod_idemp_l. f_equal. lia.
Qed.

Lemma ParseInt_in_int64 s n : strconv.ParseInt s = Ok n -> in_int64 n.
Proof.
  unfold strconv.ParseInt, strconv.parseIntKind.
  destruct s as [| c rest]; [discriminate |].
  destruct (strconv.parseUintKind _) as [[] | un]; try discriminate;
    repeat match goal with
           | |- context [if ?b then _ else _] => destruct b
           end;
    try discriminate; intros H; injection H as <-; apply wrap_int64_range.
Qed.

Lemma Unix_in_int64 t : in_int64 (time.Unix t).
Proof. apply wrap_int64_range. Qed.

(** Up to [maxUnix] the instant of a Unix second is that second. *)
Lemma FromUnix_exact sec :
  in_int64 sec -> sec <= time.maxUnix -> time.FromUnix sec = sec * time.Second.
Proof.
  unfold in_int64, time.maxUnix, time.FromUnix, time.unixToInternal. intros Hsec Hmax.
  rewrite wrap_int64_small by (unfold in_int64; lia). f_equal. lia.
Qed.

(** Beyond, the instant is 2^64 seconds earlier. *)
Lemma FromUnix_wrapped sec :
  in_int64 sec -> time.maxUnix < sec ->
  time.FromUnix sec = (sec - 2 ^ 64) * time.Second.
Proof.
  unfold in_int64, time.maxUnix, time.FromUnix, time.unixToInternal. intros Hsec Hmax.
  f_equal. unfold wrap_int64.
  change (2 ^ 63) with 9223372036854775808 in *.
  change (2 ^ 64) with 18446744073709551616 in *.
  rewrite <- (Z.mod_unique (sec + 62135596800 + 9223372036854775808) 18446744073709551616 1
                (sec + 62135596800 + 9223372036854775808 - 18446744073709551616));
    lia.
Qed.

Lemma FromUnix_le sec : in_int64 sec -> time.FromUnix sec <= sec * time.Second.
Proof.
  intros Hsec. destruct (Z_le_gt_dec sec time.maxUnix) as [Hle | Hgt].
  - rewrite FromUnix_exact by assumption. lia.
  - rewrite FromUnix_wrapped by (assumption || lia).
    unfold time.Second. change (2 ^ 64) with 18446744073709551616. lia.
Qed.

Lemma Unix_FromUnix sec : in_int64 sec -> time.Unix (time.FromUnix sec) = sec.
Proof.
  intros Hsec. unfold time.Unix, time.FromUnix.
  rewrite Z.div_mul by (unfold time.Second; lia).
  replace (wrap_int64 (sec + time.unixToInternal) - time.unixToInternal)
    with (wrap_int64 (sec + time.unixToInternal) + - time.unixToInternal) by lia.
  rewrite wrap_int64_add_l.
  replace (sec + time.unixToInternal + - time.unixToInternal) with sec by lia.
  apply wrap_int64_small. exact Hsec.
Qed.

(** ** Running programs *)

Arguments Config_Get : simpl never.
Arguments strconv.ParseInt : simpl never.
Arguments strconv.ParseUint : simpl never.
Arguments strconv.FormatInt : simpl never.
Arguments time.After : simpl never.
Arguments time.Unix : simpl never.

Ltac prog_simpl :=
  cbn [run bind mbind Prog_bind mret Prog_ret vis ext handle record
       cfg tokenMutex trace logDebug logInfo logError recover deref].

Lemma run_bind {A B} env (p : Prog A) (f : A -> Prog B) w :
  run env (p ≫= f) w =
  match run env p w with
  | Returns a w' => run env (f a) w'
  | Panics v w' => Panics v w'
  | Stuck w' => Stuck w'
  end.
Proof.
  revert w. induction p as [a | X e k IH | v]; intros w; [reflexivity | | reflexivity].
  change (k ≫= f) with (fun x => k x ≫= f) in IH.
  change (Vis e k ≫= f) with (Vis e (fun x => k x ≫= f)).
  cbn [run]. destruct (handle env w e) as [[x w'] |]; [apply IH | reflexivity].
Qed.

(** A recovered program never panics. *)
Lemma run_recover {A} env (p : Prog A) (handler : string -> Prog A) w :
  run env (recover p handler) w =
  match run env p w with
  | Returns a w' => Returns a w'
  | Panics v w' => run env (handler v) w'
  | Stuck w' => Stuck w'
  end.
Proof.
  revert w. induction p as [a | X e k IH | v]; intros w; [reflexivity | | reflexivity].
  cbn [recover run]. destruct (handle env w e) as [[x w'] |]; [apply IH | reflexivity].
Qed.

(** ** The config store *)

Lemma Config_Get_no_fault c key d v : Config_Get c key d = Ok v -> faults c !! key = None.
Proof. unfold Config_Get. destruct (faults c !! key); [discriminate | reflexivity]. Qed.

Lemma Config_Get_SetUpdate_eq c key d v v' :
  Config_Get c key d = Ok v -> Config_Get (Config_SetUpdate c key v') key d = Ok v'.
Proof.
  intros H. apply Config_Get_no_fault in H.
  unfold Config_Get, Config_SetUpdate. cbn [faults kv].
  rewrite H, lookup_insert_eq. reflexivity.
Qed.

Lemma Config_Get_SetUpdate_ne c key key' d v' :
  key <> key' -> Config_Get (Config_SetUpdate c key v') key' d = Config_Get c key' d.
Proof.
  intros H. unfold Config_Get, Config_SetUpdate. cbn [faults kv].
  rewrite lookup_insert_ne by exact H. reflexivity.
Qed.

Lemma saved_session c access expiry refresh token :
  stored_session c access expiry refresh ->
  stored_session (saved c token) (AccessToken token)
    (strconv.FormatInt (time.Unix (Expiry token))) (RefreshToken token).
Proof.
  intros (Ha & He & Hr). unfold stored_session, saved. repeat split.
  - rewrite Config_Get_SetUpdate_ne by discriminate.
    eapply Config_Get_SetUpdate_eq. rewrite Config_Get_SetUpdate_ne by discriminate. exact Ha.
  - rewrite !Config_Get_SetUpdate_ne by discriminate.
    eapply Config_Get_SetUpdate_eq. exact He.
  - eapply Config_Get_SetUpdate_eq.
    rewrite !Config_Get_SetUpdate_ne by discriminate. exact Hr.
Qed.

(** ** The token cache, run alone *)

Section FetchUserToken.

Variable env : Env.
Variable w : World.
Variables access expiry refresh : string.
Variable expiry64 : Z.

Hypothesis mutex_free : tokenMutex w = false.
Hypothesis session : stored_session (cfg w) access expiry refresh.
Hypothesis access_set : access <> "".
Hypothesis refresh_set : refresh <> "".
Hypothesis expiry_parsed : strconv.ParseInt expiry = Ok expiry64.

Let cached := session_of access refresh expiry64.
Let now := clock env (fetch_history w).

Lemma expiry_set : expiry <> "".
Proof. intros ->. discriminate expiry_parsed. Qed.

(** The common start: lock, three reads, the clock. *)
Lemma fetchUserToken_start :
  run env fetchUserToken w =
  run env
    ((if time.After (Expiry cached) (time.Add now (20 * time.Second)) then
        logDebug "Using existing Alby OAuth token";;
        Ret (Ok (Some cached))
      else
        r ← ext (OAuthTokenSourceToken cached);
        match r with
        | Err e =>
            logError "Failed to refresh existing token" (Some e);;
            Ret (Err e)
        | Ok newToken =>
            saveToken newToken;;
            Ret (Ok (Some newToken))
        end) ≫= fun r => vis MutexUnlock;; Ret r)
    {| cfg := cfg w; tokenMutex := true;
       trace := anyE (Ext TimeNow) :: fetch_history w |}.
Proof.
  destruct session as (Ha & He & Hr).
  unfold fetchUserToken, fetchUserToken_locked.
  prog_simpl. rewrite mutex_free. prog_simpl.
  rewrite Ha. prog_simpl. rewrite decide_False by exact access_set.
  prog_simpl. rewrite He. prog_simpl. rewrite decide_False by exact expiry_set.
  rewrite expiry_parsed. prog_simpl. rewrite Hr. prog_simpl.
  rewrite decide_False by exact refresh_set. prog_simpl.
  reflexivity.
Qed.

(** More than 20 seconds left: the cached session, nothing else. *)
Lemma fetchUserToken_cached :
  time.FromUnix expiry64 > now + 20 * time.Second ->
  run env fetchUserToken w =
  Returns (Ok (Some cached))
    {| cfg := cfg w; tokenMutex := false;
       trace := anyE MutexUnlock ::
                anyE (Log LDebug "Using existing Alby OAuth token" None) ::
                anyE (Ext TimeNow) :: fetch_history w |}.
Proof.
  intros Hfresh. rewrite fetchUserToken_start.
  unfold time.After, time.Add. cbn [Expiry cached session_of].
  destruct (Z.ltb_spec (now + 20 * time.Second) (time.FromUnix expiry64)); [| lia].
  reflexivity.
Qed.

(** At most 20 seconds left and the exchange succeeds. *)
Lemma fetchUserToken_refreshed newToken :
  time.FromUnix expiry64 <= now + 20 * time.Second ->
  refresh_answer env (anyE (Ext TimeNow) :: fetch_history w) cached = Ok newToken ->
  run env fetchUserToken w =
  Returns (Ok (Some newToken))
    {| cfg := saved (cfg w) newToken; tokenMutex := false;
       trace := anyE MutexUnlock ::
                anyE (CfgSetUpdate refreshTokenKey (RefreshToken newToken)) ::
                anyE (CfgSetUpdate accessTokenKey (AccessToken newToken)) ::
                anyE (CfgSetUpdate accessTokenExpiryKey
                        (strconv.FormatInt (time.Unix (Expiry newToken)))) ::
                anyE (Ext (OAuthTokenSourceToken cached)) ::
                anyE (Ext TimeNow) :: fetch_history w |}.
Proof.
  intros Hstale Hanswer. rewrite fetchUserToken_start.
  unfold time.After, time.Add. cbn [Expiry cached session_of].
  destruct (Z.ltb_spec (now + 20 * time.Second) (time.FromUnix expiry64)); [lia |].
  unfold refresh_answer in Hanswer. prog_simpl. fold cached.
  rewrite Hanswer. reflexivity.
Qed.

(** At most 20 seconds left and the exchange fails: the error, and the
    stale session stays. *)
Lemma fetchUserToken_refresh_failed e :
  time.FromUnix expiry64 <= now + 20 * time.Second ->
  refresh_answer env (anyE (Ext TimeNow) :: fetch_history w) cached = Err e ->
  run env fetchUserToken w =
  Returns (Err e)
    {| cfg := cfg w; tokenMutex := false;
       trace := anyE MutexUnlock ::
                anyE (Log LError "Failed to refresh existing token" (Some e)) ::
                anyE (Ext (OAuthTokenSourceToken cached)) ::
                anyE (Ext TimeNow) :: fetch_history w |}.
Proof.
  intros Hstale Hanswer. rewrite fetchUserToken_start.
  unfold time.After, time.Add. cbn [Expiry cached session_of].
  destruct (Z.ltb_spec (now + 20 * time.Second) (time.FromUnix expiry64)); [lia |].
  unfold refresh_answer in Hanswer. prog_simpl. fold cached.
  rewrite Hanswer. reflexivity.
Qed.

End FetchUserToken.

(** ** Orderly programs run to their end *)

Lemma orderly_weaken {A} (W W' : string -> Prop) held (p : Prog A) :
  (forall key, W key -> W' key) -> orderly W held p -> orderly W' held p.
Proof. intros HW H. induction H; constructor; auto. Qed.

Lemma orderly_bind {A B} W held (p : Prog A) (f : A -> Prog B) :
  orderly W held p -> (forall a, orderly W false (f a)) -> orderly W held (p ≫= f).
Proof.
  intros Hp Hf. induction Hp as [a | v | k _ IH | k _ IH | held key k _ IH
    | held key value k HW _ IH | held lvl msg err k _ IH | held X e k _ IH].
  - apply Hf.
  - constructor.
  - apply orderly_lock. exact IH.
  - apply orderly_unlock. exact IH.
  - apply orderly_cfg_get. exact IH.
  - apply orderly_cfg_set; [exact HW | exact IH].
  - apply orderly_log. exact IH.
  - apply orderly_ext. exact IH.
Qed.

Lemma orderly_recover {A} W held (p : Prog A) (handler : string -> Prog A) :
  orderly W held p -> (forall v, orderly W false (handler v)) ->
  orderly W held (recover p handler).
Proof.
  intros Hp Hh. induction Hp; cbn [recover]; try (constructor; auto; fail).
  apply Hh.
Qed.

(** An orderly program started with the mutex as it expects it is never
    stuck; it leaves the mutex free, the faults as they were, and every key
    outside [W] as it was. *)
Lemma orderly_run {A} env W held (p : Prog A) :
  orderly W held p -> forall w, tokenMutex w = held ->
  run env p w <> Stuck (final_world (run env p w)) /\
  tokenMutex (final_world (run env p w)) = false /\
  faults (cfg (final_world (run env p w))) = faults (cfg w) /\
  (forall key, ~ W key ->
     kv (cfg (final_world (run env p w))) !! key = kv (cfg w) !! key) /\
  exists tr, trace (final_world (run env p w)) = (tr ++ trace w)%list.
Proof.
  induction 1 as [a | v | k _ IH | k _ IH | held key k _ IH
    | held key value k HW _ IH | held lvl msg err k _ IH | held X e k _ IH];
    intros w Hmutex; cbn [run handle final_world].
  - repeat split; try done. by exists [].
  - repeat split; try done. by exists [].
  - rewrite Hmutex.
    destruct (IH {| cfg := cfg w; tokenMutex := true;
                    trace := anyE MutexLock :: trace w |} eq_refl)
      as (H1 & H2 & H3 & H4 & tr & H5).
    repeat split; try done. exists (tr ++ [anyE MutexLock])%list.
    rewrite H5. cbn [trace]. by rewrite <- app_assoc.
  - rewrite Hmutex.
    destruct (IH {| cfg := cfg w; tokenMutex := false;
                    trace := anyE MutexUnlock :: trace w |} eq_refl)
      as (H1 & H2 & H3 & H4 & tr & H5).
    repeat split; try done. exists (tr ++ [anyE MutexUnlock])%list.
    rewrite H5. cbn [trace]. by rewrite <- app_assoc.
  - destruct (IH (Config_Get (cfg w) key "") (record w (CfgGet key)) Hmutex)
      as (H1 & H2 & H3 & H4 & tr & H5).
    repeat split; try done. exists (tr ++ [anyE (CfgGet key)])%list.
    rewrite H5. cbn [trace record]. by rewrite <- app_assoc.
  - destruct (IH tt {| cfg := Config_SetUpdate (cfg w) key value;
                       tokenMutex := tokenMutex w;
                       trace := anyE (CfgSetUpdate key value) :: trace w |} Hmutex)
      as (H1 & H2 & H3 & H4 & tr & H5).
    repeat split; try done.
    + intros key' Hkey'. rewrite H4 by exact Hkey'. cbn [cfg Config_SetUpdate kv].
      apply lookup_insert_ne. intros ->. contradiction.
    + exists (tr ++ [anyE (CfgSetUpdate key value)])%list.
      rewrite H5. cbn [trace]. by rewrite <- app_assoc.
  - destruct (IH tt (record w (Log lvl msg err)) Hmutex)
      as (H1 & H2 & H3 & H4 & tr & H5).
    repeat split; try done. exists (tr ++ [anyE (Log lvl msg err)])%list.
    rewrite H5. cbn [trace record]. by rewrite <- app_assoc.
  - destruct (IH (answer env (trace w) X e) (record w (Ext e)) Hmutex)
      as (H1 & H2 & H3 & H4 & tr & H5).
    repeat split; try done. exists (tr ++ [anyE (Ext e)])%list.
    rewrite H5. cbn [trace record]. by rewrite <- app_assoc.
Qed.

(** Structural proofs that a program is orderly. *)
Create HintDb orderly.

Ltac orderly_step :=
  match goal with
  | |- orderly _ _ (Ret _) => apply orderly_ret
  | |- orderly _ _ (Panic _) => apply orderly_panic
  | |- orderly _ _ (Vis MutexLock _) => apply orderly_lock
  | |- orderly _ _ (Vis MutexUnlock _) => apply orderly_unlock
  | |- orderly _ _ (Vis (CfgGet _) _) => apply orderly_cfg_get; intros ?
  | |- orderly _ _ (Vis (CfgSetUpdate _ _) _) =>
      apply orderly_cfg_set;
      [unfold account_key, session_key; auto 6 | intros ?]
  | |- orderly _ _ (Vis (Log _ _ _) _) => apply orderly_log; intros ?
  | |- orderly _ _ (Vis (Ext _) _) => apply orderly_ext; intros ?
  | |- orderly _ _ ?p =>
      match p with
      | context [match ?x with _ => _ end] => destruct x
      end
  | |- orderly _ _ (bind _ _) => apply orderly_bind; [| intros ?]
  | |- orderly _ _ (_ ≫= _) => apply orderly_bind; [| intros ?]
  | |- orderly _ _ _ => solve [auto with orderly]
  end.

Ltac orderly_auto :=
  repeat (cbv delta [vis ext logDebug logInfo logError deref assertTransaction] beta;
          cbn [bind mbind Prog_bind mret Prog_ret];
          orderly_step).

Lemma saveToken_orderly token : orderly account_key false (saveToken token).
Proof. unfold saveToken. orderly_auto. Qed.
#[export] Hint Resolve saveToken_orderly : orderly.

Lemma fetchUserToken_locked_orderly : orderly session_key true
  (fetchUserToken_locked ≫= fun r => vis MutexUnlock;; Ret r).
Proof. unfold fetchUserToken_locked, saveToken. orderly_auto. Qed.

Lemma fetchUserToken_orderly : orderly session_key false fetchUserToken.
Proof.
  unfold fetchUserToken. cbn [mbind Prog_bind bind vis].
  apply orderly_lock. apply fetchUserToken_locked_orderly.
Qed.

Lemma fetchUserToken_orderly_account : orderly account_key false fetchUserToken.
Proof.
  eapply orderly_weaken; [| apply fetchUserToken_orderly].
  unfold account_key. auto.
Qed.
#[export] Hint Resolve fetchUserToken_orderly_account : orderly.
(** ** The expiry buffer of the token cache *)

(** C3 (amended).  A stored session with non-empty access and refresh
    tokens, fetched while the mutex is free, whose stored expiry reads as a
    Unix second of at most [2^63 - 1 - 62135596800] (up to there
    [time.Unix] does not wrap): the cached session, its expiry that second,
    comes back with no refresh call and the store untouched if and only if
    the stored expiry is more than 20 seconds after the clock reading.
    Otherwise exactly one refresh exchange is made for the cached session;
    when it yields a new token, the new expiry, access token and refresh
    token are in the store, the expiry reads back as the second it was
    written from, and the new token is returned; when it fails, its error
    is returned and the store is untouched. *)
Theorem fetchUserToken_expiry_buffer
    (env : Env) (w : World) (access expiry refresh : string) (expiry64 : Z) :
  tokenMutex w = false ->
  stored_session (cfg w) access expiry refresh ->
  access <> "" -> refresh <> "" ->
  strconv.ParseInt expiry = Ok expiry64 ->
  expiry64 <= time.maxUnix ->
  let cached := session_of access refresh expiry64 in
  let now := clock env (fetch_history w) in
  let fresh := expiry64 * time.Second > now + 20 * time.Second in
  Expiry cached = expiry64 * time.Second /\
  (fresh <->
   exists w', run env fetchUserToken w = Returns (Ok (Some cached)) w' /\
              refresh_calls (trace w') = refresh_calls (trace w) /\
              cfg w' = cfg w) /\
  (~ fresh ->
   exists r w',
     run env fetchUserToken w = Returns r w' /\
     refresh_calls (trace w') = S (refresh_calls (trace w)) /\
     In (anyE (Ext (OAuthTokenSourceToken cached))) (trace w') /\
     match refresh_answer env (anyE (Ext TimeNow) :: fetch_history w) cached with
     | Ok newToken =>
         r = Ok (Some newToken) /\
         cfg w' = saved (cfg w) newToken /\
         stored_session (cfg w') (AccessToken newToken)
           (strconv.FormatInt (time.Unix (Expiry newToken))) (RefreshToken newToken) /\
         strconv.ParseInt (strconv.FormatInt (time.Unix (Expiry newToken)))
         = Ok (time.Unix (Expiry newToken))
     | Err e => r = Err e /\ cfg w' = cfg w
     end).
Proof.
  intros Hmutex Hsession Haccess Hrefresh Hparse Hmax cached now fresh.
  assert (time.FromUnix expiry64 = expiry64 * time.Second) as Hinstant
    by (apply FromUnix_exact; [eapply ParseInt_in_int64; exact Hparse | exact Hmax]).
  split; [exact Hinstant |].
  assert (~ fresh ->
    exists r w',
     run env fetchUserToken w = Returns r w' /\
     refresh_calls (trace w') = S (refresh_calls (trace w)) /\
     In (anyE (Ext (OAuthTokenSourceToken cached))) (trace w') /\
     match refresh_answer env (anyE (Ext TimeNow) :: fetch_history w) cached with
     | Ok newToken =>
         r = Ok (Some newToken) /\
         cfg w' = saved (cfg w) newToken /\
         stored_session (cfg w') (AccessToken newToken)
           (strconv.FormatInt (time.Unix (Expiry newToken))) (RefreshToken newToken) /\
         strconv.ParseInt (strconv.FormatInt (time.Unix (Expiry newToken)))
         = Ok (time.Unix (Expiry newToken))
     | Err e => r = Err e /\ cfg w' = cfg w
     end) as Hstale.
  { intros Hnot. assert (time.FromUnix expiry64 <= now + 20 * time.Second) as Hle
      by (rewrite Hinstant; unfold fresh in Hnot; lia).
    destruct (refresh_answer env (anyE (Ext TimeNow) :: fetch_history w) cached)
      as [newToken | e] eqn:Hanswer.
    - eexists _, _. split.
      + eapply fetchUserToken_refreshed; eassumption.
      + cbn [trace cfg]. split; [reflexivity |]. split; [cbn; tauto |].
        split; [reflexivity |]. split; [reflexivity |].
        split; [eapply saved_session; exact Hsession |].
        apply strconv_facts.ParseInt_FormatInt, Unix_in_int64.
    - eexists _, _. split.
      + eapply fetchUserToken_refresh_failed; eassumption.
      + cbn [trace cfg]. split; [reflexivity |]. split; [cbn; tauto |].
        split; reflexivity. }
  split; [split | exact Hstale].
  - intros Hfresh. eexists. split.
    + eapply fetchUserToken_cached; try eassumption.
      rewrite Hinstant. exact Hfresh.
    + cbn [trace cfg]. split; reflexivity.
  - intros (w' & Hrun & Hcalls & _).
    destruct (Z_gt_le_dec (expiry64 * time.Second) (now + 20 * time.Second)) as [Hgt | Hle];
      [exact Hgt |].
    destruct Hstale as (r & w2 & Hrun2 & Hcalls2 & _); [unfold fresh; lia |].
    rewrite Hrun in Hrun2. injection Hrun2 as _ <-. lia.
Qed.

(** The two examples of C3: a session expiring in 19 seconds is refreshed,
    one expiring in 21 seconds is returned as it is. *)
Lemma fetchUserToken_expiry_buffer_witness :
  (exists w', run buffer_env fetchUserToken (buffer_world "1019")
              = Returns (Ok (Some hour_token)) w' /\
              refresh_calls (trace w') = 1%nat) /\
  (exists w', run buffer_env fetchUserToken (buffer_world "1021")
              = Returns (Ok (Some (session_of "access1" "refresh1" 1021))) w' /\
              refresh_calls (trace w') = 0%nat).
Proof.
  split.
  - destruct (fetchUserToken_expiry_buffer buffer_env (buffer_world "1019")
                "access1" "1019" "refresh1" 1019) as (_ & _ & Hstale).
    + reflexivity.
    + repeat split; vm_compute; reflexivity.
    + discriminate.
    + discriminate.
    + vm_compute; reflexivity.
    + vm_compute. discriminate.
    + destruct Hstale as (r & w' & Hrun & Hcalls & _ & Hnew).
      * vm_compute. discriminate.
      * change (refresh_answer buffer_env
                  (anyE (Ext TimeNow) :: fetch_history (buffer_world "1019"))
                  (session_of "access1" "refresh1" 1019)) with (Ok hour_token) in Hnew.
        destruct Hnew as (-> & _). exists w'. split; [exact Hrun | exact Hcalls].
  - destruct (fetchUserToken_expiry_buffer buffer_env (buffer_world "1021")
                "access1" "1021" "refresh1" 1021) as (_ & [Hfresh _] & _).
    + reflexivity.
    + repeat split; vm_compute; reflexivity.
    + discriminate.
    + discriminate.
    + vm_compute; reflexivity.
    + vm_compute. discriminate.
    + destruct Hfresh as (w' & Hrun & Hcalls & _).
      * vm_compute. reflexivity.
      * exists w'. split; [exact Hrun | exact Hcalls].
Defined.

(** C3 as stated fails.  The stored expiry is the last
    [int64] second, far more than 20 seconds after the clock at second 1000;
    [time.Unix] wraps it to an instant before the year 1, and the session is
    refreshed. *)
Lemma fetchUserToken_far_expiry_refreshed :
  strconv.ParseInt "9223372036854775807" = Ok 9223372036854775807 /\
  9223372036854775807 * time.Second
  > clock buffer_env (fetch_history (buffer_world "9223372036854775807"))
    + 20 * time.Second /\
  exists w',
    run buffer_env fetchUserToken (buffer_world "9223372036854775807")
    = Returns (Ok (Some hour_token)) w' /\
    refresh_calls (trace w') = 1%nat.
Proof.
  split; [vm_compute; reflexivity |].
  split; [vm_compute; reflexivity |].
  eexists. split; vm_compute; reflexivity.
Qed.

(** ** Traces *)

Lemma performed_app {A} (w : World) (o : Outcome A) tr :
  trace (final_world o) = (tr ++ trace w)%list -> performed w o = tr.
Proof.
  intros H. unfold performed. rewrite H, length_app.
  replace (length tr + length (trace w) - length (trace w))%nat with (length tr) by lia.
  apply take_app_length.
Qed.

Lemma fetchUserToken_needs_mutex {A} env w (f : result (option Token) -> Prog A) o :
  run env (fetchUserToken ≫= f) w = o -> tokenMutex w = true -> o = Stuck w.
Proof.
  intros <- Hheld. unfold fetchUserToken. cbn [mbind Prog_bind bind vis run handle].
  rewrite Hheld. reflexivity.
Qed.

Lemma fetchUserToken_returned env w r w' :
  run env fetchUserToken w = Returns r w' ->
  tokenMutex w = false /\ tokenMutex w' = false /\
  faults (cfg w') = faults (cfg w) /\
  (forall key, ~ session_key key -> kv (cfg w') !! key = kv (cfg w) !! key) /\
  exists tr, trace w' = (tr ++ trace w)%list.
Proof.
  intros Hrun.
  assert (tokenMutex w = false) as Hfree.
  { destruct (tokenMutex w) eqn:Hheld; [| reflexivity].
    unfold fetchUserToken in Hrun. cbn [mbind Prog_bind bind vis run handle] in Hrun.
    rewrite Hheld in Hrun. discriminate. }
  split; [exact Hfree |].
  pose proof (orderly_run env _ _ _ fetchUserToken_orderly w Hfree) as H.
  rewrite Hrun in H. cbn [final_world] in H. tauto.
Qed.

(** ** Provisioning when the token fetch fails *)

Section Provisioning.

Variable env : Env.
Variables w w1 : World.
Variable e : error.

Hypothesis fetch_failed : run env fetchUserToken w = Returns (Err e) w1.

Let logged := token_error_logged w1 e.

Lemma logged_trace :
  exists tr, trace logged = (tr ++ trace w)%list.
Proof.
  destruct (fetchUserToken_returned _ _ _ _ fetch_failed) as (_ & _ & _ & _ & tr & Htr).
  exists (anyE (Log LError "Failed to fetch user token" (Some e)) :: tr).
  unfold logged, token_error_logged. cbn [record trace]. rewrite Htr. reflexivity.
Qed.

Lemma create_continues :
  run env (createAlbyAccountNWCNode env) w
  = run env (createAlbyAccountNWCNode_request env None) logged.
Proof.
  unfold createAlbyAccountNWCNode.
  rewrite run_bind, fetch_failed. prog_simpl. reflexivity.
Qed.

Lemma destroy_continues :
  run env (destroyAlbyAccountNWCNode env) w
  = run env (destroyAlbyAccountNWCNode_request env None) logged.
Proof.
  unfold destroyAlbyAccountNWCNode.
  rewrite run_bind, fetch_failed. prog_simpl. reflexivity.
Qed.

Lemma activate_continues :
  run env (activateAlbyAccountNWCNode env) w
  = run env (activateAlbyAccountNWCNode_request env None) logged.
Proof.
  unfold activateAlbyAccountNWCNode.
  rewrite run_bind, fetch_failed. prog_simpl. reflexivity.
Qed.

(** What is in the trace of the world a run ends in has been performed, if
    it is not older than the fetch. *)
Lemma performed_since_logged {A} (o : Outcome A) tr :
  trace (final_world o) = (tr ++ trace logged)%list ->
  forall ev, In ev tr \/ In ev (performed w1 (Returns tt logged)) -> In ev (performed w o).
Proof.
  intros Hfinal ev Hev.
  destruct logged_trace as (tr0 & Htr0).
  erewrite (performed_app w o (tr ++ tr0)).
  - apply in_or_app. destruct Hev as [Hev | Hev]; [left; exact Hev | right].
    unfold performed in Hev. cbn [final_world] in Hev.
    unfold logged, token_error_logged in *. cbn [record trace] in *.
    cbn in Hev.
    replace (S (length (trace w1)) - length (trace w1))%nat with 1%nat in Hev by lia.
    cbn in Hev. destruct Hev as [<- | []].
    destruct tr0 as [| ev0 tr0]; cbn in Htr0.
    + exfalso. destruct (fetchUserToken_returned _ _ _ _ fetch_failed)
        as (_ & _ & _ & _ & tr1 & Htr1).
      rewrite Htr1 in Htr0. apply (f_equal length) in Htr0.
      cbn in Htr0. rewrite length_app in Htr0. lia.
    + injection Htr0 as <- _. left. reflexivity.
  - rewrite Hfinal, Htr0. apply app_assoc.
Qed.

Lemma create_attempted :
  http_NewRequest env "POST" (AlbyAPIURL env +:+ "/internal/nwcs") = None ->
  In (anyE (Ext (HttpDo None None
        (provisioning_request env "POST" "/internal/nwcs"
           (JsonBody (JObj [("wallet_pubkey",
              JStr (answer env (trace logged) string KeysGetNostrPublicKey))]))))))
     (performed w (run env (createAlbyAccountNWCNode env) w)).
Proof.
  intros Hnew. rewrite create_continues.
  unfold createAlbyAccountNWCNode_request, NewRequest. rewrite Hnew.
  prog_simpl.
  match goal with |- context [answer env ?h _ (HttpDo ?t ?o ?r)] =>
    destruct (answer env h _ (HttpDo t o r)) as [resp | err] end; prog_simpl.
  - destruct (300 <=? StatusCode resp); prog_simpl.
    + eapply (performed_since_logged _ [_; _; _]); [reflexivity | left; cbn; tauto].
    + destruct (decodeBody (json_CreateNWCNodeResponse env) resp); prog_simpl;
        (eapply (performed_since_logged _ [_; _; _]); [reflexivity | left; cbn; tauto]).
  - eapply (performed_since_logged _ [_; _; _]); [reflexivity | left; cbn; tauto].
Qed.

Lemma destroy_attempted :
  http_NewRequest env "DELETE" (AlbyAPIURL env +:+ "/internal/nwcs") = None ->
  In (anyE (Ext (HttpDo None None (provisioning_request env "DELETE" "/internal/nwcs" NoBody))))
     (performed w (run env (destroyAlbyAccountNWCNode env) w)).
Proof.
  intros Hnew. rewrite destroy_continues.
  unfold destroyAlbyAccountNWCNode_request, NewRequest. rewrite Hnew.
  prog_simpl.
  match goal with |- context [answer env ?h _ (HttpDo ?t ?o ?r)] =>
    destruct (answer env h _ (HttpDo t o r)) as [resp | err] end; prog_simpl.
  - destruct (300 <=? StatusCode resp); prog_simpl;
      (eapply (performed_since_logged _ [_; _]); [reflexivity | left; cbn; tauto]).
  - eapply (performed_since_logged _ [_; _]); [reflexivity | left; cbn; tauto].
Qed.

Lemma activate_attempted :
  http_NewRequest env "PUT" (AlbyAPIURL env +:+ "/internal/nwcs/activate") = None ->
  In (anyE (Ext (HttpDo None None
        (provisioning_request env "PUT" "/internal/nwcs/activate" NoBody))))
     (performed w (run env (activateAlbyAccountNWCNode env) w)).
Proof.
  intros Hnew. rewrite activate_continues.
  unfold activateAlbyAccountNWCNode_request, NewRequest. rewrite Hnew.
  prog_simpl.
  match goal with |- context [answer env ?h _ (HttpDo ?t ?o ?r)] =>
    destruct (answer env h _ (HttpDo t o r)) as [resp | err] end; prog_simpl.
  - destruct (300 <=? StatusCode resp); prog_simpl;
      (eapply (performed_since_logged _ [_; _]); [reflexivity | left; cbn; tauto]).
  - eapply (performed_since_logged _ [_; _]); [reflexivity | left; cbn; tauto].
Qed.

Lemma token_error_performed {A} (p : Prog A) :
  orderly account_key false p ->
  In (anyE (Log LError "Failed to fetch user token" (Some e)))
     (performed w (run env p logged)).
Proof.
  intros Hp.
  destruct (fetchUserToken_returned _ _ _ _ fetch_failed) as (_ & Hfree & _).
  destruct (orderly_run env _ _ _ Hp logged Hfree) as (_ & _ & _ & _ & tr & Htr).
  eapply performed_since_logged; [exact Htr | right].
  unfold performed, logged, token_error_logged. cbn [final_world record trace length].
  replace (S (length (trace w1)) - length (trace w1))%nat with 1%nat by lia.
  cbn. tauto.
Qed.

End Provisioning.

Lemma createAlbyAccountNWCNode_request_orderly env token :
  orderly account_key false (createAlbyAccountNWCNode_request env token).
Proof. unfold createAlbyAccountNWCNode_request. orderly_auto. Qed.

Lemma destroyAlbyAccountNWCNode_request_orderly env token :
  orderly account_key false (destroyAlbyAccountNWCNode_request env token).
Proof. unfold destroyAlbyAccountNWCNode_request. orderly_auto. Qed.

Lemma activateAlbyAccountNWCNode_request_orderly env token :
  orderly account_key false (activateAlbyAccountNWCNode_request env token).
Proof. unfold activateAlbyAccountNWCNode_request. orderly_auto. Qed.

#[export] Hint Resolve createAlbyAccountNWCNode_request_orderly
  destroyAlbyAccountNWCNode_request_orderly
  activateAlbyAccountNWCNode_request_orderly : orderly.

(** C10.  When the token fetch of [createAlbyAccountNWCNode],
    [destroyAlbyAccountNWCNode] or [activateAlbyAccountNWCNode] fails, the
    operation does not return that error: it logs it and goes on as the
    request part run with a nil token; the log entry is among the effects
    performed, and so is the HTTP call with the nil token whenever the
    request can be built. *)
Theorem provisioning_token_error_only_logged (env : Env) (w w1 : World) (e : error) :
  run env fetchUserToken w = Returns (Err e) w1 ->
  let logged := token_error_logged w1 e in
  let log_entry := anyE (Log LError "Failed to fetch user token" (Some e)) in
  (run env (createAlbyAccountNWCNode env) w
   = run env (createAlbyAccountNWCNode_request env None) logged /\
   run env (destroyAlbyAccountNWCNode env) w
   = run env (destroyAlbyAccountNWCNode_request env None) logged /\
   run env (activateAlbyAccountNWCNode env) w
   = run env (activateAlbyAccountNWCNode_request env None) logged) /\
  (In log_entry (performed w (run env (createAlbyAccountNWCNode env) w)) /\
   In log_entry (performed w (run env (destroyAlbyAccountNWCNode env) w)) /\
   In log_entry (performed w (run env (activateAlbyAccountNWCNode env) w))) /\
  (http_NewRequest env "POST" (AlbyAPIURL env +:+ "/internal/nwcs") = None ->
   In (anyE (Ext (HttpDo None None
         (provisioning_request env "POST" "/internal/nwcs"
            (JsonBody (JObj [("wallet_pubkey",
               JStr (answer env (trace logged) string KeysGetNostrPublicKey))]))))))
      (performed w (run env (createAlbyAccountNWCNode env) w))) /\
  (http_NewRequest env "DELETE" (AlbyAPIURL env +:+ "/internal/nwcs") = None ->
   In (anyE (Ext (HttpDo None None (provisioning_request env "DELETE" "/internal/nwcs" NoBody))))
      (performed w (run env (destroyAlbyAccountNWCNode env) w))) /\
  (http_NewRequest env "PUT" (AlbyAPIURL env +:+ "/internal/nwcs/activate") = None ->
   In (anyE (Ext (HttpDo None None
         (provisioning_request env "PUT" "/internal/nwcs/activate" NoBody))))
      (performed w (run env (activateAlbyAccountNWCNode env) w))).
Proof.
  intros Hfetch logged log_entry.
  split; [| split; [| split; [| split]]].
  - split; [| split].
    + apply (create_continues _ _ _ _ Hfetch).
    + apply (destroy_continues _ _ _ _ Hfetch).
    + apply (activate_continues _ _ _ _ Hfetch).
  - split; [| split].
    + rewrite (create_continues _ _ _ _ Hfetch).
      apply token_error_performed; auto with orderly.
    + rewrite (destroy_continues _ _ _ _ Hfetch).
      apply token_error_performed; auto with orderly.
    + rewrite (activate_continues _ _ _ _ Hfetch).
      apply token_error_performed; auto with orderly.
  - apply (create_attempted _ _ _ _ Hfetch).
  - apply (destroy_attempted _ _ _ _ Hfetch).
  - apply (activate_attempted _ _ _ _ Hfetch).
Qed.

(** C10 at a store whose access token cannot be read: the fetch fails, and
    the node is destroyed all the same, the provider answering 204. *)
Lemma provisioning_token_error_only_logged_witness :
  run provisioning_env fetchUserToken broken_world = Returns (Err broken_error) broken_fetched /\
  run provisioning_env (destroyAlbyAccountNWCNode provisioning_env) broken_world
  = run provisioning_env (destroyAlbyAccountNWCNode_request provisioning_env None)
      (token_error_logged broken_fetched broken_error) /\
  In (anyE (Ext (HttpDo None None
        (provisioning_request provisioning_env "DELETE" "/internal/nwcs" NoBody))))
     (performed broken_world
        (run provisioning_env (destroyAlbyAccountNWCNode provisioning_env) broken_world)).
Proof.
  assert (run provisioning_env fetchUserToken broken_world
          = Returns (Err broken_error) broken_fetched) as Hfetch by reflexivity.
  destruct (provisioning_token_error_only_logged provisioning_env broken_world
              broken_fetched broken_error Hfetch) as ((_ & Hdestroy & _) & _ & _ & Hsent & _).
  split; [exact Hfetch |]. split; [exact Hdestroy |].
  apply Hsent. reflexivity.
Defined.

(** ** The merge of the global properties *)

Lemma union_insert_present (m1 m2 : gmap string JSON) k v x :
  m1 !! k = Some x -> m1 ∪ <[k := v]> m2 = m1 ∪ m2.
Proof.
  intros Hk. apply map_eq. intros i.
  rewrite !lookup_union. destruct (decide (k = i)) as [<- | Hne].
  - rewrite Hk. destruct (<[k:=v]> m2 !! k), (m2 !! k); reflexivity.
  - rewrite lookup_insert_ne by exact Hne. reflexivity.
Qed.

(** The loop, for entries with distinct keys. *)
Lemma mergeGlobalProperties_run env (entries : list (string * JSON)) :
  NoDup entries.*1 ->
  forall (properties : gmap string JSON) (w : World),
  exists w', run env (mergeGlobalProperties entries properties) w
             = Returns (properties ∪ list_to_map entries) w' /\
             cfg w' = cfg w /\ tokenMutex w' = tokenMutex w.
Proof.
  induction entries as [| [k v] rest IH]; intros Hdup properties w.
  - exists w. cbn [mergeGlobalProperties run list_to_map foldr].
    rewrite (right_id_L ∅ (∪)). auto.
  - cbn [fmap list_fmap fst] in Hdup. apply NoDup_cons in Hdup as [Hk Hdup].
    cbn [mergeGlobalProperties list_to_map foldr].
    change (foldr (fun p => <[p.1 := p.2]>) ∅ rest) with (list_to_map rest : gmap string JSON).
    cbn [fst snd].
    destruct (properties !! k) as [x |] eqn:Hlookup.
    + prog_simpl.
      destruct (IH Hdup properties
                  (record w (Log LError
                     "Key already exists in event properties, skipping global property" None)))
        as (w' & Hrun & Hcfg & Hmutex).
      exists w'. rewrite Hrun. split; [| auto].
      f_equal. symmetry. eapply union_insert_present. exact Hlookup.
    + destruct (IH Hdup (<[k := v]> properties) w) as (w' & Hrun & Hcfg & Hmutex).
      exists w'. rewrite Hrun. split; [| auto].
      f_equal. rewrite <- insert_union_l. apply insert_union_r. exact Hlookup.
Qed.

Lemma mergeGlobalProperties_orderly W entries :
  forall properties, orderly W false (mergeGlobalProperties entries properties).
Proof.
  induction entries as [| [k v] rest IH]; intros properties;
    cbn [mergeGlobalProperties].
  - constructor.
  - destruct (properties !! k).
    + unfold logError, vis. cbn [mbind Prog_bind bind].
      apply orderly_log. intros _. apply IH.
    + apply IH.
Qed.
#[export] Hint Resolve mergeGlobalProperties_orderly : orderly.

(** C8.  Whatever order the global properties are visited in, the merge
    returns the event's own properties with the global entries added for the
    keys the event does not have: looking a key up gives the event's value
    when there is one and the global value otherwise. *)
Theorem merge_global_properties_no_overwrite
    (env : Env) (w : World) (properties globalProperties : gmap string JSON)
    (entries : list (string * JSON)) :
  entries ≡ₚ map_to_list globalProperties ->
  exists merged w',
    run env (mergeGlobalProperties entries properties) w = Returns merged w' /\
    merged = properties ∪ globalProperties /\
    (forall key,
       merged !! key = match properties !! key with
                       | Some v => Some v
                       | None => globalProperties !! key
                       end) /\
    (forall key v, merged !! key = Some v ->
       properties !! key = Some v \/
       (properties !! key = None /\ globalProperties !! key = Some v)).
Proof.
  intros Hperm.
  assert (NoDup entries.*1) as Hdup.
  { rewrite Hperm. apply NoDup_fst_map_to_list. }
  destruct (mergeGlobalProperties_run env entries Hdup properties w) as (w' & Hrun & _).
  assert (list_to_map entries = globalProperties) as Hentries.
  { rewrite <- (list_to_map_to_list globalProperties).
    apply list_to_map_proper; [exact Hdup | exact Hperm]. }
  rewrite Hentries in Hrun.
  assert (forall key,
    (properties ∪ globalProperties) !! key
    = match properties !! key with Some v => Some v | None => globalProperties !! key end)
    as Hlookup.
  { intros key. rewrite lookup_union.
    destruct (properties !! key), (globalProperties !! key); reflexivity. }
  exists (properties ∪ globalProperties), w'.
  split; [exact Hrun |]. split; [reflexivity |]. split; [exact Hlookup |].
  intros key v Hkey. rewrite Hlookup in Hkey.
  destruct (properties !! key); [left; exact Hkey | right; split; [reflexivity | exact Hkey]].
Qed.

(** The example of C8: [{paymentHash: "abc"}] merged with
    [{paymentHash: "xyz", version: "1"}] is [{paymentHash: "abc", version: "1"}]. *)
Lemma merge_global_properties_no_overwrite_witness :
  map_to_list global_properties ≡ₚ map_to_list global_properties /\
  exists w', run buffer_env (mergeGlobalProperties (map_to_list global_properties) own_properties)
               (buffer_world "1021")
             = Returns merged_properties w'.
Proof.
  split; [reflexivity |].
  destruct (merge_global_properties_no_overwrite buffer_env (buffer_world "1021")
              own_properties global_properties (map_to_list global_properties))
    as (merged & w' & Hrun & -> & _).
  - reflexivity.
  - exists w'. rewrite Hrun. f_equal.
Defined.

(** ** What a run performs *)

Lemma handle_trace env w X (e : E X) x w' :
  handle env w e = Some (x, w') -> trace w' = anyE e :: trace w.
Proof.
  destruct e; cbn [handle]; intros H;
    try (injection H as _ <-; reflexivity).
  - destruct (tokenMutex w); [discriminate |]. injection H as _ <-. reflexivity.
  - destruct (tokenMutex w); [| discriminate]. injection H as _ <-. reflexivity.
Qed.

Lemma emits_trace {A} env R (p : Prog A) :
  emits R p -> forall w,
  exists tr, trace (final_world (run env p w)) = (tr ++ trace w)%list /\ Forall R tr.
Proof.
  induction 1 as [a | v | X e k HR _ IH]; intros w; cbn [run final_world].
  - exists []. auto.
  - exists []. auto.
  - destruct (handle env w e) as [[x w'] |] eqn:Hhandle.
    + destruct (IH x w') as (tr & Htr & HForall).
      exists (tr ++ [anyE e])%list. split.
      * rewrite Htr, (handle_trace _ _ _ _ _ _ Hhandle), <- app_assoc. reflexivity.
      * apply Forall_app. split; [exact HForall | repeat constructor; exact HR].
    + exists []. auto.
Qed.

Lemma emits_performed {A} env R (p : Prog A) w ev :
  emits R p -> In ev (performed w (run env p w)) -> R ev.
Proof.
  intros Hp Hev. destruct (emits_trace env R p Hp w) as (tr & Htr & HForall).
  rewrite (performed_app _ _ _ Htr) in Hev.
  rewrite Forall_forall in HForall. apply HForall. apply list_elem_of_In. exact Hev.
Qed.

Lemma emits_weaken {A} (R R' : AnyE -> Prop) (p : Prog A) :
  (forall ev, R ev -> R' ev) -> emits R p -> emits R' p.
Proof. intros HR H. induction H; constructor; auto. Qed.

Lemma emits_bind {A B} R (p : Prog A) (f : A -> Prog B) :
  emits R p -> (forall a, emits R (f a)) -> emits R (p ≫= f).
Proof.
  intros Hp Hf. induction Hp as [a | v | X e k HR _ IH].
  - apply Hf.
  - constructor.
  - apply emits_vis; [exact HR | exact IH].
Qed.

Lemma emits_recover {A} R (p : Prog A) (handler : string -> Prog A) :
  emits R p -> (forall v, emits R (handler v)) -> emits R (recover p handler).
Proof.
  intros Hp Hh. induction Hp; cbn [recover]; [constructor | apply Hh |].
  apply emits_vis; auto.
Qed.

Create HintDb emits.

Ltac emits_step :=
  match goal with
  | |- emits _ (Ret _) => apply emits_ret
  | |- emits _ (Panic _) => apply emits_panic
  | |- emits _ (Vis _ _) => apply emits_vis; [try exact I | intros ?]
  | |- emits _ ?p =>
      match p with
      | context [match ?x with _ => _ end] => destruct x
      end
  | |- emits _ (bind _ _) => apply emits_bind; [| intros ?]
  | |- emits _ (_ ≫= _) => apply emits_bind; [| intros ?]
  | |- emits _ _ => solve [auto with emits]
  end.

Ltac emits_auto :=
  repeat (cbv delta [vis ext logDebug logInfo logError deref assertTransaction] beta;
          cbn [bind mbind Prog_bind mret Prog_ret];
          emits_step).

(** The token fetch makes no HTTP request. *)
Lemma fetchUserToken_no_http : emits (fun ev => ~ is_http ev) fetchUserToken.
Proof.
  unfold fetchUserToken, fetchUserToken_locked, saveToken.
  emits_auto; cbn; tauto.
Qed.

Lemma fetchUserToken_emits (R : AnyE -> Prop) :
  (forall ev, ~ is_http ev -> R ev) -> emits R fetchUserToken.
Proof. intros HR. eapply emits_weaken; [exact HR | apply fetchUserToken_no_http]. Qed.

Lemma mergeGlobalProperties_emits {A} (R : AnyE -> Prop) (f : gmap string JSON -> Prog A)
    (entries : list (string * JSON)) :
  (forall ev, ~ is_http ev -> R ev) ->
  NoDup entries.*1 ->
  forall properties,
    emits R (f (properties ∪ list_to_map entries)) ->
    emits R (mergeGlobalProperties entries properties ≫= f).
Proof.
  intros HR. induction entries as [| [k v] rest IH]; intros Hdup properties Hf.
  - cbn [mergeGlobalProperties mbind Prog_bind bind].
    cbn [list_to_map foldr] in Hf. rewrite (right_id_L ∅ (∪)) in Hf. exact Hf.
  - cbn [fmap list_fmap fst] in Hdup. apply NoDup_cons in Hdup as [Hk Hdup].
    cbn [list_to_map foldr fst snd] in Hf.
    change (foldr (fun p => <[p.1 := p.2]>) ∅ rest)
      with (list_to_map rest : gmap string JSON) in Hf.
    cbn [mergeGlobalProperties].
    destruct (properties !! k) as [x |] eqn:Hlookup.
    + unfold logError, vis. cbn [mbind Prog_bind bind].
      apply emits_vis; [apply HR; cbn; tauto |]. intros _.
      apply (IH Hdup). erewrite <- union_insert_present by exact Hlookup. exact Hf.
    + apply (IH Hdup).
      rewrite <- insert_union_l, (insert_union_r _ _ _ _ Hlookup). exact Hf.
Qed.

(** ** The telemetry relay *)

Lemma backupChannels_orderly env event : orderly account_key false (backupChannels env event).
Proof. unfold backupChannels, NewRequest. orderly_auto. Qed.

Lemma relayEvent_orderly env event globalProperties :
  orderly account_key false (relayEvent env event globalProperties).
Proof. unfold relayEvent, NewRequest. orderly_auto. Qed.

Lemma redactReceived_orderly event : orderly account_key false (redactReceived event).
Proof. unfold redactReceived. orderly_auto. Qed.

Lemma redactSent_orderly event : orderly account_key false (redactSent event).
Proof. unfold redactSent. orderly_auto. Qed.

Lemma redactFailed_orderly event : orderly account_key false (redactFailed event).
Proof. unfold redactFailed. orderly_auto. Qed.

#[export] Hint Resolve backupChannels_orderly relayEvent_orderly redactReceived_orderly
  redactSent_orderly redactFailed_orderly : orderly.

Lemma ConsumeEvent_body_orderly env event globalProperties :
  orderly account_key false (ConsumeEvent_body env event globalProperties).
Proof. unfold ConsumeEvent_body. orderly_auto. Qed.

Lemma ConsumeEvent_orderly env event globalProperties :
  orderly account_key false (ConsumeEvent env event globalProperties).
Proof.
  unfold ConsumeEvent. apply orderly_recover.
  - apply ConsumeEvent_body_orderly.
  - intros v. orderly_auto.
Qed.

(** C5.  Whatever the event (a nil pointer, a payload of the wrong type, a
    nil transaction) and whatever the global properties and the answers of
    the outside world, [ConsumeEvent], entered with the token mutex free,
    returns to its caller: it does not panic, and it has no error to
    return. *)
Theorem ConsumeEvent_returns_normally
    (env : Env) (w : World) (event : option Event) (globalProperties : gmap string JSON) :
  tokenMutex w = false ->
  exists w', run env (ConsumeEvent env event globalProperties) w = Returns tt w'.
Proof.
  intros Hfree.
  destruct (orderly_run env _ _ _ (ConsumeEvent_body_orderly env event globalProperties)
              w Hfree) as (Hstuck & _).
  unfold ConsumeEvent. rewrite run_recover.
  destruct (run env (ConsumeEvent_body env event globalProperties) w) as [[] w' | v w' | w'].
  - exists w'. reflexivity.
  - eexists. prog_simpl. reflexivity.
  - exfalso. apply Hstuck. reflexivity.
Qed.

(** C5 at a malformed event: the body of [ConsumeEvent] panics on the type
    assertion, and [ConsumeEvent] returns. *)
Lemma ConsumeEvent_returns_normally_witness :
  (exists w', run relay_env (ConsumeEvent_body relay_env (Some malformed_event) ∅) relay_world
              = Panics badConversion w') /\
  (exists w', run relay_env (ConsumeEvent_body relay_env None ∅) relay_world
              = Panics nilDereference w') /\
  (exists w', run relay_env (ConsumeEvent relay_env (Some malformed_event) ∅) relay_world
              = Returns tt w').
Proof.
  split; [eexists; reflexivity |]. split; [eexists; reflexivity |].
  apply (ConsumeEvent_returns_normally relay_env relay_world (Some malformed_event) ∅).
  reflexivity.
Defined.

(** ** Redaction of the payment events *)

Lemma wrap_uint64_int64 z : wrap_uint64 (wrap_int64 z) = wrap_uint64 z.
Proof.
  unfold wrap_uint64, wrap_int64.
  rewrite Zminus_mod, Z.mod_mod by lia.
  rewrite <- Zminus_mod. f_equal. lia.
Qed.

Lemma wrap_uint64_nonneg z : 0 <= wrap_uint64 z.
Proof. unfold wrap_uint64. apply Z.mod_pos_bound. lia. Qed.

Lemma round53_small z : 0 <= z < 2 ^ 53 -> float64.round53 z = z.
Proof.
  intros Hz. unfold float64.round53.
  destruct (Z.leb_spec (Z.log2 z - 52) 0) as [_ | Hbig]; [reflexivity |].
  exfalso.
  destruct (Z.eq_dec z 0) as [-> | Hne]; [cbn in Hbig; lia |].
  assert (Z.log2 z < 53) by (apply Z.log2_lt_pow2; lia). lia.
Qed.

(** A number below 2^53 is a [float64] and is written with all its digits. *)
Lemma json_number_small z : 0 <= z < 2 ^ 53 -> float64.json_number z = z.
Proof.
  intros Hz. unfold float64.json_number. rewrite round53_small by exact Hz.
  unfold float64.shortest.
  destruct (Z.ltb_spec z (2 ^ 53)) as [_ | Hbig]; [reflexivity | lia].
Qed.

(** What goes out for an event whose properties encode and decode. *)
Lemma relayEvent_emits env (R : AnyE -> Prop) event globalProperties :
  (forall ev, ~ is_http ev -> R ev) ->
  (forall token encoded decoded,
     encodeProperties (EventProperties event) = Ok encoded ->
     unmarshalProperties encoded = Ok decoded ->
     R (anyE (Ext (HttpDo token None
          (setDefaultRequestHeaders env
             {| Method := "POST"; URL := AlbyAPIURL env +:+ "/events"; Header := [];
                ReqBody := EventBody (EventName event)
                             (match decoded with Some m => m | None => ∅ end
                              ∪ globalProperties) |}))))) ->
  emits R (relayEvent env event globalProperties).
Proof.
  intros Hquiet Hpost. unfold relayEvent.
  apply emits_bind; [apply fetchUserToken_emits; exact Hquiet |].
  intros [token | e]; [| emits_auto; apply Hquiet; cbn; tauto].
  destruct (encodeProperties (EventProperties event)) as [encoded | e] eqn:Hencoded;
    [| emits_auto; apply Hquiet; cbn; tauto].
  destruct (unmarshalProperties encoded) as [decoded | e] eqn:Hdecoded;
    [| emits_auto; apply Hquiet; cbn; tauto].
  apply mergeGlobalProperties_emits;
    [exact Hquiet | apply NoDup_fst_map_to_list |].
  rewrite list_to_map_to_list. unfold NewRequest.
  destruct (http_NewRequest env "POST" (AlbyAPIURL env +:+ "/events"));
    [emits_auto; apply Hquiet; cbn; tauto |].
  unfold ext, vis. cbn [mbind Prog_bind bind].
  apply emits_vis; [eapply Hpost; [reflexivity | exact Hdecoded] |].
  intros x. emits_auto; apply Hquiet; cbn; tauto.
Qed.

Lemma only_redacted_quiet env event globalProperties ev :
  ~ is_http ev -> only_redacted env event globalProperties ev.
Proof.
  destruct ev as [X e]. destruct e as [| | | | | X e]; try (intros _; exact I).
  destruct e; try (intros _; exact I). cbn. tauto.
Qed.

Section Redaction.

Variable env : Env.
Variable globalProperties : gmap string JSON.
Variable props : Properties.

Let quiet name := only_redacted_quiet env
  {| EventName := name; EventProperties := props |} globalProperties.

Lemma received_emits :
  emits (only_redacted env
           {| EventName := "nwc_payment_received"; EventProperties := props |}
           globalProperties)
    (ConsumeEvent_body env
       (Some {| EventName := "nwc_payment_received"; EventProperties := props |})
       globalProperties).
Proof.
  unfold ConsumeEvent_body.
  apply emits_vis; [exact I |]. intros [accessToken | e]; [| emits_auto].
  destruct (decide (accessToken = "")); [emits_auto |].
  destruct (negb (LogEvents env)); [emits_auto |].
  cbn [deref mbind Prog_bind bind EventName].
  rewrite decide_False by discriminate.
  change (strings.HasPrefix "nwc_payment_received" "nwc_lnclient_") with false. cbv iota.
  unfold redactReceived. cbn [EventName EventProperties].
  rewrite decide_True by reflexivity.
  destruct props as [| [t |] | b | encoded]; try (emits_auto; fail).
  cbn [assertTransaction deref mbind Prog_bind bind].
  unfold redactSent, redactFailed. cbn [EventName].
  rewrite !decide_False by discriminate. cbn [mbind Prog_bind bind].
  apply relayEvent_emits; [apply quiet |].
  intros token encoded decoded Hencoded Hdecoded.
  cbn [EventProperties paymentReceivedEventProperties encodeProperties] in Hencoded.
  injection Hencoded as <-. cbn in Hdecoded. injection Hdecoded as <-.
  cbn [only_redacted EventName]. exists t, 0. cbn [EventProperties EventName].
  split; [reflexivity |]. split; [discriminate |].
  unfold sent_properties, reduced_properties.
  rewrite !decide_True by reflexivity.
  split; reflexivity.
Qed.

Lemma sent_emits :
  emits (only_redacted env
           {| EventName := "nwc_payment_sent"; EventProperties := props |}
           globalProperties)
    (ConsumeEvent_body env
       (Some {| EventName := "nwc_payment_sent"; EventProperties := props |})
       globalProperties).
Proof.
  unfold ConsumeEvent_body.
  apply emits_vis; [exact I |]. intros [accessToken | e]; [| emits_auto].
  destruct (decide (accessToken = "")); [emits_auto |].
  destruct (negb (LogEvents env)); [emits_auto |].
  cbn [deref mbind Prog_bind bind EventName].
  rewrite decide_False by discriminate.
  change (strings.HasPrefix "nwc_payment_sent" "nwc_lnclient_") with false. cbv iota.
  unfold redactReceived. cbn [EventName EventProperties].
  rewrite decide_False by discriminate. cbn [mbind Prog_bind bind].
  unfold redactSent. cbn [EventName EventProperties].
  rewrite decide_True by reflexivity.
  destruct props as [| [t |] | b | encoded]; try (emits_auto; fail).
  cbn [assertTransaction deref mbind Prog_bind bind].
  destruct (SettledAt t) as [settledAt |] eqn:Hsettled; [| emits_auto].
  cbn [deref mbind Prog_bind bind].
  unfold redactFailed. cbn [EventName].
  rewrite !decide_False by discriminate. cbn [mbind Prog_bind bind].
  apply relayEvent_emits; [apply quiet |].
  intros token encoded decoded Hencoded Hdecoded.
  cbn [EventProperties paymentSentEventProperties encodeProperties] in Hencoded.
  injection Hencoded as <-.
  cbn [unmarshalProperties map reverse rev_append generic] in Hdecoded.
  rewrite wrap_uint64_int64 in Hdecoded.
  destruct (Z.ltb_spec
              (wrap_uint64 (time.Unix settledAt - time.Unix (CreatedAt t))) 0) as [Hneg | _];
    [pose proof (wrap_uint64_nonneg (time.Unix settledAt - time.Unix (CreatedAt t))); lia |].
  injection Hdecoded as <-.
  cbn [only_redacted EventName]. exists t, settledAt. cbn [EventProperties EventName].
  split; [reflexivity |]. split; [intros _; exact Hsettled |].
  unfold sent_properties, reduced_properties.
  rewrite !(decide_False (P := "nwc_payment_sent" = "nwc_payment_received")) by discriminate.
  rewrite !decide_True by reflexivity.
  split.
  - reflexivity.
  - intros Hrange. rewrite wrap_uint64_small
      by (change (2 ^ 53) with 9007199254740992 in Hrange;
          change (2 ^ 64) with 18446744073709551616; lia).
    rewrite json_number_small by exact Hrange. reflexivity.
Qed.

Lemma failed_emits :
  emits (only_redacted env
           {| EventName := "nwc_payment_failed"; EventProperties := props |}
           globalProperties)
    (ConsumeEvent_body env
       (Some {| EventName := "nwc_payment_failed"; EventProperties := props |})
       globalProperties).
Proof.
  unfold ConsumeEvent_body.
  apply emits_vis; [exact I |]. intros [accessToken | e]; [| emits_auto].
  destruct (decide (accessToken = "")); [emits_auto |].
  destruct (negb (LogEvents env)); [emits_auto |].
  cbn [deref mbind Prog_bind bind EventName].
  rewrite decide_False by discriminate.
  change (strings.HasPrefix "nwc_payment_failed" "nwc_lnclient_") with false. cbv iota.
  unfold redactReceived, redactSent. cbn [EventName EventProperties].
  rewrite !decide_False by discriminate. cbn [mbind Prog_bind bind EventName].
  rewrite !decide_False by discriminate. cbn [mbind Prog_bind bind].
  unfold redactFailed. cbn [EventName EventProperties].
  rewrite decide_True by reflexivity.
  destruct props as [| [t |] | b | encoded]; try (emits_auto; fail).
  cbn [deref mbind Prog_bind bind].
  apply relayEvent_emits; [apply quiet |].
  intros token encoded decoded Hencoded Hdecoded.
  cbn [EventProperties paymentFailedEventProperties encodeProperties] in Hencoded.
  injection Hencoded as <-. cbn in Hdecoded. injection Hdecoded as <-.
  cbn [only_redacted EventName]. exists t, 0. cbn [EventProperties EventName].
  split; [reflexivity |]. split; [discriminate |].
  unfold sent_properties, reduced_properties.
  rewrite !decide_False by discriminate.
  split; [| reflexivity].
  reflexivity.
Qed.

End Redaction.

(** Every HTTP request [ConsumeEvent] performs for a received, sent or
    failed payment event is the POST of the event name with the reduced
    properties of its transaction, as the code computes them, joined with
    the global properties for the keys these lack. *)
Lemma ConsumeEvent_only_redacted
    (env : Env) (w : World) (event : Event) (globalProperties : gmap string JSON)
    (token : option Token) (timeout : option Z) (req : Request) :
  payment_event (EventName event) ->
  In (anyE (Ext (HttpDo token timeout req)))
     (performed w (run env (ConsumeEvent env (Some event) globalProperties) w)) ->
  redacted_request env event globalProperties req.
Proof.
  intros Hpayment Hperformed.
  assert (emits (only_redacted env event globalProperties)
            (ConsumeEvent env (Some event) globalProperties)) as Hemits.
  { unfold ConsumeEvent. apply emits_recover.
    - destruct event as [name props]. cbn [EventName] in Hpayment.
      destruct Hpayment as [-> | [-> | ->]].
      + apply received_emits.
      + apply sent_emits.
      + apply failed_emits.
    - intros v. emits_auto. }
  apply (emits_performed env _ _ w _ Hemits) in Hperformed.
  exact Hperformed.
Qed.

(** ** The authorization callback *)

Lemma fetchUserToken_orderly_fetched : orderly fetched_key false fetchUserToken.
Proof.
  eapply orderly_weaken; [| apply fetchUserToken_orderly].
  unfold fetched_key. auto.
Qed.

Lemma GetMe_orderly env : orderly fetched_key false (GetMe env).
Proof.
  unfold GetMe, NewRequest. apply orderly_bind; [apply fetchUserToken_orderly_fetched |].
  intros r. orderly_auto. unfold fetched_key. auto.
Qed.

(** A successful fetch has read the access token. *)
Lemma fetchUserToken_ok_readable env w token w' :
  run env fetchUserToken w = Returns (Ok token) w' ->
  faults (cfg w) !! accessTokenKey = None.
Proof.
  unfold fetchUserToken, fetchUserToken_locked. prog_simpl.
  destruct (tokenMutex w); [discriminate |]. prog_simpl.
  destruct (Config_Get (cfg w) accessTokenKey "") as [a | e] eqn:Hget.
  - intros _. eapply Config_Get_no_fault. exact Hget.
  - prog_simpl. discriminate.
Qed.

Lemma GetMe_returned env w me w' :
  run env (GetMe env) w = Returns (Ok me) w' ->
  tokenMutex w' = false /\
  faults (cfg w') = faults (cfg w) /\
  faults (cfg w) !! accessTokenKey = None /\
  (forall key, ~ fetched_key key -> kv (cfg w') !! key = kv (cfg w) !! key).
Proof.
  intros Hrun.
  assert (tokenMutex w = false) as Hfree.
  { destruct (tokenMutex w) eqn:Hheld; [| reflexivity].
    unfold GetMe in Hrun.
    rewrite (fetchUserToken_needs_mutex env w _ _ eq_refl Hheld) in Hrun. discriminate. }
  pose proof (orderly_run env _ _ _ (GetMe_orderly env) w Hfree) as H.
  rewrite Hrun in H. cbn [final_world] in H.
  destruct H as (_ & Hmutex & Hfaults & Hframe & _).
  repeat split; try assumption.
  unfold GetMe in Hrun. rewrite run_bind in Hrun.
  destruct (run env fetchUserToken w) as [[token | e] w1 | v w1 | w1] eqn:Hfetch;
    try discriminate.
  eapply fetchUserToken_ok_readable. exact Hfetch.
Qed.

(** With an empty access token the fetch finds no session and asks nobody. *)
Lemma fetchUserToken_no_session env w :
  tokenMutex w = false ->
  Config_Get (cfg w) accessTokenKey "" = Ok "" ->
  run env fetchUserToken w =
  Returns (Ok None)
    {| cfg := cfg w; tokenMutex := false;
       trace := anyE MutexUnlock :: anyE (CfgGet accessTokenKey) ::
                anyE MutexLock :: trace w |}.
Proof.
  intros Hfree Hget. unfold fetchUserToken, fetchUserToken_locked.
  prog_simpl. rewrite Hfree. prog_simpl. rewrite Hget. reflexivity.
Qed.

Section Callback.

Variable env : Env.
Variable w : World.
Variable code : string.
Variable token : Token.
Variable me : AlbyMe.
Variable w2 : World.
Variable existing : string.

Hypothesis exchange_ok : answer env (trace w) (result Token) (OAuthExchange code) = Ok token.
Hypothesis me_fetched : run env (GetMe env) (exchanged_world w code token) = Returns (Ok me) w2.
Hypothesis identity_stored : Config_Get (cfg w2) userIdentifierKey "" = Ok existing.
Hypothesis identity_set : existing <> "".
Hypothesis identity_differs : Identifier me <> existing.

(** Where the mismatch leaves the world. *)
Let after_mismatch : World :=
  {| cfg := Config_SetUpdate (cfg w2) accessTokenKey "";
     tokenMutex := tokenMutex w2;
     trace := anyE (CfgSetUpdate accessTokenKey "") ::
              anyE (CfgGet userIdentifierKey) :: trace w2 |}.

Lemma CallbackHandler_mismatch_run :
  run env (CallbackHandler env code) w = Returns (Some crossAccountError) after_mismatch.
Proof.
  unfold CallbackHandler. prog_simpl. rewrite exchange_ok.
  unfold saveToken. prog_simpl.
  change {| cfg := _; tokenMutex := tokenMutex w; trace := _ |}
    with (exchanged_world w code token).
  rewrite run_bind, me_fetched.
  unfold GetUserIdentifier. prog_simpl. rewrite identity_stored. prog_simpl.
  rewrite decide_False by exact identity_set.
  rewrite decide_True by exact identity_differs.
  reflexivity.
Qed.

Lemma mismatch_identity_kept :
  kv (cfg after_mismatch) !! userIdentifierKey = kv (cfg w) !! userIdentifierKey.
Proof.
  destruct (GetMe_returned _ _ _ _ me_fetched) as (_ & _ & _ & Hframe).
  cbn [after_mismatch cfg Config_SetUpdate kv].
  rewrite lookup_insert_ne by discriminate.
  rewrite Hframe.
  - cbn [exchanged_world cfg saved Config_SetUpdate kv].
    rewrite !lookup_insert_ne by discriminate. reflexivity.
  - unfold fetched_key, session_key. intros [[H | [H | H]] | H]; discriminate H.
Qed.

Lemma mismatch_no_session :
  run env fetchUserToken after_mismatch =
  Returns (Ok None)
    {| cfg := cfg after_mismatch; tokenMutex := false;
       trace := anyE MutexUnlock :: anyE (CfgGet accessTokenKey) ::
                anyE MutexLock :: trace after_mismatch |}.
Proof.
  destruct (GetMe_returned _ _ _ _ me_fetched) as (Hfree & Hfaults & Hread & _).
  apply fetchUserToken_no_session; [exact Hfree |].
  unfold Config_Get. cbn [after_mismatch cfg Config_SetUpdate kv faults].
  rewrite Hfaults, Hread, lookup_insert_eq. reflexivity.
Qed.

End Callback.

(** C4, as the code has it.  When an identity was stored and the identity
    fetched for the authorization code differs from it, [CallbackHandler]
    returns the cross-account error and empties the stored access token, and
    nothing else: the stored identity is the one from before the callback,
    the refresh token and the expiry stay as the exchange and the identity
    fetch left them, and the next token fetch finds no session and makes no
    refresh call. *)
Theorem CallbackHandler_mismatch_clears_access_token
    (env : Env) (w : World) (code : string) (token : Token) (me : AlbyMe)
    (w2 : World) (existing : string) :
  answer env (trace w) (result Token) (OAuthExchange code) = Ok token ->
  run env (GetMe env) (exchanged_world w code token) = Returns (Ok me) w2 ->
  Config_Get (cfg w2) userIdentifierKey "" = Ok existing ->
  existing <> "" ->
  Identifier me <> existing ->
  exists w',
    run env (CallbackHandler env code) w = Returns (Some crossAccountError) w' /\
    kv (cfg w') !! accessTokenKey = Some "" /\
    (forall key, key <> accessTokenKey -> kv (cfg w') !! key = kv (cfg w2) !! key) /\
    kv (cfg w') !! userIdentifierKey = kv (cfg w) !! userIdentifierKey /\
    exists w'',
      run env fetchUserToken w' = Returns (Ok None) w'' /\
      cfg w'' = cfg w' /\
      refresh_calls (trace w'') = refresh_calls (trace w').
Proof.
  intros Hexchange Hme Hstored Hset Hdiff.
  eexists. split; [eapply CallbackHandler_mismatch_run; eassumption |].
  cbn [cfg Config_SetUpdate kv].
  split; [apply lookup_insert_eq |].
  split; [intros key Hkey; apply lookup_insert_ne; congruence |].
  split; [exact (mismatch_identity_kept env w code token me w2 Hme) |].
  eexists. split; [eapply mismatch_no_session; eassumption |].
  split; reflexivity.
Qed.

(** The claim C4 fails as stated: after a callback for [user2] on a hub of
    [user1], the refresh token and the expiry of the new session are in the
    store; only the access token is empty. *)
Lemma CallbackHandler_mismatch_keeps_session_fields :
  exists w',
    run relink_env (CallbackHandler relink_env "code") relink_world
    = Returns (Some crossAccountError) w' /\
    Config_Get (cfg w') userIdentifierKey "" = Ok "user1" /\
    Config_Get (cfg w') accessTokenKey "" = Ok "" /\
    Config_Get (cfg w') refreshTokenKey "" = Ok "refresh2" /\
    Config_Get (cfg w') accessTokenExpiryKey "" = Ok "4600" /\
    ~ session_cleared (cfg w').
Proof.
  eexists. split; [vm_compute; reflexivity |].
  split; [vm_compute; reflexivity |].
  split; [vm_compute; reflexivity |].
  split; [vm_compute; reflexivity |].
  split; [vm_compute; reflexivity |].
  intros (_ & _ & Hrefresh). vm_compute in Hrefresh. discriminate Hrefresh.
Qed.

(** The amended C4 at the same callback. *)
Lemma CallbackHandler_mismatch_clears_access_token_witness :
  exists w',
    run relink_env (CallbackHandler relink_env "code") relink_world
    = Returns (Some crossAccountError) w' /\
    kv (cfg w') !! accessTokenKey = Some "" /\
    kv (cfg w') !! userIdentifierKey = Some "user1" /\
    exists w'', run relink_env fetchUserToken w' = Returns (Ok None) w''.
Proof.
  edestruct (CallbackHandler_mismatch_clears_access_token relink_env relink_world "code"
              hour_token) as (w' & Hrun & Haccess & _ & Huser & w'' & Hfetch & _).
  - reflexivity.
  - vm_compute. reflexivity.
  - vm_compute. reflexivity.
  - discriminate.
  - discriminate.
  - exists w'. split; [exact Hrun |]. split; [exact Haccess |].
    split; [rewrite Huser; reflexivity |]. exists w''. exact Hfetch.
Defined.

(** ** The fee of an auto-channel response *)

Section AutoChannel.

Variable env : Env.

(** A response that is accepted has a channel size that reads as a number
    and, when it carries a payment, a fee that reads as a number and equals
    the invoice amount in whole satoshis. *)
Lemma checkAutoChannelResponse_accepted response w result w' :
  run env (checkAutoChannelResponse env response) w = Returns (Ok result) w' ->
  strconv.ParseUint (LspBalanceSat response) = Ok (ChannelSize result) /\
  match Payment response with
  | Some payment =>
      exists mSatoshi,
        decodepay_Decodepay env (bolt11_Invoice payment) = Ok mSatoshi /\
        strconv.ParseUint (FeeTotalSat payment) = Ok (Fee result) /\
        Fee result = wrap_uint64 (mSatoshi ÷ 1000) /\
        Invoice result = bolt11_Invoice payment
  | None => Fee result = 0 /\ Invoice result = ""
  end.
Proof.
  unfold checkAutoChannelResponse.
  destruct (Payment response) as [payment |].
  - destruct (strconv.ParseUint (FeeTotalSat payment)) as [fee | e] eqn:Hfee;
      [| prog_simpl; discriminate].
    destruct (decodepay_Decodepay env (bolt11_Invoice payment)) as [mSatoshi | e] eqn:Hdecode;
      [| prog_simpl; discriminate].
    destruct (decide (fee ≠ wrap_uint64 (mSatoshi ÷ 1000))) as [Hne | Heq];
      [prog_simpl; discriminate |].
    prog_simpl.
    destruct (strconv.ParseUint (LspBalanceSat response)) as [channelSize | e];
      [| prog_simpl; discriminate].
    prog_simpl. intros H. injection H as <- _. cbn [ChannelSize Fee Invoice].
    split; [reflexivity |]. exists mSatoshi.
    repeat split; try reflexivity.
    destruct (decide (fee = wrap_uint64 (mSatoshi ÷ 1000))); [assumption | contradiction].
  - prog_simpl.
    destruct (strconv.ParseUint (LspBalanceSat response)) as [channelSize | e];
      [| prog_simpl; discriminate].
    prog_simpl. intros H. injection H as <- _. cbn. auto.
Qed.

(** A fee that differs from the invoice amount is refused. *)
Lemma checkAutoChannelResponse_mismatch response payment fee mSatoshi w :
  Payment response = Some payment ->
  strconv.ParseUint (FeeTotalSat payment) = Ok fee ->
  decodepay_Decodepay env (bolt11_Invoice payment) = Ok mSatoshi ->
  fee <> wrap_uint64 (mSatoshi ÷ 1000) ->
  run env (checkAutoChannelResponse env response) w =
  Returns (Err feeMismatchError)
    (record w (Log LError "Invoice amount does not match LSP fee" None)).
Proof.
  intros Hpayment Hfee Hdecode Hne. unfold checkAutoChannelResponse.
  rewrite Hpayment, Hfee, Hdecode. rewrite decide_True by exact Hne.
  reflexivity.
Qed.

(** A fee equal to the invoice amount is accepted, given a channel size. *)
Lemma checkAutoChannelResponse_match response payment mSatoshi channelSize w :
  Payment response = Some payment ->
  strconv.ParseUint (FeeTotalSat payment) = Ok (wrap_uint64 (mSatoshi ÷ 1000)) ->
  decodepay_Decodepay env (bolt11_Invoice payment) = Ok mSatoshi ->
  strconv.ParseUint (LspBalanceSat response) = Ok channelSize ->
  run env (checkAutoChannelResponse env response) w =
  Returns (Ok {| Invoice := bolt11_Invoice payment;
                 Fee := wrap_uint64 (mSatoshi ÷ 1000);
                 ChannelSize := channelSize |}) w.
Proof.
  intros Hpayment Hfee Hdecode Hsize. unfold checkAutoChannelResponse.
  rewrite Hpayment, Hfee, Hdecode.
  rewrite decide_False by (intros Hne; apply Hne; reflexivity).
  prog_simpl. rewrite Hsize. reflexivity.
Qed.

(** A result comes only from an answer of the LSP below 300 whose body
    decodes and passes the check. *)
Lemma requestAutoChannel_request_accepted token url pubkey isPublic w accepted w' :
  run env (requestAutoChannel_request env token url pubkey isPublic) w
  = Returns (Ok accepted) w' ->
  exists res body response,
    http_NewRequest env "POST" url = None /\
    answer env (trace w) (result Response)
      (HttpDo token (Some (60 * time.Second))
         (auto_channel_request env url pubkey isPublic)) = Ok res /\
    RespBody res = Ok body /\
    StatusCode res < 300 /\
    json_autoChannelResponse env body = Ok response /\
    run env (checkAutoChannelResponse env response)
      (record w (Ext (HttpDo token (Some (60 * time.Second))
                        (auto_channel_request env url pubkey isPublic))))
    = Returns (Ok accepted) w'.
Proof.
  unfold requestAutoChannel_request, NewRequest, auto_channel_request.
  destruct (http_NewRequest env "POST" url); [prog_simpl; discriminate |].
  prog_simpl.
  match goal with |- context [answer env ?h _ ?e] =>
    destruct (answer env h _ e) as [res | e'] eqn:Hanswer end; [| prog_simpl; discriminate].
  destruct (RespBody res) as [body | e'] eqn:Hbody; [| prog_simpl; discriminate].
  destruct (Z.leb_spec 300 (StatusCode res)) as [| Hstatus]; [prog_simpl; discriminate |].
  destruct (json_autoChannelResponse env body) as [response | e'] eqn:Hjson;
    [| prog_simpl; discriminate].
  intros Hrun. exists res, body, response. repeat split; assumption || reflexivity.
Qed.

(** The whole of [requestAutoChannel] up to the decoded response. *)
Lemma requestAutoChannel_decoded url pubkey isPublic w r w1 res body response :
  run env fetchUserToken w = Returns r w1 ->
  http_NewRequest env "POST" url = None ->
  answer env (trace (after_fetch r w1)) (result Response)
    (HttpDo (fetched_token r) (Some (60 * time.Second))
       (auto_channel_request env url pubkey isPublic)) = Ok res ->
  RespBody res = Ok body ->
  StatusCode res < 300 ->
  json_autoChannelResponse env body = Ok response ->
  run env (requestAutoChannel env url pubkey isPublic) w =
  run env (checkAutoChannelResponse env response)
    (record (after_fetch r w1)
       (Ext (HttpDo (fetched_token r) (Some (60 * time.Second))
               (auto_channel_request env url pubkey isPublic)))).
Proof.
  intros Hfetch Hnew Hanswer Hbody Hstatus Hjson.
  unfold requestAutoChannel. rewrite run_bind, Hfetch.
  assert (run env (requestAutoChannel_request env (fetched_token r) url pubkey isPublic)
            (after_fetch r w1)
          = run env (checkAutoChannelResponse env response)
              (record (after_fetch r w1)
                 (Ext (HttpDo (fetched_token r) (Some (60 * time.Second))
                         (auto_channel_request env url pubkey isPublic))))) as Hrequest.
  { unfold requestAutoChannel_request, NewRequest. rewrite Hnew. prog_simpl.
    unfold auto_channel_request in Hanswer. rewrite Hanswer, Hbody.
    destruct (Z.leb_spec 300 (StatusCode res)); [lia |].
    rewrite Hjson. reflexivity. }
  destruct r as [token | e]; prog_simpl; exact Hrequest.
Qed.

End AutoChannel.

(** C1 (amended).  [requestAutoChannel] returns a result only when the LSP
    answered the request made with the fetched token below 300 with a body
    that decodes, and the fee of its payment, when it has one, reads as a
    number equal to [uint64(MSatoshi / 1000)]: the millisatoshi amount of the
    invoice divided by 1000 with the remainder dropped.  For such an answer
    with a payment whose fee and invoice both read: if the fee differs from
    that quotient, [requestAutoChannel] returns the fee-mismatch error; if
    it is equal (and the channel size reads), it returns the invoice, the
    fee and the channel size. *)
Theorem requestAutoChannel_fee_must_match
    (env : Env) (url pubkey : string) (isPublic : bool) (w : World) :
  (forall accepted w',
     run env (requestAutoChannel env url pubkey isPublic) w = Returns (Ok accepted) w' ->
     exists r w1 res body response,
       run env fetchUserToken w = Returns r w1 /\
       http_NewRequest env "POST" url = None /\
       answer env (trace (after_fetch r w1)) (result Response)
         (HttpDo (fetched_token r) (Some (60 * time.Second))
            (auto_channel_request env url pubkey isPublic)) = Ok res /\
       RespBody res = Ok body /\
       StatusCode res < 300 /\
       json_autoChannelResponse env body = Ok response /\
       match Payment response with
       | Some payment =>
           exists mSatoshi,
             decodepay_Decodepay env (bolt11_Invoice payment) = Ok mSatoshi /\
             strconv.ParseUint (FeeTotalSat payment) = Ok (Fee accepted) /\
             Fee accepted = wrap_uint64 (mSatoshi ÷ 1000) /\
             Invoice accepted = bolt11_Invoice payment
       | None => Fee accepted = 0 /\ Invoice accepted = ""
       end) /\
  (forall r w1 res body response payment fee mSatoshi,
     run env fetchUserToken w = Returns r w1 ->
     http_NewRequest env "POST" url = None ->
     answer env (trace (after_fetch r w1)) (result Response)
       (HttpDo (fetched_token r) (Some (60 * time.Second))
          (auto_channel_request env url pubkey isPublic)) = Ok res ->
     RespBody res = Ok body ->
     StatusCode res < 300 ->
     json_autoChannelResponse env body = Ok response ->
     Payment response = Some payment ->
     strconv.ParseUint (FeeTotalSat payment) = Ok fee ->
     decodepay_Decodepay env (bolt11_Invoice payment) = Ok mSatoshi ->
     (fee <> wrap_uint64 (mSatoshi ÷ 1000) ->
      exists w', run env (requestAutoChannel env url pubkey isPublic) w
                 = Returns (Err feeMismatchError) w') /\
     (fee = wrap_uint64 (mSatoshi ÷ 1000) ->
      forall channelSize,
        strconv.ParseUint (LspBalanceSat response) = Ok channelSize ->
        exists w', run env (requestAutoChannel env url pubkey isPublic) w
                   = Returns (Ok {| Invoice := bolt11_Invoice payment; Fee := fee;
                                    ChannelSize := channelSize |}) w')).
Proof.
  split.
  - intros accepted w' Hrun. unfold requestAutoChannel in Hrun. rewrite run_bind in Hrun.
    destruct (run env fetchUserToken w) as [r w1 | v w1 | w1]; try discriminate.
    assert (run env (requestAutoChannel_request env (fetched_token r) url pubkey isPublic)
              (after_fetch r w1) = Returns (Ok accepted) w') as Hrequest
      by (destruct r; exact Hrun).
    apply requestAutoChannel_request_accepted in Hrequest
      as (res & body & response & Hnew & Hanswer & Hbody & Hstatus & Hjson & Hcheck).
    apply checkAutoChannelResponse_accepted in Hcheck as [_ Hpayment].
    exists r, w1, res, body, response. repeat (split; [assumption || reflexivity |]).
    exact Hpayment.
  - intros r w1 res body response payment fee mSatoshi
      Hfetch Hnew Hanswer Hbody Hstatus Hjson Hpayment Hfee Hdecode.
    rewrite (requestAutoChannel_decoded env url pubkey isPublic w r w1 res body response)
      by assumption.
    split.
    + intros Hne. eexists.
      eapply checkAutoChannelResponse_mismatch; eassumption.
    + intros -> channelSize Hsize. eexists.
      eapply checkAutoChannelResponse_match; eassumption.
Qed.

(** The example of C1: the invoice is of 500000 msat; the fee ["500"] is
    accepted and the fee ["501"] is refused with the fee-mismatch error. *)
Lemma requestAutoChannel_fee_must_match_witness :
  (exists w', run (fee_env "500") (requestAutoChannel (fee_env "500") lsp_url "02aa" true)
                relay_world
              = Returns (Ok {| Invoice := "500000"; Fee := 500; ChannelSize := 100000 |}) w') /\
  (exists w', run (fee_env "501") (requestAutoChannel (fee_env "501") lsp_url "02aa" true)
                relay_world
              = Returns (Err feeMismatchError) w').
Proof.
  split.
  - destruct (requestAutoChannel_fee_must_match (fee_env "500") lsp_url "02aa" true relay_world)
      as [_ Hdecoded].
    destruct (Hdecoded (Ok (Some (session_of "access1" "refresh1" 4600))) relay_fetched
                no_content "" (fee_response "500")
                {| bolt11_Invoice := "500000"; FeeTotalSat := "500" |} 500 500000)
      as [_ Haccepted].
    + vm_compute. reflexivity.
    + reflexivity.
    + reflexivity.
    + reflexivity.
    + vm_compute. reflexivity.
    + reflexivity.
    + reflexivity.
    + reflexivity.
    + reflexivity.
    + apply (Haccepted eq_refl 100000). reflexivity.
  - destruct (requestAutoChannel_fee_must_match (fee_env "501") lsp_url "02aa" true relay_world)
      as [_ Hdecoded].
    destruct (Hdecoded (Ok (Some (session_of "access1" "refresh1" 4600))) relay_fetched
                no_content "" (fee_response "501")
                {| bolt11_Invoice := "500000"; FeeTotalSat := "501" |} 501 500000)
      as [Hrefused _].
    + vm_compute. reflexivity.
    + reflexivity.
    + reflexivity.
    + reflexivity.
    + vm_compute. reflexivity.
    + reflexivity.
    + reflexivity.
    + reflexivity.
    + reflexivity.
    + apply Hrefused. vm_compute. intros H. discriminate H.
Defined.

(** C1 as stated fails.  The invoice is of 500999 msat,
    which is not 500 satoshis exactly, and the response declares the fee
    ["500"]: the quotient drops the 999 msat, the response is accepted and
    the result carries that invoice. *)
Lemma requestAutoChannel_accepts_truncated_fee :
  decodepay_Decodepay (invoice_env "500999" "500") "500999" = Ok 500999 /\
  strconv.ParseUint "500" = Ok 500 /\
  500 * 1000 <> 500999 /\
  exists w',
    run (invoice_env "500999" "500")
      (requestAutoChannel (invoice_env "500999" "500") lsp_url "02aa" true) relay_world
    = Returns (Ok {| Invoice := "500999"; Fee := 500; ChannelSize := 100000 |}) w'.
Proof.
  split; [vm_compute; reflexivity |].
  split; [vm_compute; reflexivity |].
  split; [discriminate |].
  eexists. vm_compute. reflexivity.
Qed.

(** ** Concurrent callers of the token cache *)

Lemma critical_inv {A} (p : Prog A) :
  critical p ->
  match p with
  | Vis e k =>
      match e in E X return (X -> Prog A) -> Prop with
      | MutexLock => fun _ => False
      | MutexUnlock => fun k => exists a, k = fun _ => Ret a
      | CfgGet _ => fun k => forall x, critical (k x)
      | CfgSetUpdate _ _ => fun k => forall x, critical (k x)
      | Log _ _ _ => fun k => forall x, critical (k x)
      | Ext _ => fun k => forall x, critical (k x)
      end k
  | _ => False
  end.
Proof. intros H. destruct H; eauto. Qed.

Lemma critical_bind {A B} (p : Prog A) (f : A -> Prog B) :
  lockfree p -> (forall a, critical (f a)) -> critical (p ≫= f).
Proof.
  intros Hp Hf. induction Hp as [a | key k _ IH | key value k _ IH
    | lvl msg err k _ IH | X e k _ IH].
  - apply Hf.
  - apply critical_cfg_get. exact IH.
  - apply critical_cfg_set. exact IH.
  - apply critical_log. exact IH.
  - apply critical_ext. exact IH.
Qed.

Ltac lockfree_auto :=
  repeat (cbv delta [vis ext logDebug logInfo logError] beta;
          cbn [bind mbind Prog_bind mret Prog_ret];
          match goal with
          | |- lockfree (Ret _) => apply lockfree_ret
          | |- lockfree (Vis (CfgGet _) _) => apply lockfree_cfg_get; intros ?
          | |- lockfree (Vis (CfgSetUpdate _ _) _) => apply lockfree_cfg_set; intros ?
          | |- lockfree (Vis (Log _ _ _) _) => apply lockfree_log; intros ?
          | |- lockfree (Vis (Ext _) _) => apply lockfree_ext; intros ?
          | |- lockfree ?p =>
              match p with
              | context [match ?x with _ => _ end] => destruct x
              end
          end).

Lemma fetchUserToken_locked_lockfree : lockfree fetchUserToken_locked.
Proof. unfold fetchUserToken_locked, saveToken. lockfree_auto. Qed.

Lemma fetchUserToken_held_critical : critical fetchUserToken_held.
Proof.
  unfold fetchUserToken_held. apply critical_bind.
  - apply fetchUserToken_locked_lockfree.
  - intros r. apply critical_unlock.
Qed.

Lemma critical_not_idle p : critical p -> p <> fetchUserToken.
Proof. intros Hcrit ->. apply critical_inv in Hcrit. exact Hcrit. Qed.

Lemma critical_not_returned {A} (p : Prog A) : critical p -> returned p = None.
Proof. intros Hcrit. destruct Hcrit; reflexivity. Qed.

(** A step of a program that holds the mutex: either it still holds it, or
    it has just released it and has returned. *)
Lemma critical_step {A} env (p q : Prog A) w w' :
  critical p -> tokenMutex w = true -> step_of env p w = Some (q, w') ->
  run env p w = run env q w' /\
  ((tokenMutex w' = true /\ critical q) \/ (tokenMutex w' = false /\ exists a, q = Ret a)).
Proof.
  intros Hcrit Hheld Hstep.
  destruct Hcrit as [a | key k Hk | key value k Hk | lvl msg err k Hk | X e k Hk];
    cbn [step_of handle] in Hstep; cbn [run handle].
  - rewrite Hheld in *. injection Hstep as <- <-. split; [reflexivity |].
    right. cbn [tokenMutex]. eauto.
  - injection Hstep as <- <-. split; [reflexivity |].
    left. cbn [record tokenMutex]. auto.
  - injection Hstep as <- <-. split; [reflexivity |].
    left. cbn [tokenMutex]. auto.
  - injection Hstep as <- <-. split; [reflexivity |].
    left. cbn [record tokenMutex]. auto.
  - injection Hstep as <- <-. split; [reflexivity |].
    left. cbn [record tokenMutex]. auto.
Qed.

(** The only step of an idle caller is to take the free mutex. *)
Lemma idle_step env q w w' :
  step_of env fetchUserToken w = Some (q, w') ->
  tokenMutex w = false /\ q = fetchUserToken_held /\ tokenMutex w' = true /\
  run env fetchUserToken w = run env q w'.
Proof.
  unfold fetchUserToken at 1. cbn [mbind Prog_bind bind vis step_of handle].
  intros Hstep. unfold fetchUserToken. cbn [mbind Prog_bind bind vis run handle].
  destruct (tokenMutex w); [discriminate |].
  injection Hstep as <- <-. auto.
Qed.

Lemma pool_step_step_of {A} env (w w' : World) (ts ts' : list (Prog A)) :
  pool_step env (w, ts) (w', ts') ->
  exists i p q, ts !! i = Some p /\ step_of env p w = Some (q, w') /\ ts' = <[i := q]> ts.
Proof.
  intros Hstep. inversion Hstep as [w1 w2 ts1 i X e k x Hlookup Hhandle]; subst.
  exists i, (Vis e k), (k x). split; [exact Hlookup |]. split; [| reflexivity].
  cbn [step_of]. rewrite Hhandle. reflexivity.
Qed.

Lemma step_of_pool_step {A} env (w w' : World) (ts : list (Prog A)) i p q :
  ts !! i = Some p -> step_of env p w = Some (q, w') ->
  pool_step env (w, ts) (w', <[i := q]> ts).
Proof.
  intros Hlookup Hstep. destruct p as [a | X e k | v]; try discriminate.
  cbn [step_of] in Hstep.
  destruct (handle env w e) as [[x w1] |] eqn:Hhandle; [| discriminate].
  injection Hstep as <- <-. eapply pool_step_at; eassumption.
Qed.

(** A scheduled run is a run of the pool. *)
Lemma pool_exec_steps {A} env schedule : forall w (ts : list (Prog A)),
  rtc (pool_step env) (w, ts) (pool_exec env schedule w ts).
Proof.
  induction schedule as [| i rest IH]; intros w ts; cbn [pool_exec].
  - apply rtc_refl.
  - destruct (ts !! i) as [p |] eqn:Hlookup; [| apply IH].
    destruct (step_of env p w) as [[p' w'] |] eqn:Hstep; [| apply IH].
    eapply rtc_l; [eapply step_of_pool_step; eassumption | apply IH].
Qed.

(** A program run alone to its end is a run of the pool. *)
Lemma run_pool_steps {A} env (p : Prog A) : forall w (ts : list (Prog A)) i a w',
  ts !! i = Some p -> run env p w = Returns a w' ->
  rtc (pool_step env) (w, ts) (w', <[i := Ret a]> ts).
Proof.
  induction p as [a0 | X e k IH | v]; intros w ts i a w' Hlookup Hrun; cbn [run] in Hrun.
  - injection Hrun as <- <-. rewrite list_insert_id by exact Hlookup. apply rtc_refl.
  - destruct (handle env w e) as [[x w1] |] eqn:Hhandle; [| discriminate].
    eapply rtc_l; [eapply pool_step_at; eassumption |].
    replace (<[i := Ret a]> ts) with (<[i := Ret a]> (<[i := k x]> ts))
      by apply list_insert_insert_eq.
    apply (IH x); [| exact Hrun].
    apply list_lookup_insert_eq. eapply lookup_lt_Some. exact Hlookup.
  - discriminate.
Qed.

Lemma emits_any {A} (p : Prog A) : emits (fun _ => True) p.
Proof. induction p; constructor; auto. Qed.

Lemma refresh_calls_app tr tr' :
  refresh_calls (tr ++ tr') = (refresh_calls tr + refresh_calls tr')%nat.
Proof. unfold refresh_calls. rewrite List.filter_app, length_app. reflexivity. Qed.

(** Refresh calls are never undone. *)
Lemma refresh_calls_run {A} env (p : Prog A) w :
  (refresh_calls (trace w) <= refresh_calls (trace (final_world (run env p w))))%nat.
Proof.
  destruct (emits_trace env _ p (emits_any p) w) as (tr & -> & _).
  rewrite refresh_calls_app. lia.
Qed.

Section SingleFlight.

Variable env : Env.
Variables access expiry refresh : string.
Variable expiry64 : Z.
Variable newToken : Token.
Variable calls : nat.

Hypothesis access_set : access <> "".
Hypothesis refresh_set : refresh <> "".
Hypothesis expiry_parsed : strconv.ParseInt expiry = Ok expiry64.
Hypothesis expiring : forall h, time.FromUnix expiry64 <= clock env h + 20 * time.Second.
Hypothesis provider :
  forall h, refresh_answer env h (session_of access refresh expiry64) = Ok newToken.
Hypothesis new_access_set : AccessToken newToken <> "".
Hypothesis new_refresh_set : RefreshToken newToken <> "".
Hypothesis new_expiry_int64 : in_int64 (time.Unix (Expiry newToken)).
Hypothesis new_fresh :
  forall h, time.FromUnix (time.Unix (Expiry newToken)) > clock env h + 20 * time.Second.

Let stale (w : World) : Prop := at_rest w access expiry refresh calls.

Let renewed (w : World) : Prop :=
  at_rest w (AccessToken newToken) (strconv.FormatInt (time.Unix (Expiry newToken)))
    (RefreshToken newToken) (S calls).

Let inv := pool_inv env access expiry refresh newToken calls.

(** The first caller refreshes. *)
Lemma fetch_stale w :
  stale w ->
  exists w', run env fetchUserToken w = Returns (Ok (Some newToken)) w' /\ renewed w'.
Proof.
  intros (Hfree & Hsession & Hcalls).
  eexists. split.
  - eapply (fetchUserToken_refreshed env w access expiry refresh expiry64);
      [exact Hfree | exact Hsession | exact access_set | exact refresh_set
      | exact expiry_parsed | apply expiring | apply provider].
  - split; [reflexivity |]. split; [eapply saved_session; exact Hsession |].
    cbn [trace]. unfold refresh_calls in *. cbn. rewrite Hcalls. reflexivity.
Qed.

(** Every later caller finds the renewed session. *)
Lemma fetch_renewed w :
  renewed w ->
  exists r w', run env fetchUserToken w = Returns r w' /\ got newToken r /\ renewed w'.
Proof.
  intros (Hfree & Hsession & Hcalls).
  eexists _, _. split.
  - eapply (fetchUserToken_cached env w (AccessToken newToken)
              (strconv.FormatInt (time.Unix (Expiry newToken))) (RefreshToken newToken)
              (time.Unix (Expiry newToken)));
      [exact Hfree | exact Hsession | exact new_access_set | exact new_refresh_set
      | apply strconv_facts.ParseInt_FormatInt; exact new_expiry_int64 | apply new_fresh].
  - split.
    + eexists. split; [reflexivity |]. unfold same_session, session_of.
      cbn [AccessToken RefreshToken Expiry].
      rewrite Unix_FromUnix by exact new_expiry_int64. auto.
    + split; [reflexivity |]. split; [exact Hsession |].
      cbn [trace]. unfold refresh_calls in *. cbn. exact Hcalls.
Qed.

Lemma got_refl : got newToken (Ok (Some newToken)).
Proof. exists newToken. unfold same_session. auto. Qed.

Lemma done_no_step r w : step_of env (Ret r : Prog (result (option Token))) w = None.
Proof. reflexivity. Qed.

(** An idle caller that takes the mutex of a world at rest is inside, and
    will return with the renewed session. *)
Lemma inv_enter w w' ts i q :
  (stale w \/ renewed w) ->
  (forall j p, ts !! j = Some p -> idle_or_done newToken p) ->
  ts !! i = Some fetchUserToken ->
  step_of env fetchUserToken w = Some (q, w') ->
  inv (w', <[i := q]> ts).
Proof.
  intros Hrest Hothers Hlookup Hstep.
  apply idle_step in Hstep as (Hfree & -> & Hheld & Hrun).
  assert (exists r w1, run env fetchUserToken w = Returns r w1 /\
                       got newToken r /\ renewed w1) as (r & w1 & Hfetch & Hgot & Hrenewed).
  { destruct Hrest as [Hstale | Hrenewed].
    - destruct (fetch_stale _ Hstale) as (w1 & Hfetch & Hrenewed).
      exists (Ok (Some newToken)), w1. auto using got_refl.
    - apply fetch_renewed. exact Hrenewed. }
  right. right. cbn [fst snd]. split; [exact Hheld |].
  exists i, fetchUserToken_held, r, w1.
  split; [apply list_lookup_insert_eq; eapply lookup_lt_Some; exact Hlookup |].
  split; [apply fetchUserToken_held_critical |].
  split; [rewrite <- Hrun; exact Hfetch |].
  split; [exact Hgot |]. split; [exact Hrenewed |].
  intros j p Hne Hj. rewrite list_lookup_insert_ne in Hj by congruence.
  eapply Hothers. exact Hj.
Qed.

Lemma idle_or_done_step w w' p q :
  idle_or_done newToken p -> step_of env p w = Some (q, w') ->
  p = fetchUserToken /\ tokenMutex w = false.
Proof.
  intros [-> | (r & -> & _)] Hstep; [| discriminate].
  split; [reflexivity |]. apply idle_step in Hstep. tauto.
Qed.

Lemma pool_inv_step s s' : inv s -> pool_step env s s' -> inv s'.
Proof.
  destruct s as [w ts], s' as [w' ts']. intros Hinv Hstep.
  apply pool_step_step_of in Hstep as (i & p & q & Hlookup & Hstep & ->).
  destruct Hinv as [(Hstale & Hidle) | [(Hrenewed & Hdone) | (Hheld & Hinside)]];
    cbn [fst snd] in *.
  - rewrite Forall_lookup in Hidle. pose proof (Hidle _ _ Hlookup) as ->.
    eapply inv_enter; eauto.
    intros j p Hj. left. eapply Hidle. exact Hj.
  - rewrite Forall_lookup in Hdone.
    destruct (idle_or_done_step _ _ _ _ (Hdone _ _ Hlookup) Hstep) as [-> _].
    eapply inv_enter; eauto.
  - destruct Hinside as (i0 & p0 & r & w1 & Hlookup0 & Hcrit & Hrun & Hgot & Hrenewed & Hothers).
    destruct (decide (i = i0)) as [-> | Hne].
    + rewrite Hlookup0 in Hlookup. injection Hlookup as <-.
      destruct (critical_step env p0 q w w' Hcrit Hheld Hstep)
        as (Heq & [(Hheld' & Hcrit') | (Hfree' & a & ->)]).
      * right. right. cbn [fst snd]. split; [exact Hheld' |].
        exists i0, q, r, w1.
        split; [apply list_lookup_insert_eq; eapply lookup_lt_Some; exact Hlookup0 |].
        split; [exact Hcrit' |]. split; [rewrite <- Heq; exact Hrun |].
        split; [exact Hgot |]. split; [exact Hrenewed |].
        intros j p Hj Hp. rewrite list_lookup_insert_ne in Hp by congruence.
        eapply Hothers; eassumption.
      * rewrite Heq in Hrun. cbn [run] in Hrun. injection Hrun as -> ->.
        right. left. cbn [fst snd]. split; [exact Hrenewed |].
        rewrite Forall_lookup. intros j p Hp.
        destruct (decide (j = i0)) as [-> | Hj].
        -- rewrite list_lookup_insert_eq in Hp by (eapply lookup_lt_Some; exact Hlookup0).
           injection Hp as <-. right. eauto.
        -- rewrite list_lookup_insert_ne in Hp by congruence.
           eapply Hothers; eassumption.
    + exfalso.
      destruct (idle_or_done_step _ _ _ _ (Hothers _ _ Hne Hlookup) Hstep) as [_ Hfree].
      congruence.
Qed.

Lemma pool_inv_reachable n w0 s :
  stale w0 ->
  rtc (pool_step env) (w0, replicate n fetchUserToken) s -> inv s.
Proof.
  intros Hstale Hsteps.
  apply (rtc_ind_r (R := pool_step env) (fun s => inv s) (w0, replicate n fetchUserToken));
    [| | exact Hsteps].
  - left. cbn [fst snd]. split; [exact Hstale |].
    apply Forall_replicate. reflexivity.
  - intros s1 s2 _ Hstep Hinv. eapply pool_inv_step; eassumption.
Qed.

(** At most one caller is inside. *)
Lemma inv_serialized w ts i j p q :
  inv (w, ts) -> ts !! i = Some p -> ts !! j = Some q -> inside p -> inside q -> i = j.
Proof.
  assert (forall p, idle_or_done newToken p -> ~ inside p) as Hout.
  { intros p0 [-> | (r & -> & _)] [Hstarted Hrunning]; [congruence | discriminate]. }
  intros [(_ & Hidle) | [(_ & Hdone) | (_ & Hinside)]] Hi Hj Hp Hq; cbn [fst snd] in *.
  - rewrite Forall_lookup in Hidle. exfalso. apply (Hout p); [left; eauto | exact Hp].
  - rewrite Forall_lookup in Hdone. exfalso. apply (Hout p); eauto.
  - destruct Hinside as (i0 & p0 & r & w1 & Hlookup0 & _ & _ & _ & _ & Hothers).
    destruct (decide (i = i0)) as [-> | Hne];
      [| exfalso; apply (Hout p); eauto].
    destruct (decide (j = i0)) as [-> | Hne];
      [reflexivity | exfalso; apply (Hout q); eauto].
Qed.

(** Whoever has returned has the renewed session. *)
Lemma inv_returned w ts i r :
  inv (w, ts) -> ts !! i = Some (Ret r) -> got newToken r.
Proof.
  assert (forall p, idle_or_done newToken p -> p = Ret r -> got newToken r) as Hdone.
  { intros p [-> | (r' & -> & Hgot)] Heq; [discriminate Heq |].
    injection Heq as <-. exact Hgot. }
  intros [(_ & Hidle) | [(_ & Hall) | (_ & Hinside)]] Hi; cbn [fst snd] in *.
  - rewrite Forall_lookup in Hidle. discriminate (Hidle _ _ Hi).
  - rewrite Forall_lookup in Hall. eapply Hdone; eauto.
  - destruct Hinside as (i0 & p0 & r0 & w1 & Hlookup0 & Hcrit & _ & _ & _ & Hothers).
    destruct (decide (i = i0)) as [-> | Hne].
    + rewrite Hlookup0 in Hi. injection Hi as ->.
      apply critical_inv in Hcrit. contradiction.
    + eapply Hdone; eauto.
Qed.

(** Whoever is inside holds the mutex. *)
Lemma inv_inside_holds w ts i p :
  inv (w, ts) -> ts !! i = Some p -> inside p -> tokenMutex w = true.
Proof.
  assert (forall p, idle_or_done newToken p -> ~ inside p) as Hout.
  { intros p0 [-> | (r & -> & _)] [Hstarted Hrunning]; [congruence | discriminate]. }
  intros [(_ & Hidle) | [(_ & Hdone) | (Hheld & _)]] Hi Hp; cbn [fst snd] in *.
  - rewrite Forall_lookup in Hidle. exfalso. apply (Hout p); [left; eauto | exact Hp].
  - rewrite Forall_lookup in Hdone. exfalso. apply (Hout p); eauto.
  - exact Hheld.
Qed.

(** Never more than one refresh; exactly one once all have returned. *)
Lemma inv_calls w ts :
  inv (w, ts) ->
  (refresh_calls (trace w) <= S calls)%nat /\
  (ts <> [] -> Forall (fun p => is_Some (returned p)) ts ->
   refresh_calls (trace w) = S calls).
Proof.
  intros [((_ & _ & Hcalls) & Hidle) | [((_ & _ & Hcalls) & _) | (Hheld & Hinside)]];
    cbn [fst snd] in *.
  - split; [lia |]. intros Hne Hall. destruct ts as [| p ts]; [contradiction |].
    apply Forall_cons in Hidle as [-> _]. apply Forall_cons in Hall as [[a Ha] _].
    discriminate Ha.
  - split; [lia | auto].
  - destruct Hinside as (i0 & p0 & r0 & w1 & Hlookup0 & Hcrit & Hrun & _ & (_ & _ & Hcalls) & _).
    split.
    + pose proof (refresh_calls_run env p0 w) as Hle. rewrite Hrun in Hle.
      cbn [final_world] in Hle. lia.
    + intros _ Hall. rewrite Forall_lookup in Hall.
      destruct (Hall _ _ Hlookup0) as [a Ha].
      rewrite (critical_not_returned _ Hcrit) in Ha. discriminate Ha.
Qed.

(** With the session renewed, the callers that have not started can be run
    one after the other. *)
Lemma complete_renewed k : forall w ts,
  renewed w -> Forall (idle_or_done newToken) ts ->
  exists w' ts',
    rtc (pool_step env) (w, ts) (w', ts') /\ renewed w' /\
    Forall (idle_or_done newToken) ts' /\ length ts' = length ts /\
    forall j p, (j < k)%nat -> ts' !! j = Some p -> is_Some (returned p).
Proof.
  induction k as [| k IH]; intros w ts Hrenewed Hall.
  - exists w, ts. split; [apply rtc_refl |]. split; [exact Hrenewed |].
    split; [exact Hall |]. split; [reflexivity |]. intros j p Hj. lia.
  - destruct (IH w ts Hrenewed Hall) as (w1 & ts1 & Hsteps & Hrenewed1 & Hall1 & Hlen & Hprefix).
    destruct (ts1 !! k) as [p |] eqn:Hk.
    + rewrite Forall_lookup in Hall1.
      destruct (Hall1 _ _ Hk) as [-> | (r & -> & Hgot)].
      * destruct (fetch_renewed _ Hrenewed1) as (r & w2 & Hrun & Hgot & Hrenewed2).
        exists w2, (<[k := Ret r]> ts1).
        split; [etrans; [exact Hsteps | eapply run_pool_steps; eassumption] |].
        split; [exact Hrenewed2 |].
        split.
        { rewrite Forall_lookup. intros j p Hp.
          destruct (decide (j = k)) as [-> | Hne].
          - rewrite list_lookup_insert_eq in Hp by (eapply lookup_lt_Some; exact Hk).
            injection Hp as <-. right. eauto.
          - rewrite list_lookup_insert_ne in Hp by congruence. eauto. }
        split; [rewrite length_insert; exact Hlen |].
        intros j p Hj Hp. destruct (decide (j = k)) as [-> | Hne].
        { rewrite list_lookup_insert_eq in Hp by (eapply lookup_lt_Some; exact Hk).
          injection Hp as <-. cbn. eauto. }
        rewrite list_lookup_insert_ne in Hp by congruence.
        eapply Hprefix; [| exact Hp]. lia.
      * exists w1, ts1. split; [exact Hsteps |]. split; [exact Hrenewed1 |].
        split; [rewrite Forall_lookup; exact Hall1 |]. split; [exact Hlen |].
        intros j p Hj Hp. destruct (decide (j = k)) as [-> | Hne].
        { rewrite Hk in Hp. injection Hp as <-. cbn. eauto. }
        eapply Hprefix; [| exact Hp]. lia.
    + exists w1, ts1. split; [exact Hsteps |]. split; [exact Hrenewed1 |].
      split; [exact Hall1 |]. split; [exact Hlen |].
      intros j p Hj Hp. destruct (decide (j = k)) as [-> | Hne]; [congruence |].
      eapply Hprefix; [| exact Hp]. lia.
Qed.

Lemma complete_all w ts :
  renewed w -> Forall (idle_or_done newToken) ts ->
  exists w' ts',
    rtc (pool_step env) (w, ts) (w', ts') /\ Forall (fun p => is_Some (returned p)) ts'.
Proof.
  intros Hrenewed Hall.
  destruct (complete_renewed (length ts) w ts Hrenewed Hall)
    as (w' & ts' & Hsteps & _ & _ & Hlen & Hprefix).
  exists w', ts'. split; [exact Hsteps |].
  rewrite Forall_lookup. intros j p Hp. eapply Hprefix; [| exact Hp].
  rewrite <- Hlen. eapply lookup_lt_Some. exact Hp.
Qed.

(** Every run of the pool can be carried on until all have returned. *)
Lemma inv_completes w ts :
  inv (w, ts) ->
  exists w' ts',
    rtc (pool_step env) (w, ts) (w', ts') /\ Forall (fun p => is_Some (returned p)) ts'.
Proof.
  intros [(Hstale & Hidle) | [(Hrenewed & Hdone) | (Hheld & Hinside)]]; cbn [fst snd] in *.
  - destruct ts as [| p ts].
    + exists w, []. split; [apply rtc_refl | constructor].
    + pose proof Hidle as Hidle'. apply Forall_cons in Hidle' as [-> _].
      destruct (fetch_stale _ Hstale) as (w1 & Hrun & Hrenewed).
      destruct (complete_all w1 (<[0%nat := Ret (Ok (Some newToken))]> (fetchUserToken :: ts)))
        as (w' & ts' & Hsteps & Hall).
      * exact Hrenewed.
      * cbn. constructor; [right; eauto using got_refl |].
        apply Forall_cons in Hidle as [_ Hidle].
        eapply Forall_impl; [exact Hidle |]. intros p ->. left. reflexivity.
      * exists w', ts'. split; [| exact Hall].
        etrans; [| exact Hsteps].
        eapply (run_pool_steps env fetchUserToken w (fetchUserToken :: ts) 0%nat);
          [reflexivity | exact Hrun].
  - apply complete_all; assumption.
  - destruct Hinside as (i0 & p0 & r & w1 & Hlookup0 & Hcrit & Hrun & Hgot & Hrenewed & Hothers).
    destruct (complete_all w1 (<[i0 := Ret r]> ts)) as (w' & ts' & Hsteps & Hall).
    + exact Hrenewed.
    + rewrite Forall_lookup. intros j p Hp.
      destruct (decide (j = i0)) as [-> | Hne].
      * rewrite list_lookup_insert_eq in Hp by (eapply lookup_lt_Some; exact Hlookup0).
        injection Hp as <-. right. eauto.
      * rewrite list_lookup_insert_ne in Hp by congruence. eauto.
    + exists w', ts'. split; [| exact Hall].
      etrans; [| exact Hsteps]. eapply run_pool_steps; eassumption.
Qed.

End SingleFlight.

(** C9 (amended).  Any number of goroutines call [fetchUserToken] at once,
    and nothing else runs, on a stored session that is expiring (at most 20
    seconds left whenever the clock is read), the provider renewing it to a
    token whose expiry second is at most [2^63 - 1 - 62135596800] and more
    than 20 seconds ahead of every clock reading.  In every state the pool
    can reach, under every interleaving: at most one caller is inside
    [fetchUserToken], and it holds the mutex; every caller that has returned
    has the session of the new token (its access token, refresh token and
    expiry second); at most one refresh exchange has been made, and exactly
    one once all callers have returned; and the run can always be carried on
    until all callers have returned. *)
Theorem concurrent_fetches_refresh_once
    (env : Env) (n : nat) (w0 : World) (access expiry refresh : string) (expiry64 : Z)
    (newToken : Token) :
  tokenMutex w0 = false ->
  stored_session (cfg w0) access expiry refresh ->
  access <> "" -> refresh <> "" ->
  strconv.ParseInt expiry = Ok expiry64 ->
  (forall h, expiry64 * time.Second <= clock env h + 20 * time.Second) ->
  (forall h, refresh_answer env h (session_of access refresh expiry64) = Ok newToken) ->
  AccessToken newToken <> "" -> RefreshToken newToken <> "" ->
  time.Unix (Expiry newToken) <= time.maxUnix ->
  (forall h, time.Unix (Expiry newToken) * time.Second > clock env h + 20 * time.Second) ->
  forall w ts,
    rtc (pool_step env) (w0, replicate n fetchUserToken) (w, ts) ->
    (forall i j p q, ts !! i = Some p -> ts !! j = Some q -> inside p -> inside q -> i = j) /\
    (forall i p, ts !! i = Some p -> inside p -> tokenMutex w = true) /\
    (forall i r, ts !! i = Some (Ret r) -> got newToken r) /\
    (refresh_calls (trace w) <= S (refresh_calls (trace w0)))%nat /\
    (ts <> [] -> Forall (fun p => is_Some (returned p)) ts ->
     refresh_calls (trace w) = S (refresh_calls (trace w0))) /\
    exists w' ts',
      rtc (pool_step env) (w, ts) (w', ts') /\ Forall (fun p => is_Some (returned p)) ts'.
Proof.
  intros Hfree Hsession Haccess Hrefresh Hparse Hleft Hprovider
    Hnew_access Hnew_refresh Hmax Hahead w ts Hsteps.
  assert (forall h, time.FromUnix expiry64 <= clock env h + 20 * time.Second) as Hexpiring.
  { intros h. etrans; [| apply Hleft].
    apply FromUnix_le. eapply ParseInt_in_int64. exact Hparse. }
  pose proof (Unix_in_int64 (Expiry newToken)) as Hint64.
  assert (forall h, time.FromUnix (time.Unix (Expiry newToken))
                    > clock env h + 20 * time.Second) as Hfresh.
  { intros h. rewrite FromUnix_exact by assumption. apply Hahead. }
  assert (pool_inv env access expiry refresh newToken (refresh_calls (trace w0)) (w, ts))
    as Hinv.
  { eapply pool_inv_reachable; try eassumption.
    split; [exact Hfree | split; [exact Hsession | reflexivity]]. }
  split; [intros i j p q; eapply inv_serialized; exact Hinv |].
  split; [intros i p; eapply inv_inside_holds; exact Hinv |].
  split; [intros i r; eapply inv_returned; exact Hinv |].
  destruct (inv_calls env access expiry refresh newToken _ w ts Hinv) as [Hle Hall].
  split; [exact Hle |]. split; [exact Hall |].
  eapply (inv_completes env access expiry refresh expiry64 newToken
            (refresh_calls (trace w0))); eassumption.
Qed.

(** C9 for three goroutines taking turns on a session with 19 seconds left:
    all three return the session of the new token, after one refresh. *)
Lemma concurrent_fetches_refresh_once_witness :
  let s := pool_exec buffer_env round_robin (buffer_world "1019")
             (replicate 3 fetchUserToken) in
  Forall (fun p => is_Some (returned p)) s.2 /\
  refresh_calls (trace s.1) = 1%nat /\
  forall i r, s.2 !! i = Some (Ret r) -> got hour_token r.
Proof.
  intros s.
  destruct (concurrent_fetches_refresh_once buffer_env 3 (buffer_world "1019")
              "access1" "1019" "refresh1" 1019 hour_token) with (w := s.1) (ts := s.2)
    as (_ & _ & Hgot & _ & Hcalls & _).
  - reflexivity.
  - repeat split; vm_compute; reflexivity.
  - intros H; discriminate H.
  - intros H; discriminate H.
  - vm_compute. reflexivity.
  - intros h. vm_compute. intros H; discriminate H.
  - intros h. reflexivity.
  - intros H; discriminate H.
  - intros H; discriminate H.
  - vm_compute. intros H; discriminate H.
  - intros h. vm_compute. reflexivity.
  - rewrite <- surjective_pairing. apply pool_exec_steps.
  - assert (Forall (fun p => is_Some (returned p)) s.2) as Hall
      by (vm_compute; repeat constructor; eexists; reflexivity).
    split; [exact Hall |]. split; [| exact Hgot].
    apply Hcalls; [| exact Hall]. vm_compute. intros H; discriminate H.
Defined.

(** C9 as stated fails: not all access to the session
    is under the mutex.  One goroutine fetches the token of a good session
    while another handles an authorization callback.  The fetch takes the
    mutex and reads the access token; the callback then stores the exchanged
    session, its three writes made while the mutex is held by the other; the
    fetch reads on and returns the old access token with the new refresh
    token, a session that was never stored. *)
Lemma callback_writes_while_mutex_held :
  let s1 := pool_exec relink_env [0; 0; 1; 1; 1; 1]%nat relay_world
              [fetch_thread; callback_thread relink_env "code"] in
  let s2 := pool_exec relink_env [0; 0; 0; 0; 0]%nat s1.1 s1.2 in
  stored_session (cfg relay_world) "access1" "4600" "refresh1" /\
  tokenMutex s1.1 = true /\
  stored_session (cfg s1.1) "access2" "4600" "refresh2" /\
  s2.2 !! 0%nat = Some (Ret (inl (Ok (Some (session_of "access1" "refresh2" 4600))))).
Proof.
  intros s1 s2.
  split; [repeat split; vm_compute; reflexivity |].
  split; [vm_compute; reflexivity |].
  split; [repeat split; vm_compute; reflexivity |].
  vm_compute. reflexivity.
Qed.

(** ** The connection URI of the LSP *)

(** No clear-net URI: the error handed back is the nil error of the JSON
    decoding. *)
Lemma pickLSPUri_no_candidate env uris w :
  List.filter (fun uri => negb (strings.Contains uri ".onion")) uris = [] ->
  run env (pickLSPUri uris) w =
  Returns ("", "", 0, None) (record w (Log LError "Couldn't find HTTP URI" None)).
Proof. intros Hnone. unfold pickLSPUri. rewrite Hnone. reflexivity. Qed.

(** A first clear-net URI that does not match the pattern is an error. *)
Lemma pickLSPUri_unmatched env uris uri rest w :
  List.filter (fun uri => negb (strings.Contains uri ".onion")) uris = uri :: rest ->
  lspuri.FindStringSubmatch uri = None ->
  exists w', run env (pickLSPUri uris) w
             = Returns ("", "", 0, Some (ErrNew "could not decode LSP URI")) w'.
Proof.
  intros Hfirst Hnone. unfold pickLSPUri. rewrite Hfirst, Hnone.
  eexists. reflexivity.
Qed.

(** C7 at its failing inputs.  With a [get_info] answer that lists only an
    onion URI, or no URI at all, [getLSPInfo] returns empty values and a nil
    error, where the claim has a hard error; with a clear-net URI that does
    not match the pattern it returns an error, and with one that matches it
    returns the three parts. *)
Theorem getLSPInfo_no_candidate_nil_error :
  (exists w', run (lsp_env [onion_uri]) (getLSPInfo (lsp_env [onion_uri]) get_info_url)
                relay_world = Returns ("", "", 0, None) w') /\
  (exists w', run (lsp_env []) (getLSPInfo (lsp_env []) get_info_url) relay_world
              = Returns ("", "", 0, None) w') /\
  (exists w', run (lsp_env ["02ab@lsp.example.com:9735"])
                (getLSPInfo (lsp_env ["02ab@lsp.example.com:9735"]) get_info_url) relay_world
              = Returns ("", "", 0, Some (ErrNew "could not decode LSP URI")) w') /\
  (exists w', run (lsp_env [onion_uri; "02ab@203.0.113.7:9735"])
                (getLSPInfo (lsp_env [onion_uri; "02ab@203.0.113.7:9735"]) get_info_url)
                relay_world
              = Returns ("02ab", "203.0.113.7", 9735, None) w').
Proof.
  split; [eexists; vm_compute; reflexivity |].
  split; [eexists; vm_compute; reflexivity |].
  split; [eexists; vm_compute; reflexivity |].
  eexists; vm_compute; reflexivity.
Qed.
(** ** The float64 arithmetic of the drain *)

Module float64_facts.

(** *** Digits *)

Lemma digits2_bounds p :
  2 ^ (Zpos (digits2_pos p) - 1) <= Zpos p < 2 ^ Zpos (digits2_pos p).
Proof.
  induction p as [p IH | p IH |]; cbn [digits2_pos].
  - rewrite Pos2Z.inj_succ.
    replace (Z.succ (Z.pos (digits2_pos p)) - 1) with (Z.succ (Z.pos (digits2_pos p) - 1)) by lia.
    rewrite !Z.pow_succ_r by lia. lia.
  - rewrite Pos2Z.inj_succ.
    replace (Z.succ (Z.pos (digits2_pos p)) - 1) with (Z.succ (Z.pos (digits2_pos p) - 1)) by lia.
    rewrite !Z.pow_succ_r by lia. lia.
  - cbn. lia.
Qed.

(** [d] is the number of digits of a positive [m]. *)
Lemma digits2_unique m d :
  2 ^ (d - 1) <= Zpos m < 2 ^ d -> Zpos (digits2_pos m) = d.
Proof.
  intros [Hlo Hhi]. pose proof (digits2_bounds m) as [Hlo' Hhi'].
  assert (0 < d) as Hd.
  { destruct (Z.ltb_spec 0 d); [assumption |]. rewrite Z.pow_neg_r in Hlo by lia.
    destruct (Z.eq_dec d 0) as [-> |]; [cbn in Hhi; lia |].
    rewrite Z.pow_neg_r in Hhi by lia. lia. }
  destruct (Z.lt_total (Zpos (digits2_pos m)) d) as [Hlt | [Heq | Hgt]]; [| exact Heq |].
  - assert (2 ^ Zpos (digits2_pos m) <= 2 ^ (d - 1)) by (apply Z.pow_le_mono_r; lia). lia.
  - assert (2 ^ d <= 2 ^ (Zpos (digits2_pos m) - 1)) by (apply Z.pow_le_mono_r; lia). lia.
Qed.

(** *** Shifting right with a round and a sticky bit *)

Lemma iter_pos_nat {A} (f : A -> A) p x : iter_pos f p x = Nat.iter (Pos.to_nat p) f x.
Proof.
  revert x. induction p as [p IH | p IH |]; intros x; cbn [iter_pos].
  - rewrite !IH. replace (Pos.to_nat p~1) with (Pos.to_nat p + S (Pos.to_nat p))%nat by lia.
    rewrite Nat.iter_add, Nat.iter_succ_r. reflexivity.
  - rewrite !IH. replace (Pos.to_nat p~0) with (Pos.to_nat p + Pos.to_nat p)%nat by lia.
    rewrite Nat.iter_add. reflexivity.
  - reflexivity.
Qed.

Lemma shr_1_spec q r s :
  0 <= q ->
  shr_1 {| shr_m := q; shr_r := r; shr_s := s |}
  = {| shr_m := q / 2; shr_r := Z.odd q; shr_s := r || s |}.
Proof.
  intros Hq. destruct q as [| p | p]; [reflexivity | | lia].
  destruct p as [p | p |]; cbn [shr_1].
  - f_equal. rewrite Pos2Z.inj_xI. Z.div_mod_to_equations. lia.
  - f_equal. rewrite Pos2Z.inj_xO. Z.div_mod_to_equations. lia.
  - reflexivity.
Qed.

Lemma shr_iter k m :
  0 <= m ->
  let st := Nat.iter k shr_1 {| shr_m := m; shr_r := false; shr_s := false |} in
  shr_m st = m / 2 ^ Z.of_nat k /\
  encodes (m mod 2 ^ Z.of_nat k) (shr_r st) (shr_s st) k.
Proof.
  intros Hm. induction k as [| k IH]; cbv zeta; [| rewrite Nat.iter_succ].
  - cbn. rewrite Z.div_1_r, Z.mod_1_r. split; [reflexivity |].
    split; [split; [discriminate | congruence] | congruence].
  - cbv zeta in IH.
    destruct (Nat.iter k shr_1 {| shr_m := m; shr_r := false; shr_s := false |})
      as [q r s]. cbn [shr_m shr_r shr_s] in IH. destruct IH as [-> Henc].
    assert (0 < 2 ^ Z.of_nat k) as Hpow by (apply Z.pow_pos_nonneg; lia).
    assert (0 <= m / 2 ^ Z.of_nat k) as Hq by (apply Z.div_pos; lia).
    rewrite shr_1_spec by exact Hq. cbn [shr_m shr_r shr_s].
    assert (r || s = true <-> m mod 2 ^ Z.of_nat k <> 0) as Hrs by apply Henc.
    clear Henc. unfold encodes.
    rewrite Nat2Z.inj_succ, Z.pow_succ_r by lia.
    rewrite (Z.mul_comm 2 (2 ^ Z.of_nat k)).
    rewrite <- Z.div_div by lia. split; [reflexivity |].
    rewrite Z.rem_mul_r by lia.
    pose proof (Z.mod_pos_bound m (2 ^ Z.of_nat k) Hpow) as Hrem.
    set (rem := m mod 2 ^ Z.of_nat k) in *.
    set (q := m / 2 ^ Z.of_nat k) in *.
    rewrite Zodd_mod.
    pose proof (Z.mod_pos_bound q 2 ltac:(lia)) as Hbit.
    split; [| intros _; split].
    + destruct (Z.eqb_spec (q mod 2) 1) as [Hodd | Heven]; cbn [orb].
      * split; [lia | reflexivity].
      * replace (q mod 2) with 0 by lia. rewrite Z.mul_0_r, Z.add_0_r. exact Hrs.
    + destruct (Z.eqb_spec (q mod 2) 1) as [Hodd | Heven].
      * rewrite Hodd. split; [lia | reflexivity].
      * replace (q mod 2) with 0 by lia. split; [discriminate | lia].
    + destruct (Z.eqb_spec (q mod 2) 1) as [Hodd | Heven].
      * rewrite Hodd. rewrite Hrs. lia.
      * replace (q mod 2) with 0 by lia. rewrite Hrs. lia.
Qed.


Lemma shr_round m n :
  0 < m -> 0 < n ->
  let st := iter_pos shr_1 (Z.to_pos n) {| shr_m := m; shr_r := false; shr_s := false |} in
  let r := round_nearest_even (shr_m st) (loc_of_shr_record st) in
  (r = m / 2 ^ n \/ r = m / 2 ^ n + 1) /\ 2 * Z.abs (r * 2 ^ n - m) <= 2 ^ n.
Proof.
  intros Hm Hn. cbv zeta. rewrite iter_pos_nat.
  pose proof (shr_iter (Pos.to_nat (Z.to_pos n)) m ltac:(lia)) as H. cbv zeta in H.
  destruct (Nat.iter (Pos.to_nat (Z.to_pos n)) shr_1
              {| shr_m := m; shr_r := false; shr_s := false |}) as [q r s].
  cbn [shr_m shr_r shr_s] in H. unfold encodes in H.
  rewrite positive_nat_Z, Z2Pos.id in H by lia.
  destruct H as [-> [Hrs Henc]].
  destruct Henc as [Hr Hs]; [lia |].
  assert (0 < 2 ^ n) as Hpow by (apply Z.pow_pos_nonneg; lia).
  pose proof (Z.div_mod m (2 ^ n) ltac:(lia)) as Hdm.
  pose proof (Z.mod_pos_bound m (2 ^ n) Hpow) as Hrem.
  set (rem := m mod 2 ^ n) in *. set (q := m / 2 ^ n) in *. set (P := 2 ^ n) in *.
  unfold loc_of_shr_record, round_nearest_even. cbn [shr_m].
  destruct r, s.
  - assert (P <= 2 * rem) by (apply Hr; reflexivity).
    split; [right; reflexivity | lia].
  - assert (P <= 2 * rem) by (apply Hr; reflexivity).
    assert (rem = 0 \/ 2 * rem = P) as Htie.
    { destruct (Z.eq_dec rem 0); [left; assumption |].
      destruct (Z.eq_dec (2 * rem) P); [right; assumption |].
      assert (false = true) by (apply Hs; split; assumption). discriminate. }
    destruct (Z.even q); (split; [auto | lia]).
  - assert (~ P <= 2 * rem) by (intros Hle; apply Hr in Hle; discriminate).
    split; [left; reflexivity | lia].
  - assert (rem = 0).
    { destruct (Z.eq_dec rem 0); [assumption |].
      assert (false || false = true) by (apply Hrs; assumption). discriminate. }
    split; [left; reflexivity | lia].
Qed.

(** *** Rounding to 53 digits *)

Lemma rounds_error v v' : rounds v v' -> 2 ^ 53 * Z.abs (v' - v) <= v.
Proof.
  intros (a & Ha & _ & Herr & Hlo & _).
  rewrite Z.pow_add_r in Hlo by lia.
  change (2 ^ 53) with (2 * 2 ^ 52). nia.
Qed.

Lemma rounds_exact v v' t k :
  rounds v v' -> 0 <= k -> (2 ^ k | t) -> v < 2 ^ (k + 52) ->
  2 ^ 54 * Z.abs (v - t) < v -> v' = t.
Proof.
  intros (a & Ha & [c Hc] & Herr & Hlo & Hhi) Hk [c' Hc'] Hv Hnear.
  assert (a < k) as Hak.
  { apply (Z.pow_lt_mono_r_iff 2); [lia | lia |].
    apply Z.mul_lt_mono_pos_r with (p := 2 ^ 52); [lia |].
    rewrite <- !Z.pow_add_r by lia. lia. }
  assert (2 ^ k = 2 ^ (k - a) * 2 ^ a) as Hsplit.
  { rewrite <- Z.pow_add_r by lia. f_equal. lia. }
  assert (0 < 2 ^ a) as Hpow by (apply Z.pow_pos_nonneg; lia).
  rewrite Z.pow_add_r in Hhi by lia.
  assert (2 * Z.abs (v - t) < 2 ^ a) as Hnear'.
  { change (2 ^ 54) with (2 * 2 ^ 53) in Hnear. change (2 ^ 53) with 9007199254740992 in *.
    nia. }
  assert (Z.abs (v' - t) < 2 ^ a) as Hclose by lia.
  rewrite Hc', Hsplit, Hc in *.
  set (u := 2 ^ a) in *.
  assert (c = c' * 2 ^ (k - a)); [| subst c; lia].
  assert (Z.abs (c - c' * 2 ^ (k - a)) * u < 1 * u) as Hlt.
  { replace (Z.abs (c - c' * 2 ^ (k - a)) * u)
      with (Z.abs (c * u - c' * (2 ^ (k - a) * u))); [lia |].
    rewrite <- (Z.abs_eq u) at 3 by lia. rewrite <- Z.abs_mul. f_equal. ring. }
  apply Z.mul_lt_mono_pos_r in Hlt; lia.
Qed.

Lemma shr_fexp_exact m e :
  - 1074 <= Zpos (digits2_pos m) + e - 53 ->
  shr_fexp 53 1024 (Zpos m) e loc_Exact
  = shr {| shr_m := Zpos m; shr_r := false; shr_s := false |} e
        (Zpos (digits2_pos m) - 53).
Proof.
  intros Hrange. unfold shr_fexp, fexp, emin. cbn [Zdigits2 shr_record_of_loc].
  rewrite Z.max_l by lia. f_equal. lia.
Qed.

Lemma pow2_split a b : 0 <= a -> 0 <= b -> 2 ^ (a + b) = 2 ^ a * 2 ^ b.
Proof. intros. apply Z.pow_add_r; assumption. Qed.

(** The rounding of a product or of an aligned difference that has at
    least 53 digits. *)
Lemma binary_round_aux_rounds sx m e :
  53 <= Zpos (digits2_pos m) ->
  - 1074 <= Zpos (digits2_pos m) + e - 53 ->
  Zpos (digits2_pos m) + e - 52 <= 971 ->
  exists m' e',
    binary_round_aux 53 1024 sx (Zpos m) e loc_Exact = S754_finite sx m' e' /\
    Zpos (digits2_pos m') = 53 /\
    Zpos (digits2_pos m) + e - 53 <= e' <= Zpos (digits2_pos m) + e - 52 /\
    forall K, 0 <= e + K ->
      rounds (Zpos m * 2 ^ (e + K)) (Zpos m' * 2 ^ (e' + K)).
Proof.
  intros Hd Hlo Hhi. pose proof (digits2_bounds m) as Hm.
  unfold binary_round_aux. rewrite shr_fexp_exact by exact Hlo.
  set (d := Zpos (digits2_pos m)) in *.
  destruct (d - 53) as [| n | n] eqn:Hn; [| | lia].
  - (* already 53 digits *)
    cbn [shr shr_m loc_of_shr_record round_nearest_even].
    rewrite shr_fexp_exact by (fold d; lia). fold d. rewrite Hn.
    cbn [shr shr_m]. replace (e <=? 1024 - 53) with true by (symmetry; apply Z.leb_le; lia).
    exists m, e. split; [reflexivity |]. split; [fold d; lia |]. split; [lia |].
    intros K HK. exists (e + K). split; [lia |]. split; [exists (Zpos m); reflexivity |].
    split; [rewrite Z.sub_diag; cbn; apply Z.pow_nonneg; lia |].
    assert (d = 53) as Hd53 by lia. rewrite Hd53 in Hm.
    rewrite (pow2_split (e + K) 52), (pow2_split (e + K) 53) by lia.
    assert (0 < 2 ^ (e + K)) by (apply Z.pow_pos_nonneg; lia).
    change (53 - 1) with 52 in Hm. nia.
  - (* more than 53 digits: shift and round *)
    cbn [shr].
    pose proof (shr_round (Zpos m) (Zpos n) ltac:(lia) ltac:(lia)) as Hround.
    cbv zeta in Hround. cbn [Z.to_pos] in Hround.
    set (st := iter_pos shr_1 n {| shr_m := Zpos m; shr_r := false; shr_s := false |}) in *.
    set (r := round_nearest_even (shr_m st) (loc_of_shr_record st)) in *.
    destruct Hround as [Hr Herr].
    assert (0 < 2 ^ Zpos n) as Hpow by (apply Z.pow_pos_nonneg; lia).
    assert (2 ^ 52 <= Zpos m / 2 ^ Zpos n < 2 ^ 53) as Hq.
    { replace d with (Zpos n + 53) in Hm by lia.
      replace (Zpos n + 53 - 1) with (Zpos n + 52) in Hm by lia.
      rewrite !pow2_split in Hm by lia. split.
      - apply Z.div_le_lower_bound; lia.
      - apply Z.div_lt_upper_bound; lia. }
    assert (2 ^ 52 <= r <= 2 ^ 53) as Hrange by lia.
    destruct r as [| r' | r'] eqn:Hr'; [lia | | lia].
    destruct (Z.eq_dec (Zpos r') (2 ^ 53)) as [Hcarry | Hnocarry].
    + (* the rounding carries into a 54th digit *)
      assert (r' = 9007199254740992%positive) as -> by (change (2 ^ 53) with 9007199254740992 in Hcarry; congruence).
      unfold shr_fexp, fexp, emin. cbn [Zdigits2 shr_record_of_loc].
      change (Zpos (digits2_pos 9007199254740992)) with 54.
      rewrite Z.max_l by lia.
      replace (54 + (e + Zpos n) - 53 - (e + Zpos n)) with 1 by lia.
      cbn [shr iter_pos]. change (shr_1 _) with {| shr_m := 4503599627370496; shr_r := false; shr_s := false |}.
      cbn [shr_m].
      replace (e + Zpos n + 1 <=? 1024 - 53) with true by (symmetry; apply Z.leb_le; lia).
      exists 4503599627370496%positive, (e + Zpos n + 1).
      split; [reflexivity |]. split; [reflexivity |]. split; [lia |].
      intros K HK. exists (Zpos n + (e + K)). split; [lia |].
      assert (0 < 2 ^ (e + K)) as HpowK by (apply Z.pow_pos_nonneg; lia).
      replace (e + Zpos n + 1 + K) with (1 + (Zpos n + (e + K))) by lia.
      rewrite (pow2_split 1) by lia. rewrite (pow2_split (Zpos n) (e + K)) by lia.
      split; [exists (4503599627370496 * 2 ^ 1); ring |].
      split.
      * replace (4503599627370496 * (2 ^ 1 * (2 ^ Z.pos n * 2 ^ (e + K))))
          with (9007199254740992 * (2 ^ Z.pos n * 2 ^ (e + K))) by (change (2 ^ 1) with 2; ring).
        replace (9007199254740992 * (2 ^ Z.pos n * 2 ^ (e + K)) - Z.pos m * 2 ^ (e + K))
          with ((9007199254740992 * 2 ^ Zpos n - Zpos m) * 2 ^ (e + K)) by ring.
        rewrite Z.abs_mul, (Z.abs_eq (2 ^ (e + K))) by lia. nia.
      * replace (Zpos n + (e + K) + 52) with (Zpos n + 52 + (e + K)) by lia.
        replace (Zpos n + (e + K) + 53) with (Zpos n + 53 + (e + K)) by lia.
        rewrite (pow2_split (Zpos n + 52)), (pow2_split (Zpos n + 53)) by lia.
        replace d with (Zpos n + 53) in Hm by lia.
        replace (Zpos n + 53 - 1) with (Zpos n + 52) in Hm by lia. nia.
    + (* no carry *)
      assert (Zpos (digits2_pos r') = 53) as Hdr.
      { apply digits2_unique. change (53 - 1) with 52. lia. }
      rewrite shr_fexp_exact by (rewrite Hdr; lia). rewrite Hdr.
      cbn [shr Z.sub Z.add Z.opp Z.pos_sub Pos.compare Pos.compare_cont shr_m].
      change (53 - 53) with 0. cbn [shr shr_m].
      replace (e + Zpos n <=? 1024 - 53) with true by (symmetry; apply Z.leb_le; lia).
      exists r', (e + Zpos n). split; [reflexivity |]. split; [exact Hdr |]. split; [lia |].
      intros K HK. exists (Zpos n + (e + K)). split; [lia |].
      assert (0 < 2 ^ (e + K)) as HpowK by (apply Z.pow_pos_nonneg; lia).
      replace (e + Zpos n + K) with (Zpos n + (e + K)) by lia.
      split; [exists (Zpos r'); reflexivity |].
      split.
      * rewrite (pow2_split (Zpos n) (e + K)) by lia.
        replace (Zpos r' * (2 ^ Z.pos n * 2 ^ (e + K)) - Z.pos m * 2 ^ (e + K))
          with ((Zpos r' * 2 ^ Zpos n - Zpos m) * 2 ^ (e + K)) by ring.
        rewrite Z.abs_mul, (Z.abs_eq (2 ^ (e + K))) by lia. nia.
      * replace (Zpos n + (e + K) + 52) with (Zpos n + 52 + (e + K)) by lia.
        replace (Zpos n + (e + K) + 53) with (Zpos n + 53 + (e + K)) by lia.
        rewrite (pow2_split (Zpos n + 52)), (pow2_split (Zpos n + 53)) by lia.
        replace d with (Zpos n + 53) in Hm by lia.
        replace (Zpos n + 53 - 1) with (Zpos n + 52) in Hm by lia. nia.
Qed.


Lemma iter_xO m d : Zpos (Pos.iter xO m d) = Zpos m * 2 ^ Zpos d.
Proof.
  induction d as [| d IH] using Pos.peano_ind.
  - cbn [Pos.iter]. rewrite Pos2Z.inj_xO. change (2 ^ 1) with 2. lia.
  - rewrite Pos.iter_succ, Pos2Z.inj_xO, IH, Pos2Z.inj_succ, Z.pow_succ_r by lia. ring.
Qed.

Lemma shl_align_fst m e ez :
  ez <= e -> Zpos (fst (shl_align m e ez)) = Zpos m * 2 ^ (e - ez).
Proof.
  intros Hle. unfold shl_align.
  destruct (ez - e) as [| d | d] eqn:Hd; cbn [fst].
  - replace (e - ez) with 0 by lia. cbn. lia.
  - lia.
  - rewrite iter_xO. f_equal. f_equal. lia.
Qed.

(** The rounding of any positive mantissa, after normalisation. *)
Lemma binary_round_rounds sx m e :
  - 1074 <= Zpos (digits2_pos m) + e - 53 ->
  Zpos (digits2_pos m) + e - 52 <= 971 ->
  exists m' e',
    binary_round 53 1024 sx m e = S754_finite sx m' e' /\
    Zpos (digits2_pos m') = 53 /\
    Zpos (digits2_pos m) + e - 53 <= e' <= Zpos (digits2_pos m) + e - 52 /\
    forall K, 0 <= e + K -> 0 <= Zpos (digits2_pos m) + e - 53 + K ->
      rounds (Zpos m * 2 ^ (e + K)) (Zpos m' * 2 ^ (e' + K)).
Proof.
  intros Hlo Hhi. pose proof (digits2_bounds m) as Hm.
  unfold binary_round, shl_align, fexp, emin. rewrite Z.max_l by lia.
  set (d := Zpos (digits2_pos m)) in *.
  destruct (d + e - 53 - e) as [| n | n] eqn:Hn.
  - destruct (binary_round_aux_rounds sx m e) as (m' & e' & Hr & Hd' & He' & Hrounds);
      [fold d; lia .. |].
    exists m', e'. split; [exact Hr |]. split; [exact Hd' |]. split; [exact He' |].
    intros K HK _. apply Hrounds, HK.
  - destruct (binary_round_aux_rounds sx m e) as (m' & e' & Hr & Hd' & He' & Hrounds);
      [fold d; lia .. |].
    exists m', e'. split; [exact Hr |]. split; [exact Hd' |]. split; [exact He' |].
    intros K HK _. apply Hrounds, HK.
  - (* fewer than 53 digits: the mantissa is shifted left, exactly *)
    assert (Zpos (Pos.iter xO m n) = Zpos m * 2 ^ (53 - d)) as Hmz.
    { rewrite iter_xO. f_equal. f_equal. lia. }
    assert (2 ^ 52 <= Zpos (Pos.iter xO m n) < 2 ^ 53) as Hbounds.
    { rewrite Hmz.
      assert (2 ^ 52 = 2 ^ (d - 1) * 2 ^ (53 - d)) as ->
        by (rewrite <- pow2_split by lia; f_equal; lia).
      assert (2 ^ 53 = 2 ^ d * 2 ^ (53 - d)) as ->
        by (rewrite <- pow2_split by lia; f_equal; lia).
      assert (0 < 2 ^ (53 - d)) by (apply Z.pow_pos_nonneg; lia). nia. }
    assert (Zpos (digits2_pos (Pos.iter xO m n)) = 53) as Hdz.
    { apply digits2_unique. exact Hbounds. }
    destruct (binary_round_aux_rounds sx (Pos.iter xO m n) (d + e - 53))
      as (m' & e' & Hr & Hd' & He' & Hrounds); [rewrite Hdz; lia .. |].
    rewrite Hdz in He'.
    exists m', e'. split; [exact Hr |]. split; [exact Hd' |]. split; [lia |].
    intros K HK HK'. specialize (Hrounds K ltac:(lia)).
    rewrite Hmz in Hrounds.
    replace (Zpos m * 2 ^ (53 - d) * 2 ^ (d + e - 53 + K)) with (Zpos m * 2 ^ (e + K)) in Hrounds;
      [exact Hrounds |].
    rewrite <- Z.mul_assoc, <- pow2_split by lia. f_equal. f_equal. lia.
Qed.

(** *** Values of floats, scaled by [2 ^ K] *)

Lemma float_of_exponent K v m e lo hi :
  Zpos (digits2_pos m) = 53 -> 0 <= e + K -> v = Zpos m * 2 ^ (e + K) ->
  0 <= lo -> 2 ^ lo <= v < 2 ^ hi ->
  lo - 53 - K < e < hi - 52 - K.
Proof.
  intros Hd HK -> Hlo [Hv1 Hv2]. pose proof (digits2_bounds m) as Hm. rewrite Hd in Hm.
  change (53 - 1) with 52 in Hm.
  assert (0 < 2 ^ (e + K)) by (apply Z.pow_pos_nonneg; lia).
  assert (2 ^ (52 + (e + K)) < 2 ^ hi) as H1 by (rewrite pow2_split by lia; nia).
  assert (2 ^ lo < 2 ^ (53 + (e + K))) as H2 by (rewrite pow2_split by lia; nia).
  apply Z.pow_lt_mono_r_iff in H2; [| lia | lia].
  destruct (Z.le_gt_cases hi 0) as [Hneg | Hpos].
  - assert (2 ^ hi <= 2 ^ 0) by (destruct (Z.eq_dec hi 0) as [-> |]; [lia | rewrite Z.pow_neg_r by lia; lia]).
    assert (0 < 2 ^ (52 + (e + K))) by (apply Z.pow_pos_nonneg; lia).
    assert (2 ^ 0 <= 2 ^ (52 + (e + K))) by (apply Z.pow_le_mono_r; lia). lia.
  - apply Z.pow_lt_mono_r_iff in H1; lia.
Qed.

(** The product of a float with a constant. *)
Lemma SFmul_rounds K s v x c ec :
  float_of K s v x -> Zpos (digits2_pos c) = 53 ->
  - 100 <= ec <= 0 -> 312 <= K -> 2 ^ (K - 100) <= v < 2 ^ (K + 100) ->
  exists v',
    float_of K s v' (SFmul 53 1024 x (S754_finite false c ec)) /\
    rounds (v * Zpos c / 2 ^ (- ec)) v' /\ (2 ^ (- ec) | v * Zpos c).
Proof.
  intros (m & e & -> & Hd & HK & Hv) Hc Hec HKbig Hrange.
  pose proof (float_of_exponent K v m e (K - 100) (K + 100) Hd HK Hv ltac:(lia) Hrange) as He.
  pose proof (digits2_bounds m) as Hm. rewrite Hd in Hm.
  pose proof (digits2_bounds c) as Hcb. rewrite Hc in Hcb.
  change (53 - 1) with 52 in *.
  cbn [SFmul]. rewrite xorb_false_r.
  assert (2 ^ 104 <= Zpos (m * c) < 2 ^ 106) as Hprod.
  { rewrite Pos2Z.inj_mul. change (2 ^ 104) with (2 ^ 52 * 2 ^ 52).
    change (2 ^ 106) with (2 ^ 53 * 2 ^ 53). nia. }
  assert (Zpos (digits2_pos (m * c)) = 105 \/ Zpos (digits2_pos (m * c)) = 106) as Hdp.
  { destruct (Z.lt_ge_cases (Zpos (m * c)) (2 ^ 105)).
    - left. apply digits2_unique. change (105 - 1) with 104. lia.
    - right. apply digits2_unique. change (106 - 1) with 105. lia. }
  destruct (binary_round_aux_rounds s (m * c) (e + ec))
    as (m' & e' & Hr & Hd' & He' & Hrounds); [lia .. |].
  specialize (Hrounds K ltac:(lia)).
  assert (v * Zpos c = Zpos (m * c) * 2 ^ (e + ec + K) * 2 ^ (- ec)) as Hexact.
  { rewrite Hv, Pos2Z.inj_mul, <- (Z.mul_assoc _ (2 ^ (e + ec + K))), <- pow2_split by lia.
    replace (e + ec + K + - ec) with (e + K) by lia. ring. }
  exists (Zpos m' * 2 ^ (e' + K)). split; [| split].
  - rewrite Hr. exists m', e'. split; [reflexivity |]. split; [exact Hd' |].
    split; [lia | reflexivity].
  - rewrite Hexact, Z.div_mul by (apply Z.pow_nonzero; lia). exact Hrounds.
  - rewrite Hexact. exists (Zpos (m * c) * 2 ^ (e + ec + K)). reflexivity.
Qed.

(** The difference of two floats, the larger first. *)
Lemma SFsub_rounds K s vx vy x y :
  float_of K s vx x -> float_of K s vy y -> vy < vx ->
  312 <= K -> 2 ^ (K - 100) <= vx < 2 ^ (K + 100) -> 2 ^ (K - 100) <= vy ->
  exists v', float_of K s v' (SFsub 53 1024 x y) /\ rounds (vx - vy) v'.
Proof.
  intros (mx & ex & -> & Hdx & HKx & Hvx) (my & ey & -> & Hdy & HKy & Hvy) Hlt HKbig Hrx Hry.
  pose proof (float_of_exponent K vx mx ex (K - 100) (K + 100) Hdx HKx Hvx ltac:(lia) Hrx) as Hex.
  pose proof (float_of_exponent K vy my ey (K - 100) (K + 100) Hdy HKy Hvy ltac:(lia) ltac:(lia)) as Hey.
  cbn [SFsub].
  set (ez := Z.min ex ey).
  rewrite !shl_align_fst by (unfold ez; lia).
  assert (cond_Zopp s (Zpos mx * 2 ^ (ex - ez)) - cond_Zopp s (Zpos my * 2 ^ (ey - ez))
          = cond_Zopp s (Zpos mx * 2 ^ (ex - ez) - Zpos my * 2 ^ (ey - ez))) as ->
    by (destruct s; cbn [cond_Zopp]; lia).
  assert (vx - vy = (Zpos mx * 2 ^ (ex - ez) - Zpos my * 2 ^ (ey - ez)) * 2 ^ (ez + K)) as Hdiff.
  { rewrite Z.mul_sub_distr_r, <- !Z.mul_assoc, <- !pow2_split by (unfold ez; lia).
    replace (ex - ez + (ez + K)) with (ex + K) by lia.
    replace (ey - ez + (ez + K)) with (ey + K) by lia. lia. }
  assert (0 < 2 ^ (ez + K)) as Hpow by (apply Z.pow_pos_nonneg; unfold ez; lia).
  destruct (Zpos mx * 2 ^ (ex - ez) - Zpos my * 2 ^ (ey - ez)) as [| D | D] eqn:HD;
    [lia | | nia].
  assert (binary_normalize 53 1024 (cond_Zopp s (Zpos D)) ez false
          = binary_round 53 1024 s D ez) as -> by (destruct s; reflexivity).
  pose proof (digits2_bounds D) as HDb.
  assert (0 < Zpos (digits2_pos D)) as Hdpos by lia.
  assert (Zpos (digits2_pos D) + ez + K <= K + 100) as Hdhi.
  { assert (2 ^ (Zpos (digits2_pos D) - 1 + (ez + K)) < 2 ^ (K + 100)) as Hcmp.
    { rewrite pow2_split by (unfold ez; lia). nia. }
    apply Z.pow_lt_mono_r_iff in Hcmp; lia. }
  destruct (binary_round_rounds s D ez) as (m' & e' & Hr & Hd' & He' & Hrounds);
    [unfold ez; lia | lia |].
  specialize (Hrounds K ltac:(unfold ez; lia) ltac:(unfold ez; lia)).
  exists (Zpos m' * 2 ^ (e' + K)). split.
  - rewrite Hr. exists m', e'. split; [reflexivity |]. split; [exact Hd' |].
    split; [unfold ez in *; lia | reflexivity].
  - rewrite Hdiff. exact Hrounds.
Qed.


(** *** Conversions *)

Ltac eval_pow n :=
  let c := eval vm_compute in (2 ^ n) in change (2 ^ n) with c in *.

Lemma of_uint63_float K a :
  0 < a < 2 ^ 52 -> 52 <= K ->
  float_of K false (a * 2 ^ K) (Prim2SF (PrimFloat.of_uint63 (Uint63.of_Z a))).
Proof.
  intros Ha HK.
  rewrite of_uint63_spec, Uint63.of_Z_spec.
  rewrite Z.mod_small by (change Uint63.wB with (2 ^ 63); eval_pow 52; eval_pow 63; lia).
  destruct a as [| ap | ap]; [lia | | lia].
  cbn [binary_normalize].
  pose proof (digits2_bounds ap) as Hd.
  assert (0 < Zpos (digits2_pos ap)) as Hdpos by lia.
  assert (Zpos (digits2_pos ap) <= 52) as Hd52.
  { assert (2 ^ (Zpos (digits2_pos ap) - 1) < 2 ^ 52) as Hcmp by lia.
    apply Z.pow_lt_mono_r_iff in Hcmp; lia. }
  destruct (binary_round_rounds false ap 0) as (m' & e' & Hr & Hd' & He' & Hrounds);
    [lia .. |].
  specialize (Hrounds K ltac:(lia) ltac:(lia)).
  exists m', e'. split; [exact Hr |]. split; [exact Hd' |]. split; [lia |].
  symmetry. apply (rounds_exact _ _ _ K Hrounds); [lia | | |].
  - exists (Zpos ap). reflexivity.
  - rewrite Z.add_0_l, (Z.add_comm K 52), pow2_split by lia.
    assert (0 < 2 ^ K) by (apply Z.pow_pos_nonneg; lia). nia.
  - rewrite Z.add_0_l, Z.sub_diag, Z.mul_0_r.
    assert (0 < 2 ^ K) by (apply Z.pow_pos_nonneg; lia). nia.
Qed.

Lemma of_int64_float K b :
  0 < Z.abs b < 2 ^ 52 -> 52 <= K ->
  float_of K (b <? 0) (Z.abs b * 2 ^ K) (Prim2SF (float64.of_int64 b)).
Proof.
  intros Hb HK. unfold float64.of_int64.
  destruct (Z.eqb_spec b (- 2 ^ 63)) as [Heq | _]; [eval_pow 52; eval_pow 63; lia |].
  destruct (Z.ltb_spec b 0) as [Hneg | Hpos].
  - rewrite opp_spec, Z.abs_neq by lia.
    destruct (of_uint63_float K (- b) ltac:(lia) HK) as (m & e & -> & Hm).
    exists m, e. split; [reflexivity | exact Hm].
  - rewrite Z.abs_eq by lia. apply of_uint63_float; lia.
Qed.

Lemma floor_int64_float K s v x :
  float_of K s v (Prim2SF x) -> 0 <= K ->
  float64.floor_int64 x = wrap_int64 (cond_Zopp s v / 2 ^ K).
Proof.
  intros (m & e & Hx & _ & HK & ->) HK0. unfold float64.floor_int64. rewrite Hx.
  f_equal.
  assert (cond_Zopp s (Zpos m * 2 ^ (e + K)) = cond_Zopp s (Zpos m) * 2 ^ (e + K)) as ->
    by (destruct s; cbn [cond_Zopp]; lia).
  replace (if s then Z.neg m else Z.pos m) with (cond_Zopp s (Zpos m))
    by (destruct s; reflexivity).
  destruct (Z.leb_spec 0 e) as [Hpos | Hneg].
  - rewrite Z.shiftl_mul_pow2, pow2_split, Z.mul_assoc, Z.div_mul
      by (try apply Z.pow_nonzero; lia).
    reflexivity.
  - rewrite Z.shiftr_div_pow2 by lia.
    replace (2 ^ K) with (2 ^ (- e) * 2 ^ (e + K)).
    + rewrite Z.div_mul_cancel_r by (apply Z.pow_nonzero; lia). reflexivity.
    + rewrite <- pow2_split by lia. f_equal. lia.
Qed.

(** *** The four operations of the drain *)

(** The roundings of [b * 0.008], [b - b * 0.008], [b * 0.01] and of the
    last difference leave the whole part of [b * 0.982] in place, seen from
    above and from below. *)
Lemma drain_arith b v1 w1 v2 w2 :
  0 < b < 2 ^ 43 ->
  rounds (b * (4611686018427388 * 2 ^ 253)) v1 ->
  rounds (b * 2 ^ 312 - v1) w1 ->
  rounds (b * (5764607523034235 * 2 ^ 253)) v2 ->
  rounds (w1 - v2) w2 ->
  w2 / 2 ^ 312 = 982 * b / 1000 /\ - w2 / 2 ^ 312 = 982 * - b / 1000.
Proof.
  intros Hb H1 H2 H3 H4.
  destruct (Z.eq_dec ((982 * b) mod 1000) 0) as [Hint | Hfrac].
  - (* a whole number of satoshis: every step is exact *)
    pose proof (Z.div_mod (982 * b) 1000 ltac:(lia)) as Hdm. rewrite Hint in Hdm.
    set (q := 982 * b / 1000) in *.
    assert (b = 500 * (111 * q - 109 * b)) as Hb500 by lia.
    set (j := 111 * q - 109 * b) in *.
    assert (v1 = 4 * j * 2 ^ 312) as Hv1.
    { apply (rounds_exact _ _ _ 312 H1); [lia | exists (4 * j); reflexivity | |];
        change (312 + 52) with 364;
        eval_pow 253; eval_pow 312; eval_pow 364; eval_pow 54; eval_pow 43; lia. }
    assert (w1 = 496 * j * 2 ^ 312) as Hw1.
    { apply (rounds_exact _ _ _ 312 H2); [lia | exists (496 * j); reflexivity | |];
        change (312 + 52) with 364;
        eval_pow 253; eval_pow 312; eval_pow 364; eval_pow 54; eval_pow 43; lia. }
    assert (v2 = 5 * j * 2 ^ 312) as Hv2.
    { apply (rounds_exact _ _ _ 312 H3); [lia | exists (5 * j); reflexivity | |];
        change (312 + 52) with 364;
        eval_pow 253; eval_pow 312; eval_pow 364; eval_pow 54; eval_pow 43; lia. }
    assert (w2 = 491 * j * 2 ^ 312) as Hw2.
    { apply (rounds_exact _ _ _ 312 H4); [lia | exists (491 * j); reflexivity | |];
        change (312 + 52) with 364;
        eval_pow 253; eval_pow 312; eval_pow 364; eval_pow 54; eval_pow 43; lia. }
    rewrite Hw2. replace (- (491 * j * 2 ^ 312)) with (- (491 * j) * 2 ^ 312) by ring.
    rewrite !Z.div_mul by (apply Z.pow_nonzero; lia).
    replace (982 * - b) with (- (491 * j) * 1000) by lia.
    rewrite Z.div_mul by lia. lia.
  - (* otherwise the rounding errors stay below the distance to the next
       whole number *)
    apply rounds_error in H1, H2, H3, H4.
    pose proof (Z.div_mod (982 * b) 1000 ltac:(lia)) as Hdm.
    pose proof (Z.mod_pos_bound (982 * b) 1000 ltac:(lia)) as Hr.
    set (q := 982 * b / 1000) in *. set (r := (982 * b) mod 1000) in *.
    assert (2 <= r <= 998) as Hr' by lia.
    assert (982 * - b = 1000 * (- q - 1) + (1000 - r)) as Hdm' by lia.
    eval_pow 253; eval_pow 312; eval_pow 53; eval_pow 43.
    match goal with
    | |- w2 / ?S = _ /\ _ =>
        assert ((1000 * q + r - 2) * S < 1000 * w2 < (1000 * q + r + 2) * S) as Hw2
    end.
    { replace (1000 * q + r) with (982 * b) by lia. lia. }
    clear H1 H2 H3 H4. split.
    + symmetry. apply Z.div_unique with (r := w2 - q * 8343699359066055009355553539724812947666814540455674882605631280555545803830627148527195652096); lia.
    + transitivity (- q - 1).
      * symmetry. apply Z.div_unique with (r := (q + 1) * 8343699359066055009355553539724812947666814540455674882605631280555545803830627148527195652096 - w2); lia.
      * apply Z.div_unique with (r := 1000 - r); lia.
Qed.

(** The drain amount of the source is the amount of exact arithmetic. *)
Lemma drainAmountSat_exact b :
  - 2 ^ 43 < b < 2 ^ 43 -> drainAmountSat b = 982 * b / 1000 - 10.
Proof.
  intros Hb. destruct (Z.eq_dec b 0) as [-> | Hnz]; [reflexivity |].
  unfold drainAmountSat. cbv zeta.
  assert (0 < Z.abs b < 2 ^ 43) as Ha by lia.
  pose proof (of_int64_float 312 b ltac:(change (2 ^ 52) with (2 ^ 43 * 2 ^ 9); lia)
                ltac:(lia)) as Hx.
  set (x := float64.of_int64 b) in *. set (s := b <? 0) in *.
  assert (cond_Zopp s (Z.abs b) = b) as Hsign.
  { unfold s. destruct (Z.ltb_spec b 0); cbn [cond_Zopp]; lia. }
  set (a := Z.abs b) in *.
  assert (2 ^ (312 - 100) <= a * 2 ^ 312 < 2 ^ (312 + 100)) as Hxr.
  { change (312 - 100) with 212. change (312 + 100) with 412.
    eval_pow 312. eval_pow 212. eval_pow 412. eval_pow 43. lia. }
  (* x * 0.008 *)
  destruct (SFmul_rounds 312 _ _ _ 4611686018427388 (-59) Hx eq_refl
              ltac:(lia) ltac:(lia) Hxr) as (v1 & Hf1 & Hr1 & _).
  change (S754_finite false 4611686018427388 (-59)) with (Prim2SF 0.008%float) in Hf1.
  change (SFmul 53 1024) with SF64mul in Hf1. rewrite <- mul_spec in Hf1.
  replace (a * 2 ^ 312 * 4611686018427388 / 2 ^ (- -59))
    with (a * (4611686018427388 * 2 ^ 253)) in Hr1.
  2:{ change (- -59) with 59. change (2 ^ 312) with (2 ^ 253 * 2 ^ 59).
      replace (a * (2 ^ 253 * 2 ^ 59) * 4611686018427388)
        with (a * (4611686018427388 * 2 ^ 253) * 2 ^ 59) by ring.
      rewrite Z.div_mul by (apply Z.pow_nonzero; lia). reflexivity. }
  (* x * 0.01 *)
  destruct (SFmul_rounds 312 _ _ _ 5764607523034235 (-59) Hx eq_refl
              ltac:(lia) ltac:(lia) Hxr) as (v2 & Hf2 & Hr2 & _).
  change (S754_finite false 5764607523034235 (-59)) with (Prim2SF 0.01%float) in Hf2.
  change (SFmul 53 1024) with SF64mul in Hf2. rewrite <- mul_spec in Hf2.
  replace (a * 2 ^ 312 * 5764607523034235 / 2 ^ (- -59))
    with (a * (5764607523034235 * 2 ^ 253)) in Hr2.
  2:{ change (- -59) with 59. change (2 ^ 312) with (2 ^ 253 * 2 ^ 59).
      replace (a * (2 ^ 253 * 2 ^ 59) * 5764607523034235)
        with (a * (5764607523034235 * 2 ^ 253) * 2 ^ 59) by ring.
      rewrite Z.div_mul by (apply Z.pow_nonzero; lia). reflexivity. }
  pose proof (rounds_error _ _ Hr1) as He1. pose proof (rounds_error _ _ Hr2) as He2.
  (* x - x * 0.008 *)
  destruct (SFsub_rounds 312 _ _ _ _ _ Hx Hf1) as (w1 & Hg1 & Hs1);
    [| lia | exact Hxr | |].
  1,2: change (312 - 100) with 212;
    eval_pow 253; eval_pow 312; eval_pow 212; eval_pow 53; eval_pow 43; lia.
  change (SFsub 53 1024) with SF64sub in Hg1. rewrite <- sub_spec in Hg1.
  pose proof (rounds_error _ _ Hs1) as He3.
  (* (x - x * 0.008) - x * 0.01 *)
  destruct (SFsub_rounds 312 _ _ _ _ _ Hg1 Hf2) as (w2 & Hg2 & Hs2);
    [| lia | | |].
  1,2,3: change (312 - 100) with 212; change (312 + 100) with 412;
    eval_pow 253; eval_pow 312; eval_pow 212; eval_pow 412; eval_pow 53; eval_pow 43; lia.
  change (SFsub 53 1024) with SF64sub in Hg2. rewrite <- sub_spec in Hg2.
  rewrite (floor_int64_float 312 s w2) by (exact Hg2 || lia).
  destruct (drain_arith a v1 w1 v2 w2 ltac:(lia) Hr1 Hs1 Hr2 Hs2) as [Hfloor Hceil].
  assert (cond_Zopp s w2 / 2 ^ 312 = 982 * b / 1000) as ->.
  { rewrite <- Hsign. destruct s; cbn [cond_Zopp]; assumption. }
  assert (- 2 ^ 43 <= 982 * b / 1000 < 2 ^ 43) as Hq.
  { split; [apply Z.div_le_lower_bound; lia | apply Z.div_lt_upper_bound; lia]. }
  rewrite (wrap_int64_small (982 * b / 1000))
    by (unfold in_int64; eval_pow 63; eval_pow 43; lia).
  apply wrap_int64_small. unfold in_int64. eval_pow 63. eval_pow 43. lia.
Qed.

End float64_facts.

(** ** The drain of the shared wallet *)

Lemma spec_withdrawable_eq b : spec_withdrawable b = 982 * b / 1000 - 10.
Proof. unfold spec_withdrawable. f_equal. f_equal. lia. Qed.

Lemma invoices_none tr : Forall (fun ev => invoice_of ev = None) tr -> invoices tr = [].
Proof.
  unfold invoices. induction 1 as [| ev tr Hev _ IH]; [reflexivity |].
  cbn [omap list_omap]. rewrite Hev. exact IH.
Qed.

Lemma fetchUserToken_no_invoice : emits (fun ev => invoice_of ev = None) fetchUserToken.
Proof.
  unfold fetchUserToken, fetchUserToken_locked, saveToken.
  emits_auto; reflexivity.
Qed.

Lemma SendPayment_no_invoice env invoice :
  emits (fun ev => invoice_of ev = None) (SendPayment env invoice).
Proof.
  unfold SendPayment. apply emits_bind; [apply fetchUserToken_no_invoice |].
  intros [token | e]; [| emits_auto; reflexivity].
  unfold NewRequest, decodeBody. emits_auto; reflexivity.
Qed.

(** C2 (amended).  For a balance [- 2 ^ 43 < b < 2 ^ 43] satoshis returned
    by [GetBalance], the float64 computation of [DrainSharedWallet] gives the
    amount [floor(b - b * 0.008 - b * 0.01) - 10] of exact arithmetic; when
    that amount is less than 1 the drain returns the insufficient-balance
    error at once, and otherwise it asks for exactly one invoice, of the
    amount times 1000 millisatoshis. *)
Theorem DrainSharedWallet_withdrawable
    (env : Env) (w w1 : World) (balance : AlbyBalance) :
  run env (GetBalance env) w = Returns (Ok balance) w1 ->
  - 2 ^ 43 < Balance balance < 2 ^ 43 ->
  let amountSat := spec_withdrawable (Balance balance) in
  let o := run env (DrainSharedWallet env) w in
  drainAmountSat (Balance balance) = amountSat /\
  (amountSat < 1 -> o = Returns (Some insufficient_balance) w1) /\
  (1 <= amountSat -> invoices (performed w1 o) = [drain_invoice amountSat]).
Proof.
  intros Hget Hb amountSat o.
  assert (drainAmountSat (Balance balance) = amountSat) as Hexact.
  { unfold amountSat. rewrite spec_withdrawable_eq.
    apply float64_facts.drainAmountSat_exact, Hb. }
  split; [exact Hexact |].
  unfold o, DrainSharedWallet. rewrite run_bind, Hget. cbv zeta. rewrite Hexact.
  split.
  - intros Hlt. destruct (Z.ltb_spec amountSat 1) as [_ | Hge]; [reflexivity | lia].
  - intros Hge. destruct (Z.ltb_spec amountSat 1) as [Hlt | _]; [lia |].
    assert (amountSat < 2 ^ 43) as Hhi.
    { unfold amountSat. rewrite spec_withdrawable_eq.
      assert (982 * Balance balance / 1000 < 2 ^ 43)
        by (apply Z.div_lt_upper_bound; lia). lia. }
    rewrite wrap_int64_small
      by (unfold in_int64; change (2 ^ 63) with (2 ^ 43 * 2 ^ 20); lia).
    prog_simpl.
    set (w3 := record (record w1 (Log LError "Draining Alby shared wallet funds" None))
                 (Ext (MakeInvoice (amountSat * 1000)
                         "Send shared wallet funds to Alby Hub" 120))).
    match goal with
    | |- context [run env ?p w3] =>
        assert (emits (fun ev => invoice_of ev = None) p) as Hquiet
    end.
    { destruct (answer env _ _ _) as [transaction | e]; [| emits_auto; reflexivity].
      apply emits_bind; [apply SendPayment_no_invoice |].
      intros [e |]; emits_auto; reflexivity. }
    destruct (emits_trace env _ _ Hquiet w3) as (tr & Htr & Hnone).
    rewrite (performed_app w1 _
               (tr ++ [anyE (Ext (MakeInvoice (amountSat * 1000)
                                    "Send shared wallet funds to Alby Hub" 120));
                       anyE (Log LError "Draining Alby shared wallet funds" None)]))
      by (rewrite Htr, <- app_assoc; reflexivity).
    unfold invoices. rewrite omap_app. fold (invoices tr).
    rewrite (invoices_none tr Hnone). reflexivity.
Qed.

(** C2 as stated fails: for a balance of 70368744177889 satoshis the exact
    amount is 69102106782676 satoshis, and the float64 computation asks for an
    invoice of 69102106782677 satoshis. *)
Lemma DrainSharedWallet_large_balance_rounds :
  spec_withdrawable 70368744177889 = 69102106782676 /\
  invoices (trace (final_world
    (run (drain_env "70368744177889") (DrainSharedWallet (drain_env "70368744177889"))
       relay_world)))
  = [drain_invoice 69102106782677].
Proof. split; vm_compute; reflexivity. Qed.

(** The examples of C2: a balance of 1000 satoshis gives 972 satoshis and an
    invoice of 972000 millisatoshis; a balance of 10 satoshis gives the
    insufficient-balance error. *)
Lemma DrainSharedWallet_withdrawable_witness :
  (drainAmountSat 1000 = 972 /\
   exists w1,
     invoices (performed w1
       (run (drain_env "1000") (DrainSharedWallet (drain_env "1000")) relay_world))
     = [(972000, "Send shared wallet funds to Alby Hub", 120)]) /\
  (exists w1,
     run (drain_env "10") (DrainSharedWallet (drain_env "10")) relay_world
     = Returns (Some insufficient_balance) w1).
Proof.
  split.
  - assert (exists w1, run (drain_env "1000") (GetBalance (drain_env "1000")) relay_world
                       = Returns (Ok {| Balance := 1000 |}) w1) as [w1 Hget]
      by (eexists; vm_compute; reflexivity).
    destruct (DrainSharedWallet_withdrawable (drain_env "1000") relay_world w1
                {| Balance := 1000 |} Hget) as (Hamount & _ & Hinvoice).
    + cbn [Balance]. lia.
    + split; [exact Hamount |]. exists w1. apply Hinvoice. vm_compute. discriminate.
  - assert (exists w1, run (drain_env "10") (GetBalance (drain_env "10")) relay_world
                       = Returns (Ok {| Balance := 10 |}) w1) as [w1 Hget]
      by (eexists; vm_compute; reflexivity).
    destruct (DrainSharedWallet_withdrawable (drain_env "10") relay_world w1
                {| Balance := 10 |} Hget) as (_ & Herror & _).
    + cbn [Balance]. lia.
    + exists w1. apply Herror. vm_compute. reflexivity.
Defined.

(** * Further properties of the service *)

(** ** Programs that do not panic *)

Lemma run_bind_raw {A B} env (p : Prog A) (f : A -> Prog B) w :
  run env (bind p f) w =
  match run env p w with
  | Returns a w' => run env (f a) w'
  | Panics v w' => Panics v w'
  | Stuck w' => Stuck w'
  end.
Proof. exact (run_bind env p f w). Qed.

Lemma calm_bind {A B} (p : Prog A) (f : A -> Prog B) :
  calm p -> (forall a, calm (f a)) -> calm (p ≫= f).
Proof.
  intros Hp Hf. induction Hp as [a | X e k _ IH]; [apply Hf |].
  apply calm_vis. exact IH.
Qed.

Lemma calm_run {A} env (p : Prog A) :
  calm p -> forall w v w', run env p w <> Panics v w'.
Proof.
  induction 1 as [a | X e k _ IH]; intros w v w'; cbn [run]; [discriminate |].
  destruct (handle env w e) as [[x w1] |]; [apply IH | discriminate].
Qed.

Ltac calm_step :=
  match goal with
  | |- calm (Ret _) => apply calm_ret
  | |- calm (Vis _ _) => apply calm_vis; intros ?
  | |- calm ?p =>
      match p with
      | context [match ?x with _ => _ end] => destruct x
      end
  | |- calm (bind _ _) => apply calm_bind; [| intros ?]
  | |- calm (_ ≫= _) => apply calm_bind; [| intros ?]
  | |- calm _ => solve [auto with calm]
  end.

Create HintDb calm.

Ltac calm_auto :=
  repeat (cbv delta [vis ext logDebug logInfo logError] beta;
          cbn [bind mbind Prog_bind mret Prog_ret];
          calm_step).

Lemma fetchUserToken_calm : calm fetchUserToken.
Proof. unfold fetchUserToken, fetchUserToken_locked, saveToken. calm_auto. Qed.
#[export] Hint Resolve fetchUserToken_calm : calm.

(** An orderly program without a panic returns. *)
Lemma orderly_calm_returns {A} env W (p : Prog A) w :
  orderly W false p -> calm p -> tokenMutex w = false ->
  exists a w',
    run env p w = Returns a w' /\
    tokenMutex w' = false /\
    faults (cfg w') = faults (cfg w) /\
    (forall key, ~ W key -> kv (cfg w') !! key = kv (cfg w) !! key) /\
    exists tr, trace w' = (tr ++ trace w)%list.
Proof.
  intros Horderly Hcalm Hfree.
  pose proof (orderly_run env W false p Horderly w Hfree) as (Hstuck & H).
  pose proof (calm_run env p Hcalm w) as Hpanic.
  destruct (run env p w) as [a w' | v w' | w'] eqn:Hrun.
  - exists a, w'. split; [reflexivity | exact H].
  - exfalso. eapply Hpanic. reflexivity.
  - exfalso. apply Hstuck. reflexivity.
Qed.

(** ** The token cache at its edges *)

(** X1.  [fetchUserToken], entered with the mutex free, returns on every
    path (it neither panics nor waits for ever) and has released the mutex
    when it does; it leaves the read faults of the store alone and writes no
    key but the three of the session. *)
Theorem fetchUserToken_releases_mutex (env : Env) (w : World) :
  tokenMutex w = false ->
  exists r w',
    run env fetchUserToken w = Returns r w' /\
    tokenMutex w' = false /\
    faults (cfg w') = faults (cfg w) /\
    (forall key, ~ session_key key -> kv (cfg w') !! key = kv (cfg w) !! key).
Proof.
  intros Hfree.
  destruct (orderly_calm_returns env session_key fetchUserToken w
              fetchUserToken_orderly fetchUserToken_calm Hfree)
    as (r & w' & Hrun & Hmutex & Hfaults & Hframe & _).
  exists r, w'. auto.
Qed.

(** X1 at a session with 19 seconds left: the fetch renews it, returns, and
    the mutex is free again. *)
Lemma fetchUserToken_releases_mutex_witness :
  exists r w',
    run buffer_env fetchUserToken (buffer_world "1019") = Returns r w' /\
    tokenMutex w' = false /\
    faults (cfg w') = faults (cfg (buffer_world "1019")) /\
    (forall key, ~ session_key key ->
       kv (cfg w') !! key = kv (cfg (buffer_world "1019")) !! key).
Proof. apply (fetchUserToken_releases_mutex buffer_env (buffer_world "1019")). reflexivity. Defined.

(** The effects of a run whose final trace is written out. *)
Ltac trace_prefix tr base :=
  lazymatch tr with
  | base => constr:(@nil AnyE)
  | ?x :: ?rest => let p := trace_prefix rest base in constr:(x :: p)
  end.

Ltac performed_explicit :=
  match goal with
  | |- context [performed ?w (@Returns ?A ?a ?w')] =>
      let tr := eval cbn [trace record] in (trace w') in
      let p := trace_prefix tr (trace w) in
      rewrite (performed_app w (@Returns A a w') p) by reflexivity
  end.

Ltac quiet_trace := repeat constructor; cbn; tauto.

(** With no complete session in the store the fetch gives a nil token and a
    nil error, having only read the store. *)
Lemma fetchUserToken_incomplete env w :
  tokenMutex w = false -> no_session (cfg w) ->
  exists w',
    run env fetchUserToken w = Returns (Ok None) w' /\
    cfg w' = cfg w /\ tokenMutex w' = false /\
    Forall (fun ev => ~ external ev)
      (performed w (Returns (Ok None : result (option Token)) w')).
Proof.
  intros Hfree [Ha | [(access & Ha & He) | (access & expiry & Ha & He & Hparse & Hr)]];
    unfold fetchUserToken, fetchUserToken_locked; prog_simpl; rewrite Hfree; prog_simpl;
    rewrite Ha; prog_simpl.
  - rewrite decide_True by reflexivity. prog_simpl. eexists. split; [reflexivity |].
    split; [reflexivity |]. split; [reflexivity |]. performed_explicit. quiet_trace.
  - destruct (decide (access = "")).
    + prog_simpl. eexists. split; [reflexivity |].
      split; [reflexivity |]. split; [reflexivity |]. performed_explicit. quiet_trace.
    + prog_simpl. rewrite He. prog_simpl. rewrite decide_True by reflexivity. prog_simpl.
      eexists. split; [reflexivity |].
      split; [reflexivity |]. split; [reflexivity |]. performed_explicit. quiet_trace.
  - destruct (decide (access = "")).
    + prog_simpl. eexists. split; [reflexivity |].
      split; [reflexivity |]. split; [reflexivity |]. performed_explicit. quiet_trace.
    + prog_simpl. rewrite He. prog_simpl. destruct (decide (expiry = "")).
      * prog_simpl. eexists. split; [reflexivity |].
        split; [reflexivity |]. split; [reflexivity |]. performed_explicit. quiet_trace.
      * destruct (strconv.ParseInt expiry) as [expiry64 | e]; [| discriminate Hparse].
        prog_simpl. rewrite Hr. prog_simpl. rewrite decide_True by reflexivity. prog_simpl.
        eexists. split; [reflexivity |].
        split; [reflexivity |]. split; [reflexivity |]. performed_explicit. quiet_trace.
Qed.

(** X2.  While the store holds no complete session (an empty access token,
    or an empty expiry, or an empty refresh token beside a numeric expiry),
    [IsConnected] answers false and [fetchUserToken] gives a nil token with
    a nil error; neither reads the clock nor calls the provider, and the
    store is as it was. *)
Theorem IsConnected_without_session (env : Env) (w : World) :
  tokenMutex w = false -> no_session (cfg w) ->
  exists w',
    run env fetchUserToken w = Returns (Ok None) w' /\
    run env IsConnected w = Returns false w' /\
    cfg w' = cfg w /\ tokenMutex w' = false /\
    Forall (fun ev => ~ external ev) (performed w (Returns false w')).
Proof.
  intros Hfree Hnone.
  destruct (fetchUserToken_incomplete env w Hfree Hnone)
    as (w' & Hfetch & Hcfg & Hmutex & Hquiet).
  exists w'. split; [exact Hfetch |].
  split; [unfold IsConnected; rewrite run_bind, Hfetch; reflexivity |].
  split; [exact Hcfg |]. split; [exact Hmutex |]. exact Hquiet.
Qed.

(** X2 at an empty store, and at a session that has lost its refresh
    token. *)
Lemma IsConnected_without_session_witness :
  (exists w', run buffer_env IsConnected empty_world = Returns false w') /\
  (exists w', run buffer_env IsConnected half_session_world = Returns false w').
Proof.
  split.
  - destruct (IsConnected_without_session buffer_env empty_world) as (w' & _ & H & _).
    + reflexivity.
    + left. reflexivity.
    + exists w'. exact H.
  - destruct (IsConnected_without_session buffer_env half_session_world) as (w' & _ & H & _).
    + reflexivity.
    + right. right. exists "access1", "4600". repeat split; reflexivity.
    + exists w'. exact H.
Defined.

(** X3.  A stored expiry that does not read as a decimal [int64] makes
    [fetchUserToken] fail with the error of [strconv.ParseInt], whatever the
    refresh token: the clock is not read, no refresh is tried, the store is
    as it was, and [IsConnected] answers false. *)
Theorem fetchUserToken_unreadable_expiry
    (env : Env) (w : World) (access expiry : string) (e : error) :
  tokenMutex w = false ->
  Config_Get (cfg w) accessTokenKey "" = Ok access -> access <> "" ->
  Config_Get (cfg w) accessTokenExpiryKey "" = Ok expiry -> expiry <> "" ->
  strconv.ParseInt expiry = Err e ->
  exists w',
    run env fetchUserToken w = Returns (Err e) w' /\
    (exists w'', run env IsConnected w = Returns false w'') /\
    cfg w' = cfg w /\ tokenMutex w' = false /\
    Forall (fun ev => ~ external ev)
      (performed w (Returns (Err e : result (option Token)) w')).
Proof.
  intros Hfree Ha Haccess He Hexpiry Hparse.
  assert (exists w', run env fetchUserToken w = Returns (Err e) w' /\
            cfg w' = cfg w /\ tokenMutex w' = false /\
            Forall (fun ev => ~ external ev)
              (performed w (Returns (Err e : result (option Token)) w')))
    as (w' & Hfetch & Hrest).
  { unfold fetchUserToken, fetchUserToken_locked. prog_simpl. rewrite Hfree. prog_simpl.
    rewrite Ha. prog_simpl. rewrite decide_False by exact Haccess. prog_simpl.
    rewrite He. prog_simpl. rewrite decide_False by exact Hexpiry. rewrite Hparse.
    prog_simpl. eexists. split; [reflexivity |].
    split; [reflexivity |]. split; [reflexivity |]. performed_explicit. quiet_trace. }
  exists w'. split; [exact Hfetch |]. split; [| exact Hrest].
  unfold IsConnected. rewrite run_bind, Hfetch. prog_simpl. eexists. reflexivity.
Qed.

(** X3 at the expiry ["tomorrow"]. *)
Lemma fetchUserToken_unreadable_expiry_witness :
  exists w',
    run buffer_env fetchUserToken bad_expiry_world
    = Returns (Err (ErrNum "ParseInt" "tomorrow" ErrSyntax)) w' /\
    cfg w' = cfg bad_expiry_world.
Proof.
  destruct (fetchUserToken_unreadable_expiry buffer_env bad_expiry_world "access1" "tomorrow"
              (ErrNum "ParseInt" "tomorrow" ErrSyntax))
    as (w' & Hfetch & _ & Hcfg & _); try reflexivity; try discriminate.
  exists w'. split; assumption.
Defined.

Lemma saved_stored c token :
  (forall key, session_key key -> faults c !! key = None) ->
  stored_session (saved c token) (AccessToken token)
    (strconv.FormatInt (time.Unix (Expiry token))) (RefreshToken token).
Proof.
  intros Hfaults. unfold stored_session, saved, Config_Get, Config_SetUpdate.
  cbn [faults kv]. unfold session_key in Hfaults.
  rewrite !Hfaults by auto.
  rewrite lookup_insert_eq.
  rewrite (lookup_insert_ne _ refreshTokenKey accessTokenExpiryKey) by discriminate.
  rewrite (lookup_insert_ne _ accessTokenKey accessTokenExpiryKey) by discriminate.
  rewrite lookup_insert_eq.
  rewrite (lookup_insert_ne _ refreshTokenKey accessTokenKey) by discriminate.
  rewrite lookup_insert_eq. auto.
Qed.

(** X4.  What [saveToken] stores, [fetchUserToken] reads back: after a token
    with non-empty access and refresh tokens, whose expiry second is at most
    [2^63 - 1 - 62135596800], is saved, a fetch made more than 20 seconds
    before that second returns the access token, the refresh token and the
    expiry cut to whole seconds (the token type is not kept), without a
    refresh, and the store is as [saveToken] left it. *)
Theorem saveToken_fetch_round_trip (env : Env) (w : World) (token : Token) :
  tokenMutex w = false ->
  (forall key, session_key key -> faults (cfg w) !! key = None) ->
  AccessToken token <> "" -> RefreshToken token <> "" ->
  time.Unix (Expiry token) <= time.maxUnix ->
  let w1 := final_world (run env (saveToken token) w) in
  clock env (fetch_history w1) + 20 * time.Second
    < time.Unix (Expiry token) * time.Second ->
  exists w',
    run env (saveToken token;; fetchUserToken) w
    = Returns (Ok (Some (session_of (AccessToken token) (RefreshToken token)
                           (time.Unix (Expiry token))))) w' /\
    Expiry (session_of (AccessToken token) (RefreshToken token) (time.Unix (Expiry token)))
    = time.Unix (Expiry token) * time.Second /\
    cfg w' = saved (cfg w) token /\
    refresh_calls (trace w') = refresh_calls (trace w).
Proof.
  intros Hfree Hfaults Haccess Hrefresh Hmax w1 Hahead.
  pose proof (Unix_in_int64 (Expiry token)) as Hrange.
  assert (time.FromUnix (time.Unix (Expiry token)) = time.Unix (Expiry token) * time.Second)
    as Hinstant by (apply FromUnix_exact; assumption).
  assert (clock env (fetch_history w1) + 20 * time.Second
          < time.FromUnix (time.Unix (Expiry token))) as Hfresh
    by (rewrite Hinstant; exact Hahead).
  assert (run env (saveToken token) w = Returns tt w1) as Hsave by reflexivity.
  change (saveToken token;; fetchUserToken) with (saveToken token ≫= fun _ => fetchUserToken).
  rewrite run_bind, Hsave.
  assert (stored_session (cfg w1) (AccessToken token)
            (strconv.FormatInt (time.Unix (Expiry token))) (RefreshToken token)) as Hstored
    by (apply saved_stored; exact Hfaults).
  rewrite (fetchUserToken_cached env w1 _ _ _ (time.Unix (Expiry token)) Hfree Hstored
             Haccess Hrefresh (strconv_facts.ParseInt_FormatInt _ Hrange)) by lia.
  eexists. split; [reflexivity |]. split; [exact Hinstant |]. split; reflexivity.
Qed.

(** X4 for a token good for an hour, saved into an empty store at second
    1000: the half second of its expiry and its type are gone. *)
Lemma saveToken_fetch_round_trip_witness :
  exists w',
    run buffer_env (saveToken hour_token;; fetchUserToken) empty_world
    = Returns (Ok (Some (session_of "access2" "refresh2" 4600))) w' /\
    cfg w' = saved (cfg empty_world) hour_token.
Proof.
  destruct (saveToken_fetch_round_trip buffer_env empty_world hour_token)
    as (w' & Hrun & _ & Hcfg & _).
  - reflexivity.
  - intros key _. apply lookup_empty.
  - discriminate.
  - discriminate.
  - vm_compute. discriminate.
  - vm_compute. reflexivity.
  - exists w'. split; [exact Hrun | exact Hcfg].
Defined.

(** ** The authorization callback, beyond the mismatch *)

Lemma GetMe_calm env : calm (GetMe env).
Proof. unfold GetMe, NewRequest, decodeBody. calm_auto. Qed.

Lemma createAlbyAccountNWCNode_orderly env :
  orderly account_key false (createAlbyAccountNWCNode env).
Proof. unfold createAlbyAccountNWCNode. orderly_auto. Qed.

Lemma destroyAlbyAccountNWCNode_orderly env :
  orderly account_key false (destroyAlbyAccountNWCNode env).
Proof. unfold destroyAlbyAccountNWCNode. orderly_auto. Qed.

Lemma activateAlbyAccountNWCNode_orderly env :
  orderly account_key false (activateAlbyAccountNWCNode env).
Proof. unfold activateAlbyAccountNWCNode. orderly_auto. Qed.

#[export] Hint Resolve createAlbyAccountNWCNode_orderly destroyAlbyAccountNWCNode_orderly
  activateAlbyAccountNWCNode_orderly : orderly.

Lemma createAlbyAccountNWCNode_calm env : calm (createAlbyAccountNWCNode env).
Proof.
  unfold createAlbyAccountNWCNode, createAlbyAccountNWCNode_request, NewRequest, decodeBody.
  calm_auto.
Qed.

Lemma destroyAlbyAccountNWCNode_calm env : calm (destroyAlbyAccountNWCNode env).
Proof.
  unfold destroyAlbyAccountNWCNode, destroyAlbyAccountNWCNode_request, NewRequest.
  calm_auto.
Qed.

Lemma activateAlbyAccountNWCNode_calm env : calm (activateAlbyAccountNWCNode env).
Proof.
  unfold activateAlbyAccountNWCNode, activateAlbyAccountNWCNode_request, NewRequest.
  calm_auto.
Qed.

#[export] Hint Resolve GetMe_calm createAlbyAccountNWCNode_calm destroyAlbyAccountNWCNode_calm
  activateAlbyAccountNWCNode_calm : calm.

Lemma deleteAlbyAccountApps_orderly : orderly session_key false deleteAlbyAccountApps.
Proof. unfold deleteAlbyAccountApps. orderly_auto. Qed.

Lemma deleteAlbyAccountApps_calm : calm deleteAlbyAccountApps.
Proof. unfold deleteAlbyAccountApps. calm_auto. Qed.
#[export] Hint Resolve deleteAlbyAccountApps_calm : calm.

(** Linking writes the session at most (through its token fetches). *)
Lemma LinkAccount_orderly env budget renewal :
  orderly session_key false (LinkAccount env budget renewal).
Proof.
  unfold LinkAccount, deleteAlbyAccountApps, createAlbyAccountNWCNode,
    activateAlbyAccountNWCNode, createAlbyAccountNWCNode_request,
    activateAlbyAccountNWCNode_request, NewRequest, decodeBody.
  repeat (cbv delta [vis ext logDebug logInfo logError] beta;
          cbn [bind mbind Prog_bind mret Prog_ret];
          match goal with
          | |- orderly _ _ (fetchUserToken ≫= _) =>
              apply orderly_bind; [apply fetchUserToken_orderly | intros ?]
          | |- orderly _ _ (bind fetchUserToken _) =>
              apply orderly_bind; [apply fetchUserToken_orderly | intros ?]
          | _ => orderly_step
          end).
Qed.

Lemma LinkAccount_calm env budget renewal : calm (LinkAccount env budget renewal).
Proof. unfold LinkAccount. calm_auto. Qed.

Section CallbackAccepted.

Variable env : Env.
Variable w : World.
Variable code : string.
Variable token : Token.

Hypothesis mutex_free : tokenMutex w = false.
Hypothesis exchange_ok : answer env (trace w) (result Token) (OAuthExchange code) = Ok token.

(** The callback from the identity fetch on. *)
Lemma CallbackHandler_exchanged :
  run env (CallbackHandler env code) w =
  run env
    (r ← GetMe env;
     match r with
     | Err e =>
         logError "Failed to fetch user me" (Some e);;
         vis (CfgSetUpdate accessTokenKey "");;
         Ret (Some e)
     | Ok me =>
     r ← GetUserIdentifier;
     match r with
     | Err e => logError "Failed to get alby user identifier" (Some e);; Ret (Some e)
     | Ok existingUserIdentifier =>
     if decide (existingUserIdentifier = "") then
       vis (CfgSetUpdate userIdentifierKey (Identifier me));;
       (if AutoLinkAlbyAccount env then
          err ← LinkAccount env 1000000 BUDGET_RENEWAL_MONTHLY;
          match err with
          | Some e => logError "Failed to link account on first auth callback" (Some e)
          | None => Ret tt
          end
        else Ret tt);;
       Ret None
     else if decide (Identifier me ≠ existingUserIdentifier) then
       vis (CfgSetUpdate accessTokenKey "");;
       Ret (Some crossAccountError)
     else Ret None
     end end)
    (exchanged_world w code token).
Proof.
  unfold CallbackHandler. prog_simpl. rewrite exchange_ok. reflexivity.
Qed.

End CallbackAccepted.

(** The identity fetch leaves the stored identity alone, however it ends. *)
Lemma GetMe_keeps_identity env w :
  tokenMutex w = false ->
  kv (cfg (final_world (run env (GetMe env) w))) !! userIdentifierKey
  = kv (cfg w) !! userIdentifierKey.
Proof.
  intros Hfree.
  destruct (orderly_run env _ _ _ (GetMe_orderly env) w Hfree) as (_ & _ & _ & Hframe & _).
  apply Hframe. unfold fetched_key, session_key.
  intros [[H | [H | H]] | H]; discriminate H.
Qed.

(** X5.  The stored identity is written once: when a non-empty identity is
    in the store, [CallbackHandler] leaves it as it is, whatever the
    authorization code, the answers of the provider and the way the callback
    ends. *)
Theorem CallbackHandler_keeps_identity
    (env : Env) (w : World) (code identity : string) :
  tokenMutex w = false ->
  kv (cfg w) !! userIdentifierKey = Some identity ->
  identity <> "" ->
  kv (cfg (final_world (run env (CallbackHandler env code) w))) !! userIdentifierKey
  = Some identity.
Proof.
  intros Hfree Hstored Hset.
  destruct (answer env (trace w) (result Token) (OAuthExchange code)) as [token | e]
    eqn:Hexchange.
  2:{ unfold CallbackHandler. prog_simpl. rewrite Hexchange. prog_simpl.
      cbn [final_world cfg record]. exact Hstored. }
  rewrite (CallbackHandler_exchanged env w code token Hexchange), run_bind.
  pose proof (GetMe_keeps_identity env (exchanged_world w code token) Hfree) as Hkept.
  assert (kv (cfg (exchanged_world w code token)) !! userIdentifierKey = Some identity)
    as Hexchanged.
  { cbn [exchanged_world cfg saved Config_SetUpdate kv].
    rewrite !lookup_insert_ne by discriminate. exact Hstored. }
  rewrite Hexchanged in Hkept.
  destruct (run env (GetMe env) (exchanged_world w code token))
    as [[me | e] w2 | v w2 | w2]; cbn [final_world] in *; try exact Hkept.
  - unfold GetUserIdentifier. prog_simpl.
    destruct (Config_Get (cfg w2) userIdentifierKey "") as [existing | e] eqn:Hget.
    + assert (existing = identity) as ->.
      { unfold Config_Get in Hget. destruct (faults (cfg w2) !! userIdentifierKey);
          [discriminate |]. rewrite Hkept in Hget. congruence. }
      prog_simpl. rewrite decide_False by exact Hset.
      destruct (decide (Identifier me ≠ identity)); prog_simpl; cbn [final_world cfg].
      * cbn [Config_SetUpdate kv]. rewrite lookup_insert_ne by discriminate. exact Hkept.
      * exact Hkept.
    + prog_simpl. cbn [final_world cfg record]. exact Hkept.
  - prog_simpl. cbn [final_world cfg Config_SetUpdate kv].
    rewrite lookup_insert_ne by discriminate. exact Hkept.
Qed.

(** X5 on the hub of [user1], called back with a code of [user2]. *)
Lemma CallbackHandler_keeps_identity_witness :
  kv (cfg (final_world (run relink_env (CallbackHandler relink_env "code") relink_world)))
    !! userIdentifierKey = Some "user1".
Proof.
  apply (CallbackHandler_keeps_identity relink_env relink_world "code" "user1").
  - reflexivity.
  - reflexivity.
  - discriminate.
Defined.

(** X6.  [CallbackHandler] accepts the account when the code exchange and
    the identity fetch succeed and the stored identity is empty or is the
    fetched one: it returns nil and the store then holds the fetched
    identity, which [GetUserIdentifier] reads back.  On a first login this
    holds whether or not the account is linked at once, and whether or not
    that linking succeeds. *)
Theorem CallbackHandler_accepts_account
    (env : Env) (w : World) (code : string) (token : Token) (me : AlbyMe)
    (w2 : World) (existing : string) :
  answer env (trace w) (result Token) (OAuthExchange code) = Ok token ->
  run env (GetMe env) (exchanged_world w code token) = Returns (Ok me) w2 ->
  Config_Get (cfg w2) userIdentifierKey "" = Ok existing ->
  existing = "" \/ existing = Identifier me ->
  exists w',
    run env (CallbackHandler env code) w = Returns None w' /\
    kv (cfg w') !! userIdentifierKey = Some (Identifier me) /\
    run env GetUserIdentifier w'
    = Returns (Ok (Identifier me)) (record w' (CfgGet userIdentifierKey)).
Proof.
  intros Hexchange Hme Hget Hcase.
  destruct (GetMe_returned _ _ _ _ Hme) as (Hfree & _ & _ & _).
  pose proof (Config_Get_no_fault _ _ _ _ Hget) as Hreadable.
  assert (exists w',
            run env (CallbackHandler env code) w = Returns None w' /\
            kv (cfg w') !! userIdentifierKey = Some (Identifier me) /\
            faults (cfg w') = faults (cfg w2)) as (w' & Hrun & Hkv & Hfaults).
  { rewrite (CallbackHandler_exchanged env w code token Hexchange), run_bind, Hme.
    unfold GetUserIdentifier. prog_simpl. rewrite Hget. prog_simpl.
    destruct (decide (existing = "")) as [-> | Hset].
    - (* first login *)
      prog_simpl.
      set (w3 := {| cfg := Config_SetUpdate (cfg w2) userIdentifierKey (Identifier me);
                    tokenMutex := tokenMutex w2;
                    trace := anyE (CfgSetUpdate userIdentifierKey (Identifier me)) ::
                             anyE (CfgGet userIdentifierKey) :: trace w2 |}).
      assert (kv (cfg w3) !! userIdentifierKey = Some (Identifier me)) as Hstored
        by apply lookup_insert_eq.
      destruct (AutoLinkAlbyAccount env).
      + rewrite !run_bind.
        destruct (orderly_calm_returns env session_key
                    (LinkAccount env 1000000 BUDGET_RENEWAL_MONTHLY) w3
                    (LinkAccount_orderly _ _ _) (LinkAccount_calm _ _ _) Hfree)
          as (err & w4 & -> & _ & Hfaults & Hframe & _).
        assert (kv (cfg w4) !! userIdentifierKey = Some (Identifier me)) as Hkept.
        { rewrite Hframe; [exact Hstored |].
          unfold session_key. intros [H | [H | H]]; discriminate H. }
        destruct err as [e |]; prog_simpl; eexists; (split; [reflexivity |]);
          (split; [exact Hkept | exact Hfaults]).
      + prog_simpl. exists w3. split; [reflexivity |]. split; [exact Hstored | reflexivity].
    - (* the account of before *)
      destruct Hcase as [-> | ->]; [contradiction |].
      rewrite decide_False by (intros H; apply H; reflexivity).
      eexists. split; [reflexivity |]. split; [| reflexivity].
      unfold Config_Get in Hget. rewrite Hreadable in Hget. cbn [record cfg].
      destruct (kv (cfg w2) !! userIdentifierKey) as [v |]; congruence. }
  exists w'. split; [exact Hrun |]. split; [exact Hkv |].
  unfold GetUserIdentifier. prog_simpl.
  unfold Config_Get. rewrite Hfaults, Hreadable, Hkv. reflexivity.
Qed.

(** X6 at a first login of [user2] on an empty hub that links the account
    by itself. *)
Lemma CallbackHandler_accepts_account_witness :
  exists w',
    run autolink_env (CallbackHandler autolink_env "code") empty_world = Returns None w' /\
    kv (cfg w') !! userIdentifierKey = Some "user2".
Proof.
  assert (exists w2, run autolink_env (GetMe autolink_env) (exchanged_world empty_world "code" hour_token)
                     = Returns (Ok {| Identifier := "user2"; LightningAddress := "" |}) w2 /\
                     Config_Get (cfg w2) userIdentifierKey "" = Ok "") as (w2 & Hme & Hget)
    by (eexists; split; vm_compute; reflexivity).
  destruct (CallbackHandler_accepts_account autolink_env empty_world "code" hour_token
              {| Identifier := "user2"; LightningAddress := "" |} w2 "")
    as (w' & Hrun & Hstored & _).
  - reflexivity.
  - exact Hme.
  - exact Hget.
  - left. reflexivity.
  - exists w'. split; [exact Hrun | exact Hstored].
Defined.

(** X7.  When the code exchange succeeds and the identity fetch then fails,
    [CallbackHandler] returns the error of the fetch and empties the stored
    access token, so that the user can try again: every other key is as the
    exchange and the fetch left it, the stored identity is the one of
    before the callback, and [IsConnected] answers false. *)
Theorem CallbackHandler_identity_fetch_failed
    (env : Env) (w : World) (code : string) (token : Token) (e : error) (w2 : World) :
  answer env (trace w) (result Token) (OAuthExchange code) = Ok token ->
  run env (GetMe env) (exchanged_world w code token) = Returns (Err e) w2 ->
  exists w',
    run env (CallbackHandler env code) w = Returns (Some e) w' /\
    kv (cfg w') !! accessTokenKey = Some "" /\
    (forall key, key <> accessTokenKey -> kv (cfg w') !! key = kv (cfg w2) !! key) /\
    kv (cfg w') !! userIdentifierKey = kv (cfg w) !! userIdentifierKey /\
    exists w'', run env IsConnected w' = Returns false w''.
Proof.
  intros Hexchange Hme.
  assert (tokenMutex w = false) as Hfree.
  { destruct (tokenMutex w) eqn:Hheld; [| reflexivity].
    unfold GetMe in Hme.
    rewrite (fetchUserToken_needs_mutex env (exchanged_world w code token) _ _ eq_refl Hheld)
      in Hme. discriminate. }
  pose proof (GetMe_keeps_identity env (exchanged_world w code token) Hfree) as Hkept.
  destruct (orderly_run env _ _ _ (GetMe_orderly env) (exchanged_world w code token) Hfree)
    as (_ & Hmutex & _).
  rewrite Hme in Hkept, Hmutex. cbn [final_world] in Hkept, Hmutex.
  rewrite (CallbackHandler_exchanged env w code token Hexchange), run_bind, Hme.
  prog_simpl. eexists. split; [reflexivity |]. cbn [cfg Config_SetUpdate kv].
  split; [apply lookup_insert_eq |].
  split; [intros key Hkey; apply lookup_insert_ne; congruence |].
  split.
  { rewrite lookup_insert_ne by discriminate. rewrite Hkept.
    cbn [exchanged_world cfg saved Config_SetUpdate kv].
    rewrite !lookup_insert_ne by discriminate. reflexivity. }
  unfold IsConnected. rewrite run_bind.
  unfold fetchUserToken, fetchUserToken_locked. prog_simpl. rewrite Hmutex. prog_simpl.
  unfold Config_Get at 1. cbn [cfg Config_SetUpdate kv faults].
  destruct (faults (cfg w2) !! accessTokenKey).
  - prog_simpl. eexists. reflexivity.
  - rewrite lookup_insert_eq. prog_simpl. eexists. reflexivity.
Qed.

(** X7 when the provider cannot be reached after the exchange. *)
Lemma CallbackHandler_identity_fetch_failed_witness :
  exists w',
    run offline_env (CallbackHandler offline_env "code") relink_world
    = Returns (Some (unavailable "http")) w' /\
    kv (cfg w') !! accessTokenKey = Some "" /\
    kv (cfg w') !! userIdentifierKey = Some "user1".
Proof.
  assert (exists w2, run offline_env (GetMe offline_env) (exchanged_world relink_world "code" hour_token)
                     = Returns (Err (unavailable "http")) w2) as (w2 & Hme)
    by (eexists; vm_compute; reflexivity).
  destruct (CallbackHandler_identity_fetch_failed offline_env relink_world "code" hour_token
              (unavailable "http") w2 eq_refl Hme)
    as (w' & Hrun & Hcleared & _ & Hidentity & _).
  exists w'. split; [exact Hrun |]. split; [exact Hcleared |].
  rewrite Hidentity. reflexivity.
Defined.

(** ** Linking and unlinking the account *)

Lemma emits_returns {A} env R (p : Prog A) w a w' :
  emits R p -> run env p w = Returns a w' ->
  exists tr, trace w' = (tr ++ trace w)%list /\ Forall R tr.
Proof.
  intros Hp Hrun. destruct (emits_trace env R p Hp w) as (tr & Htr & HR).
  rewrite Hrun in Htr. exists tr. auto.
Qed.

Lemma omap_none {A B} (f : A -> option B) (l : list A) :
  Forall (fun a => f a = None) l -> omap f l = [].
Proof.
  induction 1 as [| a l Ha _ IH]; [reflexivity |].
  cbn [omap list_omap]. rewrite Ha. exact IH.
Qed.

Lemma unlinked_account c key : account_key key -> kv (unlinked c) !! key = Some "".
Proof.
  unfold account_key, session_key, unlinked, Config_SetUpdate. cbn [kv].
  intros [[-> | [-> | ->]] | [-> | ->]];
    repeat (rewrite lookup_insert_eq || rewrite lookup_insert_ne by discriminate);
    reflexivity.
Qed.

Lemma unlinked_frame c key : ~ account_key key -> kv (unlinked c) !! key = kv c !! key.
Proof.
  unfold account_key, session_key, unlinked, Config_SetUpdate. cbn [kv]. intros Hkey.
  rewrite !lookup_insert_ne; [reflexivity | intros <-; tauto ..].
Qed.

(** With an empty access token in the store, [IsConnected] answers false. *)
Lemma IsConnected_cleared env w :
  tokenMutex w = false -> kv (cfg w) !! accessTokenKey = Some "" ->
  exists w', run env IsConnected w = Returns false w'.
Proof.
  intros Hfree Hcleared. unfold IsConnected. rewrite run_bind.
  unfold fetchUserToken, fetchUserToken_locked. prog_simpl. rewrite Hfree. prog_simpl.
  unfold Config_Get at 1. cbn [cfg].
  destruct (faults (cfg w) !! accessTokenKey).
  - prog_simpl. eexists. reflexivity.
  - rewrite Hcleared. prog_simpl. eexists. reflexivity.
Qed.

(** X8.  [UnlinkAccount], entered with the mutex free, always returns nil,
    whatever the provider and the database answer: it asks the database to
    delete the connections named [getalby.com], and it leaves the identity,
    the three session fields and the lightning address empty and every other
    key as it was; afterwards [IsConnected] answers false. *)
Theorem UnlinkAccount_clears_account (env : Env) (w : World) :
  tokenMutex w = false ->
  exists w',
    run env (UnlinkAccount env) w = Returns None w' /\
    tokenMutex w' = false /\
    (forall key, account_key key -> kv (cfg w') !! key = Some "") /\
    (forall key, ~ account_key key -> kv (cfg w') !! key = kv (cfg w) !! key) /\
    In (anyE (Ext (DbDeleteApps ALBY_ACCOUNT_APP_NAME)))
       (performed w (Returns (None : option error) w')) /\
    exists w'', run env IsConnected w' = Returns false w''.
Proof.
  intros Hfree. unfold UnlinkAccount. rewrite run_bind.
  destruct (orderly_calm_returns env account_key (destroyAlbyAccountNWCNode env) w
              (destroyAlbyAccountNWCNode_orderly env) (destroyAlbyAccountNWCNode_calm env)
              Hfree)
    as (err & w1 & -> & Hmutex & _ & Hframe & tr & Htr).
  assert (forall w',
            cfg w' = unlinked (cfg w1) -> tokenMutex w' = false ->
            (exists tr', trace w' = (tr' ++ trace w1)%list /\
                         In (anyE (Ext (DbDeleteApps ALBY_ACCOUNT_APP_NAME))) tr') ->
            tokenMutex w' = false /\
            (forall key, account_key key -> kv (cfg w') !! key = Some "") /\
            (forall key, ~ account_key key -> kv (cfg w') !! key = kv (cfg w) !! key) /\
            In (anyE (Ext (DbDeleteApps ALBY_ACCOUNT_APP_NAME)))
               (performed w (Returns (None : option error) w')) /\
            exists w'', run env IsConnected w' = Returns false w'') as Hend.
  { intros w' Hcfg Hmutex' (tr' & Htr' & Hin).
    split; [exact Hmutex' |].
    split; [intros key Hkey; rewrite Hcfg; apply unlinked_account, Hkey |].
    split; [intros key Hkey; rewrite Hcfg, unlinked_frame by exact Hkey; apply Hframe, Hkey |].
    split.
    - rewrite (performed_app w _ (tr' ++ tr)%list)
        by (cbn [final_world]; rewrite Htr', Htr, app_assoc; reflexivity).
      apply in_or_app. left. exact Hin.
    - apply IsConnected_cleared; [exact Hmutex' |].
      rewrite Hcfg. apply unlinked_account. unfold account_key, session_key. auto. }
  unfold deleteAlbyAccountApps.
  destruct err as [e |]; prog_simpl;
    match goal with |- context [answer env ?h _ ?ev] =>
      destruct (answer env h _ ev) as [e' |] end;
    prog_simpl; eexists; (split; [reflexivity |]); apply Hend;
    try reflexivity; try exact Hmutex; cbn [trace];
    match goal with
    | |- exists tr', ?t = (tr' ++ ?base)%list /\ _ =>
        let p := trace_prefix t base in
        exists p; split; [reflexivity | cbn [In]; auto 10]
    end.
Qed.

(** X8 on a linked hub whose provider answers 204. *)
Lemma UnlinkAccount_clears_account_witness :
  exists w',
    run relay_env (UnlinkAccount relay_env) relay_world = Returns None w' /\
    kv (cfg w') !! userIdentifierKey = Some "" /\
    kv (cfg w') !! refreshTokenKey = Some "".
Proof.
  destruct (UnlinkAccount_clears_account relay_env relay_world eq_refl)
    as (w' & Hrun & _ & Hcleared & _).
  exists w'. split; [exact Hrun |].
  split; apply Hcleared; unfold account_key, session_key; auto.
Defined.

Lemma createAlbyAccountNWCNode_no_app env :
  emits (fun ev => app_of ev = None) (createAlbyAccountNWCNode env).
Proof.
  unfold createAlbyAccountNWCNode, createAlbyAccountNWCNode_request, NewRequest, decodeBody,
    fetchUserToken, fetchUserToken_locked, saveToken.
  emits_auto; reflexivity.
Qed.

Lemma activateAlbyAccountNWCNode_no_app env :
  emits (fun ev => app_of ev = None) (activateAlbyAccountNWCNode env).
Proof.
  unfold activateAlbyAccountNWCNode, activateAlbyAccountNWCNode_request, NewRequest,
    fetchUserToken, fetchUserToken_locked, saveToken.
  emits_auto; reflexivity.
Qed.

Lemma created_apps_cons ev tr :
  created_apps (ev :: tr)
  = match app_of ev with
    | Some a => a :: created_apps tr
    | None => created_apps tr
    end.
Proof. reflexivity. Qed.

Lemma created_apps_app tr tr' :
  created_apps (tr ++ tr') = (created_apps tr ++ created_apps tr')%list.
Proof. apply omap_app. Qed.

Section Link.

Variable env : Env.
Variable budget : Z.
Variable renewal : string.

(** The app connection of a link. *)
Let linked (pubkey : string) (scopes : list string) :=
  (ALBY_ACCOUNT_APP_NAME, pubkey, budget, renewal, scopes, false).

(** [LinkAccount] after the old connections are deleted. *)
Let link_rest : Prog (option error) :=
  r ← createAlbyAccountNWCNode env;
  match r with
  | Err e => logError "Failed to create alby account nwc node" (Some e);; Ret (Some e)
  | Ok connectionPubkey =>
  methods ← ext LnGetSupportedNIP47Methods;
  match permissions_RequestMethodsToScopes env methods with
  | Err e =>
      logError "Failed to get scopes from LNClient request methods" (Some e);;
      Ret (Some e)
  | Ok scopes =>
  notificationTypes ← ext LnGetSupportedNIP47NotificationTypes;
  let scopes :=
    if (0 <? length notificationTypes)%nat then (scopes ++ [NOTIFICATIONS_SCOPE])%list
    else scopes in
  err ← ext (DbCreateApp ALBY_ACCOUNT_APP_NAME connectionPubkey budget renewal scopes false);
  match err with
  | Some e => logError "Failed to create app connection" (Some e);; Ret (Some e)
  | None =>
  logInfo "Created alby app connection";;
  err ← activateAlbyAccountNWCNode env;
  match err with
  | Some e => logError "Failed to activate alby account nwc node" (Some e);; Ret (Some e)
  | None => Ret None
  end end end end.

Lemma link_rest_apps w1 :
  tokenMutex w1 = false ->
  exists err w' tr,
    run env link_rest w1 = Returns err w' /\
    trace w' = (tr ++ trace w1)%list /\
    (created_apps tr = [] /\ err <> None \/
     exists pubkey w2 scopes,
       let methods := answer env (trace w2) (list string) LnGetSupportedNIP47Methods in
       let types :=
         answer env (trace (record w2 (Ext LnGetSupportedNIP47Methods))) (list string)
           LnGetSupportedNIP47NotificationTypes in
       run env (createAlbyAccountNWCNode env) w1 = Returns (Ok pubkey) w2 /\
       permissions_RequestMethodsToScopes env methods = Ok scopes /\
       created_apps tr
       = [linked pubkey
            (if (0 <? length types)%nat then (scopes ++ [NOTIFICATIONS_SCOPE])%list
             else scopes)]).
Proof.
  intros Hfree. unfold link_rest. rewrite run_bind.
  destruct (orderly_calm_returns env account_key (createAlbyAccountNWCNode env) w1
              (createAlbyAccountNWCNode_orderly env) (createAlbyAccountNWCNode_calm env)
              Hfree)
    as (r & w2 & Hcreate & Hfree2 & _).
  destruct (emits_returns env _ _ _ _ _ (createAlbyAccountNWCNode_no_app env) Hcreate)
    as (tr1 & Htr1 & Hnone1).
  apply omap_none in Hnone1. fold (created_apps tr1) in Hnone1.
  rewrite Hcreate. destruct r as [pubkey | e].
  2:{ prog_simpl. eexists _, _, (_ :: tr1). split; [reflexivity |].
      split; [cbn [trace record]; rewrite Htr1; reflexivity |].
      left. split; [exact Hnone1 | discriminate]. }
  prog_simpl.
  set (methods := answer env (trace w2) _ LnGetSupportedNIP47Methods).
  destruct (permissions_RequestMethodsToScopes env methods) as [scopes | e] eqn:Hscopes.
  2:{ prog_simpl. eexists _, _, (_ :: _ :: tr1). split; [reflexivity |].
      split; [cbn [trace record]; rewrite Htr1; reflexivity |].
      left. split; [exact Hnone1 | discriminate]. }
  prog_simpl.
  match goal with |- context [(0 <? length ?l)%nat] => set (types := l) end.
  set (scopes' := if (0 <? length types)%nat then (scopes ++ [NOTIFICATIONS_SCOPE])%list
                  else scopes).
  assert (forall tr, created_apps tr = [linked pubkey scopes'] ->
            exists pubkey0 w0 scopes0,
              let methods0 := answer env (trace w0) (list string) LnGetSupportedNIP47Methods in
              let types0 :=
                answer env (trace (record w0 (Ext LnGetSupportedNIP47Methods))) (list string)
                  LnGetSupportedNIP47NotificationTypes in
              Returns (Ok pubkey) w2 = Returns (Ok pubkey0) w0 /\
              permissions_RequestMethodsToScopes env methods0 = Ok scopes0 /\
              created_apps tr
              = [linked pubkey0
                   (if (0 <? length types0)%nat then (scopes0 ++ [NOTIFICATIONS_SCOPE])%list
                    else scopes0)])
    as Hshape.
  { intros tr ->. exists pubkey, w2, scopes. cbv zeta.
    split; [reflexivity |]. split; [exact Hscopes |]. reflexivity. }
  match goal with |- context [answer env ?h _ (DbCreateApp ?a ?b ?c ?d ?e ?f)] =>
    destruct (answer env h _ (DbCreateApp a b c d e f)) as [e' |] end.
  { prog_simpl. eexists _, _, (_ :: _ :: _ :: _ :: tr1). split; [reflexivity |].
    split; [cbn [trace record]; rewrite Htr1; reflexivity |].
    right. apply Hshape. rewrite !created_apps_cons. cbn [app_of]. rewrite Hnone1. reflexivity. }
  prog_simpl. rewrite run_bind.
  match goal with |- context [run env (activateAlbyAccountNWCNode env) ?w3] =>
    destruct (orderly_calm_returns env account_key (activateAlbyAccountNWCNode env) w3
                (activateAlbyAccountNWCNode_orderly env) (activateAlbyAccountNWCNode_calm env)
                Hfree2)
      as (err & w4 & Hactivate & _);
    destruct (emits_returns env _ _ _ _ _ (activateAlbyAccountNWCNode_no_app env) Hactivate)
      as (tr4 & Htr4 & Hnone4)
  end.
  apply omap_none in Hnone4. fold (created_apps tr4) in Hnone4.
  rewrite Hactivate. cbn [trace record] in Htr4.
  destruct err as [e' |]; prog_simpl.
  - eexists _, _, (_ :: tr4 ++ _ :: _ :: _ :: _ :: tr1)%list. split; [reflexivity |].
    split; [cbn [trace record]; rewrite Htr4, Htr1; cbn [app]; rewrite <- app_assoc; reflexivity |].
    right. apply Hshape. rewrite app_comm_cons, created_apps_app, !created_apps_cons.
    cbn [app_of]. rewrite Hnone4, Hnone1. reflexivity.
  - eexists _, _, (tr4 ++ _ :: _ :: _ :: _ :: tr1)%list. split; [reflexivity |].
    split; [rewrite Htr4, Htr1, <- app_assoc; reflexivity |].
    right. apply Hshape. rewrite created_apps_app, !created_apps_cons.
    cbn [app_of]. rewrite Hnone4, Hnone1. reflexivity.
Qed.

End Link.

(** The deletion of the app connections begins with the question to the
    database, and creates no connection. *)
Lemma deleteAlbyAccountApps_first env w :
  exists w0 tr0,
    run env deleteAlbyAccountApps w = Returns tt w0 /\
    tokenMutex w0 = tokenMutex w /\
    trace w0 = (tr0 ++ [anyE (Ext (DbDeleteApps ALBY_ACCOUNT_APP_NAME))] ++ trace w)%list /\
    created_apps tr0 = [].
Proof.
  unfold deleteAlbyAccountApps. prog_simpl.
  destruct (answer env (trace w) (option error) (DbDeleteApps ALBY_ACCOUNT_APP_NAME))
    as [e |]; prog_simpl.
  - eexists _, [anyE (Log LError "Failed to delete Alby Account apps" (Some e))].
    repeat split.
  - eexists _, []. repeat split.
Qed.

(** X9.  [LinkAccount], entered with the mutex free, always returns.  It
    begins by asking the database to delete the connections named
    [getalby.com]; it creates at most one app connection, and only under
    that name, with the budget and the renewal it was given, not isolated,
    for the pubkey that [createAlbyAccountNWCNode] returned and with the
    scopes of the methods the node answered it supports, to which the
    notifications scope is added when the node answered with a notification
    type; and when it returns nil it has created that connection. *)
Theorem LinkAccount_creates_one_app
    (env : Env) (w : World) (budget : Z) (renewal : string) :
  tokenMutex w = false ->
  exists err w',
    run env (LinkAccount env budget renewal) w = Returns err w' /\
    let tr := performed w (Returns err w') in
    last tr = Some (anyE (Ext (DbDeleteApps ALBY_ACCOUNT_APP_NAME))) /\
    (created_apps tr = [] /\ err <> None \/
     exists w0 pubkey w1 scopes,
       let methods := answer env (trace w1) (list string) LnGetSupportedNIP47Methods in
       let types :=
         answer env (trace (record w1 (Ext LnGetSupportedNIP47Methods))) (list string)
           LnGetSupportedNIP47NotificationTypes in
       run env deleteAlbyAccountApps w = Returns tt w0 /\
       run env (createAlbyAccountNWCNode env) w0 = Returns (Ok pubkey) w1 /\
       permissions_RequestMethodsToScopes env methods = Ok scopes /\
       created_apps tr
       = [(ALBY_ACCOUNT_APP_NAME, pubkey, budget, renewal,
           if (0 <? length types)%nat then (scopes ++ [NOTIFICATIONS_SCOPE])%list
           else scopes,
           false)]).
Proof.
  intros Hfree.
  assert (forall w0 tr0,
            run env deleteAlbyAccountApps w = Returns tt w0 ->
            tokenMutex w0 = false ->
            trace w0 = (tr0 ++ [anyE (Ext (DbDeleteApps ALBY_ACCOUNT_APP_NAME))] ++ trace w)%list ->
            created_apps tr0 = [] ->
            exists err w',
              run env (LinkAccount env budget renewal) w = Returns err w' /\
              let tr := performed w (Returns err w') in
              last tr = Some (anyE (Ext (DbDeleteApps ALBY_ACCOUNT_APP_NAME))) /\
              (created_apps tr = [] /\ err <> None \/
               exists w0 pubkey w1 scopes,
                 let methods :=
                   answer env (trace w1) (list string) LnGetSupportedNIP47Methods in
                 let types :=
                   answer env (trace (record w1 (Ext LnGetSupportedNIP47Methods)))
                     (list string) LnGetSupportedNIP47NotificationTypes in
                 run env deleteAlbyAccountApps w = Returns tt w0 /\
                 run env (createAlbyAccountNWCNode env) w0 = Returns (Ok pubkey) w1 /\
                 permissions_RequestMethodsToScopes env methods = Ok scopes /\
                 created_apps tr
                 = [(ALBY_ACCOUNT_APP_NAME, pubkey, budget, renewal,
                     if (0 <? length types)%nat then (scopes ++ [NOTIFICATIONS_SCOPE])%list
                     else scopes,
                     false)])) as Hrest.
  { intros w0 tr0 Hdel Hfree0 Htr0 Hnone0.
    destruct (link_rest_apps env budget renewal w0 Hfree0)
      as (err & w' & tr & Hrun & Htr & Happs).
    exists err, w'. split.
    { unfold LinkAccount.
      change (deleteAlbyAccountApps;; ?p) with (deleteAlbyAccountApps ≫= fun _ => p).
      rewrite run_bind, Hdel. exact Hrun. }
    cbv zeta.
    rewrite (performed_app w _
               ((tr ++ tr0) ++ [anyE (Ext (DbDeleteApps ALBY_ACCOUNT_APP_NAME))])%list)
      by (cbn [final_world]; rewrite Htr, Htr0, <- !app_assoc; reflexivity).
    split; [apply last_snoc |].
    rewrite !created_apps_app, Hnone0. cbn [created_apps omap list_omap app_of].
    rewrite !app_nil_r.
    destruct Happs as [Hnone | (pubkey & w1 & scopes & Hcreate & Hscopes & Hcreated)];
      [left; exact Hnone |].
    right. exists w0, pubkey, w1, scopes. cbv zeta. auto. }
  destruct (deleteAlbyAccountApps_first env w) as (w0 & tr0 & Hdel & Hmutex & Htr0 & Hnone0).
  apply (Hrest w0 tr0); [exact Hdel | congruence | exact Htr0 | exact Hnone0].
Qed.

(** X9 on a hub whose provider answers every request with 200 and the body
    ["user2"]: the link succeeds with one connection, for the pubkey
    ["user2"]. *)
Lemma LinkAccount_creates_one_app_witness :
  (exists w',
     run relink_env (LinkAccount relink_env 1000000 BUDGET_RENEWAL_MONTHLY) relink_world
     = Returns None w' /\
     created_apps (performed relink_world (Returns (None : option error) w'))
     = [(ALBY_ACCOUNT_APP_NAME, "user2", 1000000, BUDGET_RENEWAL_MONTHLY, [], false)]) /\
  exists err w',
    run relink_env (LinkAccount relink_env 1000000 BUDGET_RENEWAL_MONTHLY) relink_world
    = Returns err w' /\
    last (performed relink_world (Returns err w'))
    = Some (anyE (Ext (DbDeleteApps ALBY_ACCOUNT_APP_NAME))).
Proof.
  split; [eexists; split; vm_compute; reflexivity |].
  destruct (LinkAccount_creates_one_app relink_env relink_world 1000000
              BUDGET_RENEWAL_MONTHLY eq_refl)
    as (err & w' & Hrun & Hfirst & _).
  exists err, w'. split; [exact Hrun | exact Hfirst].
Defined.

(** ** Counting HTTP requests *)

Lemma sends_weaken {A} R n m (p : Prog A) : (n <= m)%nat -> sends R n p -> sends R m p.
Proof.
  intros Hle H. revert m Hle.
  induction H as [n a | n v | n token timeout req k HR _ IH | n X e k He _ IH];
    intros m Hle.
  - constructor.
  - constructor.
  - destruct m as [| m]; [lia |]. apply sends_http; [exact HR |].
    intros x. apply IH. lia.
  - apply sends_other; [exact He |]. intros x. apply IH. exact Hle.
Qed.

Lemma sends_bind {A B} R n m (p : Prog A) (f : A -> Prog B) :
  sends R n p -> (forall a, sends R m (f a)) -> sends R (n + m) (p ≫= f).
Proof.
  intros Hp Hf.
  induction Hp as [n a | n v | n token timeout req k HR _ IH | n X e k He _ IH].
  - apply sends_weaken with (n := m); [lia | apply Hf].
  - constructor.
  - apply (sends_http R (n + m)); [exact HR | exact IH].
  - apply sends_other; [exact He | exact IH].
Qed.

Lemma sends_recover {A} R n (p : Prog A) (handler : string -> Prog A) :
  sends R n p -> (forall v, sends R 0 (handler v)) -> sends R n (recover p handler).
Proof.
  intros Hp Hh.
  induction Hp as [n a | n v | n token timeout req k HR _ IH | n X e k He _ IH];
    cbn [recover].
  - constructor.
  - apply sends_weaken with (n := O); [lia | apply Hh].
  - apply sends_http; [exact HR | exact IH].
  - apply sends_other; [exact He | exact IH].
Qed.

Lemma http_requests_app tr tr' :
  http_requests (tr ++ tr') = (http_requests tr ++ http_requests tr')%list.
Proof. apply omap_app. Qed.

Lemma sends_trace {A} env R n (p : Prog A) :
  sends R n p -> forall w,
  exists tr,
    trace (final_world (run env p w)) = (tr ++ trace w)%list /\
    (length (http_requests tr) <= n)%nat /\
    Forall (fun r : option Token * option Z * Request => R r.1.1 r.1.2 r.2)
      (http_requests tr).
Proof.
  induction 1 as [n a | n v | n token timeout req k HR _ IH | n X e k He _ IH];
    intros w; cbn [run final_world].
  - exists []. cbn. auto with lia.
  - exists []. cbn. auto with lia.
  - cbn [handle].
    destruct (IH (answer env (trace w) _ (HttpDo token timeout req))
                (record w (Ext (HttpDo token timeout req)))) as (tr & Htr & Hlen & HR').
    exists (tr ++ [anyE (Ext (HttpDo token timeout req))])%list.
    split; [rewrite Htr, <- app_assoc; reflexivity |].
    rewrite http_requests_app. cbn [http_requests omap list_omap http_of].
    rewrite length_app. cbn [length]. split; [lia |].
    apply Forall_app. split; [exact HR' |]. repeat constructor. exact HR.
  - destruct (handle env w e) as [[x w'] |] eqn:Hhandle.
    + destruct (IH x w') as (tr & Htr & Hlen & HR').
      exists (tr ++ [anyE e])%list.
      split; [rewrite Htr, (handle_trace _ _ _ _ _ _ Hhandle), <- app_assoc; reflexivity |].
      rewrite http_requests_app. cbn [http_requests omap list_omap]. rewrite He.
      rewrite app_nil_r. auto.
    + exists []. cbn. auto with lia.
Qed.

Lemma sends_run {A} env R n (p : Prog A) w :
  sends R n p -> requests_within R n w (run env p w).
Proof.
  intros Hp. destruct (sends_trace env R n p Hp w) as (tr & Htr & Hlen & HR).
  unfold requests_within. rewrite (performed_app _ _ _ Htr). auto.
Qed.

Create HintDb sends.

Ltac sends_step :=
  match goal with
  | |- sends _ _ (Ret _) => apply sends_ret
  | |- sends _ _ (Panic _) => apply sends_panic
  | |- sends _ _ (Vis (Ext (HttpDo _ _ _)) _) => apply sends_http; [| intros ?]
  | |- sends _ _ (Vis _ _) => apply sends_other; [reflexivity | intros ?]
  | |- sends _ _ ?p =>
      match p with
      | context [match ?x with _ => _ end] => destruct x
      end
  | |- sends _ _ _ => solve [auto with sends]
  end.

Ltac sends_auto :=
  repeat (cbv delta [vis ext logDebug logInfo logError deref assertTransaction] beta;
          cbn [bind mbind Prog_bind mret Prog_ret];
          sends_step).

(** The token fetch makes no HTTP request. *)
Lemma fetchUserToken_sends R n : sends R n fetchUserToken.
Proof.
  unfold fetchUserToken, fetchUserToken_locked, saveToken. sends_auto.
Qed.
#[export] Hint Resolve fetchUserToken_sends : sends.

Lemma sends_mono {A} (R R' : option Token -> option Z -> Request -> Prop) n (p : Prog A) :
  (forall token timeout req, R token timeout req -> R' token timeout req) ->
  sends R n p -> sends R' n p.
Proof. intros HR H. induction H; constructor; auto. Qed.

(** ** The telemetry relay at its edges *)

(** X10.  [ConsumeEvent] does nothing for an event, whatever it is (a nil
    pointer too), when the access token cannot be read, when it is empty, or
    when the relay of events is switched off: it reads the access token,
    writes one log line and returns, without touching the mutex, the store
    or the outside world. *)
Theorem ConsumeEvent_skips
    (env : Env) (w : World) (event : option Event) (globalProperties : gmap string JSON) :
  (exists e, Config_Get (cfg w) accessTokenKey "" = Err e) \/
  Config_Get (cfg w) accessTokenKey "" = Ok "" \/
  LogEvents env = false ->
  exists w' lvl msg err,
    run env (ConsumeEvent env event globalProperties) w = Returns tt w' /\
    cfg w' = cfg w /\ tokenMutex w' = tokenMutex w /\
    performed w (Returns tt w') = [anyE (Log lvl msg err); anyE (CfgGet accessTokenKey)].
Proof.
  intros Hskip. unfold ConsumeEvent, ConsumeEvent_body. rewrite run_recover. prog_simpl.
  assert (forall lvl msg err,
            exists w' lvl' msg' err',
              Returns tt (record (record w (CfgGet accessTokenKey)) (Log lvl msg err))
              = Returns tt w' /\
              cfg w' = cfg w /\ tokenMutex w' = tokenMutex w /\
              performed w (Returns tt w')
              = [anyE (Log lvl' msg' err'); anyE (CfgGet accessTokenKey)]) as Hend.
  { intros lvl msg err. eexists _, lvl, msg, err. split; [reflexivity |].
    split; [reflexivity |]. split; [reflexivity |].
    apply performed_app. reflexivity. }
  destruct (Config_Get (cfg w) accessTokenKey "") as [accessToken | e] eqn:Hget.
  - destruct (decide (accessToken = "")) as [-> | Hset]; [apply Hend |].
    destruct Hskip as [[e He] | [He | Hoff]]; [discriminate | congruence |].
    rewrite Hoff. apply Hend.
  - apply Hend.
Qed.

(** X10 on a linked hub that does not relay events. *)
Lemma ConsumeEvent_skips_witness :
  exists w',
    run silent_env (ConsumeEvent silent_env (Some sent_event) version_properties) relay_world
    = Returns tt w' /\
    cfg w' = cfg relay_world.
Proof.
  destruct (ConsumeEvent_skips silent_env relay_world (Some sent_event) version_properties)
    as (w' & _ & _ & _ & Hrun & Hcfg & _).
  - right. right. reflexivity.
  - exists w'. split; [exact Hrun | exact Hcfg].
Defined.

(** X11.  The events of the Lightning client itself, those whose name begins
    with [nwc_lnclient_], are never sent: for such an event [ConsumeEvent]
    returns without touching the mutex, the store or the outside world,
    whatever the properties of the event. *)
Theorem ConsumeEvent_drops_internal_events
    (env : Env) (w : World) (event : Event) (globalProperties : gmap string JSON) :
  strings.HasPrefix (EventName event) "nwc_lnclient_" = true ->
  exists w',
    run env (ConsumeEvent env (Some event) globalProperties) w = Returns tt w' /\
    cfg w' = cfg w /\ tokenMutex w' = tokenMutex w /\
    Forall (fun ev => ~ external ev) (performed w (Returns tt w')).
Proof.
  intros Hprefix.
  assert (EventName event <> "nwc_backup_channels") as Hname
    by (intros Heq; rewrite Heq in Hprefix; discriminate Hprefix).
  unfold ConsumeEvent, ConsumeEvent_body. rewrite run_recover. prog_simpl.
  destruct (Config_Get (cfg w) accessTokenKey "") as [accessToken | e].
  - destruct (decide (accessToken = "")).
    + prog_simpl. eexists. split; [reflexivity |]. split; [reflexivity |].
      split; [reflexivity |]. performed_explicit. quiet_trace.
    + destruct (LogEvents env); prog_simpl.
      * rewrite decide_False by exact Hname. rewrite Hprefix. prog_simpl.
        eexists. split; [reflexivity |]. split; [reflexivity |].
        split; [reflexivity |]. performed_explicit. quiet_trace.
      * eexists. split; [reflexivity |]. split; [reflexivity |].
        split; [reflexivity |]. performed_explicit. quiet_trace.
  - prog_simpl. eexists. split; [reflexivity |]. split; [reflexivity |].
    split; [reflexivity |]. performed_explicit. quiet_trace.
Qed.

(** X11 at the event [nwc_lnclient_channel_opened] on a linked hub. *)
Lemma ConsumeEvent_drops_internal_events_witness :
  exists w',
    run relay_env (ConsumeEvent relay_env (Some internal_event) version_properties) relay_world
    = Returns tt w' /\
    Forall (fun ev => ~ external ev) (performed relay_world (Returns tt w')).
Proof.
  destruct (ConsumeEvent_drops_internal_events relay_env relay_world internal_event
              version_properties eq_refl)
    as (w' & Hrun & _ & _ & Hquiet).
  exists w'. split; [exact Hrun | exact Hquiet].
Defined.

Lemma mergeGlobalProperties_sends {A} R n (f : gmap string JSON -> Prog A)
    (entries : list (string * JSON)) :
  (forall properties, sends R n (f properties)) ->
  forall properties, sends R n (mergeGlobalProperties entries properties ≫= f).
Proof.
  intros Hf. induction entries as [| [k v] rest IH]; intros properties;
    cbn [mergeGlobalProperties].
  - apply Hf.
  - destruct (properties !! k).
    + cbv delta [logError vis] beta. cbn [mbind Prog_bind bind].
      apply sends_other; [reflexivity |]. intros _. apply IH.
    + apply IH.
Qed.

Lemma backupChannels_sends env event :
  sends (fun _ timeout req =>
           timeout = None /\ exists encrypted, req = backup_request env encrypted)
    1 (backupChannels env event).
Proof.
  unfold backupChannels, NewRequest.
  destruct (http_NewRequest env "POST" (AlbyAPIURL env +:+ "/internal/backups")).
  - destruct (EventProperties event); try (sends_auto; fail).
    apply (sends_bind _ 0 1); [apply fetchUserToken_sends |].
    intros r. sends_auto.
  - destruct (EventProperties event); try (sends_auto; fail).
    apply (sends_bind _ 0 1); [apply fetchUserToken_sends |].
    intros r. sends_auto. split; [reflexivity |]. eexists. reflexivity.
Qed.

Lemma relayEvent_sends env event globalProperties :
  sends (fun _ timeout req =>
           timeout = None /\
           exists properties,
             req = post_to env "/events" (EventBody (EventName event) properties))
    1 (relayEvent env event globalProperties).
Proof.
  unfold relayEvent, NewRequest.
  apply (sends_bind _ 0 1); [apply fetchUserToken_sends |].
  intros [token | e]; [| sends_auto].
  destruct (encodeProperties (EventProperties event)) as [encoded | e]; [| sends_auto].
  destruct (unmarshalProperties encoded) as [decoded | e]; [| sends_auto].
  apply mergeGlobalProperties_sends. intros properties.
  destruct (http_NewRequest env "POST" (AlbyAPIURL env +:+ "/events")); [sends_auto |].
  sends_auto. split; [reflexivity |]. eexists. reflexivity.
Qed.

(** What [ConsumeEvent] sends for one event. *)
Lemma ConsumeEvent_sends env (event : Event) (globalProperties : gmap string JSON) :
  sends (telemetry_request env (EventName event)) 1
    (ConsumeEvent env (Some event) globalProperties).
Proof.
  unfold ConsumeEvent.
  apply sends_recover; [| intros v; sends_auto].
  unfold ConsumeEvent_body. cbv delta [vis] beta. cbn [mbind Prog_bind bind].
  apply sends_other; [reflexivity |]. intros [accessToken | e]; [| sends_auto].
  destruct (decide (accessToken = "")); [sends_auto |].
  destruct (negb (LogEvents env)); [sends_auto |].
  cbn [deref mbind Prog_bind bind].
  destruct (decide (EventName event = "nwc_backup_channels")) as [Hbackup | Hother].
  - apply (sends_bind _ 1 0).
    + eapply sends_mono; [| apply backupChannels_sends].
      intros token timeout req [Htimeout Hreq]. split; [exact Htimeout |].
      unfold telemetry_request. rewrite decide_True by exact Hbackup. exact Hreq.
    + intros [e |]; sends_auto.
  - destruct (strings.HasPrefix (EventName event) "nwc_lnclient_"); [sends_auto |].
    assert (forall event',
              EventName event' = EventName event ->
              sends (telemetry_request env (EventName event)) 1
                (relayEvent env event' globalProperties)) as Hrelay.
    { intros event' Hname. eapply sends_mono; [| apply relayEvent_sends].
      intros token timeout req [Htimeout Hreq]. split; [exact Htimeout |].
      rewrite decide_False by exact Hother. rewrite <- Hname. exact Hreq. }
    unfold redactReceived, redactSent, redactFailed.
    repeat (cbv delta [vis ext logDebug logInfo logError deref assertTransaction] beta;
            cbn [bind mbind Prog_bind mret Prog_ret EventName EventProperties];
            match goal with
            | |- sends _ _ (relayEvent _ _ _) => apply Hrelay; reflexivity
            | _ => sends_step
            end).
Qed.

(** X12.  For one event [ConsumeEvent] makes at most one HTTP request, with
    a client that has no timeout of its own: for a channel-backup event a
    POST of the description ["channels"] and of encrypted data to
    [/internal/backups], for any other event a POST of an event of the same
    name to [/events]. *)
Theorem ConsumeEvent_one_request
    (env : Env) (w : World) (event : Event) (globalProperties : gmap string JSON) :
  requests_within (telemetry_request env (EventName event)) 1 w
    (run env (ConsumeEvent env (Some event) globalProperties) w).
Proof. apply sends_run, ConsumeEvent_sends. Qed.


(** ** The upload of a channel backup *)

Lemma performed_nil {A} (a : A) w : performed w (Returns a w) = [].
Proof. apply (performed_app w (Returns a w) []). reflexivity. Qed.

Lemma performed_after {A} (w w1 : World) (o : Outcome A) tr tr' :
  trace w1 = (tr ++ trace w)%list ->
  trace (final_world o) = (tr' ++ trace w1)%list ->
  performed w o = (tr' ++ tr)%list.
Proof.
  intros Htr Htr'. apply performed_app. rewrite Htr', Htr, app_assoc. reflexivity.
Qed.

Ltac performed_from Htr :=
  match goal with
  | |- context [performed ?w ?o] =>
      let t := eval cbn [final_world trace record] in (trace (final_world o)) in
      match type of Htr with
      | trace ?w1 = _ =>
          let p := trace_prefix t (trace w1) in
          rewrite (performed_after w w1 o _ p Htr eq_refl)
      end
  end.

(** The token fetch, entered with the mutex free: it returns, and has made
    no HTTP request. *)
Lemma fetchUserToken_fetched env w :
  tokenMutex w = false ->
  exists r w1 tr,
    run env fetchUserToken w = Returns r w1 /\
    tokenMutex w1 = false /\
    faults (cfg w1) = faults (cfg w) /\
    (forall key, ~ session_key key -> kv (cfg w1) !! key = kv (cfg w) !! key) /\
    trace w1 = (tr ++ trace w)%list /\
    http_requests tr = [].
Proof.
  intros Hfree.
  destruct (orderly_calm_returns env session_key fetchUserToken w
              fetchUserToken_orderly fetchUserToken_calm Hfree)
    as (r & w1 & Hrun & Hmutex & Hfaults & Hframe & _).
  destruct (sends_trace env (fun _ _ _ => True) 0 fetchUserToken
              (fetchUserToken_sends _ _) w) as (tr & Htr & Hlen & _).
  rewrite Hrun in Htr. cbn [final_world] in Htr.
  exists r, w1, tr. repeat split; try assumption.
  destruct (http_requests tr); [reflexivity | cbn [length] in Hlen; lia].
Qed.

(** X13.  Whatever [backupChannels] sends, it sends encrypted: an HTTP
    request made by it for an event is the POST to [/internal/backups] of
    the description ["channels"] and of the event's channel list encrypted
    by [config.AesGcmEncrypt] under the value stored at [Mnemonic], and it
    is the only request; when the event is no channel backup, or the list
    cannot be encoded, or the key cannot be read, or the encryption fails,
    nothing is sent. *)
Theorem backupChannels_uploads_encrypted
    (env : Env) (w : World) (event : Event)
    (token : option Token) (timeout : option Z) (req : Request) :
  tokenMutex w = false ->
  In (token, timeout, req)
     (http_requests (performed w (run env (backupChannels env event) w))) ->
  exists b channels mnemonic encrypted,
    EventProperties event = PropsChannelBackup (Some b) /\
    Channels b = Ok channels /\
    Config_Get (cfg w) "Mnemonic" "" = Ok mnemonic /\
    config_AesGcmEncrypt env channels mnemonic = Ok encrypted /\
    timeout = None /\
    req = backup_request env encrypted /\
    http_requests (performed w (run env (backupChannels env event) w))
    = [(token, None, req)].
Proof.
  intros Hfree. unfold backupChannels.
  destruct (EventProperties event) as [| t | b | encoded] eqn:Hprops;
    cbv beta iota.
  1,2,4: prog_simpl; rewrite performed_nil; intros [].
  rewrite run_bind.
  destruct (fetchUserToken_fetched env w Hfree)
    as (r & w1 & tr & -> & Hfree1 & Hfaults & Hframe & Htr & Hnone).
  assert (Config_Get (cfg w1) "Mnemonic" "" = Config_Get (cfg w) "Mnemonic" "") as Hkey.
  { unfold Config_Get. rewrite Hfaults, Hframe; [reflexivity |].
    unfold session_key. intros [H | [H | H]]; discriminate H. }
  destruct r as [token' | e].
  2:{ prog_simpl. performed_from Htr. cbn [app]. rewrite Hnone. intros []. }
  destruct b as [b |].
  2:{ prog_simpl. performed_from Htr. cbn [app]. rewrite Hnone. intros []. }
  prog_simpl.
  destruct (Channels b) as [channels | e] eqn:Hchannels.
  2:{ prog_simpl. performed_from Htr. cbn [app]. rewrite Hnone. intros []. }
  prog_simpl. rewrite Hkey.
  destruct (Config_Get (cfg w) "Mnemonic" "") as [mnemonic | e] eqn:Hmnemonic.
  2:{ prog_simpl. performed_from Htr. rewrite http_requests_app, Hnone. intros []. }
  destruct (config_AesGcmEncrypt env channels mnemonic) as [encrypted | e] eqn:Hencrypt.
  2:{ prog_simpl. performed_from Htr. rewrite http_requests_app, Hnone. intros []. }
  unfold NewRequest.
  destruct (http_NewRequest env "POST" (AlbyAPIURL env +:+ "/internal/backups")).
  { prog_simpl. performed_from Htr. rewrite http_requests_app, Hnone. intros []. }
  prog_simpl.
  assert (forall o : Outcome (option error),
            trace (final_world o)
            = anyE (Ext (HttpDo token' None (backup_request env encrypted))) ::
              anyE (CfgGet "Mnemonic") :: trace w1 ->
            In (token, timeout, req) (http_requests (performed w o)) ->
            exists b0 channels0 mnemonic0 encrypted0,
              PropsChannelBackup (Some b) = PropsChannelBackup (Some b0) /\
              Channels b0 = Ok channels0 /\
              Ok mnemonic = Ok mnemonic0 /\
              config_AesGcmEncrypt env channels0 mnemonic0 = Ok encrypted0 /\
              timeout = None /\
              req = backup_request env encrypted0 /\
              http_requests (performed w o) = [(token, None, req)]) as Hend.
  { intros o Ho.
    rewrite (performed_after w w1 o tr
               [anyE (Ext (HttpDo token' None (backup_request env encrypted)));
                anyE (CfgGet "Mnemonic")] Htr Ho).
    rewrite http_requests_app, Hnone. cbn [http_requests omap list_omap http_of app].
    intros [Heq | []]. injection Heq as <- <- <-.
    exists b, channels, mnemonic, encrypted. repeat split; assumption || reflexivity. }
  match goal with |- context [answer env ?h _ ?e] =>
    destruct (answer env h _ e) as [resp | e'] end.
  - destruct (300 <=? StatusCode resp); apply Hend; reflexivity.
  - apply Hend. reflexivity.
Qed.

(** X13 on a hub whose mnemonic is stored as ["seed"]: the backup of an
    empty channel list goes out as the cipher gave it. *)
Lemma backupChannels_uploads_encrypted_witness :
  exists b channels mnemonic encrypted,
    EventProperties backup_event = PropsChannelBackup (Some b) /\
    Channels b = Ok channels /\
    Config_Get (cfg mnemonic_world) "Mnemonic" "" = Ok mnemonic /\
    config_AesGcmEncrypt relay_env channels mnemonic = Ok encrypted /\
    (None : option Z) = None /\
    backup_request relay_env "[]" = backup_request relay_env encrypted /\
    http_requests (performed mnemonic_world
                     (run relay_env (backupChannels relay_env backup_event) mnemonic_world))
    = [(Some (session_of "access1" "refresh1" 4600), None, backup_request relay_env "[]")].
Proof.
  apply (backupChannels_uploads_encrypted relay_env mnemonic_world backup_event
           (Some (session_of "access1" "refresh1" 4600)) None
           (backup_request relay_env "[]")).
  - reflexivity.
  - vm_compute. left. reflexivity.
Defined.

(** ** The pattern of the LSP connection URI *)

Module lspuri_facts.

Import lspuri.

Lemma append_String c s t : String c s +:+ t = String c (s +:+ t).
Proof. reflexivity. Qed.

Lemma append_assoc (s t u : string) : (s +:+ t) +:+ u = s +:+ t +:+ u.
Proof.
  induction s as [| c s IH]; [reflexivity |].
  rewrite !append_String. f_equal. exact IH.
Qed.

Lemma append_nil_r (s : string) : s +:+ "" = s.
Proof.
  induction s as [| c s IH]; [reflexivity |].
  rewrite append_String. f_equal. exact IH.
Qed.

(** The longest run: what is taken is in the class, and what follows does
    not begin in it. *)
Lemma span_sound p s a b :
  span p s = (a, b) ->
  s = a +:+ b /\ all_chars p a = true /\
  match b with
  | EmptyString => True
  | String c _ => p c = false
  end.
Proof.
  revert a b. induction s as [| c s IH]; intros a b; cbn [span].
  - intros H. injection H as <- <-. auto.
  - destruct (p c) eqn:Hc.
    + destruct (span p s) as [a' b'] eqn:Hspan. intros H. injection H as <- <-.
      destruct (IH a' b' eq_refl) as (-> & Hall & Hnext).
      rewrite append_String. cbn [all_chars]. rewrite Hc, Hall. auto.
    + intros H. injection H as <- <-. rewrite Hc. auto.
Qed.

Lemma span_complete p a b :
  all_chars p a = true ->
  match b with
  | EmptyString => True
  | String c _ => p c = false
  end ->
  span p (a +:+ b) = (a, b).
Proof.
  intros Hall Hnext. induction a as [| c a IH].
  - change ("" +:+ b) with b.
    destruct b as [| c b]; [reflexivity |]. cbn [span]. rewrite Hnext. reflexivity.
  - cbn [all_chars] in Hall. apply andb_true_iff in Hall as [Hc Hall].
    rewrite append_String. cbn [span]. rewrite Hc, (IH Hall). reflexivity.
Qed.

Lemma token_sound p sep s tok rest :
  token p sep s = Some (tok, rest) ->
  run_of p tok /\ s = tok +:+ String sep rest.
Proof.
  unfold token. destruct (span p s) as [a b] eqn:Hspan.
  apply span_sound in Hspan as (-> & Hall & _).
  destruct a as [| c a]; [discriminate |].
  destruct b as [| c' b]; [discriminate |].
  destruct (Ascii.eqb_spec c' sep) as [-> |]; [| discriminate].
  intros H. injection H as <- <-. split; [split; [discriminate | exact Hall] | reflexivity].
Qed.

Lemma token_complete p sep tok rest :
  run_of p tok -> p sep = false ->
  token p sep (tok +:+ String sep rest) = Some (tok, rest).
Proof.
  intros [Hne Hall] Hsep. unfold token.
  rewrite (span_complete p tok (String sep rest) Hall Hsep).
  destruct tok as [| c tok]; [contradiction |].
  rewrite Ascii.eqb_refl. reflexivity.
Qed.

(** The pattern matches exactly the texts [pubkey@a.b.c.d:port], and gives
    their parts. *)
Lemma FindStringSubmatch_sound uri parts :
  FindStringSubmatch uri = Some parts ->
  exists pubkey a b c d port,
    well_formed_uri pubkey a b c d port /\
    uri = lsp_uri pubkey a b c d port /\
    parts = [uri; pubkey; ipv4_text a b c d; port].
Proof.
  unfold FindStringSubmatch.
  destruct (token isHex "@" uri) as [[pubkey r1] |] eqn:H1; [| discriminate].
  destruct (token strconv.isDigit "." r1) as [[a r2] |] eqn:H2; [| discriminate].
  destruct (token strconv.isDigit "." r2) as [[b r3] |] eqn:H3; [| discriminate].
  destruct (token strconv.isDigit "." r3) as [[c r4] |] eqn:H4; [| discriminate].
  destruct (token strconv.isDigit ":" r4) as [[d r5] |] eqn:H5; [| discriminate].
  destruct (span strconv.isDigit r5) as [port rest] eqn:H6.
  apply token_sound in H1 as [Hpubkey ->].
  apply token_sound in H2 as [Ha ->].
  apply token_sound in H3 as [Hb ->].
  apply token_sound in H4 as [Hc ->].
  apply token_sound in H5 as [Hd ->].
  apply span_sound in H6 as (-> & Hport & _).
  destruct port as [| p0 port]; [discriminate |].
  destruct rest as [| r0 rest]; [| discriminate].
  intros H. injection H as <-.
  exists pubkey, a, b, c, d, (String p0 port).
  rewrite append_nil_r in *.
  split.
  { unfold well_formed_uri. repeat (split; [assumption |]).
    split; [discriminate | exact Hport]. }
  assert (pubkey +:+ String "@" (a +:+ String "." (b +:+ String "." (c +:+ String "."
            (d +:+ String ":" (String p0 port)))))
          = lsp_uri pubkey a b c d (String p0 port)) as ->.
  { unfold lsp_uri, ipv4_text. f_equal. rewrite !append_assoc. reflexivity. }
  split; reflexivity.
Qed.

Lemma FindStringSubmatch_complete pubkey a b c d port :
  well_formed_uri pubkey a b c d port ->
  FindStringSubmatch (lsp_uri pubkey a b c d port)
  = Some [lsp_uri pubkey a b c d port; pubkey; ipv4_text a b c d; port].
Proof.
  intros (Hpubkey & Ha & Hb & Hc & Hd & [Hne Hport]).
  assert (lsp_uri pubkey a b c d port
          = pubkey +:+ String "@" (a +:+ String "." (b +:+ String "." (c +:+ String "."
              (d +:+ String ":" (port +:+ ""))))))
    as Hshape.
  { rewrite append_nil_r. unfold lsp_uri, ipv4_text. f_equal.
    rewrite !append_assoc. reflexivity. }
  unfold FindStringSubmatch. rewrite Hshape at 1.
  rewrite (token_complete isHex "@" pubkey _ Hpubkey eq_refl).
  rewrite (token_complete strconv.isDigit "." a _ Ha eq_refl).
  rewrite (token_complete strconv.isDigit "." b _ Hb eq_refl).
  rewrite (token_complete strconv.isDigit "." c _ Hc eq_refl).
  rewrite (token_complete strconv.isDigit ":" d _ Hd eq_refl).
  rewrite (span_complete strconv.isDigit port "" Hport I).
  destruct port as [| p0 port]; [contradiction |]. reflexivity.
Qed.

End lspuri_facts.

(** ** Decimal texts read by [strconv.Atoi] *)

Module atoi_facts.

Import strconv.

Lemma isDigit_digitVal c : isDigit c = true -> 0 <= digitVal c < 10.
Proof.
  unfold isDigit, digitVal. intros H.
  apply andb_true_iff in H as [H1 H2].
  apply Z.leb_le in H1. apply Z.leb_le in H2. lia.
Qed.

Lemma isDigit_not_sign c :
  isDigit c = true -> Ascii.eqb c "+" = false /\ Ascii.eqb c "-" = false.
Proof.
  intros H.
  split; destruct (Ascii.eqb_spec c "+"), (Ascii.eqb_spec c "-"); subst;
    try reflexivity; discriminate H.
Qed.

Lemma decimal_from_ge s : forall n,
  all_chars isDigit s = true -> 0 <= n -> n <= decimal_from n s.
Proof.
  induction s as [| c s IH]; intros n Hall Hn; cbn [decimal_from]; [lia |].
  cbn [all_chars] in Hall. apply andb_true_iff in Hall as [Hc Hall].
  pose proof (isDigit_digitVal c Hc).
  specialize (IH (n * 10 + digitVal c) Hall ltac:(lia)). lia.
Qed.

(** The loop of [ParseUint] on a run of digits: the number, or a range
    error when the number does not fit in 64 bits. *)
Lemma parseUintLoop_decimal s : forall n,
  all_chars isDigit s = true -> 0 <= n <= maxUint64 ->
  parseUintLoop s n =
  if decimal_from n s <=? maxUint64 then inr (decimal_from n s) else inl ErrRange.
Proof.
  assert (maxUint64 = 18446744073709551615) as Emax by reflexivity.
  assert (cutoff = 1844674407370955162) as Ecut by reflexivity.
  induction s as [| c s IH]; intros n Hall Hn; cbn [decimal_from parseUintLoop].
  - destruct (Z.leb_spec n maxUint64); [reflexivity | lia].
  - cbn [all_chars] in Hall. apply andb_true_iff in Hall as [Hc Hall].
    rewrite Hc. pose proof (isDigit_digitVal c Hc) as Hd.
    pose proof (decimal_from_ge s (n * 10 + digitVal c) Hall ltac:(lia)) as Hge.
    destruct (Z.leb_spec cutoff n) as [Hcut | Hcut].
    { destruct (Z.leb_spec (decimal_from (n * 10 + digitVal c) s) maxUint64);
        [lia | reflexivity]. }
    rewrite (wrap_uint64_small (n * 10)) by (change (2 ^ 64) with 18446744073709551616; lia).
    destruct (Z.le_gt_cases (n * 10 + digitVal c) maxUint64) as [Hfit | Hover].
    + rewrite wrap_uint64_small by (change (2 ^ 64) with 18446744073709551616; lia).
      destruct (Z.ltb_spec (n * 10 + digitVal c) (n * 10)); [lia |].
      destruct (Z.ltb_spec maxUint64 (n * 10 + digitVal c)); [lia |].
      cbn [orb]. apply IH; [exact Hall | lia].
    + assert (wrap_uint64 (n * 10 + digitVal c) = n * 10 + digitVal c - 18446744073709551616)
        as ->.
      { unfold wrap_uint64. change (2 ^ 64) with 18446744073709551616.
        symmetry. apply (Z.mod_unique _ _ 1); lia. }
      destruct (Z.ltb_spec (n * 10 + digitVal c - 18446744073709551616) (n * 10)); [| lia].
      cbn [orb].
      destruct (Z.leb_spec (decimal_from (n * 10 + digitVal c) s) maxUint64);
        [lia | reflexivity].
Qed.

(** [Atoi] on a run of digits gives the number when it is below [2^63], and
    a range error otherwise. *)
Lemma Atoi_decimal s :
  run_of isDigit s ->
  Atoi s = if decimal s <? 2 ^ 63 then Ok (decimal s) else Err (ErrNum "Atoi" s ErrRange).
Proof.
  intros [Hne Hall]. unfold Atoi, parseIntKind.
  destruct s as [| c s]; [contradiction |].
  pose proof Hall as Hall'. cbn [all_chars] in Hall'.
  apply andb_true_iff in Hall' as [Hc _].
  destruct (isDigit_not_sign c Hc) as [-> ->]. cbn [orb negb andb].
  unfold parseUintKind.
  rewrite (parseUintLoop_decimal (String c s) 0 Hall) by (unfold maxUint64; lia).
  fold (decimal (String c s)).
  assert (maxUint64 = 18446744073709551615) as Emax by reflexivity.
  pose proof (decimal_from_ge (String c s) 0 Hall ltac:(lia)) as Hpos.
  fold (decimal (String c s)) in Hpos.
  change (2 ^ 63) with 9223372036854775808.
  destruct (Z.leb_spec (decimal (String c s)) maxUint64) as [Hfit | Hover].
  - destruct (Z.leb_spec 9223372036854775808 (decimal (String c s))) as [Hbig | Hsmall].
    + destruct (Z.ltb_spec (decimal (String c s)) 9223372036854775808); [lia | reflexivity].
    + destruct (Z.ltb_spec (decimal (String c s)) 9223372036854775808); [| lia].
      rewrite wrap_int64_small
        by (unfold in_int64; change (2 ^ 63) with 9223372036854775808; lia).
      reflexivity.
  - destruct (Z.leb_spec 9223372036854775808 maxUint64) as [_ | Hno]; [| lia].
    destruct (Z.ltb_spec (decimal (String c s)) 9223372036854775808); [lia | reflexivity].
Qed.

End atoi_facts.

(** ** The connection details of the LSP *)

Ltac prog_simpl_in H :=
  cbn [run bind mbind Prog_bind mret Prog_ret vis ext handle record
       cfg tokenMutex trace logDebug logInfo logError recover deref] in H.

Lemma pickLSPUri_first env uris uri rest w :
  clearnet uris = uri :: rest ->
  run env (pickLSPUri uris) w =
  run env
    (match lspuri.FindStringSubmatch uri with
     | Some [_; p1; p2; p3] =>
         match strconv.Atoi p3 with
         | Err e =>
             logError "Failed to decode port number" (Some e);;
             Ret ("", "", 0, Some e)
         | Ok portValue => Ret (p1, p2, wrap_uint16 portValue, None)
         end
     | _ =>
         logError "Unsupported URI" None;;
         Ret ("", "", 0, Some (ErrNew "could not decode LSP URI"))
     end)
    (record w (Log LDebug "Split URI" None)).
Proof.
  unfold clearnet. intros Hfirst. unfold pickLSPUri. rewrite Hfirst. reflexivity.
Qed.

(** X14.  When [getLSPInfo] returns a pubkey and no error, the LSP answered
    the GET of the URL, made with the fetched token and a timeout of a
    minute, with a body that decodes to a list of URIs whose first clear-net
    one is [pubkey@a.b.c.d:port], a lower-case hexadecimal pubkey, four runs
    of digits and a decimal port below [2^63]; the address returned is
    [a.b.c.d] and the port returned is the decimal port modulo [2^16]. *)
Theorem getLSPInfo_returns_first_clearnet_uri
    (env : Env) (url : string) (w w' : World) (pubkey address : string) (port : Z) :
  run env (getLSPInfo env url) w = Returns (pubkey, address, port, None) w' ->
  pubkey <> "" ->
  exists r w1 res body uris rest a b c d portText,
    run env fetchUserToken w = Returns r w1 /\
    answer env (trace (after_fetch r w1)) (result Response)
      (HttpDo (fetched_token r) (Some (60 * time.Second))
         (setDefaultRequestHeaders env
            {| Method := "GET"; URL := url; Header := []; ReqBody := NoBody |})) = Ok res /\
    RespBody res = Ok body /\
    json_lsps1LSPInfo env body = Ok uris /\
    clearnet uris = lsp_uri pubkey a b c d portText :: rest /\
    well_formed_uri pubkey a b c d portText /\
    address = ipv4_text a b c d /\
    decimal portText < 2 ^ 63 /\
    port = decimal portText mod 2 ^ 16.
Proof.
  intros Hrun Hpubkey. unfold getLSPInfo in Hrun. rewrite run_bind in Hrun.
  destruct (run env fetchUserToken w) as [r w1 | v w1 | w1]; try discriminate.
  rewrite run_bind in Hrun.
  assert (run env
              (match NewRequest env "GET" url NoBody with
               | Err e =>
                   logError "Failed to create lsp info request" (Some e);;
                   Ret ("", "", 0, Some e)
               | Ok req =>
                   r ← ext (HttpDo (fetched_token r) (Some (60 * time.Second))
                              (setDefaultRequestHeaders env req));
                   match r with
                   | Err e =>
                       logError "Failed to request lsp info" (Some e);;
                       Ret ("", "", 0, Some e)
                   | Ok res =>
                       match RespBody res with
                       | Err e =>
                           logError "Failed to read response body" (Some e);;
                           Ret ("", "", 0, Some (ErrNew "failed to read response body"))
                       | Ok body =>
                           match json_lsps1LSPInfo env body with
                           | Err e =>
                               logError "Failed to deserialize json" (Some e);;
                               Ret ("", "", 0,
                                    Some (ErrNew ("failed to deserialize json " +:+ url
                                                  +:+ " " +:+ body)))
                           | Ok uris => pickLSPUri uris
                           end
                       end
                   end
               end) (after_fetch r w1)
            = Returns (pubkey, address, port, None) w') as Hrest.
  { destruct r as [token | e]; prog_simpl_in Hrun; exact Hrun. }
  clear Hrun. unfold NewRequest in Hrest.
  destruct (http_NewRequest env "GET" url); [prog_simpl_in Hrest; discriminate |].
  prog_simpl_in Hrest.
  match type of Hrest with context [answer env ?h _ ?e] =>
    destruct (answer env h _ e) as [res | e'] eqn:Hanswer end;
    [| prog_simpl_in Hrest; discriminate].
  destruct (RespBody res) as [body | e] eqn:Hbody; [| prog_simpl_in Hrest; discriminate].
  destruct (json_lsps1LSPInfo env body) as [uris | e] eqn:Hdecode;
    [| prog_simpl_in Hrest; discriminate].
  exists r, w1, res, body, uris.
  destruct (clearnet uris) as [| uri rest] eqn:Hclear.
  { rewrite (pickLSPUri_no_candidate env uris _ Hclear) in Hrest.
    injection Hrest as <- _ _ _. contradiction. }
  rewrite (pickLSPUri_first env uris uri rest _ Hclear) in Hrest.
  destruct (lspuri.FindStringSubmatch uri) as [parts |] eqn:Hmatch;
    [| prog_simpl_in Hrest; discriminate].
  apply lspuri_facts.FindStringSubmatch_sound in Hmatch
    as (pubkey' & a & b & c & d & portText & Hshape & -> & ->).
  pose proof Hshape as (_ & _ & _ & _ & _ & Hport).
  rewrite (atoi_facts.Atoi_decimal portText Hport) in Hrest.
  destruct (Z.ltb_spec (decimal portText) (2 ^ 63)) as [Hsmall | Hbig];
    [| prog_simpl_in Hrest; discriminate].
  prog_simpl_in Hrest. injection Hrest as -> <- <- _.
  exists rest, a, b, c, d, portText.
  split; [reflexivity |]. split; [exact Hanswer |]. split; [exact Hbody |].
  repeat split; try assumption; apply Hshape.
Qed.

(** X14 for an LSP that lists an onion address and then
    [02ab@203.0.113.7:75271]: the port returned is 9735. *)
Lemma getLSPInfo_returns_first_clearnet_uri_witness :
  exists r w1 res body uris rest a b c d portText,
    run (lsp_env [onion_uri; "02ab@203.0.113.7:75271"]) fetchUserToken relay_world
    = Returns r w1 /\
    answer (lsp_env [onion_uri; "02ab@203.0.113.7:75271"]) (trace (after_fetch r w1))
      (result Response)
      (HttpDo (fetched_token r) (Some (60 * time.Second))
         (setDefaultRequestHeaders (lsp_env [onion_uri; "02ab@203.0.113.7:75271"])
            {| Method := "GET"; URL := get_info_url; Header := []; ReqBody := NoBody |}))
    = Ok res /\
    RespBody res = Ok body /\
    json_lsps1LSPInfo (lsp_env [onion_uri; "02ab@203.0.113.7:75271"]) body = Ok uris /\
    clearnet uris = lsp_uri "02ab" a b c d portText :: rest /\
    well_formed_uri "02ab" a b c d portText /\
    "203.0.113.7" = ipv4_text a b c d /\
    decimal portText < 2 ^ 63 /\
    9735 = decimal portText mod 2 ^ 16.
Proof.
  apply (getLSPInfo_returns_first_clearnet_uri
           (lsp_env [onion_uri; "02ab@203.0.113.7:75271"]) get_info_url relay_world
           (final_world (run (lsp_env [onion_uri; "02ab@203.0.113.7:75271"])
                           (getLSPInfo (lsp_env [onion_uri; "02ab@203.0.113.7:75271"])
                              get_info_url) relay_world))).
  - vm_compute. reflexivity.
  - discriminate.
Defined.

(** X15.  When the first clear-net URI of the list is [pubkey@a.b.c.d:port]
    with a lower-case hexadecimal pubkey and decimal parts, the URI is
    accepted whatever else the list holds: the pubkey, the address [a.b.c.d]
    and the port modulo [2^16] are returned, so a port above 65535 is not
    refused but wraps around; only a port of [2^63] or more is an error. *)
Theorem pickLSPUri_well_formed
    (env : Env) (uris rest : list string) (w : World) (pubkey a b c d portText : string) :
  clearnet uris = lsp_uri pubkey a b c d portText :: rest ->
  well_formed_uri pubkey a b c d portText ->
  exists w',
    run env (pickLSPUri uris) w =
    Returns
      (if decimal portText <? 2 ^ 63
       then (pubkey, ipv4_text a b c d, decimal portText mod 2 ^ 16, None)
       else ("", "", 0, Some (ErrNum "Atoi" portText ErrRange)))
      w'.
Proof.
  intros Hclear Hshape.
  rewrite (pickLSPUri_first env uris _ rest w Hclear).
  rewrite (lspuri_facts.FindStringSubmatch_complete _ _ _ _ _ _ Hshape).
  pose proof Hshape as (_ & _ & _ & _ & _ & Hport).
  rewrite (atoi_facts.Atoi_decimal portText Hport).
  destruct (decimal portText <? 2 ^ 63); eexists; reflexivity.
Qed.

Lemma pickLSPUri_well_formed_witness :
  exists w',
    run relay_env (pickLSPUri [onion_uri; "02ab@203.0.113.7:75271"; "03cd@198.51.100.1:1"])
      relay_world
    = Returns ("02ab", "203.0.113.7", 9735, None) w'.
Proof.
  apply (pickLSPUri_well_formed relay_env
           [onion_uri; "02ab@203.0.113.7:75271"; "03cd@198.51.100.1:1"]
           ["03cd@198.51.100.1:1"] relay_world "02ab" "203" "0" "113" "7" "75271").
  - vm_compute. reflexivity.
  - vm_compute. repeat split; discriminate.
Defined.

(** ** The traffic of an auto-channel order *)

Lemma getLSPInfo_sends env url :
  sends (fun _ timeout req =>
           timeout = Some (60 * time.Second) /\
           req = setDefaultRequestHeaders env
                   {| Method := "GET"; URL := url; Header := []; ReqBody := NoBody |})
    1 (getLSPInfo env url).
Proof.
  unfold getLSPInfo, NewRequest.
  apply (sends_bind _ 0 1); [apply fetchUserToken_sends |].
  intros r. apply (sends_bind _ 0 1); [destruct r; sends_auto |]. intros _.
  destruct (http_NewRequest env "GET" url); [sends_auto |].
  unfold pickLSPUri. sends_auto. split; reflexivity.
Qed.

Lemma requestAutoChannel_sends env url pubkey isPublic :
  sends (fun _ timeout req =>
           timeout = Some (60 * time.Second) /\
           req = auto_channel_request env url pubkey isPublic)
    1 (requestAutoChannel env url pubkey isPublic).
Proof.
  unfold requestAutoChannel, requestAutoChannel_request, NewRequest.
  apply (sends_bind _ 0 1); [apply fetchUserToken_sends |].
  intros r. apply (sends_bind _ 0 1); [destruct r; sends_auto |]. intros _.
  destruct (http_NewRequest env "POST" url); [sends_auto |].
  unfold checkAutoChannelResponse. sends_auto. split; reflexivity.
Qed.

(** X16.  [RequestAutoChannel] first asks the node who it is.  When the
    node answers, at most two HTTP requests are made, both with a timeout of
    a minute and both to the provider's LSP of the network the node said it
    is on: a GET of [/v1/get_info], and a POST to [/auto_channel] whose body
    names the pubkey the node gave and the announcement flag the call was
    made with.  When the node does not answer, no request is made. *)
Theorem RequestAutoChannel_two_requests (env : Env) (isPublic : bool) (w : World) :
  match answer env (trace w) (result NodeInfo) LnGetInfo with
  | Ok nodeInfo =>
      requests_within (lsp_traffic env isPublic nodeInfo) 2 w
        (run env (RequestAutoChannel env isPublic) w)
  | Err _ =>
      http_requests (performed w (run env (RequestAutoChannel env isPublic) w)) = []
  end.
Proof.
  unfold RequestAutoChannel. prog_simpl.
  destruct (answer env (trace w) (result NodeInfo) LnGetInfo) as [nodeInfo | e].
  2:{ prog_simpl.
      match goal with
      | |- context [performed w ?o] =>
          rewrite (performed_app w o
                     [anyE (Log LError "Failed to request own node info" (Some e));
                      anyE (Ext LnGetInfo)] eq_refl)
      end.
      reflexivity. }
  match goal with
  | |- requests_within ?R 2 w (run env ?p ?w1) =>
      assert (sends R 2 p) as Hsends; [| destruct (sends_trace env R 2 p Hsends w1)
                                            as (tr & Htr & Hlen & HR)]
  end.
  { apply (sends_bind _ 1 1).
    { eapply sends_mono; [| apply getLSPInfo_sends].
      intros token timeout req [Htimeout ->]. split; [exact Htimeout |].
      left. reflexivity. }
    intros [[[pubkey address] port] [e |]]; [sends_auto |].
    cbv delta [ext vis] beta. cbn [mbind Prog_bind bind].
    apply sends_other; [reflexivity |]. intros [e |]; [sends_auto |].
    cbv delta [logInfo vis] beta. cbn [mbind Prog_bind bind].
    apply sends_other; [reflexivity |]. intros _.
    apply (sends_bind _ 1 0).
    { eapply sends_mono; [| apply requestAutoChannel_sends].
      intros token timeout req [Htimeout ->]. split; [exact Htimeout |].
      right. reflexivity. }
    intros [resp | e]; sends_auto. }
  unfold requests_within.
  rewrite (performed_app w _ (tr ++ [anyE (Ext LnGetInfo)]))
    by (rewrite Htr, <- app_assoc; reflexivity).
  rewrite http_requests_app. cbn [http_requests omap list_omap http_of].
  rewrite app_nil_r. split; [exact Hlen | exact HR].
Qed.

(** X16 on a hub whose node is on the network [bitcoin] and answers as
    [03cc]: what is sent goes to the LSP of that network and names that
    pubkey. *)
Lemma RequestAutoChannel_two_requests_witness :
  answer unreachable_env (trace relay_world) (result NodeInfo) LnGetInfo = Ok own_node /\
  requests_within (lsp_traffic unreachable_env true own_node) 2 relay_world
    (run unreachable_env (RequestAutoChannel unreachable_env true) relay_world).
Proof.
  split; [reflexivity |].
  exact (RequestAutoChannel_two_requests unreachable_env true relay_world).
Defined.

(** X17.  When the node cannot connect to the LSP, no channel is ordered:
    [RequestAutoChannel] does not return a channel offer, and the one HTTP
    request it may make is the GET of the connection details. *)
Theorem RequestAutoChannel_unreachable_peer (env : Env) (isPublic : bool) (w : World) :
  (forall h pubkey address port,
     answer env h (option error) (LnConnectPeer pubkey address port) <> None) ->
  (forall resp w', run env (RequestAutoChannel env isPublic) w <> Returns (Ok resp) w') /\
  requests_within
    (fun _ timeout req =>
       timeout = Some (60 * time.Second) /\
       exists network, req = get_info_request env network)
    1 w (run env (RequestAutoChannel env isPublic) w).
Proof.
  intros Hpeer. unfold RequestAutoChannel. prog_simpl.
  destruct (answer env (trace w) (result NodeInfo) LnGetInfo) as [nodeInfo | e].
  2: { prog_simpl. split; [discriminate |].
       unfold requests_within.
       match goal with
       | |- context [performed w ?o] =>
           rewrite (performed_app w o
                      [anyE (Log LError "Failed to request own node info" (Some e));
                       anyE (Ext LnGetInfo)] eq_refl)
       end.
       cbn. split; [lia | constructor]. }
  rewrite run_bind.
  set (url := ("https://api.getalby.com/internal/lsp/alby/" +:+ Network nodeInfo)
                +:+ "/v1/get_info").
  destruct (sends_trace env _ 1 _ (getLSPInfo_sends env url) (record w (Ext LnGetInfo)))
    as (tr & Htr & Hlen & HR).
  assert (Forall (fun r : option Token * option Z * Request =>
                    r.1.2 = Some (60 * time.Second) /\
                    exists network, r.2 = get_info_request env network)
            (http_requests tr)) as HR'.
  { eapply Forall_impl; [exact HR |]. cbn beta.
    intros [[token timeout] req] [Htimeout Hreq]. split; [exact Htimeout |].
    exists (Network nodeInfo). exact Hreq. }
  clear HR.
  assert (forall (o : Outcome (result AutoChannelResponse)) extra,
            trace (final_world o) = (extra ++ tr ++ [anyE (Ext LnGetInfo)] ++ trace w)%list ->
            http_requests extra = [] ->
            requests_within
              (fun _ timeout req =>
                 timeout = Some (60 * time.Second) /\
                 exists network, req = get_info_request env network) 1 w o) as Hdone.
  { intros o extra Hfinal Hquiet. unfold requests_within.
    rewrite (performed_app w o (extra ++ tr ++ [anyE (Ext LnGetInfo)]))
      by (rewrite Hfinal, <- !app_assoc; reflexivity).
    rewrite !http_requests_app, Hquiet. cbn [app http_requests omap list_omap http_of].
    rewrite app_nil_r. split; [exact Hlen | exact HR']. }
  cbn [record trace] in Htr.
  destruct (run env (getLSPInfo env url) (record w (Ext LnGetInfo)))
    as [[[[pubkey address] port] err] w1 | v w1 | w1];
    cbn [final_world] in Htr.
  - destruct err as [e |].
    + prog_simpl. split; [discriminate |].
      apply (Hdone _ [anyE (Log LError "Failed to request LSP info" (Some e))]);
        [cbn [final_world trace record app]; rewrite Htr; reflexivity | reflexivity].
    + prog_simpl.
      destruct (answer env (trace w1) (option error) (LnConnectPeer pubkey address port))
        as [e |] eqn:Hanswer; [| destruct (Hpeer _ _ _ _ Hanswer)].
      prog_simpl. split; [discriminate |].
      apply (Hdone _ [anyE (Log LError "Failed to connect to peer" (Some e));
                      anyE (Ext (LnConnectPeer pubkey address port))]);
        [cbn [final_world trace record app]; rewrite Htr; reflexivity | reflexivity].
  - split; [discriminate |]. apply (Hdone _ []); [exact Htr | reflexivity].
  - split; [discriminate |]. apply (Hdone _ []); [exact Htr | reflexivity].
Qed.

Lemma RequestAutoChannel_unreachable_peer_witness :
  (forall resp w',
     run unreachable_env (RequestAutoChannel unreachable_env true) relay_world
     <> Returns (Ok resp) w') /\
  requests_within
    (fun _ timeout req =>
       timeout = Some (60 * time.Second) /\
       exists network, req = get_info_request unreachable_env network)
    1 relay_world (run unreachable_env (RequestAutoChannel unreachable_env true) relay_world).
Proof.
  apply (RequestAutoChannel_unreachable_peer unreachable_env true relay_world).
  intros h pubkey address port. discriminate.
Defined.

(** ** The wallet calls *)

(** Whatever the token fetch does, it sends no HTTP request and makes no
    invoice. *)
Lemma fetchUserToken_quiet env w :
  exists tr,
    trace (final_world (run env fetchUserToken w)) = (tr ++ trace w)%list /\
    http_requests tr = [] /\ invoices tr = [].
Proof.
  destruct (sends_trace env (fun _ _ _ => True) 0 fetchUserToken
              (fetchUserToken_sends _ _) w) as (tr & Htr & Hlen & _).
  destruct (emits_trace env _ _ fetchUserToken_no_invoice w) as (tr' & Htr' & Hnone).
  assert (tr' = tr) as ->.
  { rewrite Htr in Htr'. apply app_inv_tail in Htr'. congruence. }
  exists tr. split; [exact Htr |]. split; [| apply invoices_none, Hnone].
  destruct (http_requests tr); [reflexivity | cbn [length] in Hlen; lia].
Qed.

Lemma performed_cons {A} (w : World) (o : Outcome A) ev tr :
  trace (final_world o) = ev :: (tr ++ trace w)%list -> performed w o = ev :: tr.
Proof. intros H. apply (performed_app w o (ev :: tr)). exact H. Qed.

(** The run of [SendPayment] that ends without an error. *)
Lemma SendPayment_returned_nil env invoice w w' :
  run env (SendPayment env invoice) w = Returns None w' ->
  exists token w1 res payload tr,
    run env fetchUserToken w = Returns (Ok token) w1 /\
    answer env (trace w1) (result Response) (HttpDo token None (pay_request env invoice))
    = Ok res /\
    StatusCode res < 300 /\
    decodeBody (json_PayResponse env) res = Ok payload /\
    trace w1 = (tr ++ trace w)%list /\ http_requests tr = [] /\ invoices tr = [] /\
    trace w' = anyE (Log LInfo "Alby Payment successful" None)
               :: anyE (Ext (HttpDo token None (pay_request env invoice))) :: trace w1.
Proof.
  intros Hrun. unfold SendPayment in Hrun. rewrite run_bind in Hrun.
  destruct (fetchUserToken_quiet env w) as (tr & Htr & Hhttp & Hinv).
  destruct (run env fetchUserToken w) as [[token | e] w1 | v w1 | w1];
    try discriminate; cbn [final_world] in Htr.
  unfold NewRequest in Hrun.
  destruct (http_NewRequest env "POST" (AlbyAPIURL env +:+ "/internal/lndhub/bolt11"));
    [discriminate |].
  prog_simpl_in Hrun.
  change (setDefaultRequestHeaders env _) with (pay_request env invoice) in Hrun.
  destruct (answer env (trace w1) (result Response)
              (HttpDo token None (pay_request env invoice))) as [res | e] eqn:Hanswer;
    [| discriminate].
  destruct (Z.leb_spec 300 (StatusCode res)) as [Hbad | Hgood].
  { destruct (decodeBody (json_ErrorResponse env) res); discriminate. }
  destruct (decodeBody (json_PayResponse env) res) as [payload | e] eqn:Hdecode;
    [| discriminate].
  prog_simpl_in Hrun. injection Hrun as <-.
  exists token, w1, res, payload, tr. repeat split; assumption || reflexivity.
Qed.

(** X18.  When [SendPayment] returns nil, it has made exactly one HTTP
    request, the POST of the invoice to [/internal/lndhub/bolt11] with the
    fetched token and no timeout, and the provider answered it with a status
    below 300 and a body that decodes as a payment. *)
Theorem SendPayment_paid (env : Env) (invoice : string) (w w' : World) :
  run env (SendPayment env invoice) w = Returns None w' ->
  exists token w1 res payload,
    run env fetchUserToken w = Returns (Ok token) w1 /\
    answer env (trace w1) (result Response) (HttpDo token None (pay_request env invoice))
    = Ok res /\
    StatusCode res < 300 /\
    decodeBody (json_PayResponse env) res = Ok payload /\
    http_requests (performed w (Returns (None : option error) w'))
    = [(token, None, pay_request env invoice)].
Proof.
  intros Hrun.
  destruct (SendPayment_returned_nil env invoice w w' Hrun)
    as (token & w1 & res & payload & tr & Hfetch & Hanswer & Hstatus & Hdecode
        & Htr & Hhttp & _ & Hfinal).
  exists token, w1, res, payload. repeat split; try assumption.
  rewrite (performed_app w _
             (anyE (Log LInfo "Alby Payment successful" None)
              :: anyE (Ext (HttpDo token None (pay_request env invoice))) :: tr))
    by (cbn [final_world app]; rewrite Hfinal, Htr; reflexivity).
  cbn [http_requests omap list_omap http_of]. fold (http_requests tr).
  rewrite Hhttp. reflexivity.
Qed.

(** X18 on a linked hub whose provider answers 200. *)
Lemma SendPayment_paid_witness :
  exists token w1 res payload,
    run relay_env fetchUserToken relay_world = Returns (Ok token) w1 /\
    answer relay_env (trace w1) (result Response)
      (HttpDo token None (pay_request relay_env "lnbc1")) = Ok res /\
    StatusCode res < 300 /\
    decodeBody (json_PayResponse relay_env) res = Ok payload /\
    http_requests
      (performed relay_world
         (Returns (None : option error)
            (final_world (run relay_env (SendPayment relay_env "lnbc1") relay_world))))
    = [(token, None, pay_request relay_env "lnbc1")].
Proof.
  apply (SendPayment_paid relay_env "lnbc1" relay_world). vm_compute. reflexivity.
Defined.

(** The run of [GetBalance] that ends with a balance. *)
Lemma GetBalance_returned env w balance w1 :
  run env (GetBalance env) w = Returns (Ok balance) w1 ->
  exists token w0 tr,
    run env fetchUserToken w = Returns (Ok token) w0 /\
    trace w1 = (tr ++ trace w)%list /\
    http_requests tr = [(token, None, balance_request env)] /\
    invoices tr = [].
Proof.
  intros Hrun. unfold GetBalance in Hrun. rewrite run_bind in Hrun.
  destruct (fetchUserToken_quiet env w) as (tr & Htr & Hhttp & Hinv).
  destruct (run env fetchUserToken w) as [[token | e] w0 | v w0 | w0];
    try discriminate; cbn [final_world] in Htr.
  unfold NewRequest in Hrun.
  destruct (http_NewRequest env "GET" (AlbyAPIURL env +:+ "/internal/lndhub/balance"));
    [discriminate |].
  prog_simpl_in Hrun.
  change (setDefaultRequestHeaders env _) with (balance_request env) in Hrun.
  destruct (answer env (trace w0) (result Response)
              (HttpDo token None (balance_request env))) as [res | e]; [| discriminate].
  destruct (decodeBody (json_AlbyBalance env) res) as [b | e]; [| discriminate].
  prog_simpl_in Hrun. injection Hrun as _ <-.
  exists token, w0.
  exists (anyE (Log LDebug "Alby balance response" None)
          :: anyE (Ext (HttpDo token None (balance_request env))) :: tr).
  split; [reflexivity |].
  cbn [trace record app]. rewrite Htr. split; [reflexivity |].
  cbn [http_requests invoices omap list_omap http_of invoice_of].
  fold (http_requests tr). fold (invoices tr). rewrite Hhttp, Hinv. split; reflexivity.
Qed.

(** X19.  When [DrainSharedWallet] returns nil, the amount computed from the
    balance that [GetBalance] returned was at least one satoshi, and the run
    has made exactly one invoice, for that amount in millisatoshis, and
    exactly two HTTP requests, each with the token fetched for it: first the
    GET of the balance, then the order to pay the payment request of the
    invoice that the node made in answer, which [SendPayment] carried out
    without an error. *)
Theorem DrainSharedWallet_paid (env : Env) (w w' : World) :
  run env (DrainSharedWallet env) w = Returns None w' ->
  exists balance w1 token1 w0 transaction token2 w3,
    let amount := wrap_int64 (drainAmountSat (Balance balance) * 1000) in
    let invoiced := record w1 (Log LError "Draining Alby shared wallet funds" None) in
    let paying :=
      record invoiced (Ext (MakeInvoice amount "Send shared wallet funds to Alby Hub" 120)) in
    let tr := performed w (Returns (None : option error) w') in
    run env (GetBalance env) w = Returns (Ok balance) w1 /\
    run env fetchUserToken w = Returns (Ok token1) w0 /\
    1 <= drainAmountSat (Balance balance) /\
    answer env (trace invoiced) (result Transaction)
      (MakeInvoice amount "Send shared wallet funds to Alby Hub" 120) = Ok transaction /\
    run env (SendPayment env (PaymentRequest transaction)) paying = Returns None w' /\
    run env fetchUserToken paying = Returns (Ok token2) w3 /\
    invoices tr = [(amount, "Send shared wallet funds to Alby Hub", 120)] /\
    http_requests tr
    = [(token2, None, pay_request env (PaymentRequest transaction));
       (token1, None, balance_request env)].
Proof.
  intros Hrun. unfold DrainSharedWallet in Hrun. rewrite run_bind in Hrun.
  destruct (run env (GetBalance env) w) as [[balance | e] w1 | v w1 | w1] eqn:Hbalance;
    try discriminate.
  cbv zeta in Hrun.
  destruct (Z.ltb_spec (drainAmountSat (Balance balance)) 1) as [Hlt | Hge];
    [discriminate |].
  prog_simpl_in Hrun.
  set (amount := wrap_int64 (drainAmountSat (Balance balance) * 1000)) in *.
  set (h := anyE (Log LError "Draining Alby shared wallet funds" None) :: trace w1) in *.
  destruct (answer env h (result Transaction)
              (MakeInvoice amount "Send shared wallet funds to Alby Hub" 120))
    as [transaction | e] eqn:Hinvoice; [| prog_simpl_in Hrun; discriminate].
  rewrite run_bind in Hrun.
  destruct (run env (SendPayment env (PaymentRequest transaction)) _)
    as [[e |] w3 | v w3 | w3] eqn:Hpay; try discriminate.
  prog_simpl_in Hrun. injection Hrun as <-.
  destruct (GetBalance_returned env w balance w1 Hbalance)
    as (token1 & w0 & tr1 & Hfetch1 & Htr1 & Hhttp1 & Hinv1).
  destruct (SendPayment_returned_nil env _ _ _ Hpay)
    as (token2 & w4 & res & payload & tr2 & Hfetch2 & _ & _ & _ & Htr2 & Hhttp2 & Hinv2 & Hfinal).
  exists balance, w1, token1, w0, transaction, token2, w4. cbv zeta.
  split; [reflexivity |]. split; [exact Hfetch1 |]. split; [exact Hge |].
  split; [exact Hinvoice |]. split; [exact Hpay |]. split; [exact Hfetch2 |].
  rewrite (performed_app w _
             (anyE (Log LInfo "Alby Payment successful" None)
              :: anyE (Ext (HttpDo token2 None (pay_request env (PaymentRequest transaction))))
              :: tr2
              ++ anyE (Ext (MakeInvoice amount "Send shared wallet funds to Alby Hub" 120))
              :: anyE (Log LError "Draining Alby shared wallet funds" None) :: tr1))
    by (cbn [final_world app]; rewrite Hfinal, Htr2; cbn [trace record];
        rewrite Htr1, <- !app_assoc; reflexivity).
  split.
  - unfold invoices. cbn [omap list_omap invoice_of]. rewrite omap_app.
    cbn [omap list_omap invoice_of]. fold (invoices tr1). fold (invoices tr2).
    rewrite Hinv1, Hinv2. reflexivity.
  - unfold http_requests. cbn [omap list_omap http_of]. rewrite omap_app.
    cbn [omap list_omap http_of]. fold (http_requests tr1). fold (http_requests tr2).
    rewrite Hhttp1, Hhttp2. reflexivity.
Qed.

(** X19 for a shared wallet of 1000 sats: one invoice of 972000
    millisatoshis, and its payment request is what is paid. *)
Lemma DrainSharedWallet_paid_witness :
  exists balance w1 token1 w0 transaction token2 w3,
    let amount := wrap_int64 (drainAmountSat (Balance balance) * 1000) in
    let invoiced := record w1 (Log LError "Draining Alby shared wallet funds" None) in
    let paying :=
      record invoiced (Ext (MakeInvoice amount "Send shared wallet funds to Alby Hub" 120)) in
    let tr :=
      performed relay_world
        (Returns (None : option error)
           (final_world (run paying_env (DrainSharedWallet paying_env) relay_world))) in
    run paying_env (GetBalance paying_env) relay_world = Returns (Ok balance) w1 /\
    run paying_env fetchUserToken relay_world = Returns (Ok token1) w0 /\
    1 <= drainAmountSat (Balance balance) /\
    answer paying_env (trace invoiced) (result Transaction)
      (MakeInvoice amount "Send shared wallet funds to Alby Hub" 120) = Ok transaction /\
    run paying_env (SendPayment paying_env (PaymentRequest transaction)) paying
    = Returns None
        (final_world (run paying_env (DrainSharedWallet paying_env) relay_world)) /\
    run paying_env fetchUserToken paying = Returns (Ok token2) w3 /\
    invoices tr = [(amount, "Send shared wallet funds to Alby Hub", 120)] /\
    http_requests tr
    = [(token2, None, pay_request paying_env (PaymentRequest transaction));
       (token1, None, balance_request paying_env)].
Proof.
  apply (DrainSharedWallet_paid paying_env relay_world). vm_compute. reflexivity.
Defined.

(** X20.  What [GetMe] fetched, [GetLightningAddress] reads back: when
    [GetMe] returns an account, it has made exactly one HTTP request, the
    GET of [/internal/users] with the fetched token and no timeout, the
    account is what the provider's answer to it decodes to, and its
    lightning address has been stored, which [GetLightningAddress] then
    returns where that key can be read. *)
Theorem GetMe_stores_lightning_address (env : Env) (w w' : World) (me : AlbyMe) :
  run env (GetMe env) w = Returns (Ok me) w' ->
  faults (cfg w) !! lightningAddressKey = None ->
  kv (cfg w') !! lightningAddressKey = Some (LightningAddress me) /\
  run env GetLightningAddress w'
  = Returns (Ok (LightningAddress me)) (record w' (CfgGet lightningAddressKey)) /\
  exists token w1 res,
    run env fetchUserToken w = Returns (Ok token) w1 /\
    answer env (trace w1) (result Response) (HttpDo token None (me_request env)) = Ok res /\
    decodeBody (json_AlbyMe env) res = Ok me /\
    http_requests (performed w (Returns (Ok me) w')) = [(token, None, me_request env)].
Proof.
  intros Hrun Hreadable.
  destruct (GetMe_returned env w me w' Hrun) as (_ & Hfaults & _ & _).
  assert (kv (cfg w') !! lightningAddressKey = Some (LightningAddress me) /\
          exists token w1 res,
            run env fetchUserToken w = Returns (Ok token) w1 /\
            answer env (trace w1) (result Response) (HttpDo token None (me_request env))
            = Ok res /\
            decodeBody (json_AlbyMe env) res = Ok me /\
            http_requests (performed w (Returns (Ok me) w')) = [(token, None, me_request env)])
    as [Hstored Hhttp].
  { unfold GetMe in Hrun. rewrite run_bind in Hrun.
    destruct (fetchUserToken_quiet env w) as (tr & Htr & Hnone & _).
    destruct (run env fetchUserToken w) as [[token | e] w0 | v w0 | w0];
      try discriminate; cbn [final_world] in Htr.
    unfold NewRequest in Hrun.
    destruct (http_NewRequest env "GET" (AlbyAPIURL env +:+ "/internal/users"));
      [discriminate |].
    prog_simpl_in Hrun.
    change (setDefaultRequestHeaders env _) with (me_request env) in Hrun.
    destruct (answer env (trace w0) (result Response) (HttpDo token None (me_request env)))
      as [res | e] eqn:Hanswer; [| discriminate].
    destruct (decodeBody (json_AlbyMe env) res) as [me' | e] eqn:Hdecode; [| discriminate].
    prog_simpl_in Hrun. injection Hrun as -> <-.
    split; [cbn [cfg Config_SetUpdate kv]; apply lookup_insert_eq |].
    exists token, w0, res.
    split; [reflexivity |]. split; [exact Hanswer |]. split; [exact Hdecode |].
    rewrite (performed_app w _
               (anyE (Log LInfo "Alby me response" None)
                :: anyE (CfgSetUpdate lightningAddressKey (LightningAddress me))
                :: anyE (Ext (HttpDo token None (me_request env))) :: tr))
      by (cbn [final_world trace app]; rewrite Htr; reflexivity).
    cbn [http_requests omap list_omap http_of]. fold (http_requests tr).
    rewrite Hnone. reflexivity. }
  split; [exact Hstored |]. split; [| exact Hhttp].
  unfold GetLightningAddress. prog_simpl. unfold Config_Get.
  rewrite Hfaults, Hreadable, Hstored. reflexivity.
Qed.

(** X20 on a linked hub whose provider knows the account as [user2]. *)
Lemma GetMe_stores_lightning_address_witness :
  let w' := final_world (run address_env (GetMe address_env) relay_world) in
  kv (cfg w') !! lightningAddressKey = Some "user2@getalby.com" /\
  run address_env GetLightningAddress w'
  = Returns (Ok "user2@getalby.com") (record w' (CfgGet lightningAddressKey)) /\
  exists token w1 res,
    run address_env fetchUserToken relay_world = Returns (Ok token) w1 /\
    answer address_env (trace w1) (result Response) (HttpDo token None (me_request address_env))
    = Ok res /\
    decodeBody (json_AlbyMe address_env) res
    = Ok {| Identifier := "user2"; LightningAddress := "user2@getalby.com" |} /\
    http_requests
      (performed relay_world
         (Returns (Ok {| Identifier := "user2"; LightningAddress := "user2@getalby.com" |}) w'))
    = [(token, None, me_request address_env)].
Proof.
  apply (GetMe_stores_lightning_address address_env relay_world
           (final_world (run address_env (GetMe address_env) relay_world))
           {| Identifier := "user2"; LightningAddress := "user2@getalby.com" |}).
  - vm_compute. reflexivity.
  - reflexivity.
Defined.

(** X21.  [GetBalance] does not look at the status of the answer: when the
    token fetch gives no error and the provider answers the GET of
    [/internal/lndhub/balance] with a body that decodes as a balance, that
    balance is returned, whatever the status code. *)
Theorem GetBalance_any_status
    (env : Env) (w w1 : World) (token : option Token) (status : Z) (body : string)
    (balance : AlbyBalance) :
  run env fetchUserToken w = Returns (Ok token) w1 ->
  http_NewRequest env "GET" (AlbyAPIURL env +:+ "/internal/lndhub/balance") = None ->
  answer env (trace w1) (result Response) (HttpDo token None (balance_request env))
  = Ok {| StatusCode := status; RespBody := Ok body |} ->
  json_AlbyBalance env body = Ok balance ->
  exists w', run env (GetBalance env) w = Returns (Ok balance) w'.
Proof.
  intros Hfetch Hnew Hanswer Hdecode. unfold GetBalance, NewRequest.
  rewrite run_bind, Hfetch, Hnew. prog_simpl.
  change (setDefaultRequestHeaders env _) with (balance_request env).
  rewrite Hanswer. unfold decodeBody. cbn [RespBody]. rewrite Hdecode.
  eexists. reflexivity.
Qed.

(** X21 at an answer of status 500 whose body is ["1000"]: the balance is
    1000 sats. *)
Lemma GetBalance_any_status_witness :
  exists w',
    run failing_status_env (GetBalance failing_status_env) relay_world
    = Returns (Ok {| Balance := 1000 |}) w'.
Proof.
  apply (GetBalance_any_status failing_status_env relay_world relay_fetched
           (Some (session_of "access1" "refresh1" 4600)) 500 "1000" {| Balance := 1000 |}).
  - vm_compute. reflexivity.
  - reflexivity.
  - reflexivity.
  - vm_compute. reflexivity.
Defined.

(** X22.  When the token fetch fails, the wallet calls stop there: [GetMe],
    [GetBalance] and [SendPayment] log the error and return it, and
    [DrainSharedWallet] returns it as well, with no HTTP request sent and no
    invoice made. *)
Theorem wallet_calls_stop_on_token_error
    (env : Env) (w w1 : World) (e : error) (invoice : string) :
  run env fetchUserToken w = Returns (Err e) w1 ->
  let w' := token_error_logged w1 e in
  let w'' := record w' (Log LError "Failed to fetch shared balance" (Some e)) in
  run env (GetMe env) w = Returns (Err e) w' /\
  run env (GetBalance env) w = Returns (Err e) w' /\
  run env (SendPayment env invoice) w = Returns (Some e) w' /\
  run env (DrainSharedWallet env) w = Returns (Some e) w'' /\
  http_requests (performed w (Returns (Some e) w'')) = [] /\
  invoices (performed w (Returns (Some e) w'')) = [].
Proof.
  intros Hfetch w' w''.
  assert (run env (GetBalance env) w = Returns (Err e) w') as Hbalance.
  { unfold GetBalance. rewrite run_bind, Hfetch. reflexivity. }
  split; [unfold GetMe; rewrite run_bind, Hfetch; reflexivity |].
  split; [exact Hbalance |].
  split; [unfold SendPayment; rewrite run_bind, Hfetch; reflexivity |].
  split; [unfold DrainSharedWallet; rewrite run_bind, Hbalance; reflexivity |].
  destruct (fetchUserToken_quiet env w) as (tr & Htr & Hhttp & Hinv).
  rewrite Hfetch in Htr. cbn [final_world] in Htr.
  rewrite (performed_app w _
             (anyE (Log LError "Failed to fetch shared balance" (Some e))
              :: anyE (Log LError "Failed to fetch user token" (Some e)) :: tr))
    by (cbn [final_world trace app]; unfold w'', w', token_error_logged;
        cbn [trace record]; rewrite Htr; reflexivity).
  cbn [http_requests invoices omap list_omap http_of invoice_of].
  fold (http_requests tr). fold (invoices tr). rewrite Hhttp, Hinv. split; reflexivity.
Qed.

(** X22 on a store whose access token cannot be read. *)
Lemma wallet_calls_stop_on_token_error_witness :
  let w' := token_error_logged broken_fetched broken_error in
  let w'' := record w' (Log LError "Failed to fetch shared balance" (Some broken_error)) in
  run relay_env (GetMe relay_env) broken_world = Returns (Err broken_error) w' /\
  run relay_env (GetBalance relay_env) broken_world = Returns (Err broken_error) w' /\
  run relay_env (SendPayment relay_env "lnbc1") broken_world = Returns (Some broken_error) w' /\
  run relay_env (DrainSharedWallet relay_env) broken_world = Returns (Some broken_error) w'' /\
  http_requests (performed broken_world (Returns (Some broken_error) w'')) = [] /\
  invoices (performed broken_world (Returns (Some broken_error) w'')) = [].
Proof.
  apply (wallet_calls_stop_on_token_error relay_env broken_world broken_fetched
           broken_error "lnbc1").
  vm_compute. reflexivity.
Defined.

(** X23.  Without a session the wallet calls are not held back: while the
    store holds no complete session, [GetBalance] and [SendPayment] still
    send their request, with a nil token, and it is their only request. *)
Theorem wallet_calls_without_session (env : Env) (w : World) (invoice : string) :
  tokenMutex w = false -> no_session (cfg w) ->
  (forall method url, http_NewRequest env method url = None) ->
  http_requests (performed w (run env (GetBalance env) w))
  = [(None, None, balance_request env)] /\
  http_requests (performed w (run env (SendPayment env invoice) w))
  = [(None, None, pay_request env invoice)].
Proof.
  intros Hfree Hnone Hnew.
  destruct (fetchUserToken_incomplete env w Hfree Hnone) as (w1 & Hfetch & _).
  destruct (fetchUserToken_quiet env w) as (tr & Htr & Hhttp & _).
  rewrite Hfetch in Htr. cbn [final_world] in Htr.
  assert (forall A (o : Outcome A) logs req,
            trace (final_world o)
            = (logs ++ anyE (Ext (HttpDo None None req)) :: trace w1)%list ->
            http_requests logs = [] ->
            http_requests (performed w o) = [(None, None, req)]) as Hend.
  { intros A o logs req Ho Hlogs.
    rewrite (performed_app w o (logs ++ anyE (Ext (HttpDo None None req)) :: tr))
      by (rewrite Ho, Htr, <- app_assoc; reflexivity).
    rewrite http_requests_app, Hlogs. cbn [app http_requests omap list_omap http_of].
    fold (http_requests tr). rewrite Hhttp. reflexivity. }
  split.
  - unfold GetBalance, NewRequest. rewrite run_bind, Hfetch, Hnew. prog_simpl.
    change (setDefaultRequestHeaders env _) with (balance_request env).
    destruct (answer env (trace w1) _ (HttpDo None None (balance_request env))) as [res | e].
    + destruct (decodeBody (json_AlbyBalance env) res) as [b | e]; prog_simpl;
        eapply (Hend _ _ [_]); reflexivity.
    + prog_simpl. eapply (Hend _ _ [_]); reflexivity.
  - unfold SendPayment, NewRequest. rewrite run_bind, Hfetch, Hnew. prog_simpl.
    change (setDefaultRequestHeaders env _) with (pay_request env invoice).
    destruct (answer env (trace w1) _ (HttpDo None None (pay_request env invoice)))
      as [res | e].
    + destruct (300 <=? StatusCode res).
      * destruct (decodeBody (json_ErrorResponse env) res) as [p | e]; prog_simpl;
          eapply (Hend _ _ [_]); reflexivity.
      * destruct (decodeBody (json_PayResponse env) res) as [p | e]; prog_simpl;
          eapply (Hend _ _ [_]); reflexivity.
    + prog_simpl. eapply (Hend _ _ [_]); reflexivity.
Qed.

(** X23 on an empty store. *)
Lemma wallet_calls_without_session_witness :
  http_requests (performed empty_world (run relay_env (GetBalance relay_env) empty_world))
  = [(None, None, balance_request relay_env)] /\
  http_requests
    (performed empty_world (run relay_env (SendPayment relay_env "lnbc1") empty_world))
  = [(None, None, pay_request relay_env "lnbc1")].
Proof.
  apply (wallet_calls_without_session relay_env empty_world "lnbc1").
  - reflexivity.
  - left. reflexivity.
  - reflexivity.
Defined.

(** ** The channel suggestions *)

Lemma alter_middle {A} (f : A -> A) (done rest : list A) (x : A) :
  alter f (length done) (done ++ x :: rest)%list = (done ++ f x :: rest)%list.
Proof. induction done as [| y done IH]; [reflexivity |]. cbn. f_equal. exact IH. Qed.

(** The loop never leaves the slice, and replaces every element it has not
    yet visited by its patched form. *)
Lemma patchSuggestions_spec (rest : list ChannelPeerSuggestion) :
  forall done : list ChannelPeerSuggestion,
  patchSuggestions (length rest) (length done) (done ++ rest)%list
  = Ret (done ++ map patched rest)%list.
Proof.
  induction rest as [| s rest IH]; intros done; [reflexivity |].
  cbn [length patchSuggestions]. rewrite list_lookup_middle by reflexivity.
  assert ((if decide (BrokenLspUrl s ≠ "")
           then alter (setLspUrl (BrokenLspUrl s)) (length done)
                  (if decide (BrokenLspType s ≠ "")
                   then alter (setLspType (BrokenLspType s)) (length done)
                          (done ++ s :: rest)%list
                   else (done ++ s :: rest)%list)
           else if decide (BrokenLspType s ≠ "")
                then alter (setLspType (BrokenLspType s)) (length done)
                       (done ++ s :: rest)%list
                else (done ++ s :: rest)%list)
          = ((done ++ [patched s]) ++ rest)%list) as ->.
  { rewrite <- app_assoc. cbn [app]. unfold patched.
    destruct (decide (BrokenLspType s ≠ "")) as [Ht | Ht],
             (decide (BrokenLspUrl s ≠ "")) as [Hu | Hu];
      rewrite ?alter_middle;
      destruct (decide (BrokenLspUrl s = "")), (decide (BrokenLspType s = ""));
      try contradiction; try (exfalso; tauto);
      destruct s; reflexivity. }
  replace (S (length done)) with (length (done ++ [patched s])%list)
    by (rewrite length_app; cbn [length]; lia).
  rewrite (IH (done ++ [patched s])%list), <- app_assoc. reflexivity.
Qed.

(** X24.  When [GetChannelPeerSuggestions] returns suggestions, it has made
    exactly one HTTP request, the GET of [/internal/channel_suggestions]
    with the fetched token, and what it returns is the list that the
    provider's answer to it decodes to, one for one and in the same order,
    where each suggestion has its type and its URL replaced by the fields
    the provider sends them under wherever these are not empty, and is
    otherwise as decoded. *)
Theorem GetChannelPeerSuggestions_patched
    (env : Env) (json_ChannelPeerSuggestions : string -> result (list ChannelPeerSuggestion))
    (w w' : World) (suggestions : list ChannelPeerSuggestion) :
  run env (GetChannelPeerSuggestions env json_ChannelPeerSuggestions) w
  = Returns (Ok suggestions) w' ->
  exists token w1 res sent,
    run env fetchUserToken w = Returns (Ok token) w1 /\
    answer env (trace w1) (result Response)
      (HttpDo token None (get_from env "/internal/channel_suggestions")) = Ok res /\
    decodeBody json_ChannelPeerSuggestions res = Ok sent /\
    suggestions = map patched sent /\
    http_requests (performed w (Returns (Ok suggestions) w'))
    = [(token, None, get_from env "/internal/channel_suggestions")].
Proof.
  intros Hrun. unfold GetChannelPeerSuggestions in Hrun. rewrite run_bind in Hrun.
  destruct (fetchUserToken_quiet env w) as (tr & Htr & Hnone & _).
  destruct (run env fetchUserToken w) as [[token | e] w0 | v w0 | w0];
    try discriminate; cbn [final_world] in Htr.
  unfold NewRequest in Hrun.
  destruct (http_NewRequest env "GET" (AlbyAPIURL env +:+ "/internal/channel_suggestions"));
    [discriminate |].
  prog_simpl_in Hrun.
  change (setDefaultRequestHeaders env _)
    with (get_from env "/internal/channel_suggestions") in Hrun.
  destruct (answer env (trace w0) (result Response)
              (HttpDo token None (get_from env "/internal/channel_suggestions")))
    as [res | e] eqn:Hanswer; [| discriminate].
  destruct (decodeBody json_ChannelPeerSuggestions res) as [sent | e] eqn:Hdecode;
    [| discriminate].
  pose proof (patchSuggestions_spec sent []) as Hloop. cbn [length app] in Hloop.
  rewrite Hloop in Hrun.
  prog_simpl_in Hrun. cbn [app] in Hrun. injection Hrun as <- <-.
  exists token, w0, res, sent.
  split; [reflexivity |]. split; [exact Hanswer |].
  split; [exact Hdecode |]. split; [reflexivity |].
  rewrite (performed_app w _
             (anyE (Log LDebug "Alby channel peer suggestions response" None)
              :: anyE (Ext (HttpDo token None (get_from env "/internal/channel_suggestions")))
              :: tr))
    by (cbn [final_world trace record app]; rewrite Htr; reflexivity).
  cbn [http_requests omap list_omap http_of]. fold (http_requests tr).
  rewrite Hnone. reflexivity.
Qed.

(** X24 for two suggestions, of which the first comes with its type and
    URL under the other names. *)
Lemma GetChannelPeerSuggestions_patched_witness :
  exists token w1 res sent,
    run relay_env fetchUserToken relay_world = Returns (Ok token) w1 /\
    answer relay_env (trace w1) (result Response)
      (HttpDo token None (get_from relay_env "/internal/channel_suggestions")) = Ok res /\
    decodeBody (fun _ => Ok sent_suggestions) res = Ok sent /\
    [ {| LspUrl := "https://lsp.example.com"; LspType := "LSPS1";
         BrokenLspUrl := "https://lsp.example.com"; BrokenLspType := "LSPS1";
         otherFields := JStr "first" |};
      {| LspUrl := "https://other.example.com"; LspType := "Flow 2.0"; BrokenLspUrl := "";
         BrokenLspType := ""; otherFields := JStr "second" |} ]
    = map patched sent /\
    http_requests
      (performed relay_world
         (Returns
            (Ok [ {| LspUrl := "https://lsp.example.com"; LspType := "LSPS1";
                     BrokenLspUrl := "https://lsp.example.com"; BrokenLspType := "LSPS1";
                     otherFields := JStr "first" |};
                  {| LspUrl := "https://other.example.com"; LspType := "Flow 2.0";
                     BrokenLspUrl := ""; BrokenLspType := "";
                     otherFields := JStr "second" |} ])
            (final_world
               (run relay_env
                  (GetChannelPeerSuggestions relay_env (fun _ => Ok sent_suggestions))
                  relay_world))))
    = [(token, None, get_from relay_env "/internal/channel_suggestions")].
Proof.
  apply (GetChannelPeerSuggestions_patched relay_env (fun _ => Ok sent_suggestions)
           relay_world).
  vm_compute. reflexivity.
Defined.

(** ** The provisioning of the account's connection *)

(** The provisioning calls begin alike: the token is fetched, a failure is
    logged, and the request goes out with whatever token there is. *)
Lemma provisioning_prefix {A} env (f : option Token -> Prog A) w a w' :
  run env
    (r ← fetchUserToken;
     let token := match r with Ok token => token | Err _ => None end in
     match r with
     | Err e => logError "Failed to fetch user token" (Some e)
     | Ok _ => Ret tt
     end;;
     f token) w = Returns a w' ->
  exists r w1 tr,
    run env fetchUserToken w = Returns r w1 /\
    trace (after_fetch r w1) = (tr ++ trace w)%list /\ http_requests tr = [] /\
    run env (f (fetched_token r)) (after_fetch r w1) = Returns a w'.
Proof.
  intros Hrun. rewrite run_bind in Hrun.
  destruct (fetchUserToken_quiet env w) as (tr & Htr & Hnone & _).
  destruct (run env fetchUserToken w) as [[token | e] w0 | v w0 | w0];
    try discriminate; cbn [final_world] in Htr.
  - prog_simpl_in Hrun. exists (Ok token), w0, tr. auto.
  - prog_simpl_in Hrun.
    exists (Err e), w0, (anyE (Log LError "Failed to fetch user token" (Some e)) :: tr).
    cbn [after_fetch token_error_logged fetched_token trace record app]. rewrite Htr. auto.
Qed.

Lemma asked_here env h later earlier X (e : ExtE X) :
  asked env h (later ++ anyE (Ext e) :: earlier) e (answer env (earlier ++ h) X e).
Proof. exists later, earlier. auto. Qed.

(** What was asked in a part of a run was asked in the run. *)
Lemma asked_before env h tr tr' X (e : ExtE X) x :
  asked env h tr e x -> asked env h (tr' ++ tr) e x.
Proof.
  intros (later & earlier & -> & Hanswer).
  exists (tr' ++ later)%list, earlier. rewrite <- app_assoc. auto.
Qed.

Lemma asked_after env h tr tr' X (e : ExtE X) x :
  asked env (tr ++ h) tr' e x -> asked env h (tr' ++ tr) e x.
Proof.
  intros (later & earlier & -> & Hanswer).
  exists later, (earlier ++ tr)%list.
  rewrite <- !app_assoc. cbn [app]. auto.
Qed.

(** The run of [createAlbyAccountNWCNode] that ends with a pubkey. *)
Lemma createAlbyAccountNWCNode_returned env w pubkey w' :
  run env (createAlbyAccountNWCNode env) w = Returns (Ok pubkey) w' ->
  exists r w1 res tr,
    let w2 := after_fetch r w1 in
    let walletPubkey := answer env (trace w2) string KeysGetNostrPublicKey in
    run env fetchUserToken w = Returns r w1 /\
    answer env (trace (record w2 (Ext KeysGetNostrPublicKey))) (result Response)
      (HttpDo (fetched_token r) None (register_request env walletPubkey)) = Ok res /\
    StatusCode res < 300 /\
    decodeBody (json_CreateNWCNodeResponse env) res = Ok pubkey /\
    trace w2 = (tr ++ trace w)%list /\ http_requests tr = [] /\
    trace w' = anyE (Log LInfo "Created alby nwc node successfully" None)
               :: anyE (Ext (HttpDo (fetched_token r) None (register_request env walletPubkey)))
               :: anyE (Ext KeysGetNostrPublicKey) :: trace w2.
Proof.
  intros Hrun. unfold createAlbyAccountNWCNode in Hrun.
  apply provisioning_prefix in Hrun as (r & w1 & tr & Hfetch & Htr & Hnone & Hrun).
  unfold createAlbyAccountNWCNode_request, NewRequest in Hrun. prog_simpl_in Hrun.
  destruct (http_NewRequest env "POST" (AlbyAPIURL env +:+ "/internal/nwcs"));
    [discriminate |].
  prog_simpl_in Hrun.
  change (setDefaultRequestHeaders env _)
    with (register_request env (answer env (trace (after_fetch r w1)) string KeysGetNostrPublicKey))
    in Hrun.
  match type of Hrun with context [answer env ?h (result Response) ?e] =>
    destruct (answer env h (result Response) e) as [res | e'] eqn:Hanswer end;
    [| discriminate].
  destruct (Z.leb_spec 300 (StatusCode res)) as [Hbad | Hgood]; [discriminate |].
  destruct (decodeBody (json_CreateNWCNodeResponse env) res) as [pubkey' | e] eqn:Hdecode;
    [| discriminate].
  prog_simpl_in Hrun. injection Hrun as -> <-.
  exists r, w1, res, tr. cbv zeta.
  repeat (split; [assumption || reflexivity |]). reflexivity.
Qed.

(** The run of [activateAlbyAccountNWCNode] that ends without an error. *)
Lemma activateAlbyAccountNWCNode_returned env w w' :
  run env (activateAlbyAccountNWCNode env) w = Returns None w' ->
  exists r w1 res tr,
    let req := activate_request env in
    run env fetchUserToken w = Returns r w1 /\
    answer env (trace (after_fetch r w1)) (result Response)
      (HttpDo (fetched_token r) None req) = Ok res /\
    StatusCode res < 300 /\
    trace (after_fetch r w1) = (tr ++ trace w)%list /\ http_requests tr = [] /\
    trace w' = anyE (Log LInfo "Activated alby nwc node successfully" None)
               :: anyE (Ext (HttpDo (fetched_token r) None req))
               :: trace (after_fetch r w1).
Proof.
  intros Hrun. unfold activateAlbyAccountNWCNode in Hrun.
  apply provisioning_prefix in Hrun as (r & w1 & tr & Hfetch & Htr & Hnone & Hrun).
  unfold activateAlbyAccountNWCNode_request, NewRequest in Hrun.
  destruct (http_NewRequest env "PUT" (AlbyAPIURL env +:+ "/internal/nwcs/activate"));
    [discriminate |].
  prog_simpl_in Hrun.
  change (setDefaultRequestHeaders env _)
    with (activate_request env) in Hrun.
  match type of Hrun with context [answer env ?h (result Response) ?e] =>
    destruct (answer env h (result Response) e) as [res | e'] eqn:Hanswer end;
    [| discriminate].
  destruct (Z.leb_spec 300 (StatusCode res)) as [Hbad | Hgood]; [discriminate |].
  prog_simpl_in Hrun. injection Hrun as <-.
  exists r, w1, res, tr. cbv zeta.
  repeat (split; [assumption || reflexivity |]). reflexivity.
Qed.

(** X25.  When [createAlbyAccountNWCNode] returns a pubkey, it has made
    exactly one HTTP request, with the token that the fetch gave: the POST
    to [/internal/nwcs] of the Nostr public key that the hub's keys gave as
    [wallet_pubkey]; and the provider answered that request with a status
    below 300 and a body that decodes to the pubkey returned. *)
Theorem createAlbyAccountNWCNode_created
    (env : Env) (w w' : World) (pubkey : string) :
  run env (createAlbyAccountNWCNode env) w = Returns (Ok pubkey) w' ->
  exists r w1 res,
    let w2 := after_fetch r w1 in
    let walletPubkey := answer env (trace w2) string KeysGetNostrPublicKey in
    let req := register_request env walletPubkey in
    run env fetchUserToken w = Returns r w1 /\
    answer env (trace (record w2 (Ext KeysGetNostrPublicKey))) (result Response)
      (HttpDo (fetched_token r) None req) = Ok res /\
    StatusCode res < 300 /\
    decodeBody (json_CreateNWCNodeResponse env) res = Ok pubkey /\
    http_requests (performed w (Returns (Ok pubkey) w')) = [(fetched_token r, None, req)].
Proof.
  intros Hrun.
  destruct (createAlbyAccountNWCNode_returned env w pubkey w' Hrun)
    as (r & w1 & res & tr & Hfetch & Hanswer & Hstatus & Hdecode & Htr & Hnone & Hfinal).
  exists r, w1, res. cbv zeta.
  repeat (split; [assumption |]).
  rewrite (performed_app w (Returns (Ok pubkey) w')
             (anyE (Log LInfo "Created alby nwc node successfully" None)
              :: anyE (Ext (HttpDo (fetched_token r) None
                              (register_request env (answer env (trace (after_fetch r w1)) string
                                               KeysGetNostrPublicKey))))
              :: anyE (Ext KeysGetNostrPublicKey) :: tr))
    by (cbn [final_world app]; rewrite Hfinal, Htr; reflexivity).
  cbn [http_requests omap list_omap http_of]. fold (http_requests tr).
  rewrite Hnone. reflexivity.
Qed.

(** X25 on a linked hub whose provider answers 200 and the pubkey
    [user2]. *)
Lemma createAlbyAccountNWCNode_created_witness :
  exists r w1 res,
    let w2 := after_fetch r w1 in
    let walletPubkey := answer relink_env (trace w2) string KeysGetNostrPublicKey in
    let req := register_request relink_env walletPubkey in
    run relink_env fetchUserToken relay_world = Returns r w1 /\
    answer relink_env (trace (record w2 (Ext KeysGetNostrPublicKey))) (result Response)
      (HttpDo (fetched_token r) None req) = Ok res /\
    StatusCode res < 300 /\
    decodeBody (json_CreateNWCNodeResponse relink_env) res = Ok "user2" /\
    http_requests
      (performed relay_world
         (Returns (Ok "user2")
            (final_world (run relink_env (createAlbyAccountNWCNode relink_env) relay_world))))
    = [(fetched_token r, None, req)].
Proof.
  apply (createAlbyAccountNWCNode_created relink_env relay_world). vm_compute. reflexivity.
Defined.

(** The deletion of the app connections sends nothing and creates no
    connection. *)
Lemma deleteAlbyAccountApps_returned env w :
  exists w0 tr,
    run env deleteAlbyAccountApps w = Returns tt w0 /\
    trace w0 = (tr ++ trace w)%list /\
    http_requests tr = [] /\ created_apps tr = [].
Proof.
  unfold deleteAlbyAccountApps. prog_simpl.
  destruct (answer env (trace w) (option error) (DbDeleteApps ALBY_ACCOUNT_APP_NAME))
    as [e |]; prog_simpl.
  - exists (record (record w (Ext (DbDeleteApps ALBY_ACCOUNT_APP_NAME)))
              (Log LError "Failed to delete Alby Account apps" (Some e))),
      [anyE (Log LError "Failed to delete Alby Account apps" (Some e));
       anyE (Ext (DbDeleteApps ALBY_ACCOUNT_APP_NAME))].
    repeat split.
  - exists (record w (Ext (DbDeleteApps ALBY_ACCOUNT_APP_NAME))),
      [anyE (Ext (DbDeleteApps ALBY_ACCOUNT_APP_NAME))].
    repeat split.
Qed.

(** X26.  When [LinkAccount] returns nil, it has made exactly two HTTP
    requests, first the POST to [/internal/nwcs] of the Nostr public key
    that the hub's keys gave and then the PUT to [/internal/nwcs/activate],
    and the provider answered both with a status below 300; and it has made
    exactly one app connection, for the pubkey that the answer to the first
    request decodes to, with the scopes of the methods the node said it
    supports, and the notifications scope when the node named a
    notification type. *)
Theorem LinkAccount_linked
    (env : Env) (w w' : World) (budget : Z) (renewal : string) :
  run env (LinkAccount env budget renewal) w = Returns None w' ->
  exists token1 token2 walletPubkey res1 res2 pubkey methods scopes types,
    let tr := performed w (Returns (None : option error) w') in
    let post := register_request env walletPubkey in
    let put := activate_request env in
    asked env (trace w) tr KeysGetNostrPublicKey walletPubkey /\
    asked env (trace w) tr (HttpDo token1 None post) (Ok res1) /\
    StatusCode res1 < 300 /\
    decodeBody (json_CreateNWCNodeResponse env) res1 = Ok pubkey /\
    asked env (trace w) tr LnGetSupportedNIP47Methods methods /\
    permissions_RequestMethodsToScopes env methods = Ok scopes /\
    asked env (trace w) tr LnGetSupportedNIP47NotificationTypes types /\
    asked env (trace w) tr (HttpDo token2 None put) (Ok res2) /\
    StatusCode res2 < 300 /\
    http_requests tr = [(token2, None, put); (token1, None, post)] /\
    created_apps tr
    = [(ALBY_ACCOUNT_APP_NAME, pubkey, budget, renewal,
        if (0 <? length types)%nat then (scopes ++ [NOTIFICATIONS_SCOPE])%list else scopes,
        false)].
Proof.
  intros Hrun. unfold LinkAccount in Hrun. rewrite run_bind in Hrun.
  destruct (deleteAlbyAccountApps_returned env w) as (w0 & tr0 & Hdel & Htr0 & Hhttp0 & Happ0).
  rewrite Hdel in Hrun.
  rewrite run_bind in Hrun.
  destruct (run env (createAlbyAccountNWCNode env) w0)
    as [[pubkey | e] w1 | v w1 | w1] eqn:Hcreate; try discriminate.
  destruct (createAlbyAccountNWCNode_returned env w0 pubkey w1 Hcreate)
    as (r1 & wf1 & res1 & trf1 & _ & Hanswer1 & Hstatus1 & Hdecode1 & Htrf1 & Hnone1 & Hfinal1).
  cbv zeta in Hanswer1, Hfinal1.
  set (walletPubkey := answer env (trace (after_fetch r1 wf1)) string KeysGetNostrPublicKey)
    in *.
  set (post := register_request env walletPubkey) in *.
  set (tr1 := (anyE (Log LInfo "Created alby nwc node successfully" None)
               :: anyE (Ext (HttpDo (fetched_token r1) None post))
               :: anyE (Ext KeysGetNostrPublicKey) :: trf1)).
  assert (trace w1 = (tr1 ++ trace w0)%list) as Htr1
    by (rewrite Hfinal1, Htrf1; reflexivity).
  destruct (emits_returns env _ _ w0 _ w1 (createAlbyAccountNWCNode_no_app env) Hcreate)
    as (tr1' & Htr1' & Happ1).
  assert (tr1' = tr1) as -> by (rewrite Htr1 in Htr1'; apply app_inv_tail in Htr1'; congruence).
  apply (omap_none app_of) in Happ1. fold (created_apps tr1) in Happ1.
  prog_simpl_in Hrun.
  set (methods := answer env (trace w1) (list string) LnGetSupportedNIP47Methods) in *.
  destruct (permissions_RequestMethodsToScopes env methods) as [scopes | e] eqn:Hscopes;
    [| discriminate].
  prog_simpl_in Hrun.
  set (types := answer env (anyE (Ext LnGetSupportedNIP47Methods) :: trace w1) (list string)
                  LnGetSupportedNIP47NotificationTypes) in *.
  set (scopes' := if (0 <? length types)%nat then (scopes ++ [NOTIFICATIONS_SCOPE])%list
                  else scopes) in *.
  destruct (answer env _ (option error)
              (DbCreateApp ALBY_ACCOUNT_APP_NAME pubkey budget renewal scopes' false))
    as [e |]; [discriminate |].
  prog_simpl_in Hrun. rewrite run_bind in Hrun.
  match type of Hrun with
  | context [run env (activateAlbyAccountNWCNode env) ?x] => set (w2 := x) in Hrun
  end.
  destruct (run env (activateAlbyAccountNWCNode env) w2)
    as [[e |] w3 | v w3 | w3] eqn:Hactivate; try discriminate.
  prog_simpl_in Hrun. injection Hrun as <-.
  destruct (activateAlbyAccountNWCNode_returned env w2 w3 Hactivate)
    as (r2 & wf2 & res2 & trf2 & _ & Hanswer2 & Hstatus2 & Htrf2 & Hnone2 & Hfinal2).
  cbv zeta in Hanswer2, Hfinal2.
  set (put := activate_request env) in *.
  set (tr2 := (anyE (Log LInfo "Activated alby nwc node successfully" None)
               :: anyE (Ext (HttpDo (fetched_token r2) None put)) :: trf2)).
  assert (trace w3 = (tr2 ++ trace w2)%list) as Htr2
    by (rewrite Hfinal2, Htrf2; reflexivity).
  destruct (emits_returns env _ _ w2 _ w3 (activateAlbyAccountNWCNode_no_app env) Hactivate)
    as (tr2' & Htr2' & Happ2).
  assert (tr2' = tr2) as -> by (rewrite Htr2 in Htr2'; apply app_inv_tail in Htr2'; congruence).
  apply (omap_none app_of) in Happ2. fold (created_apps tr2) in Happ2.
  set (mid := [anyE (Log LInfo "Created alby app connection" None);
               anyE (Ext (DbCreateApp ALBY_ACCOUNT_APP_NAME pubkey budget renewal
                            scopes' false));
               anyE (Ext LnGetSupportedNIP47NotificationTypes);
               anyE (Ext LnGetSupportedNIP47Methods)]).
  assert (trace w2 = (mid ++ trace w1)%list) as Hmid by reflexivity.
  exists (fetched_token r1), (fetched_token r2), walletPubkey, res1, res2, pubkey,
    methods, scopes, types.
  cbv zeta.
  rewrite (performed_app w (Returns (None : option error) w3)
             (tr2 ++ mid ++ tr1 ++ tr0))
    by (cbn [final_world]; rewrite Htr2, Hmid, Htr1, Htr0, <- !app_assoc; reflexivity).
  assert (trace (after_fetch r1 wf1) = (trf1 ++ tr0 ++ trace w)%list) as Hh1
    by (rewrite Htrf1, Htr0; reflexivity).
  assert (trace w1 = (tr1 ++ tr0 ++ trace w)%list) as Hh2
    by (rewrite Htr1, Htr0; reflexivity).
  assert (trace (after_fetch r2 wf2) = (trf2 ++ mid ++ tr1 ++ tr0 ++ trace w)%list) as Hh3
    by (rewrite Htrf2, Hmid, Hh2; reflexivity).
  split.
  { apply asked_before, asked_before, asked_after.
    exists [anyE (Log LInfo "Created alby nwc node successfully" None);
            anyE (Ext (HttpDo (fetched_token r1) None post))], trf1.
    split; [reflexivity |]. unfold walletPubkey. rewrite Hh1. reflexivity. }
  split.
  { apply asked_before, asked_before, asked_after.
    exists [anyE (Log LInfo "Created alby nwc node successfully" None)],
      (anyE (Ext KeysGetNostrPublicKey) :: trf1).
    split; [reflexivity |]. rewrite <- Hanswer1. cbn [record trace app].
    rewrite Hh1. reflexivity. }
  split; [exact Hstatus1 |]. split; [exact Hdecode1 |].
  split.
  { apply asked_before.
    exists [anyE (Log LInfo "Created alby app connection" None);
            anyE (Ext (DbCreateApp ALBY_ACCOUNT_APP_NAME pubkey budget renewal
                         scopes' false));
            anyE (Ext LnGetSupportedNIP47NotificationTypes)], (tr1 ++ tr0)%list.
    split; [reflexivity |]. unfold methods. rewrite Hh2, <- app_assoc. reflexivity. }
  split; [exact Hscopes |].
  split.
  { apply asked_before.
    exists [anyE (Log LInfo "Created alby app connection" None);
            anyE (Ext (DbCreateApp ALBY_ACCOUNT_APP_NAME pubkey budget renewal
                         scopes' false))],
      (anyE (Ext LnGetSupportedNIP47Methods) :: tr1 ++ tr0)%list.
    split; [reflexivity |]. unfold types. rewrite Hh2. cbn [app].
    rewrite <- app_assoc. reflexivity. }
  split.
  { exists [anyE (Log LInfo "Activated alby nwc node successfully" None)],
      (trf2 ++ mid ++ tr1 ++ tr0)%list.
    split; [reflexivity |]. rewrite <- Hanswer2, Hh3, <- !app_assoc. reflexivity. }
  split; [exact Hstatus2 |].
  split.
  - rewrite !http_requests_app. unfold tr2, tr1, mid.
    cbn [http_requests omap list_omap http_of].
    fold (http_requests trf2). fold (http_requests trf1).
    rewrite Hnone2, Hnone1, Hhttp0. reflexivity.
  - rewrite !created_apps_app, Happ2, Happ1, Happ0. reflexivity.
Qed.

(** X26 on a hub whose provider answers every request with 200 and the
    body [user2], and whose node supports no method. *)
Lemma LinkAccount_linked_witness :
  exists token1 token2 walletPubkey res1 res2 pubkey methods scopes types,
    let tr :=
      performed relay_world
        (Returns (None : option error)
           (final_world
              (run relink_env (LinkAccount relink_env 1000000 BUDGET_RENEWAL_MONTHLY)
                 relay_world))) in
    let post := register_request relink_env walletPubkey in
    let put := activate_request relink_env in
    asked relink_env (trace relay_world) tr KeysGetNostrPublicKey walletPubkey /\
    asked relink_env (trace relay_world) tr (HttpDo token1 None post) (Ok res1) /\
    StatusCode res1 < 300 /\
    decodeBody (json_CreateNWCNodeResponse relink_env) res1 = Ok pubkey /\
    asked relink_env (trace relay_world) tr LnGetSupportedNIP47Methods methods /\
    permissions_RequestMethodsToScopes relink_env methods = Ok scopes /\
    asked relink_env (trace relay_world) tr LnGetSupportedNIP47NotificationTypes types /\
    asked relink_env (trace relay_world) tr (HttpDo token2 None put) (Ok res2) /\
    StatusCode res2 < 300 /\
    http_requests tr = [(token2, None, put); (token1, None, post)] /\
    created_apps tr
    = [(ALBY_ACCOUNT_APP_NAME, pubkey, 1000000, BUDGET_RENEWAL_MONTHLY,
        if (0 <? length types)%nat then (scopes ++ [NOTIFICATIONS_SCOPE])%list else scopes,
        false)].
Proof.
  apply (LinkAccount_linked relink_env relay_world). vm_compute. reflexivity.
Defined.

(** The run of [destroyAlbyAccountNWCNode] that ends without an error. *)
Lemma destroyAlbyAccountNWCNode_returned env w w' :
  run env (destroyAlbyAccountNWCNode env) w = Returns None w' ->
  exists token res tr,
    StatusCode res < 300 /\
    trace w' = (tr ++ trace w)%list /\
    http_requests tr = [(token, None, provisioning_request env "DELETE" "/internal/nwcs" NoBody)].
Proof.
  intros Hrun. unfold destroyAlbyAccountNWCNode in Hrun.
  apply provisioning_prefix in Hrun as (r & w1 & tr & _ & Htr & Hnone & Hrun).
  unfold destroyAlbyAccountNWCNode_request, NewRequest in Hrun.
  destruct (http_NewRequest env "DELETE" (AlbyAPIURL env +:+ "/internal/nwcs"));
    [discriminate |].
  prog_simpl_in Hrun.
  set (req := setDefaultRequestHeaders env _) in Hrun.
  destruct (answer env _ (result Response) (HttpDo (fetched_token r) None req)) as [res | e];
    [| discriminate].
  destruct (Z.leb_spec 300 (StatusCode res)) as [Hbad | Hgood]; [discriminate |].
  prog_simpl_in Hrun. injection Hrun as <-.
  exists (fetched_token r), res.
  exists (anyE (Log LInfo "Removed alby account nwc node successfully" None)
          :: anyE (Ext (HttpDo (fetched_token r) None req)) :: tr).
  split; [exact Hgood |].
  split; [cbn [trace record app]; rewrite Htr; reflexivity |].
  cbn [http_requests omap list_omap http_of]. fold (http_requests tr).
  rewrite Hnone. reflexivity.
Qed.

Lemma destroyAlbyAccountNWCNode_sends env :
  sends (fun _ timeout req =>
           timeout = None /\
           req = provisioning_request env "DELETE" "/internal/nwcs" NoBody)
    1 (destroyAlbyAccountNWCNode env).
Proof.
  unfold destroyAlbyAccountNWCNode, destroyAlbyAccountNWCNode_request, NewRequest.
  apply (sends_bind _ 0 1); [apply fetchUserToken_sends |].
  intros r. apply (sends_bind _ 0 1); [destruct r; sends_auto |]. intros _.
  destruct (http_NewRequest env "DELETE" (AlbyAPIURL env +:+ "/internal/nwcs"));
    [sends_auto |].
  sends_auto. split; reflexivity.
Qed.

(** X27.  [UnlinkAccount] makes at most one HTTP request, with no timeout:
    the DELETE of [/internal/nwcs]. *)
Theorem UnlinkAccount_one_request (env : Env) (w : World) :
  requests_within
    (fun _ timeout req =>
       timeout = None /\
       req = provisioning_request env "DELETE" "/internal/nwcs" NoBody)
    1 w (run env (UnlinkAccount env) w).
Proof.
  apply sends_run. unfold UnlinkAccount, deleteAlbyAccountApps.
  apply (sends_bind _ 1 0); [apply destroyAlbyAccountNWCNode_sends |].
  intros err. apply (sends_bind _ 0 0); [destruct err; sends_auto |]. intros _.
  sends_auto.
Qed.

(** ** The callback whose code is refused *)

(** X28.  When the exchange of the authorization code fails,
    [CallbackHandler] returns the error of the exchange and nothing else
    has happened: the store, a session it may hold included, and the mutex
    are as they were, and the only effects are the exchange and one log
    line. *)
Theorem CallbackHandler_exchange_failed
    (env : Env) (w : World) (code : string) (e : error) :
  answer env (trace w) (result Token) (OAuthExchange code) = Err e ->
  exists w',
    run env (CallbackHandler env code) w = Returns (Some e) w' /\
    cfg w' = cfg w /\ tokenMutex w' = tokenMutex w /\
    performed w (Returns (Some e) w')
    = [anyE (Log LError "Failed to exchange token" (Some e));
       anyE (Ext (OAuthExchange code))].
Proof.
  intros Hexchange. unfold CallbackHandler. prog_simpl. rewrite Hexchange. prog_simpl.
  eexists. split; [reflexivity |]. split; [reflexivity |]. split; [reflexivity |].
  apply performed_app. reflexivity.
Qed.

(** X28 on a linked hub whose provider refuses the code: the session
    stays. *)
Lemma CallbackHandler_exchange_failed_witness :
  exists w',
    run relay_env (CallbackHandler relay_env "code") relay_world
    = Returns (Some (unavailable "oauth2")) w' /\
    cfg w' = cfg relay_world /\ tokenMutex w' = tokenMutex relay_world /\
    performed relay_world (Returns (Some (unavailable "oauth2")) w')
    = [anyE (Log LError "Failed to exchange token" (Some (unavailable "oauth2")));
       anyE (Ext (OAuthExchange "code"))].
Proof.
  apply (CallbackHandler_exchange_failed relay_env relay_world "code"). reflexivity.
Defined.

(** ** The relay of the payment events *)

Lemma mergeGlobalProperties_silent R (entries : list (string * JSON)) :
  forall properties, sends R 0 (mergeGlobalProperties entries properties).
Proof.
  induction entries as [| [k v] rest IH]; intros properties; cbn [mergeGlobalProperties].
  - constructor.
  - destruct (properties !! k).
    + cbv delta [logError vis] beta. cbn [mbind Prog_bind bind].
      apply sends_other; [reflexivity |]. intros _. apply IH.
    + apply IH.
Qed.

(** With a token and properties that encode to an object, the event goes
    out: one POST to [/events] of the name and of the properties, merged
    with the global ones. *)
Lemma relayEvent_relays env event globalProperties w w1 token encoded own :
  run env fetchUserToken w = Returns (Ok token) w1 ->
  encodeProperties (EventProperties event) = Ok encoded ->
  unmarshalProperties encoded = Ok (Some own) ->
  http_NewRequest env "POST" (AlbyAPIURL env +:+ "/events") = None ->
  exists w' tr,
    run env (relayEvent env event globalProperties) w = Returns tt w' /\
    trace w' = (tr ++ trace w)%list /\
    http_requests tr
    = [(token, None,
        post_to env "/events" (EventBody (EventName event) (own ∪ globalProperties)))].
Proof.
  intros Hfetch Hencoded Hdecoded Hnew.
  destruct (fetchUserToken_quiet env w) as (tr0 & Htr0 & Hnone0 & _).
  rewrite Hfetch in Htr0. cbn [final_world] in Htr0.
  unfold relayEvent. rewrite run_bind, Hfetch, Hencoded, Hdecoded. rewrite run_bind.
  destruct (mergeGlobalProperties_run env (map_to_list globalProperties)
              (NoDup_fst_map_to_list globalProperties) own w1) as (w2 & Hmerge & _).
  destruct (sends_trace env (fun _ _ _ => True) 0 _
              (mergeGlobalProperties_silent _ (map_to_list globalProperties) own) w1)
    as (tr1 & Htr1 & Hlen1 & _).
  rewrite Hmerge in Htr1. cbn [final_world] in Htr1.
  assert (http_requests tr1 = []) as Hnone1
    by (destruct (http_requests tr1); [reflexivity | cbn [length] in Hlen1; lia]).
  rewrite Hmerge, list_to_map_to_list. unfold NewRequest. rewrite Hnew. prog_simpl.
  change (setDefaultRequestHeaders env _)
    with (post_to env "/events" (EventBody (EventName event) (own ∪ globalProperties))).
  set (req := post_to env "/events" (EventBody (EventName event) (own ∪ globalProperties))).
  assert (forall logs,
            http_requests logs = [] ->
            http_requests (logs ++ anyE (Ext (HttpDo token None req)) :: tr1 ++ tr0)
            = [(token, None, req)]) as Hend.
  { intros logs Hlogs. rewrite http_requests_app, Hlogs. cbn [app].
    cbn [http_requests omap list_omap http_of]. fold (http_requests (tr1 ++ tr0)).
    rewrite http_requests_app, Hnone1, Hnone0. reflexivity. }
  destruct (answer env (trace w2) (result Response) (HttpDo token None req)) as [resp | e].
  - destruct (300 <=? StatusCode resp); prog_simpl.
    + eexists _, (_ :: _ :: tr1 ++ tr0)%list. split; [reflexivity |].
      split; [cbn [trace record app]; rewrite Htr1, Htr0, <- app_assoc; reflexivity |].
      apply (Hend [_]). reflexivity.
    + eexists _, (_ :: tr1 ++ tr0)%list. split; [reflexivity |].
      split; [cbn [trace record app]; rewrite Htr1, Htr0, <- app_assoc; reflexivity |].
      apply (Hend []). reflexivity.
  - prog_simpl. eexists _, (_ :: _ :: tr1 ++ tr0)%list. split; [reflexivity |].
    split; [cbn [trace record app]; rewrite Htr1, Htr0, <- app_assoc; reflexivity |].
    apply (Hend [_]). reflexivity.
Qed.

(** What the redaction makes of a payment event. *)
Lemma redacted_encoded name t settledAt :
  payment_event name ->
  exists encoded,
    encodeProperties
      (if decide (name = "nwc_payment_received")
       then paymentReceivedEventProperties (PaymentHash t)
       else if decide (name = "nwc_payment_sent")
            then paymentSentEventProperties (PaymentHash t)
                   (wrap_uint64 (wrap_int64 (time.Unix settledAt - time.Unix (CreatedAt t))))
            else paymentFailedEventProperties (PaymentHash t) (FailureReason t))
    = Ok encoded /\
    unmarshalProperties encoded = Ok (Some (sent_properties name t settledAt)).
Proof.
  intros [-> | [-> | ->]]; eexists; (split; [reflexivity |]).
  - reflexivity.
  - cbn [unmarshalProperties map reverse rev_append generic].
    rewrite wrap_uint64_int64.
    destruct (Z.ltb_spec
                (wrap_uint64 (time.Unix settledAt - time.Unix (CreatedAt t))) 0) as [Hneg | _];
      [pose proof (wrap_uint64_nonneg (time.Unix settledAt - time.Unix (CreatedAt t))); lia |].
    reflexivity.
  - reflexivity.
Qed.

Ltac redact_simpl :=
  repeat first
    [ rewrite decide_True by reflexivity
    | rewrite decide_False by discriminate
    | progress cbn [EventName EventProperties assertTransaction deref
                    mbind Prog_bind bind]
    | progress cbv iota ].

Ltac relay_with Hfetch Hencoded Hdecoded Hnew :=
  match goal with
  | |- context [relayEvent ?env ?ev ?globals] =>
      exact (relayEvent_relays env ev globals _ _ _ _ _ Hfetch Hencoded Hdecoded Hnew)
  end.

(** The run of [ConsumeEvent] on a payment event that has its transaction,
    on a hub that is linked and relays events. *)
Lemma ConsumeEvent_relays env w w1 event globalProperties t settledAt accessToken token :
  payment_event (EventName event) ->
  EventProperties event = PropsTransaction (Some t) ->
  (EventName event = "nwc_payment_sent" -> SettledAt t = Some settledAt) ->
  Config_Get (cfg w) accessTokenKey "" = Ok accessToken -> accessToken <> "" ->
  LogEvents env = true ->
  run env fetchUserToken (record w (CfgGet accessTokenKey)) = Returns (Ok token) w1 ->
  http_NewRequest env "POST" (AlbyAPIURL env +:+ "/events") = None ->
  exists w',
    run env (ConsumeEvent env (Some event) globalProperties) w = Returns tt w' /\
    http_requests (performed w (Returns tt w'))
    = [(token, None,
        post_to env "/events"
          (EventBody (EventName event)
             (sent_properties (EventName event) t settledAt ∪ globalProperties)))].
Proof.
  intros Hpayment Hprops Hsettled Haccess Hset Hlog Hfetch Hnew.
  destruct event as [name props]. cbn [EventName EventProperties] in *. subst props.
  destruct (redacted_encoded name t settledAt Hpayment) as (encoded & Hencoded & Hdecoded).
  assert (exists w' tr,
            run env (ConsumeEvent_body env
                       (Some {| EventName := name; EventProperties := PropsTransaction (Some t) |})
                       globalProperties) w = Returns tt w' /\
            trace w' = (tr ++ trace (record w (CfgGet accessTokenKey)))%list /\
            http_requests tr
            = [(token, None,
                post_to env "/events"
                  (EventBody name (sent_properties name t settledAt ∪ globalProperties)))])
    as (w' & tr & Hrun & Htr & Hhttp).
  { unfold ConsumeEvent_body. prog_simpl. rewrite Haccess.
    rewrite decide_False by exact Hset. rewrite Hlog. cbn [negb].
    cbn [deref mbind Prog_bind bind EventName].
    unfold redactReceived, redactSent, redactFailed.
    destruct Hpayment as [-> | [-> | ->]].
    - change (strings.HasPrefix "nwc_payment_received" "nwc_lnclient_") with false.
      redact_simpl.
      relay_with Hfetch Hencoded Hdecoded Hnew.
    - change (strings.HasPrefix "nwc_payment_sent" "nwc_lnclient_") with false.
      redact_simpl. rewrite (Hsettled eq_refl). redact_simpl.
      relay_with Hfetch Hencoded Hdecoded Hnew.
    - change (strings.HasPrefix "nwc_payment_failed" "nwc_lnclient_") with false.
      redact_simpl.
      relay_with Hfetch Hencoded Hdecoded Hnew. }
  exists w'. unfold ConsumeEvent. rewrite run_recover, Hrun. split; [reflexivity |].
  rewrite (performed_app w _ (tr ++ [anyE (CfgGet accessTokenKey)]))
    by (cbn [final_world]; rewrite Htr, <- app_assoc; reflexivity).
  rewrite http_requests_app, Hhttp. reflexivity.
Qed.

(** C6 (amended).  For a received, sent or failed payment event:

    - every HTTP request [ConsumeEvent] performs is the POST to [/events] of
      the event name with the properties [sent_properties] of the event's
      transaction, joined with the global properties for the keys these
      lack;
    - on a hub that is linked and relays events, when the event has its
      transaction (settled, for a sent payment), the token fetch gives a
      token and the request can be built, that request is performed, and it
      is the only one;
    - these properties are the reduced ones, received: the payment hash;
      sent: the payment hash and the duration [settledAt - createdAt] in
      seconds; failed: the payment hash and the reason, provided that for a
      sent payment the difference of the seconds is in [0, 2^53).  The code
      sends [uint64(settledAt.Unix() - createdAt.Unix())] through a
      [float64].

    Nothing else of the transaction is in a request. *)
Theorem payment_events_sent_redacted
    (env : Env) (w : World) (event : Event) (globalProperties : gmap string JSON) :
  payment_event (EventName event) ->
  (forall token timeout req,
     In (anyE (Ext (HttpDo token timeout req)))
        (performed w (run env (ConsumeEvent env (Some event) globalProperties) w)) ->
     exists t settledAt,
       EventProperties event = PropsTransaction (Some t) /\
       (EventName event = "nwc_payment_sent" -> SettledAt t = Some settledAt) /\
       timeout = None /\
       req = post_to env "/events"
               (EventBody (EventName event)
                  (sent_properties (EventName event) t settledAt ∪ globalProperties))) /\
  (forall t settledAt accessToken token w1,
     EventProperties event = PropsTransaction (Some t) ->
     (EventName event = "nwc_payment_sent" -> SettledAt t = Some settledAt) ->
     Config_Get (cfg w) accessTokenKey "" = Ok accessToken -> accessToken <> "" ->
     LogEvents env = true ->
     run env fetchUserToken (record w (CfgGet accessTokenKey)) = Returns (Ok token) w1 ->
     http_NewRequest env "POST" (AlbyAPIURL env +:+ "/events") = None ->
     http_requests (performed w (run env (ConsumeEvent env (Some event) globalProperties) w))
     = [(token, None,
         post_to env "/events"
           (EventBody (EventName event)
              (sent_properties (EventName event) t settledAt ∪ globalProperties)))]) /\
  (forall t settledAt,
     (EventName event = "nwc_payment_sent" ->
      0 <= time.Unix settledAt - time.Unix (CreatedAt t) < 2 ^ 53) ->
     sent_properties (EventName event) t settledAt
     = reduced_properties (EventName event) t settledAt).
Proof.
  intros Hpayment. split; [| split].
  - intros token timeout req Hperformed.
    pose proof (sends_run env _ 1 _ w (ConsumeEvent_sends env event globalProperties))
      as [_ Hshape].
    assert (In (token, timeout, req)
              (http_requests
                 (performed w (run env (ConsumeEvent env (Some event) globalProperties) w))))
      as Hin.
    { unfold http_requests. apply list_elem_of_In, list_elem_of_omap.
      exists (anyE (Ext (HttpDo token timeout req))).
      split; [apply list_elem_of_In; exact Hperformed | reflexivity]. }
    rewrite Forall_forall in Hshape.
    apply list_elem_of_In in Hin. apply Hshape in Hin as [Htimeout _].
    cbn [fst snd] in Htimeout.
    destruct (ConsumeEvent_only_redacted env w event globalProperties token timeout req
                Hpayment Hperformed) as (t & settledAt & Hprops & Hsettled & Hreq & _).
    exists t, settledAt. auto.
  - intros t settledAt accessToken token w1 Hprops Hsettled Haccess Hset Hlog Hfetch Hnew.
    destruct (ConsumeEvent_relays env w w1 event globalProperties t settledAt accessToken
                token Hpayment Hprops Hsettled Haccess Hset Hlog Hfetch Hnew)
      as (w' & Hrun & Hhttp).
    rewrite Hrun. exact Hhttp.
  - intros t settledAt Hrange. unfold sent_properties, reduced_properties.
    destruct (decide (EventName event = "nwc_payment_received")); [reflexivity |].
    destruct (decide (EventName event = "nwc_payment_sent")) as [Hsent | _]; [| reflexivity].
    specialize (Hrange Hsent).
    rewrite wrap_uint64_small
      by (change (2 ^ 53) with 9007199254740992 in Hrange;
          change (2 ^ 64) with 18446744073709551616; lia).
    rewrite json_number_small by exact Hrange. reflexivity.
Qed.

(** C6 at a failed payment and at a payment settled 30 seconds after its
    creation, on a linked hub: each is relayed, the first with its hash and
    the reason, the second with its hash and the duration 30, both with the
    global version and with neither the preimage nor the amount. *)
Lemma payment_events_sent_redacted_witness :
  (payment_event (EventName failed_event) /\
   http_requests
     (performed relay_world
        (run relay_env (ConsumeEvent relay_env (Some failed_event) version_properties)
           relay_world))
   = [(Some (session_of "access1" "refresh1" 4600), None, failed_request)]) /\
  (payment_event (EventName sent_event) /\
   http_requests
     (performed relay_world
        (run relay_env (ConsumeEvent relay_env (Some sent_event) version_properties)
           relay_world))
   = [(Some (session_of "access1" "refresh1" 4600), None, sent_request)]).
Proof.
  assert (payment_event (EventName failed_event)) as Hfailed by (right; right; reflexivity).
  assert (payment_event (EventName sent_event)) as Hsent by (right; left; reflexivity).
  split; (split; [assumption |]).
  - destruct (payment_events_sent_redacted relay_env relay_world failed_event
                version_properties Hfailed) as (_ & Hrelayed & Hreduced).
    rewrite (Hrelayed failed_transaction 0 "access1"
               (Some (session_of "access1" "refresh1" 4600))
               (final_world
                  (run relay_env fetchUserToken (record relay_world (CfgGet accessTokenKey)))));
      [| reflexivity | discriminate | reflexivity | discriminate | reflexivity
       | vm_compute; reflexivity | reflexivity].
    rewrite Hreduced by discriminate. vm_compute. reflexivity.
  - destruct (payment_events_sent_redacted relay_env relay_world sent_event
                version_properties Hsent) as (_ & Hrelayed & Hreduced).
    rewrite (Hrelayed example_transaction (time.FromUnix 130 + 250000000) "access1"
               (Some (session_of "access1" "refresh1" 4600))
               (final_world
                  (run relay_env fetchUserToken (record relay_world (CfgGet accessTokenKey)))));
      [| reflexivity | reflexivity | reflexivity | discriminate | reflexivity
       | vm_compute; reflexivity | reflexivity].
    rewrite Hreduced
      by (intros _; vm_compute; split; [intros H; discriminate H | reflexivity]).
    vm_compute. reflexivity.
Defined.

(** C6 as stated fails.  The record of a sent payment
    says it was settled 30 seconds before it was created: the difference of
    the seconds is -30, and the duration that goes out is that number as a
    [uint64], [2^64 - 30], as the [float64] nearest to it is written. *)
Lemma payment_sent_duration_wraps :
  payment_event (EventName reversed_event) /\
  time.Unix (time.FromUnix 100) - time.Unix (CreatedAt reversed_transaction) = -30 /\
  http_requests
    (performed relay_world
       (run relay_env (ConsumeEvent relay_env (Some reversed_event) version_properties)
          relay_world))
  = [(Some (session_of "access1" "refresh1" 4600), None, reversed_request)].
Proof.
  split; [right; left; reflexivity |].
  split; [vm_compute; reflexivity |].
  vm_compute. reflexivity.
Qed.
